(** * An incremental HTTP/1.x parser: shallow embedding and properties

    The development follows the TypeScript sources file by file:
    - [JS]       the parts of the JavaScript platform the sources call
                 (strings of UTF-16 code units, [trim], [split], [Number],
                 [parseInt], [TextDecoder], [TextEncoder], [Map]);
    - [Errors]   src/errors.ts   (validators, [parseContentLength], ...);
    - [Request]  src/request.ts  ([parseRequestLine]);
    - [Response] src/response.ts ([parseStatusLine]);
    - [Headers]  src/headers.ts  ([HeadersMap], [parseHeaders]);
    - [Parser]   src/parser.ts   ([HttpParser]).

    A [Uint8Array] is a [list byte]; a JavaScript string is the list of its
    UTF-16 code units.  Lengths and offsets are natural numbers, limits and
    differences of lengths are integers.  Two things the sources take from
    their environment are parameters of the model: the Unicode case mapping
    [toLowerCase], and the clock-and-random part of the keys that
    [HeadersMap.append] draws.  The [while] loop of [parse] runs on a bound
    derived from the unread bytes, which [LoopFacts] shows is never reached.

    After the model come the notions the properties are stated with, then
    the facts, and last the runs on concrete inputs. *)

From Stdlib Require Import ZArith NArith List Bool Lia Sorting.Permutation.
From Stdlib Require Import Strings.String Strings.Ascii Strings.Byte.
Import ListNotations.

Set Implicit Arguments.

(* [length] is the length of a list throughout; [len] is that length as
   an integer. *)
Abbreviation length := List.length (only parsing).

Definition len {A} (l : list A) : Z := Z.of_nat (List.length l).

(* ===================================================================== *)
(** * The JavaScript platform *)
(* ===================================================================== *)

Module JS.

Definition bytes := list byte.

(** A string value: its UTF-16 code units. *)
Definition jsstring := list N.

(** String literal (ASCII) as a JavaScript string, and as bytes. *)
Definition lit (s : string) : jsstring := map Byte.to_N (list_byte_of_string s).
Definition blit (s : string) : bytes := list_byte_of_string s.

Definition CR : byte := x0d.
Definition LF : byte := x0a.
Definition SP : byte := x20.
Definition CRLF : bytes := [CR; LF].

Definition jseqb (a b : jsstring) : bool :=
  if list_eq_dec N.eq_dec a b then true else false.

(** Truthiness of a string: non-empty. *)
Definition truthy (s : jsstring) : bool :=
  match s with [] => false | _ => true end.

(** ** Indexing and slicing of arrays *)

(** [a[i] === b]; an index past the end reads [undefined]. *)
Definition byte_is (a : bytes) (i : nat) (b : byte) : bool :=
  match nth_error a i with
  | Some x => Byte.eqb x b
  | None => false
  end.

(** [a.slice(s, e)] and [a.slice(s)] for non-negative [s], [e]. *)
Definition slice {A} (a : list A) (s e : nat) : list A := firstn (e - s) (skipn s a).
Definition slice_from {A} (a : list A) (s : nat) : list A := skipn s a.

(** ** String.prototype functions *)

(** White space and line terminators, as stripped by [trim]. *)
Definition isWhiteSpace (c : N) : bool :=
  ((9 <=? c) && (c <=? 13) || (c =? 32) || (c =? 0xA0) || (c =? 0x1680)
   || (0x2000 <=? c) && (c <=? 0x200A) || (c =? 0x2028) || (c =? 0x2029)
   || (c =? 0x202F) || (c =? 0x205F) || (c =? 0x3000) || (c =? 0xFEFF))%N.

Fixpoint trimStart (s : jsstring) : jsstring :=
  match s with
  | c :: t => if isWhiteSpace c then trimStart t else s
  | [] => []
  end.

Definition trimEnd (s : jsstring) : jsstring := rev (trimStart (rev s)).

Definition trim (s : jsstring) : jsstring := trimEnd (trimStart s).

Fixpoint startsWith (s p : jsstring) : bool :=
  match p, s with
  | [], _ => true
  | _ :: _, [] => false
  | a :: p', b :: s' => (a =? b)%N && startsWith s' p'
  end.

Fixpoint includes (s p : jsstring) : bool :=
  startsWith s p || match s with [] => false | _ :: t => includes t p end.

(** [s.indexOf(c)] for a one-unit string [c]; [None] is [-1]. *)
Fixpoint indexOf (s : jsstring) (c : N) : option nat :=
  match s with
  | [] => None
  | x :: t => if (x =? c)%N then Some 0
              else match indexOf t c with Some i => Some (S i) | None => None end
  end.

(** [s.split("\r\n")]. [cur] holds the current piece, reversed. *)
Fixpoint split_crlf_from (cur s : jsstring) : list jsstring :=
  match s with
  | [] => [rev cur]
  | c :: t =>
      match t with
      | d :: t' =>
          if ((c =? 13) && (d =? 10))%N then rev cur :: split_crlf_from [] t'
          else split_crlf_from (c :: cur) t
      | [] => [rev (c :: cur)]
      end
  end.

Definition split_crlf (s : jsstring) : list jsstring := split_crlf_from [] s.

(** [s.split(";")[0]]: the part before the first semicolon. *)
Fixpoint before_semicolon (s : jsstring) : jsstring :=
  match s with
  | [] => []
  | c :: t => if (c =? 59)%N then [] else c :: before_semicolon t
  end.

(** [parts.join(sep)]. *)
Fixpoint join (sep : jsstring) (parts : list jsstring) : jsstring :=
  match parts with
  | [] => []
  | [x] => x
  | x :: rest => x ++ sep ++ join sep rest
  end.

(** [String.prototype.toLowerCase] on ASCII letters; other code units are
    left as they are.  The parser is parameterised by the case mapping, and
    this one instantiates it wherever a concrete run is evaluated. *)
Definition asciiToLowerCase (s : jsstring) : jsstring :=
  map (fun c => if ((65 <=? c) && (c <=? 90))%N then (c + 32)%N else c) s.

(** ** Numbers

    A number is NaN, an infinity, or a finite binary64 value; a finite value
    that is not an integer is kept as [q / 2^k]. *)

Inductive number :=
| NaN
| Infinity (neg : bool)
| Integer (neg : bool) (n : N)              (* [Integer true 0] is -0 *)
| Fraction (neg : bool) (q : N) (k : Z).    (* q / 2^k, not an integer *)

Definition isNaN (x : number) : bool :=
  match x with NaN => true | _ => false end.

Definition isInteger (x : number) : bool :=
  match x with Integer _ _ => true | _ => false end.

Definition signed (neg : bool) (n : N) : Z :=
  if neg then (- Z.of_N n)%Z else Z.of_N n.

(** [x < z], [x > z], [x >= z], [x <= z] for an integer [z]; every
    comparison with NaN is false. *)
Definition ltZ (x : number) (z : Z) : bool :=
  match x with
  | NaN => false
  | Infinity neg => neg
  | Integer neg n => (signed neg n <? z)%Z
  | Fraction neg q k => (signed neg q <? z * 2 ^ k)%Z
  end.

Definition gtZ (x : number) (z : Z) : bool :=
  match x with
  | NaN => false
  | Infinity neg => negb neg
  | Integer neg n => (z <? signed neg n)%Z
  | Fraction neg q k => (z * 2 ^ k <? signed neg q)%Z
  end.

Definition geZ (x : number) (z : Z) : bool :=
  negb (isNaN x) && negb (ltZ x z).

Definition leZ (x : number) (z : Z) : bool :=
  negb (isNaN x) && negb (gtZ x z).

(** Value of an integer-valued number (-0 is 0). *)
Definition toZ (x : number) : Z :=
  match x with
  | Integer neg n => signed neg n
  | _ => 0%Z
  end.

(** The IEEE 754 binary64 value nearest to [num / den] (ties to even), for
    [0 <= num] and [0 < den]: 53 significant bits, least exponent -1074,
    overflow to infinity from [2^1024]. *)
Definition roundToDouble (neg : bool) (num den : Z) : number :=
  (if num =? 0 then Integer neg 0 else
   let t0 := Z.log2 num - Z.log2 den in
   let ge := if 0 <=? t0 then den * 2 ^ t0 <=? num else den <=? num * 2 ^ (- t0) in
   let t := if ge then t0 else t0 - 1 in
   let k := Z.max (t - 52) (-1074) in
   let n' := if 0 <=? k then num else num * 2 ^ (- k) in
   let d' := if 0 <=? k then den * 2 ^ k else den in
   let q := n' / d' in
   let r := n' mod d' in
   let q' := if (d' <? 2 * r) || ((d' =? 2 * r) && Z.odd q) then q + 1 else q in
   if 0 <=? k then
     if 2 ^ 1024 <=? q' * 2 ^ k then Infinity neg
     else Integer neg (Z.to_N (q' * 2 ^ k))
   else
     if q' mod 2 ^ (- k) =? 0 then Integer neg (Z.to_N (q' / 2 ^ (- k)))
     else Fraction neg (Z.to_N q') (- k))%Z.

Definition digitVal (radix c : N) : option N :=
  (let d := if (48 <=? c) && (c <=? 57) then Some (c - 48)
            else if (97 <=? c) && (c <=? 122) then Some (c - 87)
            else if (65 <=? c) && (c <=? 90) then Some (c - 55)
            else None in
   match d with
   | Some v => if v <? radix then Some v else None
   | None => None
   end)%N.

(** The longest prefix of [s] made of digits in [radix]: the value it
    denotes on top of [acc], the number of digits, and the rest. *)
Fixpoint digits (radix : N) (s : jsstring) (acc : N) (n : nat)
  : N * nat * jsstring :=
  match s with
  | c :: t =>
      match digitVal radix c with
      | Some v => digits radix t (acc * radix + v)%N (S n)
      | None => (acc, n, s)
      end
  | [] => (acc, n, [])
  end.

(** A leading sign and what follows it. *)
Definition splitSign (s : jsstring) : bool * jsstring :=
  match s with
  | c :: t => if (c =? 43)%N then (false, t)
              else if (c =? 45)%N then (true, t)
              else (false, s)
  | [] => (false, [])
  end.

(** [m * 10^e] as a number. *)
Definition decimalValue (neg : bool) (m : N) (e : Z) : number :=
  (if 0 <=? e then roundToDouble neg (Z.of_N m * 10 ^ e) 1
   else roundToDouble neg (Z.of_N m) (10 ^ (- e)))%Z.

(** [0x], [0o], [0b] literals (no sign allowed). *)
Definition nonDecimalLiteral (s : jsstring) : option number :=
  match s with
  | z :: p :: ds =>
      let radix :=
        (if negb (z =? 48) then None
         else if (p =? 120) || (p =? 88) then Some 16
         else if (p =? 111) || (p =? 79) then Some 8
         else if (p =? 98) || (p =? 66) then Some 2
         else None)%N in
      match radix with
      | Some r =>
          match digits r ds 0 0 with
          | (v, S _, []) => Some (roundToDouble false (Z.of_N v) 1)
          | _ => None
          end
      | None => None
      end
  | _ => None
  end.

(** What follows the digits of a decimal literal with mantissa [m] and [nf]
    fraction digits: nothing, or an exponent part. *)
Definition exponentPart (neg : bool) (m : N) (nf : nat) (r : jsstring) : number :=
  match r with
  | [] => decimalValue neg m (- Z.of_nat nf)
  | c :: t =>
      if ((c =? 101) || (c =? 69))%N then
        let '(eneg, t') := splitSign t in
        match digits 10 t' 0 0 with
        | (ev, S _, []) =>
            decimalValue neg m
              ((if eneg then - Z.of_N ev else Z.of_N ev) - Z.of_nat nf)
        | _ => NaN
        end
      else NaN
  end.

(** StrUnsignedDecimalLiteral other than [Infinity]. *)
Definition decimalLiteral (neg : bool) (u : jsstring) : number :=
  let '(ip, ni, r1) := digits 10 u 0 0 in
  let '(m, nf, r2) :=
    match r1 with
    | c :: t => if (c =? 46)%N then digits 10 t ip 0 else (ip, 0, r1)
    | [] => (ip, 0, r1)
    end in
  match ni, nf with
  | 0, 0 => NaN
  | _, _ => exponentPart neg m nf r2
  end.

(** [Number(s)] for a string [s] (StringToNumber, correctly rounded). *)
Definition Number (s0 : jsstring) : number :=
  let s := trim s0 in
  match s with
  | [] => Integer false 0
  | _ =>
      match nonDecimalLiteral s with
      | Some x => x
      | None =>
          let '(neg, u) := splitSign s in
          if jseqb u (lit "Infinity") then Infinity neg
          else decimalLiteral neg u
      end
  end.

(** [parseInt(s, radix)] for [radix] 10 or 16. *)
Definition parseInt (s0 : jsstring) (radix : N) : number :=
  let '(neg, s1) := splitSign (trimStart s0) in
  let s2 :=
    if (radix =? 16)%N then
      match s1 with
      | z :: p :: t =>
          if ((z =? 48) && ((p =? 120) || (p =? 88)))%N then t else s1
      | _ => s1
      end
    else s1 in
  match digits radix s2 0 0 with
  | (v, S _, _) => roundToDouble neg (Z.of_N v) 1
  | _ => NaN
  end.

(** [String(n)] for an array length [n], as a template literal writes it:
    the decimal digits of [n].  [fuel] bounds the number of digits. *)
Fixpoint decimalDigits (fuel : nat) (n : N) (acc : jsstring) : jsstring :=
  match fuel with
  | 0 => acc
  | S fuel' =>
      let acc' := (48 + n mod 10)%N :: acc in
      if (n / 10 =? 0)%N then acc' else decimalDigits fuel' (n / 10) acc'
  end.

Definition lengthToString (n : nat) : jsstring :=
  decimalDigits (S n) (N.of_nat n) [].

(** ** TextDecoder and TextEncoder (UTF-8) *)

Inductive Utf8Lead :=
| Single (c : N)                 (* an ASCII byte: emit it *)
| Lead (need cp lo hi : N)       (* first byte of a longer sequence *)
| Invalid.

Definition utf8_lead (v : N) : Utf8Lead :=
  (if v <=? 0x7F then Single v
   else if (0xC2 <=? v) && (v <=? 0xDF) then Lead 1 (N.land v 0x1F) 0x80 0xBF
   else if (0xE0 <=? v) && (v <=? 0xEF) then
     Lead 2 (N.land v 0xF) (if v =? 0xE0 then 0xA0 else 0x80)
                           (if v =? 0xED then 0x9F else 0xBF)
   else if (0xF0 <=? v) && (v <=? 0xF4) then
     Lead 3 (N.land v 0x7) (if v =? 0xF0 then 0x90 else 0x80)
                           (if v =? 0xF4 then 0x8F else 0xBF)
   else Invalid)%N.

(** The code points decoded from [bs], non-fatal mode: every ill-formed
    sequence yields U+FFFD and the offending byte is read again as the start
    of a new sequence.  [need] continuation bytes are still expected for the
    code point being built in [cp]; the next one must lie in [lo, hi]. *)
Fixpoint utf8_points (bs : bytes) (need cp lo hi : N) : list N :=
  match bs with
  | [] => if (need =? 0)%N then [] else [0xFFFD%N]
  | b :: t =>
      let v := Byte.to_N b in
      let restart :=
        match utf8_lead v with
        | Single c => c :: utf8_points t 0 0 0x80 0xBF
        | Lead n c l h => utf8_points t n c l h
        | Invalid => 0xFFFD%N :: utf8_points t 0 0 0x80 0xBF
        end in
      if (need =? 0)%N then restart
      else if ((v <? lo) || (hi <? v))%N then 0xFFFD%N :: restart
      else
        let c := N.lor (N.shiftl cp 6) (N.land v 0x3F) in
        if (need =? 1)%N then c :: utf8_points t 0 0 0x80 0xBF
        else utf8_points t (need - 1) c 0x80 0xBF
  end.

(** UTF-16 code units of a code point. *)
Definition utf16_units (c : N) : jsstring :=
  (if c <? 0x10000 then [c]
   else [0xD800 + (c - 0x10000) / 1024; 0xDC00 + (c - 0x10000) mod 1024])%N.

(** [new TextDecoder("utf-8", { fatal: false }).decode(bs)]; a leading byte
    order mark is dropped ([ignoreBOM] is false). *)
Definition decodeUtf8 (bs : bytes) : jsstring :=
  let ps := utf8_points bs 0 0 0x80 0xBF in
  let ps' :=
    match ps with
    | c :: t => if (c =? 0xFEFF)%N then t else ps
    | [] => ps
    end in
  flat_map utf16_units ps'.

Definition toByte (n : N) : byte :=
  match Byte.of_N n with Some b => b | None => x00 end.

Definition utf8_encode_point (c : N) : bytes :=
  (if c <=? 0x7F then [toByte c]
   else if c <=? 0x7FF then [toByte (0xC0 + c / 64); toByte (0x80 + c mod 64)]
   else if c <=? 0xFFFF then
     [toByte (0xE0 + c / 4096); toByte (0x80 + (c / 64) mod 64);
      toByte (0x80 + c mod 64)]
   else
     [toByte (0xF0 + c / 262144); toByte (0x80 + (c / 4096) mod 64);
      toByte (0x80 + (c / 64) mod 64); toByte (0x80 + c mod 64)])%N.

(** The scalar values of a string: surrogate pairs are combined, a lone
    surrogate becomes U+FFFD. *)
Fixpoint codePoints (s : jsstring) : list N :=
  match s with
  | [] => []
  | h :: t =>
      if ((0xD800 <=? h) && (h <=? 0xDBFF))%N then
        match t with
        | l :: t' =>
            if ((0xDC00 <=? l) && (l <=? 0xDFFF))%N
            then (0x10000 + (h - 0xD800) * 1024 + (l - 0xDC00))%N :: codePoints t'
            else 0xFFFD%N :: codePoints t
        | [] => [0xFFFD%N]
        end
      else if ((0xDC00 <=? h) && (h <=? 0xDFFF))%N then 0xFFFD%N :: codePoints t
      else h :: codePoints t
  end.

(** [new TextEncoder().encode(s)]. *)
Definition encodeUtf8 (s : jsstring) : bytes :=
  flat_map utf8_encode_point (codePoints s).

(** ** Map with string keys

    A [Map] iterates in insertion order; [set] on a key already present
    replaces the value where it stands. *)

Section MapOps.
Variable V : Type.

Definition Map := list (jsstring * V).

Fixpoint map_get (m : Map) (k : jsstring) : option V :=
  match m with
  | [] => None
  | (k', v) :: t => if jseqb k' k then Some v else map_get t k
  end.

Definition map_has (m : Map) (k : jsstring) : bool :=
  match map_get m k with Some _ => true | None => false end.

Fixpoint map_set (m : Map) (k : jsstring) (v : V) : Map :=
  match m with
  | [] => [(k, v)]
  | (k', v') :: t =>
      if jseqb k' k then (k, v) :: t else (k', v') :: map_set t k v
  end.

Fixpoint map_delete (m : Map) (k : jsstring) : Map :=
  match m with
  | [] => []
  | (k', v') :: t => if jseqb k' k then t else (k', v') :: map_delete t k
  end.

Definition map_values (m : Map) : list V := map snd m.
Definition map_keys (m : Map) : list jsstring := map fst m.
End MapOps.

End JS.
Import JS.

Unset Implicit Arguments.

(* ===================================================================== *)
(** * src/types.ts *)
(* ===================================================================== *)

Module Types.

Definition HTTP_1_0 : jsstring := lit "HTTP/1.0".
Definition HTTP_1_1 : jsstring := lit "HTTP/1.1".

Record RequestLine := {
  method : jsstring;
  target : jsstring;
  version : jsstring
}.

Record StatusLine := {
  sl_version : jsstring;
  statusCode : number;
  statusText : jsstring
}.

Record Header := {
  name : jsstring;
  value : jsstring
}.

Inductive MessageType := REQUEST | RESPONSE.

Inductive TransferEncoding :=
| CONTENT_LENGTH | CHUNKED | IDENTITY | GZIP | DEFLATE | BR | CLOSE
| UNKNOWN_ENCODING.

(** [Required<ParserOptions>]; the limits are taken to be integers. *)
Record ParserOptions := {
  allowUnderscoreInHeaders : bool;
  enablePipelining : bool;
  inactivityTimeout : Z;
  maxBodySize : Z;
  maxChunks : Z;
  maxHeaderLineLength : Z;
  maxHeaders : Z;
  validateHeaderNames : bool;
  validateHeaderValues : bool
}.

Inductive ParserState :=
| IDLE | REQUEST_LINE | STATUS_LINE | HEADERS | BODY_CONTENT_LENGTH
| BODY_CHUNKED | BODY_CHUNKED_SIZE | BODY_CHUNKED_DATA | BODY_CHUNKED_TRAILER
| COMPLETE | ERROR.

Definition ParserState_eqb (a b : ParserState) : bool :=
  match a, b with
  | IDLE, IDLE | REQUEST_LINE, REQUEST_LINE | STATUS_LINE, STATUS_LINE
  | HEADERS, HEADERS | BODY_CONTENT_LENGTH, BODY_CONTENT_LENGTH
  | BODY_CHUNKED, BODY_CHUNKED | BODY_CHUNKED_SIZE, BODY_CHUNKED_SIZE
  | BODY_CHUNKED_DATA, BODY_CHUNKED_DATA
  | BODY_CHUNKED_TRAILER, BODY_CHUNKED_TRAILER
  | COMPLETE, COMPLETE | ERROR, ERROR => true
  | _, _ => false
  end.

Inductive ParserErrorCode :=
| INVALID_METHOD | INVALID_VERSION | INVALID_TARGET | INVALID_STATUS_CODE
| INVALID_HEADER | HEADER_NAME_TOO_LONG | HEADER_VALUE_TOO_LONG
| TOO_MANY_HEADERS | INVALID_CONTENT_LENGTH | BODY_TOO_LARGE
| INVALID_CHUNK_SIZE | INCOMPLETE_CHUNK | INVALID_CHUNK_TRAILER
| TIMEOUT | CONNECTION_CLOSED | UNKNOWN.

(** A parser error: its code, the state and the position it arose at (the
    message text and the free-form details are left out). *)
Record ParserError := {
  code : ParserErrorCode;
  position : option nat;
  errorState : ParserState
}.

End Types.
Import Types.

(* ===================================================================== *)
(** * src/errors.ts *)
(* ===================================================================== *)

Module Errors.

Definition createError (c : ParserErrorCode) (st : ParserState)
    (pos : option nat) : ParserError :=
  {| code := c; position := pos; errorState := st |}.

Definition standardMethods : list jsstring :=
  [lit "GET"; lit "HEAD"; lit "POST"; lit "PUT"; lit "DELETE"; lit "CONNECT";
   lit "OPTIONS"; lit "TRACE"; lit "PATCH"].

(** The separators of RFC 7230 (parentheses, angle brackets, at sign, comma,
    semicolon, colon, backslash, double quote, slash, square brackets,
    question mark, equals sign, braces, space and horizontal tab). *)
Definition separatorChars : list N :=
  [40; 41; 60; 62; 64; 44; 59; 58; 92; 34; 47; 91; 93; 63; 61; 123; 125; 32; 9]%N.

Definition isSeparator (c : N) : bool := existsb (N.eqb c) separatorChars.

(** The loops below run over code units; the sources iterate by code point
    and look at the first unit of each, which gives the same verdict since
    no surrogate is a control or a separator. *)
Definition isValidMethod (method : jsstring) : bool :=
  if existsb (jseqb method) standardMethods then true
  else if negb (truthy method) || (len method =? 0)%Z || (100 <? len method)%Z
  then false
  else forallb (fun c => negb ((c <=? 31) || (c =? 127))%N && negb (isSeparator c))
               method.

Definition isValidVersion (version : jsstring) : bool :=
  jseqb version (lit "HTTP/1.0") || jseqb version (lit "HTTP/1.1").

Definition isValidStatusCode (statusCode : number) : bool :=
  geZ statusCode 100 && leZ statusCode 999.

Definition isValidHeaderName (name : jsstring) (allowUnderscore : bool) : bool :=
  if negb (truthy name) || (len name =? 0)%Z || (256 <? len name)%Z then false
  else forallb (fun c => negb ((c <=? 31) || (c =? 127))%N
                         && negb (negb allowUnderscore && (c =? 95)%N)
                         && negb (isSeparator c))
               name.

Definition isValidHeaderValue (value : jsstring) : bool :=
  if (8192 <? len value)%Z then false
  else forallb (fun c => (c =? 9) || (c =? 10) || (c =? 12) || (c =? 13)
                         || ((32 <=? c) && (c <=? 126)))%N
               value.

Definition isValidTarget (target : jsstring) : bool :=
  if negb (truthy target) || (len target =? 0)%Z || (8192 <? len target)%Z
  then false
  else if match target with c :: _ => (c =? 47)%N | [] => false end then true
  else if includes target (lit "://") then true
  else if jseqb target (lit "*") then true
  else if negb (includes target (lit "/")) && includes target (lit ":") then true
  else false.

(** [null] is [None]; an accepted length is a non-negative integer. *)
Definition parseContentLength (value0 : jsstring) : option N :=
  let value := trim value0 in
  if negb (truthy value) then None
  else
    let length := Number value in
    if negb (isInteger length) || ltZ length 0 then None
    else Some (Z.to_N (toZ length)).

Definition parseChunkSize (hex0 : jsstring) (maxSize : Z) : option N :=
  let hex := trim hex0 in
  if negb (truthy hex) then None
  else
    let size := parseInt hex 16 in
    if isNaN size || ltZ size 0 then None
    else if gtZ size maxSize then None
    else Some (Z.to_N (toZ size)).

End Errors.
Import Errors.

(* ===================================================================== *)
(** * src/request.ts and src/response.ts *)
(* ===================================================================== *)

(** [for (let i = from; i < from + n; i++) if (P i) return i]. *)
Fixpoint scan (P : nat -> bool) (from n : nat) : option nat :=
  match n with
  | 0 => None
  | S n' => if P from then Some from else scan P (S from) n'
  end.

(** First [i] in [[start, stop)] with [data[i]] CR and [data[i+1]] LF. *)
Definition findCRLF (data : bytes) (start stop : nat) : option nat :=
  scan (fun i => byte_is data i CR && byte_is data (i + 1) LF) start (stop - start).

(** First [i] in [[start, stop)] with [data[i]] a space. *)
Definition findSpace (data : bytes) (start stop : nat) : option nat :=
  scan (fun i => byte_is data i SP) start (stop - start).

(** First [i] in [[start, stop)] where CR LF CR LF begins. *)
Definition findCRLFCRLF (data : bytes) (start stop : nat) : option nat :=
  scan (fun i => byte_is data i CR && byte_is data (i + 1) LF
                 && byte_is data (i + 2) CR && byte_is data (i + 3) LF)
       start (stop - start).

Module Request.

Record RequestLineResult := {
  requestLine : option RequestLine;
  bytesConsumed : nat;
  needsMoreData : bool;
  error : option string
}.

Definition needMore : RequestLineResult :=
  {| bytesConsumed := 0; error := None; needsMoreData := true;
     requestLine := None |}.

Definition failed (msg : string) : RequestLineResult :=
  {| bytesConsumed := 0; error := Some msg; needsMoreData := false;
     requestLine := None |}.

Definition decodeUtf8 (data : bytes) (s e : nat) : jsstring :=
  JS.decodeUtf8 (slice data s e).

Definition parseRequestLine (data : bytes) (start stop : nat) : RequestLineResult :=
  let crlfPos := findCRLF data start (stop - 1) in
  let hasCrlf := match crlfPos with Some _ => true | None => false end in
  let lineEnd := match crlfPos with Some i => i | None => stop end in
  match findSpace data start lineEnd with
  | None => needMore
  | Some firstSpace =>
      let secondSpace := findSpace data (firstSpace + 1) lineEnd in
      match secondSpace, hasCrlf with
      | None, false =>
          let potentialVersionStart := firstSpace + 1 in
          if (potentialVersionStart <? lineEnd)
             && negb (startsWith (decodeUtf8 data potentialVersionStart lineEnd)
                                 (lit "HTTP/"))
          then needMore
          else needMore
      | _, _ =>
          let secondSpace := match secondSpace with Some i => i | None => lineEnd end in
          let method := decodeUtf8 data start firstSpace in
          if negb (isValidMethod method) then failed "Invalid HTTP method"
          else
            let target := decodeUtf8 data (firstSpace + 1) secondSpace in
            if negb (isValidTarget target) then failed "Invalid request target"
            else
              let version := decodeUtf8 data (secondSpace + 1) lineEnd in
              if negb (isValidVersion version) then failed "Invalid HTTP version"
              else
                {| bytesConsumed :=
                     match crlfPos with Some i => i + 2 | None => stop - start end;
                   error := None;
                   needsMoreData := false;
                   requestLine :=
                     Some {| method := method; target := target; version := version |}
                |}
      end
  end.

Definition validateRequestLine (requestLine : RequestLine) : bool :=
  isValidMethod (method requestLine)
  && isValidTarget (target requestLine)
  && isValidVersion (version requestLine).

Definition formatRequestLine (requestLine : RequestLine) : bytes :=
  encodeUtf8 (method requestLine ++ lit " " ++ target requestLine ++ lit " "
              ++ version requestLine ++ [13; 10]%N).

End Request.

Module Response.

Record StatusLineResult := {
  statusLine : option StatusLine;
  bytesConsumed : nat;
  needsMoreData : bool;
  error : option string
}.

Definition needMore : StatusLineResult :=
  {| bytesConsumed := 0; error := None; needsMoreData := true;
     statusLine := None |}.

Definition failed (msg : string) : StatusLineResult :=
  {| bytesConsumed := 0; error := Some msg; needsMoreData := false;
     statusLine := None |}.

Definition parseStatusLine (data : bytes) (start stop : nat) : StatusLineResult :=
  let crlfPos := findCRLF data start (stop - 1) in
  let hasCrlf := match crlfPos with Some _ => true | None => false end in
  let lineEnd := match crlfPos with Some i => i | None => stop end in
  match findSpace data start lineEnd with
  | None => needMore
  | Some firstSpace =>
      let secondSpace := findSpace data (firstSpace + 1) lineEnd in
      match secondSpace, hasCrlf with
      | None, false =>
          let potentialStatusStart := firstSpace + 1 in
          let statusCode :=
            parseInt (decodeUtf8 (slice data potentialStatusStart lineEnd)) 10 in
          if (potentialStatusStart <? lineEnd)
             && (isNaN statusCode || ltZ statusCode 100 || gtZ statusCode 599)
          then needMore
          else needMore
      | _, _ =>
          let secondSpace := match secondSpace with Some i => i | None => lineEnd end in
          let version := decodeUtf8 (slice data start firstSpace) in
          if negb (isValidVersion version) then failed "Invalid HTTP version"
          else
            let statusCodeEnd := secondSpace in
            let statusCodeStr := decodeUtf8 (slice data (firstSpace + 1) statusCodeEnd) in
            let statusCode := parseInt statusCodeStr 10 in
            if negb (isValidStatusCode statusCode) then failed "Invalid status code"
            else
              let reasonStart := secondSpace + 1 in
              let reasonPhrase := decodeUtf8 (slice data reasonStart lineEnd) in
              {| bytesConsumed :=
                   match crlfPos with Some i => i + 2 | None => stop - start end;
                 error := None;
                 needsMoreData := false;
                 statusLine :=
                   Some {| statusCode := statusCode; statusText := reasonPhrase;
                           sl_version := version |}
              |}
      end
  end.

Definition validateStatusLine (statusLine : StatusLine) : bool :=
  isValidStatusCode (statusCode statusLine) && isValidVersion (sl_version statusLine).

End Response.

(* ===================================================================== *)
(** * src/headers.ts *)
(* ===================================================================== *)

Module Headers.

(** The two maps of a [HeadersMap]: entries under their unique key, and for
    each lowercase name the unique keys of the entries that carry it. *)
Record HeadersMap := {
  headers : Map Header;
  lowerCaseMap : Map (list jsstring)
}.

(** [new HeadersMap()] *)
Definition empty : HeadersMap := {| headers := []; lowerCaseMap := [] |}.

(** The key of a new entry.  The sources build it from the name, the clock
    and a random number; [e] stands for the last two, so every draw of a key
    is an explicit argument. *)
Definition uniqueKey (name e : jsstring) : jsstring := name ++ lit "::" ++ e.

(** [parseHeaderLine] *)
Definition parseHeaderLine (line : jsstring) : option (jsstring * jsstring) :=
  match indexOf line 58 with
  | None => None
  | Some colonIndex =>
      let name := trim (slice line 0 colonIndex) in
      let value := trim (slice_from line (colonIndex + 1)) in
      if negb (truthy name) then None
      else if negb (truthy value) then None
      else Some (name, value)
  end.

Section WithCaseMapping.

(** [String.prototype.toLowerCase] *)
Variable toLowerCase : jsstring -> jsstring.

(** [header?.value || ""] for the entry stored under [key] *)
Definition valueAt (h : HeadersMap) (key : jsstring) : jsstring :=
  match map_get (headers h) key with
  | Some header => value header
  | None => []
  end.

Definition get (h : HeadersMap) (name : jsstring) : option jsstring :=
  let lowerName := toLowerCase name in
  match map_get (lowerCaseMap h) lowerName with
  | None => None
  | Some [] => None
  | Some [originalName] =>
      match map_get (headers h) originalName with
      | Some header => Some (value header)
      | None => None
      end
  | Some originalNames => Some (join (lit ", ") (map (valueAt h) originalNames))
  end.

Definition has (h : HeadersMap) (name : jsstring) : bool :=
  map_has (lowerCaseMap h) (toLowerCase name).

Definition getAll (h : HeadersMap) (name : jsstring) : list jsstring :=
  let lowerName := toLowerCase name in
  match map_get (lowerCaseMap h) lowerName with
  | None => []
  | Some originalNames => map (valueAt h) originalNames
  end.

Definition append (e : jsstring) (name value : jsstring) (h : HeadersMap)
  : HeadersMap :=
  let lowerName := toLowerCase name in
  let key := uniqueKey name e in
  let hs := map_set (headers h) key {| name := name; value := value |} in
  let lcm :=
    if negb (map_has (lowerCaseMap h) lowerName)
    then map_set (lowerCaseMap h) lowerName []
    else lowerCaseMap h in
  let lcm' :=
    match map_get lcm lowerName with
    | Some keys => map_set lcm lowerName (keys ++ [key])
    | None => lcm
    end in
  {| headers := hs; lowerCaseMap := lcm' |}.

Definition set (e : jsstring) (name value : jsstring) (h : HeadersMap)
  : HeadersMap :=
  let lowerName := toLowerCase name in
  let originalNames :=
    match map_get (lowerCaseMap h) lowerName with Some l => l | None => [] end in
  let hs := fold_left (fun m k => map_delete m k) originalNames (headers h) in
  append e name value
    {| headers := hs; lowerCaseMap := map_delete (lowerCaseMap h) lowerName |}.

(** [delete]: the container afterwards and the returned flag *)
Definition delete (name : jsstring) (h : HeadersMap) : HeadersMap * bool :=
  let lowerName := toLowerCase name in
  match map_get (lowerCaseMap h) lowerName with
  | Some originalNames =>
      ({| headers := fold_left (fun m k => map_delete m k) originalNames (headers h);
          lowerCaseMap := map_delete (lowerCaseMap h) lowerName |}, true)
  | None => (h, false)
  end.


(** The pairs produced by the iterator ([entries], [for ... of]) *)
Definition entries (h : HeadersMap) : list (jsstring * jsstring) :=
  map (fun header => (name header, value header)) (map_values (headers h)).

Definition size (h : HeadersMap) : nat := length (lowerCaseMap h).

Definition totalEntries (h : HeadersMap) : nat := length (headers h).

Definition clear (h : HeadersMap) : HeadersMap := empty.

Definition toArray (h : HeadersMap) : list Header := map_values (headers h).

(** The text [toBytes] encodes *)
Definition toText (h : HeadersMap) : jsstring :=
  List.concat (map (fun header => name header ++ lit ": " ++ value header ++ [13; 10]%N)
              (map_values (headers h)))
  ++ [13; 10]%N.

Definition toBytes (h : HeadersMap) : bytes := encodeUtf8 (toText h).

Definition equals (this other : HeadersMap) : bool :=
  if negb (totalEntries this =? totalEntries other) then false
  else forallb
         (fun header => existsb (jseqb (value header)) (getAll other (name header)))
         (map_values (headers this)).

(** ** [parseHeaders] *)

(** [entropy i] is the clock-and-random part of the [i]-th key drawn while
    a block is parsed. *)
Variable entropy : nat -> jsstring.

Fixpoint parseLines (lines : list jsstring) (i : nat) (maxHeaders maxLineLength : Z)
    (headers : HeadersMap) : option HeadersMap :=
  match lines with
  | [] => Some headers
  | line :: rest =>
      if (maxLineLength <? len line)%Z then None
      else if jseqb line [] then Some headers
      else if (maxHeaders <=? Z.of_nat (totalEntries headers))%Z then None
      else
        match parseHeaderLine line with
        | None => None
        | Some (name, value) =>
            parseLines rest (S i) maxHeaders maxLineLength
                       (append (entropy i) name value headers)
        end
  end.

Definition parseHeaders (headerText : jsstring) (maxHeaders maxLineLength : Z)
  : option HeadersMap :=
  parseLines (split_crlf headerText) 0 maxHeaders maxLineLength empty.

(** ** The constructor, [clone], [toObject] and [headersFromObject]

    The draws of a loop over [append] or [set] are numbered from [i]. *)

Fixpoint appendEach (initialHeaders : list Header) (i : nat) (h : HeadersMap)
  : HeadersMap :=
  match initialHeaders with
  | [] => h
  | header :: rest =>
      appendEach rest (S i) (append (entropy i) (name header) (value header) h)
  end.

(** [new HeadersMap(initialHeaders)] *)
Definition construct (initialHeaders : option (list Header)) : HeadersMap :=
  match initialHeaders with
  | Some hs => appendEach hs 0 empty
  | None => empty
  end.

Definition clone (h : HeadersMap) : HeadersMap := construct (Some (toArray h)).

(** [toObject]: the own properties of the record it returns, as a map
    from keys to values (the order in which JavaScript enumerates them is
    not modelled).  An assignment to [__proto__] adds no property: on a
    plain object it reaches the setter of [Object.prototype], which ignores
    a string. *)
Definition toObject (h : HeadersMap) : Map jsstring :=
  fold_left
    (fun result (entry : jsstring * list jsstring) =>
       let (lowerName, originalNames) := entry in
       let values := map (valueAt h) originalNames in
       if jseqb lowerName (lit "__proto__") then result
       else map_set result lowerName (join (lit ", ") values))
    (lowerCaseMap h) [].

Fixpoint setEach (pairs : list (jsstring * jsstring)) (i : nat) (h : HeadersMap)
  : HeadersMap :=
  match pairs with
  | [] => h
  | (key, value) :: rest => setEach rest (S i) (set (entropy i) key value h)
  end.

(** [headersFromObject(obj)], where [pairs] is [Object.entries(obj)] *)
Definition headersFromObject (pairs : list (jsstring * jsstring)) : HeadersMap :=
  setEach pairs 0 empty.

End WithCaseMapping.

End Headers.

(* ===================================================================== *)
(** * src/parser.ts *)
(* ===================================================================== *)

Module Parser.

Definition DEFAULT_OPTIONS : ParserOptions := {|
  allowUnderscoreInHeaders := true;
  enablePipelining := false;
  inactivityTimeout := 30000;
  maxBodySize := 10 * 1024 * 1024;
  maxChunks := 10000;
  maxHeaderLineLength := 8192;
  maxHeaders := 256;
  validateHeaderNames := true;
  validateHeaderValues := true
|}.

(** ** Messages (the [HttpRequest] and [HttpResponse] of src/types.ts)

    The two interfaces share every field but the start line, which tells
    them apart here.  [m_contentLength] is an optional field; the start
    line and the headers are the parser's own fields, which may be null. *)

Inductive StartLine :=
| RequestStart (requestLine : option RequestLine)
| StatusStart (statusLine : option StatusLine).

Record HttpMessage := {
  m_body : bytes;
  m_complete : bool;
  m_contentLength : option nat;
  m_headers : option Headers.HeadersMap;
  m_keepAlive : bool;
  m_startLine : StartLine;
  m_transferEncoding : TransferEncoding;
  m_type : MessageType
}.

(** ** The parser object *)

Record HttpParser := {
  options : ParserOptions;
  state : ParserState;
  buffer : bytes;
  bufferOffset : nat;
  messageType : option MessageType;
  requestLine : option RequestLine;
  statusLine : option StatusLine;
  headers : option Headers.HeadersMap;
  body : option bytes;
  bodyLength : N;
  chunkSize : N;
  chunkBytesRead : N;
  totalChunks : Z;
  keepAlive : bool
}.

(** Assignments to one field. *)
Definition set_state (v : ParserState) (p : HttpParser) : HttpParser :=
  {| options := options p;
     state := v;
     buffer := buffer p;
     bufferOffset := bufferOffset p;
     messageType := messageType p;
     requestLine := requestLine p;
     statusLine := statusLine p;
     headers := headers p;
     body := body p;
     bodyLength := bodyLength p;
     chunkSize := chunkSize p;
     chunkBytesRead := chunkBytesRead p;
     totalChunks := totalChunks p;
     keepAlive := keepAlive p |}.

Definition set_buffer (v : bytes) (p : HttpParser) : HttpParser :=
  {| options := options p;
     state := state p;
     buffer := v;
     bufferOffset := bufferOffset p;
     messageType := messageType p;
     requestLine := requestLine p;
     statusLine := statusLine p;
     headers := headers p;
     body := body p;
     bodyLength := bodyLength p;
     chunkSize := chunkSize p;
     chunkBytesRead := chunkBytesRead p;
     totalChunks := totalChunks p;
     keepAlive := keepAlive p |}.

Definition set_bufferOffset (v : nat) (p : HttpParser) : HttpParser :=
  {| options := options p;
     state := state p;
     buffer := buffer p;
     bufferOffset := v;
     messageType := messageType p;
     requestLine := requestLine p;
     statusLine := statusLine p;
     headers := headers p;
     body := body p;
     bodyLength := bodyLength p;
     chunkSize := chunkSize p;
     chunkBytesRead := chunkBytesRead p;
     totalChunks := totalChunks p;
     keepAlive := keepAlive p |}.

Definition set_messageType (v : option MessageType) (p : HttpParser) : HttpParser :=
  {| options := options p;
     state := state p;
     buffer := buffer p;
     bufferOffset := bufferOffset p;
     messageType := v;
     requestLine := requestLine p;
     statusLine := statusLine p;
     headers := headers p;
     body := body p;
     bodyLength := bodyLength p;
     chunkSize := chunkSize p;
     chunkBytesRead := chunkBytesRead p;
     totalChunks := totalChunks p;
     keepAlive := keepAlive p |}.

Definition set_requestLine (v : option RequestLine) (p : HttpParser) : HttpParser :=
  {| options := options p;
     state := state p;
     buffer := buffer p;
     bufferOffset := bufferOffset p;
     messageType := messageType p;
     requestLine := v;
     statusLine := statusLine p;
     headers := headers p;
     body := body p;
     bodyLength := bodyLength p;
     chunkSize := chunkSize p;
     chunkBytesRead := chunkBytesRead p;
     totalChunks := totalChunks p;
     keepAlive := keepAlive p |}.

Definition set_statusLine (v : option StatusLine) (p : HttpParser) : HttpParser :=
  {| options := options p;
     state := state p;
     buffer := buffer p;
     bufferOffset := bufferOffset p;
     messageType := messageType p;
     requestLine := requestLine p;
     statusLine := v;
     headers := headers p;
     body := body p;
     bodyLength := bodyLength p;
     chunkSize := chunkSize p;
     chunkBytesRead := chunkBytesRead p;
     totalChunks := totalChunks p;
     keepAlive := keepAlive p |}.

Definition set_headers (v : option Headers.HeadersMap) (p : HttpParser) : HttpParser :=
  {| options := options p;
     state := state p;
     buffer := buffer p;
     bufferOffset := bufferOffset p;
     messageType := messageType p;
     requestLine := requestLine p;
     statusLine := statusLine p;
     headers := v;
     body := body p;
     bodyLength := bodyLength p;
     chunkSize := chunkSize p;
     chunkBytesRead := chunkBytesRead p;
     totalChunks := totalChunks p;
     keepAlive := keepAlive p |}.

Definition set_body (v : option bytes) (p : HttpParser) : HttpParser :=
  {| options := options p;
     state := state p;
     buffer := buffer p;
     bufferOffset := bufferOffset p;
     messageType := messageType p;
     requestLine := requestLine p;
     statusLine := statusLine p;
     headers := headers p;
     body := v;
     bodyLength := bodyLength p;
     chunkSize := chunkSize p;
     chunkBytesRead := chunkBytesRead p;
     totalChunks := totalChunks p;
     keepAlive := keepAlive p |}.

Definition set_bodyLength (v : N) (p : HttpParser) : HttpParser :=
  {| options := options p;
     state := state p;
     buffer := buffer p;
     bufferOffset := bufferOffset p;
     messageType := messageType p;
     requestLine := requestLine p;
     statusLine := statusLine p;
     headers := headers p;
     body := body p;
     bodyLength := v;
     chunkSize := chunkSize p;
     chunkBytesRead := chunkBytesRead p;
     totalChunks := totalChunks p;
     keepAlive := keepAlive p |}.

Definition set_chunkSize (v : N) (p : HttpParser) : HttpParser :=
  {| options := options p;
     state := state p;
     buffer := buffer p;
     bufferOffset := bufferOffset p;
     messageType := messageType p;
     requestLine := requestLine p;
     statusLine := statusLine p;
     headers := headers p;
     body := body p;
     bodyLength := bodyLength p;
     chunkSize := v;
     chunkBytesRead := chunkBytesRead p;
     totalChunks := totalChunks p;
     keepAlive := keepAlive p |}.

Definition set_chunkBytesRead (v : N) (p : HttpParser) : HttpParser :=
  {| options := options p;
     state := state p;
     buffer := buffer p;
     bufferOffset := bufferOffset p;
     messageType := messageType p;
     requestLine := requestLine p;
     statusLine := statusLine p;
     headers := headers p;
     body := body p;
     bodyLength := bodyLength p;
     chunkSize := chunkSize p;
     chunkBytesRead := v;
     totalChunks := totalChunks p;
     keepAlive := keepAlive p |}.

Definition set_totalChunks (v : Z) (p : HttpParser) : HttpParser :=
  {| options := options p;
     state := state p;
     buffer := buffer p;
     bufferOffset := bufferOffset p;
     messageType := messageType p;
     requestLine := requestLine p;
     statusLine := statusLine p;
     headers := headers p;
     body := body p;
     bodyLength := bodyLength p;
     chunkSize := chunkSize p;
     chunkBytesRead := chunkBytesRead p;
     totalChunks := v;
     keepAlive := keepAlive p |}.

Definition set_keepAlive (v : bool) (p : HttpParser) : HttpParser :=
  {| options := options p;
     state := state p;
     buffer := buffer p;
     bufferOffset := bufferOffset p;
     messageType := messageType p;
     requestLine := requestLine p;
     statusLine := statusLine p;
     headers := headers p;
     body := body p;
     bodyLength := bodyLength p;
     chunkSize := chunkSize p;
     chunkBytesRead := chunkBytesRead p;
     totalChunks := totalChunks p;
     keepAlive := v |}.

(** What a handler returns. *)
Record StepResult := {
  message : option HttpMessage;
  error : option ParserError;
  complete : bool;
  needsMoreData : bool
}.

Definition moreData : StepResult :=
  {| message := None; error := None; complete := false; needsMoreData := true |}.

Definition proceed : StepResult :=
  {| message := None; error := None; complete := false; needsMoreData := false |}.

Definition failure (e : ParserError) : StepResult :=
  {| message := None; error := Some e; complete := false; needsMoreData := false |}.

(** [new HttpParser(options)] with the defaults already merged in *)
Definition create (o : ParserOptions) : HttpParser := {|
  options := o;
  state := IDLE;
  buffer := [];
  bufferOffset := 0;
  messageType := None;
  requestLine := None;
  statusLine := None;
  headers := None;
  body := None;
  bodyLength := 0;
  chunkSize := 0;
  chunkBytesRead := 0;
  totalChunks := 0;
  keepAlive := true
|}.

Definition reset (clearBuffer : bool) (p : HttpParser) : HttpParser := {|
  options := options p;
  state := IDLE;
  buffer := if clearBuffer then [] else buffer p;
  bufferOffset := if clearBuffer then 0 else bufferOffset p;
  messageType := None;
  requestLine := None;
  statusLine := None;
  headers := None;
  body := None;
  bodyLength := 0;
  chunkSize := 0;
  chunkBytesRead := 0;
  totalChunks := 0;
  keepAlive := true
|}.

Definition getState (p : HttpParser) : ParserState := state p.

Definition getBufferedBytes (p : HttpParser) : Z :=
  len (buffer p) - Z.of_nat (bufferOffset p).

Definition appendBuffer (data : bytes) (p : HttpParser) : HttpParser :=
  let p1 :=
    if 0 <? bufferOffset p
    then set_bufferOffset 0 (set_buffer (slice_from (buffer p) (bufferOffset p)) p)
    else p in
  if length (buffer p1) =? 0 then set_buffer data p1
  else set_buffer (buffer p1 ++ data) p1.

Definition compactBuffer (p : HttpParser) : HttpParser :=
  if 0 <? bufferOffset p
  then set_bufferOffset 0 (set_buffer (slice_from (buffer p) (bufferOffset p)) p)
  else p.

Definition appendToBody (data : bytes) (p : HttpParser) : HttpParser :=
  let p1 :=
    match body p with
    | None => set_body (Some data) p
    | Some b => set_body (Some (b ++ data)) p
    end in
  match body p1 with
  | Some b => if (maxBodySize (options p1) <? len b)%Z then set_state ERROR p1 else p1
  | None => p1
  end.

Definition createCompleteMessage (p : HttpParser) : StepResult :=
  let bodyOrEmpty := match body p with Some b => b | None => [] end in
  let bodyLen := match body p with Some b => Some (length b) | None => None end in
  match messageType p with
  | Some REQUEST =>
      let request := {|
        m_body := bodyOrEmpty;
        m_complete := true;
        m_contentLength := bodyLen;
        m_headers := headers p;
        m_keepAlive := keepAlive p;
        m_startLine := RequestStart (requestLine p);
        m_transferEncoding := CONTENT_LENGTH;
        m_type := REQUEST
      |} in
      {| complete := true; message := Some request; needsMoreData := false;
         error := None |}
  | _ =>
      let response := {|
        m_body := bodyOrEmpty;
        m_complete := true;
        m_contentLength := bodyLen;
        m_headers := headers p;
        m_keepAlive := keepAlive p;
        m_startLine := StatusStart (statusLine p);
        m_transferEncoding := CONTENT_LENGTH;
        m_type := RESPONSE
      |} in
      {| complete := true; message := Some response; needsMoreData := false;
         error := None |}
  end.

Definition parseMessageStart (p : HttpParser) : HttpParser * StepResult :=
  if (getBufferedBytes p <? 4)%Z then (p, moreData)
  else if byte_is (buffer p) (bufferOffset p) x48
          && byte_is (buffer p) (bufferOffset p + 1) x54
          && byte_is (buffer p) (bufferOffset p + 2) x54
          && byte_is (buffer p) (bufferOffset p + 3) x50
  then (set_state STATUS_LINE (set_messageType (Some RESPONSE) p), proceed)
  else (set_state REQUEST_LINE (set_messageType (Some REQUEST) p), proceed).

Definition parseRequestLine (p : HttpParser) : HttpParser * StepResult :=
  let result :=
    Request.parseRequestLine (buffer p) (bufferOffset p) (length (buffer p)) in
  if Request.needsMoreData result then (p, moreData)
  else
    match Request.error result with
    | Some _ =>
        (p, failure (createError INVALID_METHOD REQUEST_LINE (Some (bufferOffset p))))
    | None =>
        (set_state HEADERS
           (set_bufferOffset (bufferOffset p + Request.bytesConsumed result)
              (set_requestLine (Request.requestLine result) p)),
         proceed)
    end.

Definition parseStatusLine (p : HttpParser) : HttpParser * StepResult :=
  let result :=
    Response.parseStatusLine (buffer p) (bufferOffset p) (length (buffer p)) in
  if Response.needsMoreData result then (p, moreData)
  else
    match Response.error result with
    | Some _ =>
        (p, failure (createError INVALID_VERSION STATUS_LINE (Some (bufferOffset p))))
    | None =>
        (set_state HEADERS
           (set_bufferOffset (bufferOffset p + Response.bytesConsumed result)
              (set_statusLine (Response.statusLine result) p)),
         proceed)
    end.

Section WithPlatform.

(** [String.prototype.toLowerCase], and the clock-and-random part of the
    keys drawn by [HeadersMap.append] (see [Headers.parseHeaders]). *)
Variable toLowerCase : jsstring -> jsstring.
Variable entropy : nat -> jsstring.

Definition handleHeadersComplete (hs : Headers.HeadersMap) (p : HttpParser)
  : HttpParser * StepResult :=
  let p := set_headers (Some hs) p in
  let connection := Headers.get toLowerCase hs (lit "connection") in
  let p :=
    match connection with
    | Some c =>
        if truthy c
        then set_keepAlive (negb (jseqb (toLowerCase c) (lit "close"))) p
        else p
    | None => p
    end in
  let p :=
    match messageType p, statusLine p with
    | Some RESPONSE, Some sl =>
        if jseqb (sl_version sl) HTTP_1_0 then set_keepAlive false p else p
    | _, _ => p
    end in
  let transferEncoding := Headers.get toLowerCase hs (lit "transfer-encoding") in
  let contentLength := Headers.get toLowerCase hs (lit "content-length") in
  let chunked :=
    match transferEncoding with
    | Some te => truthy te && includes (toLowerCase te) (lit "chunked")
    | None => false
    end in
  if chunked then (set_state BODY_CHUNKED_SIZE p, proceed)
  else
    let length :=
      match contentLength with
      | Some cl => if truthy cl then parseContentLength cl else None
      | None => None
      end in
    match length with
    | Some n =>
        let p := set_bodyLength n p in
        if (n =? 0)%N then (p, createCompleteMessage p)
        else (set_state BODY_CONTENT_LENGTH p, proceed)
    | None => (p, createCompleteMessage p)
    end.

Definition headersValid (o : ParserOptions) (hs : Headers.HeadersMap) : bool :=
  if validateHeaderNames o || validateHeaderValues o then
    forallb
      (fun nv : jsstring * jsstring =>
         let (name, value) := nv in
         negb (validateHeaderNames o
               && negb (isValidHeaderName name (allowUnderscoreInHeaders o)))
         && negb (validateHeaderValues o && negb (isValidHeaderValue value)))
      (Headers.entries hs)
  else true.

Definition parseHeaders (p : HttpParser) : HttpParser * StepResult :=
  let bufferLength := length (buffer p) in
  match findCRLFCRLF (buffer p) (bufferOffset p) (bufferLength - 3) with
  | None =>
      let lineSeen :=
        match findCRLF (buffer p) (bufferOffset p) (bufferLength - 1) with
        | Some _ => true
        | None => false
        end in
      if lineSeen && (maxHeaderLineLength (options p) <? getBufferedBytes p)%Z
      then (p, failure (createError HEADER_VALUE_TOO_LONG HEADERS
                                    (Some (bufferOffset p))))
      else
        let remaining := getBufferedBytes p in
        if (remaining =? 2)%Z
           && byte_is (buffer p) (bufferOffset p) CR
           && byte_is (buffer p) (bufferOffset p + 1) LF
        then handleHeadersComplete Headers.empty (set_bufferOffset bufferLength p)
        else (p, moreData)
  | Some headerEnd =>
      let headerBytes := slice (buffer p) (bufferOffset p) headerEnd in
      let headerText := decodeUtf8 headerBytes in
      match Headers.parseHeaders toLowerCase entropy headerText
              (maxHeaders (options p)) (maxHeaderLineLength (options p)) with
      | None =>
          (p, failure (createError INVALID_HEADER HEADERS (Some (bufferOffset p))))
      | Some parsedHeaders =>
          if negb (headersValid (options p) parsedHeaders)
          then (p, failure (createError INVALID_HEADER HEADERS
                                        (Some (bufferOffset p))))
          else
            handleHeadersComplete parsedHeaders
              (set_bufferOffset (headerEnd + 4)
                 (set_headers (Some parsedHeaders) p))
      end
  end.

Definition parseBodyContentLength (p : HttpParser) : HttpParser * StepResult :=
  let remaining := getBufferedBytes p in
  if (remaining <? Z.of_N (bodyLength p))%Z then
    let p := appendToBody (slice_from (buffer p) (bufferOffset p)) p in
    (set_bufferOffset (length (buffer p)) p, moreData)
  else
    let n := N.to_nat (bodyLength p) in
    let bodyData := slice (buffer p) (bufferOffset p) (bufferOffset p + n) in
    let p := appendToBody bodyData p in
    let p := set_bufferOffset (bufferOffset p + n) p in
    (p, createCompleteMessage p).

Definition parseChunkedSize (p : HttpParser) : HttpParser * StepResult :=
  match findCRLF (buffer p) (bufferOffset p) (length (buffer p) - 1) with
  | None => (p, moreData)
  | Some lineEnd =>
      let chunkSizeLine := decodeUtf8 (slice (buffer p) (bufferOffset p) lineEnd) in
      let sizeStr := trim (before_semicolon chunkSizeLine) in
      match parseChunkSize sizeStr (maxBodySize (options p)) with
      | None =>
          (p, failure (createError INVALID_CHUNK_SIZE BODY_CHUNKED_SIZE
                                   (Some (bufferOffset p))))
      | Some size =>
          let p := set_bufferOffset (lineEnd + 2)
                     (set_chunkBytesRead 0 (set_chunkSize size p)) in
          if (size =? 0)%N then (set_state BODY_CHUNKED_TRAILER p, proceed)
          else
            let p := set_totalChunks (totalChunks p + 1) p in
            if (maxChunks (options p) <? totalChunks p)%Z
            then (p, failure (createError BODY_TOO_LARGE BODY_CHUNKED_DATA
                                          (Some (bufferOffset p))))
            else (set_state BODY_CHUNKED_DATA p, proceed)
      end
  end.

(** [chunkBytesRead] never exceeds [chunkSize] (it is 0 or [chunkSize]), so
    [toRead] is a natural number. *)
Definition parseChunkedData (p : HttpParser) : HttpParser * StepResult :=
  let remaining := getBufferedBytes p in
  let toRead := (chunkSize p - chunkBytesRead p)%N in
  if (remaining <? Z.of_N toRead + 2)%Z then
    if (Z.of_N toRead <=? remaining)%Z then
      let p := appendToBody
                 (slice (buffer p) (bufferOffset p) (bufferOffset p + N.to_nat toRead))
                 p in
      let p := set_chunkBytesRead (chunkBytesRead p + toRead) p in
      let p := set_bufferOffset (bufferOffset p + N.to_nat toRead) p in
      (p, moreData)
    else
      let p := appendToBody (slice_from (buffer p) (bufferOffset p)) p in
      (set_bufferOffset (length (buffer p)) p, moreData)
  else
    let chunkData :=
      slice (buffer p) (bufferOffset p) (bufferOffset p + N.to_nat toRead) in
    let p := appendToBody chunkData p in
    let p := set_bufferOffset (bufferOffset p + N.to_nat toRead) p in
    let p :=
      if byte_is (buffer p) (bufferOffset p) CR
         && byte_is (buffer p) (bufferOffset p + 1) LF
      then set_bufferOffset (bufferOffset p + 2) p
      else p in
    (set_state BODY_CHUNKED_SIZE p, proceed).

Definition parseChunkedTrailer (p : HttpParser) : HttpParser * StepResult :=
  let bufferLength := length (buffer p) in
  match findCRLFCRLF (buffer p) (bufferOffset p) (bufferLength - 3) with
  | Some i =>
      let p := set_bufferOffset (i + 4) p in
      (p, createCompleteMessage p)
  | None =>
      if (2 <=? bufferLength)
         && byte_is (buffer p) (bufferLength - 2) CR
         && byte_is (buffer p) (bufferLength - 1) LF
      then
        let p := set_bufferOffset bufferLength p in
        (p, createCompleteMessage p)
      else (p, moreData)
  end.

Definition parseNext (p : HttpParser) : HttpParser * StepResult :=
  match state p with
  | IDLE => parseMessageStart p
  | REQUEST_LINE => parseRequestLine p
  | STATUS_LINE => parseStatusLine p
  | HEADERS => parseHeaders p
  | BODY_CONTENT_LENGTH => parseBodyContentLength p
  | BODY_CHUNKED_SIZE => parseChunkedSize p
  | BODY_CHUNKED_DATA => parseChunkedData p
  | BODY_CHUNKED_TRAILER => parseChunkedTrailer p
  | COMPLETE =>
      (p, {| complete := true; needsMoreData := false; message := None;
             error := None |})
  | ERROR => (p, failure (createError UNKNOWN (state p) None))
  | BODY_CHUNKED => (p, failure (createError UNKNOWN (state p) None))
  end.

(** ** [parse]

    The [while] loop, with a bound on its iterations: [None] means the
    bound was reached.  A pushed [message] may be [undefined] (the COMPLETE
    state carries none), hence the options in the list. *)
Fixpoint parseLoop (fuel : nat) (p : HttpParser) (messages : list (option HttpMessage))
  : option (HttpParser * list (option HttpMessage)) :=
  match fuel with
  | 0 => None
  | S fuel' =>
      if ParserState_eqb (state p) ERROR then Some (p, messages)
      else
        let (p1, result) := parseNext p in
        match error result with
        | Some _ => Some (set_state ERROR p1, messages)
        | None =>
            let (p2, messages2) :=
              if complete result
              then (reset false (compactBuffer p1), messages ++ [message result])
              else (p1, messages) in
            if needsMoreData result then Some (p2, messages2)
            else parseLoop fuel' p2 messages2
        end
  end.

(** The bytes not yet consumed. *)
Definition unread (p : HttpParser) : nat := length (buffer p) - bufferOffset p.

Definition rank (s : ParserState) : nat :=
  match s with
  | BODY_CONTENT_LENGTH | BODY_CHUNKED_TRAILER | COMPLETE => 2
  | IDLE | BODY_CHUNKED_DATA => 1
  | _ => 0
  end.

(** A bound on the iterations of the loop from [p]: every iteration that
    goes on either consumes a byte or moves to a state of lower rank. *)
Definition iterations (p : HttpParser) : nat := 4 * unread p + rank (state p).

Definition parse (data : bytes) (p : HttpParser)
  : HttpParser * list (option HttpMessage) :=
  let p0 := appendBuffer data p in
  match parseLoop (S (iterations p0)) p0 [] with
  | Some r => r
  | None => (p0, [])
  end.

End WithPlatform.

(** [createRequest(method, target, headers, body)], where [headers] is
    [Object.entries] of the record passed and an absent body is [None]. *)
Definition createRequest (method target : jsstring)
    (headers : list (jsstring * jsstring)) (body : option bytes) : bytes :=
  let requestLine := {| method := method; target := target; version := HTTP_1_1 |} in
  let hasBody := match body with Some b => 0 <? length b | None => false end in
  let bodyBytes := match body with Some b => b | None => [] end in
  let parts := [Request.formatRequestLine requestLine] in
  let parts :=
    parts ++ map (fun nv : jsstring * jsstring =>
                    let (name, value) := nv in
                    encodeUtf8 (name ++ lit ": " ++ value ++ [13; 10]%N))
                 headers in
  let parts :=
    if hasBody
    then parts ++ [encodeUtf8 (lit "Content-Length: "
                               ++ lengthToString (length bodyBytes) ++ [13; 10]%N)]
    else parts in
  let parts := parts ++ [[CR; LF]] in
  let parts := if hasBody then parts ++ [bodyBytes] else parts in
  List.concat parts.

End Parser.

(* ===================================================================== *)
(** * Notions used by the properties *)
(* ===================================================================== *)

Module Feed.
Import Parser.

Section WithPlatform.
Variable toLowerCase : jsstring -> jsstring.
Variable entropy : nat -> jsstring.

(** Successive [parse] calls, one per fragment: the parser afterwards and
    the messages of all calls in order. *)
Fixpoint parseAll (fragments : list bytes) (p : HttpParser)
  : HttpParser * list (option HttpMessage) :=
  match fragments with
  | [] => (p, [])
  | f :: rest =>
      let (p1, ms1) := Parser.parse toLowerCase entropy f p in
      let (p2, ms2) := parseAll rest p1 in
      (p2, ms1 ++ ms2)
  end.

(** The state the loop continues from after a handler returned [r]. *)
Definition afterStep (p1 : HttpParser) (r : StepResult) : HttpParser :=
  if complete r then reset false (compactBuffer p1) else p1.

(** The handlers run from [p] until one reports a complete message, with
    no error and no wait for data before: the parser as that handler left
    it, and the message. *)
Fixpoint firstMessage (fuel : nat) (p : HttpParser)
  : option (HttpParser * option HttpMessage) :=
  match fuel with
  | 0 => None
  | S fuel' =>
      if ParserState_eqb (state p) ERROR then None
      else
        let (p1, r) := parseNext toLowerCase entropy p in
        match error r with
        | Some _ => None
        | None =>
            if needsMoreData r then None
            else if complete r then Some (p1, message r)
            else firstMessage fuel' p1
        end
  end.


End WithPlatform.

(** Whether the parser, idle before the bytes [R], reads a start line from
    them: there are four bytes at least, and the parser of status lines
    (when they begin with HTTP) or of request lines returns a line. *)
Definition startLineRead (R : bytes) : bool :=
  (4 <=? length R) &&
  (if byte_is R 0 x48 && byte_is R 1 x54 && byte_is R 2 x54 && byte_is R 3 x50
   then match Response.statusLine (Response.parseStatusLine R 0 (length R)) with
        | Some _ => true
        | None => false
        end
   else match Request.requestLine (Request.parseRequestLine R 0 (length R)) with
        | Some _ => true
        | None => false
        end).

(** The parser [p] with the bytes [R] after those of its buffer. *)
Definition followedBy (R : bytes) (p : HttpParser) : HttpParser :=
  set_buffer (buffer p ++ R) p.



(** The bytes buffered and not yet consumed. *)
Definition pending (p : HttpParser) : bytes :=
  slice_from (buffer p) (bufferOffset p).

(** Framing fields of an emitted message: the tag is always
    [CONTENT_LENGTH]; the length is that of the body, or absent with an
    empty body. *)
Definition framed (m : HttpMessage) : Prop :=
  m_transferEncoding m = CONTENT_LENGTH /\
  (m_contentLength m = Some (length (m_body m)) \/
   m_contentLength m = None /\ m_body m = []).

(** A handler result that emits a message with an empty body and the
    headers [hs]. *)
Definition emitsEmptyBody (hs : Headers.HeadersMap) (r : StepResult) : Prop :=
  complete r = true /\
  exists m, message r = Some m /\ m_body m = [] /\ m_headers m = Some hs.

Definition framedOpt (m : option HttpMessage) : Prop :=
  match m with Some m => framed m | None => True end.

(** The states in which no body byte has been read yet. *)
Definition headPhase (s : ParserState) : bool :=
  match s with
  | IDLE | REQUEST_LINE | STATUS_LINE | HEADERS => true
  | _ => false
  end.

(** What holds of a parser between handlers: the body is still null while
    the start line and the headers are read, and no more bytes of a chunk
    are counted as read than the chunk has. *)
Record steady (p : HttpParser) : Prop := {
  steady_body : headPhase (state p) = true -> body p = None;
  steady_chunk : (chunkBytesRead p <= chunkSize p)%N
}.

(** The body collected so far, if any, has bytes. *)
Definition bodyNotEmpty (p : HttpParser) : Prop :=
  match body p with Some b => b <> [] | None => True end.

(** What holds of the body between the handlers of a parser that started
    new, state by state: the body is null until the headers are read; a
    length still to be read is not zero; inside a chunk the size is not
    zero, and either none of it is counted as read or all of it is and the
    body has bytes; between chunks the body is null or has bytes. *)
Definition settled (p : HttpParser) : Prop :=
  match state p with
  | IDLE | REQUEST_LINE | STATUS_LINE | HEADERS => body p = None
  | BODY_CONTENT_LENGTH => bodyLength p <> 0%N
  | BODY_CHUNKED_SIZE | BODY_CHUNKED_TRAILER => bodyNotEmpty p
  | BODY_CHUNKED_DATA =>
      chunkSize p <> 0%N /\
      (chunkBytesRead p = 0%N \/
       chunkBytesRead p = chunkSize p /\ exists b, body p = Some b /\ b <> [])
  | COMPLETE | BODY_CHUNKED | ERROR => True
  end.

(** Framing fields of an emitted message, exactly: the length of the body
    when it has bytes, absent when it has none. *)
Definition framedExactly (m : HttpMessage) : Prop :=
  m_transferEncoding m = CONTENT_LENGTH /\
  m_contentLength m =
    match m_body m with [] => None | _ :: _ => Some (length (m_body m)) end.

Definition framedExactlyOpt (m : option HttpMessage) : Prop :=
  match m with Some m => framedExactly m | None => True end.

(** The states in which the start line is still to be read. *)
Definition startPhase (s : ParserState) : bool :=
  match s with
  | IDLE | REQUEST_LINE | STATUS_LINE => true
  | _ => false
  end.

(** The offset lies within the buffer, and nothing is consumed yet while
    the start line is to be read. *)
Record inBounds (p : HttpParser) : Prop := {
  inBounds_offset : bufferOffset p <= length (buffer p);
  inBounds_start : startPhase (state p) = true -> bufferOffset p = 0
}.

(** The bytes still pending are a suffix of [all]. *)
Definition suffixOf (all : bytes) (p : HttpParser) : Prop :=
  inBounds p /\ exists consumed, all = consumed ++ pending p.

End Feed.

Module HeadersSpec.
Import Headers.

(** Every code unit is below 128. *)
Definition isAscii (s : jsstring) : bool := forallb (fun c => c <? 128)%N s.

Section WithPlatform.
Variable toLowerCase : jsstring -> jsstring.
Variable entropy : nat -> jsstring.

(** [header] has the same lowercase name as [n]. *)
Definition sameLower (n : jsstring) (header : Header) : bool :=
  jseqb (toLowerCase (name header)) (toLowerCase n).

(** The entry [kh] is filed under the lowercase name [l]. *)
Definition carries (l : jsstring) (kh : jsstring * Header) : bool :=
  jseqb (toLowerCase (name (snd kh))) l.

(** The keys of the entries filed under [l], in insertion order. *)
Definition keysWith (h : HeadersMap) (l : jsstring) : list jsstring :=
  map fst (filter (carries l) (headers h)).

(** The key list that [lowerCaseMap] holds for [l]. *)
Definition index (h : HeadersMap) (l : jsstring) : list jsstring :=
  match map_get (lowerCaseMap h) l with Some ks => ks | None => [] end.

(** The invariant of a container: keys are unique, and the list kept for
    each lowercase name is exactly the keys of the entries that carry it,
    and is never empty. *)
Record wf (h : HeadersMap) : Prop := {
  wf_keys : NoDup (map_keys (headers h));
  wf_lower : NoDup (map_keys (lowerCaseMap h));
  wf_index : forall l, index h l = keysWith h l;
  wf_nonempty : forall l, map_get (lowerCaseMap h) l <> Some []
}.
(** What [delete] and [set] remove. *)
Definition without (l : jsstring) (h : HeadersMap) : HeadersMap :=
  {| headers := fold_left (fun m k => map_delete m k) (index h l) (headers h);
     lowerCaseMap := map_delete (lowerCaseMap h) l |}.


(** The line [toBytes] writes for an entry, without its CR LF. *)
Definition lineOf (header : Header) : jsstring :=
  name header ++ lit ": " ++ value header.

Fixpoint hasCRLF (s : jsstring) : bool :=
  match s with
  | c :: t =>
      match t with
      | d :: _ => ((c =? 13) && (d =? 10))%N || hasCRLF t
      | [] => false
      end
  | [] => false
  end.

(** An entry that survives a round trip through [parseHeaderLine]: name and
    value are non-empty and trimmed, the name has no colon, and the line has
    no CR LF inside. *)
Record clean (header : Header) : Prop := {
  clean_name : name header <> [];
  clean_value : value header <> [];
  clean_name_trim : trim (name header) = name header;
  clean_value_trim : trim (value header) = value header;
  clean_colon : indexOf (name header) 58 = None;
  clean_crlf : hasCRLF (lineOf header) = false
}.


(** What [parseHeaderLine] yields: name and value are non-empty and
    trimmed, and the name has no colon. *)
Record tidy (header : Header) : Prop := {
  tidy_name : name header <> [];
  tidy_value : value header <> [];
  tidy_name_trim : trim (name header) = name header;
  tidy_value_trim : trim (value header) = value header;
  tidy_colon : indexOf (name header) 58 = None
}.

(** The entry that a pair of [Object.entries] stands for. *)
Definition headerOf (pair : jsstring * jsstring) : Header :=
  {| name := fst pair; value := snd pair |}.

(** The keys drawn when [hs] are appended in turn, from draw [i] on. *)
Fixpoint drawnKeys (hs : list Header) (i : nat) : list jsstring :=
  match hs with
  | [] => []
  | header :: rest => uniqueKey (name header) (entropy i) :: drawnKeys rest (S i)
  end.

(** [hs] appended in turn, from draw [i] on. *)
Fixpoint appendAll (hs : list Header) (i : nat) (acc : HeadersMap) : HeadersMap :=
  match hs with
  | [] => acc
  | header :: rest =>
      appendAll rest (S i) (append toLowerCase (entropy i) (name header) (value header) acc)
  end.

(** The value of the last of [pairs] whose key has the lowercase form of
    [n], or [start] when there is none. *)
Definition lastValue (n : jsstring) (pairs : list (jsstring * jsstring))
    (start : option jsstring) : option jsstring :=
  fold_left
    (fun found (pair : jsstring * jsstring) =>
       if jseqb (toLowerCase (fst pair)) (toLowerCase n) then Some (snd pair)
       else found)
    pairs start.

End WithPlatform.

End HeadersSpec.

Module Shape.
Import Parser Feed.

(** A status line as [parseStatusLine] accepts it: a valid version and a
    whole status code from 100 to 999. *)
Definition statusLineOk (sl : StatusLine) : Prop :=
  isValidVersion (sl_version sl) = true /\
  exists n, statusCode sl = Integer false n /\ (100 <= n <= 999)%N.

(** The start line of the message being read is there and has passed its
    validators. *)
Definition startLineOk (t : option MessageType) (rl : option RequestLine)
    (sl : option StatusLine) : Prop :=
  match t with
  | Some REQUEST => exists l, rl = Some l /\ Request.validateRequestLine l = true
  | Some RESPONSE => exists l, sl = Some l /\ statusLineOk l
  | None => False
  end.

(** [q] carries the start line, the headers, the flag and the options of [p]. *)
Definition sameHead (p q : HttpParser) : Prop :=
  messageType q = messageType p /\ Parser.requestLine q = Parser.requestLine p /\
  Parser.statusLine q = Parser.statusLine p /\ Parser.headers q = Parser.headers p /\
  keepAlive q = keepAlive p /\ options q = options p.

Section Coherence.
Variable toLowerCase : jsstring -> jsstring.

(** What a Connection header says: keep the connection unless its
    lowercase value is [close]. *)
Definition byConnection (hs : Headers.HeadersMap) : bool :=
  match Headers.get toLowerCase hs (lit "connection") with
  | Some c => if truthy c then negb (jseqb (toLowerCase c) (lit "close")) else true
  | None => true
  end.

(** The keep-alive flag of a message with headers [hs]: false for a
    response whose status line says HTTP/1.0, else what Connection says. *)
Definition keepAliveRule (hs : Headers.HeadersMap) (t : option MessageType)
    (sl : option StatusLine) : bool :=
  match t, sl with
  | Some RESPONSE, Some l =>
      if jseqb (sl_version l) HTTP_1_0 then false else byConnection hs
  | _, _ => byConnection hs
  end.

(** Headers as the HEADERS state lets them through: validated as the
    options ask, within [maxHeaders], each entry as [parseHeaderLine]
    yields it. *)
Definition headersOk (o : ParserOptions) (hs : Headers.HeadersMap) : Prop :=
  headersValid o hs = true /\
  (Z.of_nat (Headers.totalEntries hs) <= Z.max 0 (maxHeaders o))%Z /\
  forall hd, In hd (Headers.toArray hs) -> HeadersSpec.tidy hd.

(** The fields of a parser that has read the start line and the headers. *)
Definition collected (p : HttpParser) : Prop :=
  startLineOk (messageType p) (Parser.requestLine p) (Parser.statusLine p) /\
  exists hs, Parser.headers p = Some hs /\ headersOk (options p) hs /\
             keepAlive p = keepAliveRule hs (messageType p) (Parser.statusLine p).

(** What holds of a parser between handlers, state by state.  COMPLETE and
    BODY_CHUNKED are never entered. *)
Definition coherent (p : HttpParser) : Prop :=
  match state p with
  | IDLE => keepAlive p = true
  | REQUEST_LINE => messageType p = Some REQUEST /\ keepAlive p = true
  | STATUS_LINE => messageType p = Some RESPONSE /\ keepAlive p = true
  | HEADERS =>
      startLineOk (messageType p) (Parser.requestLine p) (Parser.statusLine p)
      /\ keepAlive p = true
  | BODY_CONTENT_LENGTH | BODY_CHUNKED_SIZE | BODY_CHUNKED_DATA
  | BODY_CHUNKED_TRAILER => collected p
  | ERROR => True
  | COMPLETE | BODY_CHUNKED => False
  end.

(** An emitted message: complete, with a validated start line of its type,
    validated headers, and the keep-alive flag that follows from them. *)
Definition wellFormed (o : ParserOptions) (m : HttpMessage) : Prop :=
  m_complete m = true /\
  match m_type m, m_startLine m with
  | REQUEST, RequestStart (Some l) => Request.validateRequestLine l = true
  | RESPONSE, StatusStart (Some l) => statusLineOk l
  | _, _ => False
  end /\
  exists hs, m_headers m = Some hs /\ headersOk o hs /\
    m_keepAlive m =
      keepAliveRule hs (Some (m_type m))
        (match m_startLine m with StatusStart sl => sl | RequestStart _ => None end).

Definition wellFormedOpt (o : ParserOptions) (m : option HttpMessage) : Prop :=
  match m with Some m => wellFormed o m | None => False end.

(** What one handler leaves behind: a well-formed message when it reports
    one, a coherent parser when it goes on. *)
Definition stepOk (o : ParserOptions) (p1 : HttpParser) (r : StepResult) : Prop :=
  match error r with
  | Some _ => True
  | None => if complete r then wellFormedOpt o (message r) else coherent p1
  end.

(** A coherent parser with the options [o]. *)
Definition ready (o : ParserOptions) (p : HttpParser) : Prop :=
  coherent p /\ options p = o.

End Coherence.

End Shape.

(** Text on the wire. *)
Module Wire.
Import Headers HeadersSpec.

(** Every unit is a visible ASCII character (33 to 126). *)
Definition visible (s : jsstring) : bool :=
  forallb (fun c => (32 <? c) && (c <? 127))%N s.

(** No unit is a carriage return. *)
Definition noCR (s : jsstring) : bool := forallb (fun c => negb (c =? 13)%N) s.

(** The bytes of an ASCII text, one per unit. *)
Definition asciiBytes (s : jsstring) : bytes := map toByte s.

(** A header that can be written on a line and read back: the name is an
    ASCII token, the value is non-empty, trimmed, valid and without
    carriage return, and the name is none of the two that frame a body. *)
Record sendable (allowUnderscore : bool) (header : Header) : Prop := {
  sendable_ascii : isAscii (name header) = true;
  sendable_name : isValidHeaderName (name header) allowUnderscore = true;
  sendable_value : isValidHeaderValue (value header) = true;
  sendable_nonempty : value header <> [];
  sendable_trim : trim (value header) = value header;
  sendable_noCR : noCR (value header) = true;
  sendable_framing :
    asciiToLowerCase (name header) <> lit "transfer-encoding" /\
    asciiToLowerCase (name header) <> lit "content-length"
}.

(** Lines, each followed by CR LF. *)
Definition joined (lines : list jsstring) : jsstring :=
  List.concat (map (fun l => l ++ [13; 10]%N) lines).

(** A header as a line can carry it: ASCII without carriage return, names
    and values valid, and the entry as [parseHeaderLine] reads it back. *)
Record lineOk (allowUnderscore : bool) (header : Header) : Prop := {
  lineOk_clean : clean header;
  lineOk_ascii : isAscii (lineOf header) = true;
  lineOk_noCR : noCR (lineOf header) = true;
  lineOk_name : isValidHeaderName (name header) allowUnderscore = true;
  lineOk_value : isValidHeaderValue (value header) = true
}.

(** The headers that [createRequest] writes: the given ones, then a
    Content-Length when there is a body. *)
Definition sentHeaders (headers : list (jsstring * jsstring)) (body : option bytes)
  : list Header :=
  map headerOf headers ++
  match body with
  | Some ((_ :: _) as b) =>
      [{| name := lit "Content-Length"; value := lengthToString (length b) |}]
  | _ => []
  end.

(** The first unit [c] of [T] from [s] on is at [i]. *)
Definition firstAt (T : jsstring) (c : N) (s i : nat) : Prop :=
  s <= i /\ nth_error T i = Some c /\ forall j, s <= j < i -> nth_error T j <> Some c.

(** Lines that are not empty and hold no carriage return. *)
Definition solid (ls : list jsstring) : Prop :=
  forall l, In l ls -> l <> [] /\ noCR l = true.

(** The head of a request as text: request line, header lines, empty line. *)
Definition requestText (method target : jsstring) (sent : list Header) : jsstring :=
  (method ++ 32%N :: target ++ 32%N :: HTTP_1_1)
  ++ 13%N :: 10%N :: (joined (map lineOf sent) ++ [13; 10]%N).

(** The message is a request with the line [rl], the body [b] and the
    headers [sent] in this order. *)
Definition requestRead (m : Parser.HttpMessage) (rl : RequestLine)
    (sent : list Header) (b : bytes) : Prop :=
  Parser.m_type m = REQUEST /\
  Parser.m_startLine m = Parser.RequestStart (Some rl) /\
  Parser.m_body m = b /\
  exists hs, Parser.m_headers m = Some hs /\ toArray hs = sent.

End Wire.

Module NumberSpec.

(** A decimal digit, and the value of a string of them. *)
Definition isDigit (c : N) : bool := ((48 <=? c) && (c <=? 57))%N.

Definition decimal (ds : jsstring) : N :=
  fold_left (fun a c => a * 10 + (c - 48))%N ds 0%N.

(** A hexadecimal digit (0-9, A-F, a-f), its value, and the value of a
    string of them. *)
Definition isHexDigit (c : N) : bool :=
  ((48 <=? c) && (c <=? 57) || (65 <=? c) && (c <=? 70)
   || (97 <=? c) && (c <=? 102))%N.

Definition hexDigitValue (c : N) : N :=
  (if c <=? 57 then c - 48 else if c <=? 70 then c - 55 else c - 87)%N.

Definition hexadecimal (ds : jsstring) : N :=
  fold_left (fun a c => a * 16 + hexDigitValue c)%N ds 0%N.

(** The letters of the prefixes [0x], [0o] and [0b], in either case. *)
Definition radixLetter (c : N) : bool :=
  ((c =? 120) || (c =? 88) || (c =? 111) || (c =? 79) || (c =? 98) || (c =? 66))%N.

(** [r] is empty or begins with a unit that is neither a hexadecimal digit
    nor an x: [parseInt] stops reading there. *)
Definition stops (r : jsstring) : Prop :=
  match r with
  | c :: _ => digitVal 16 c = None /\ c <> 120%N /\ c <> 88%N
  | [] => True
  end.

(** [x] is NaN or carries the sign [neg]. *)
Definition signIs (neg : bool) (x : number) : Prop :=
  match x with
  | NaN => True
  | Infinity b | Integer b _ | Fraction b _ _ => b = neg
  end.

End NumberSpec.

(** Chunked transfer coding as a sender writes it. *)
Module Chunks.
Import NumberSpec Wire.

(** A chunk on the wire: the size field, CR LF, the data, CR LF. *)
Definition chunkBytes (chunk : jsstring * bytes) : bytes :=
  asciiBytes (fst chunk) ++ CRLF ++ snd chunk ++ CRLF.

(** A chunked body without trailers: the chunks, the last chunk [0], and
    the empty line. *)
Definition chunkedBody (chunks : list (jsstring * bytes)) : bytes :=
  List.concat (map chunkBytes chunks) ++ asciiBytes (lit "0") ++ CRLF ++ CRLF.

(** A chunk whose size field gives the length of its data in hexadecimal
    digits; the data is not empty and no longer than [maxSize]. *)
Record chunkOk (maxSize : Z) (chunk : jsstring * bytes) : Prop := {
  chunkOk_digits : forallb isHexDigit (fst chunk) = true;
  chunkOk_size : hexadecimal (fst chunk) = N.of_nat (length (snd chunk));
  chunkOk_data : snd chunk <> [];
  chunkOk_limit : (len (snd chunk) <= maxSize)%Z;
  chunkOk_exact : (N.of_nat (length (snd chunk)) < 2 ^ 53)%N
}.

(** The body collected so far, empty while it is still null. *)
Definition collectedBody (p : Parser.HttpParser) : bytes :=
  match Parser.body p with Some b => b | None => [] end.

End Chunks.

(** Concrete runs: ASCII case mapping, and keys drawn from a counter. *)
Module Run.
Import Parser.

(** The [i]-th draw is the one-unit string with code [i]. *)
Definition drawn (i : nat) : jsstring := [N.of_nat i].

Abbreviation parse := (Parser.parse asciiToLowerCase drawn).
Abbreviation parseAll := (Feed.parseAll asciiToLowerCase drawn).
Abbreviation firstMessage := (Feed.firstMessage asciiToLowerCase drawn).
Abbreviation parseHeaders :=
  (fun text => Headers.parseHeaders asciiToLowerCase drawn text 256 8192).

(** [new HttpParser()] and [new HttpParser({ maxBodySize: 4 })] *)
Definition fresh : HttpParser := create DEFAULT_OPTIONS.

Definition smallBody : ParserOptions := {|
  allowUnderscoreInHeaders := true;
  enablePipelining := false;
  inactivityTimeout := 30000;
  maxBodySize := 4;
  maxChunks := 10000;
  maxHeaderLineLength := 8192;
  maxHeaders := 256;
  validateHeaderNames := true;
  validateHeaderValues := true
|}.

(** What a test would read off an emitted message. *)
Definition bodyOf (m : option HttpMessage) : option bytes := option_map m_body m.
Definition keepAliveOf (m : option HttpMessage) : option bool :=
  option_map m_keepAlive m.
Definition versionOf (m : option HttpMessage) : option jsstring :=
  match m with
  | Some m =>
      match m_startLine m with
      | RequestStart (Some rl) => Some (version rl)
      | StatusStart (Some sl) => Some (sl_version sl)
      | _ => None
      end
  | None => None
  end.
(** Sample inputs. *)
Definition hostRequest : bytes :=
  blit "GET / HTTP/1.1" ++ CRLF ++ blit "Host: example.com" ++ CRLF ++ CRLF.

Definition twoCookies : Headers.HeadersMap :=
  Headers.append asciiToLowerCase (drawn 1) (lit "Set-Cookie") (lit "b=2")
    (Headers.append asciiToLowerCase (drawn 0) (lit "Set-Cookie") (lit "a=1")
       Headers.empty).

Definition hostAccept : Headers.HeadersMap :=
  Headers.append asciiToLowerCase (drawn 1) (lit "Accept") (lit "text/html")
    (Headers.append asciiToLowerCase (drawn 0) (lit "Host") (lit "example.com")
       Headers.empty).

(** The entries of [hostAccept] appended in the other order. *)
Definition acceptHost : Headers.HeadersMap :=
  Headers.append asciiToLowerCase (drawn 1) (lit "Host") (lit "example.com")
    (Headers.append asciiToLowerCase (drawn 0) (lit "Accept") (lit "text/html")
       Headers.empty).

End Run.

(* ===================================================================== *)
(** * Facts about the platform functions *)
(* ===================================================================== *)

Module JSFacts.

Lemma jseqb_eq a b : jseqb a b = true <-> a = b.
Proof. unfold jseqb. destruct (list_eq_dec N.eq_dec a b); split; congruence. Qed.

Lemma jseqb_refl a : jseqb a a = true.
Proof. apply jseqb_eq. reflexivity. Qed.


Lemma jseqb_neq a b : jseqb a b = false <-> a <> b.
Proof. unfold jseqb. destruct (list_eq_dec N.eq_dec a b); split; congruence. Qed.

Lemma jseqb_sym a b : jseqb a b = jseqb b a.
Proof.
  destruct (jseqb a b) eqn:E; symmetry.
  - apply jseqb_eq in E. subst. apply jseqb_refl.
  - apply jseqb_neq in E. apply jseqb_neq. congruence.
Qed.

Lemma scan_some P from n i :
  scan P from n = Some i ->
  from <= i < from + n /\ P i = true /\ forall j, from <= j < i -> P j = false.
Proof.
  revert from. induction n as [|n IH]; intros from H; simpl in H; [discriminate|].
  destruct (P from) eqn:E.
  - injection H as <-. repeat split; try lia. exact E.
  - apply IH in H. destruct H as (Hr & Hp & Hb). repeat split; try lia; auto.
    intros j Hj. destruct (Nat.eq_dec j from) as [->|]; auto. apply Hb. lia.
Qed.

Lemma scan_none P from n :
  scan P from n = None -> forall j, from <= j < from + n -> P j = false.
Proof.
  revert from. induction n as [|n IH]; intros from H j Hj; simpl in H; [lia|].
  destruct (P from) eqn:E; [discriminate|].
  destruct (Nat.eq_dec j from) as [->|]; auto. apply (IH _ H). lia.
Qed.

End JSFacts.
Import JSFacts.

(* ===================================================================== *)
(** * The parse loop terminates *)
(* ===================================================================== *)

Module LoopFacts.
Import Parser Feed.

Ltac split_cases :=
  repeat match goal with
         | |- context [match ?c with Some _ => _ | None => _ end] => destruct c
         | |- context [if ?c then _ else _] => destruct c
         end.

Lemma Request_consumes data start stop :
  let res := Request.parseRequestLine data start stop in
  Request.needsMoreData res = false -> Request.error res = None ->
  1 <= Request.bytesConsumed res /\ start < stop.
Proof.
  unfold Request.parseRequestLine.
  destruct (findCRLF data start (stop - 1)) as [i|] eqn:Ecr.
  - apply scan_some in Ecr. destruct Ecr as (Hi & _).
    destruct (findSpace data start i) as [fs|] eqn:Efs; [|simpl; discriminate].
    apply scan_some in Efs. destruct Efs as (Hfs & _).
    cbv zeta. split_cases; simpl; intros; try discriminate; lia.
  - destruct (findSpace data start stop) as [fs|] eqn:Efs; [|simpl; discriminate].
    apply scan_some in Efs. destruct Efs as (Hfs & _).
    cbv zeta. split_cases; simpl; intros; try discriminate; lia.
Qed.

Lemma Response_consumes data start stop :
  let res := Response.parseStatusLine data start stop in
  Response.needsMoreData res = false -> Response.error res = None ->
  1 <= Response.bytesConsumed res /\ start < stop.
Proof.
  unfold Response.parseStatusLine.
  destruct (findCRLF data start (stop - 1)) as [i|] eqn:Ecr.
  - apply scan_some in Ecr. destruct Ecr as (Hi & _).
    destruct (findSpace data start i) as [fs|] eqn:Efs; [|simpl; discriminate].
    apply scan_some in Efs. destruct Efs as (Hfs & _).
    cbv zeta. split_cases; simpl; intros; try discriminate; lia.
  - destruct (findSpace data start stop) as [fs|] eqn:Efs; [|simpl; discriminate].
    apply scan_some in Efs. destruct Efs as (Hfs & _).
    cbv zeta. split_cases; simpl; intros; try discriminate; lia.
Qed.

Lemma unread_compact p : unread (compactBuffer p) = unread p.
Proof.
  unfold compactBuffer, unread. destruct (0 <? bufferOffset p) eqn:E; auto.
  simpl. unfold slice_from. rewrite length_skipn. lia.
Qed.

Lemma createCompleteMessage_flags p :
  complete (createCompleteMessage p) = true /\
  needsMoreData (createCompleteMessage p) = false /\
  error (createCompleteMessage p) = None.
Proof. unfold createCompleteMessage. destruct (messageType p) as [[]|]; auto. Qed.

Lemma appendToBody_buffer d p :
  buffer (appendToBody d p) = buffer p /\
  bufferOffset (appendToBody d p) = bufferOffset p.
Proof.
  unfold appendToBody. destruct (body p); simpl;
  match goal with |- context [if ?c then _ else _] => destruct c end; auto.
Qed.

Lemma iterations_afterStep_complete p1 r :
  complete r = true -> iterations (afterStep p1 r) = 4 * unread p1 + 1.
Proof.
  intros C. unfold afterStep. rewrite C. unfold iterations.
  change (state (reset false (compactBuffer p1))) with IDLE. simpl rank.
  f_equal. f_equal.
  rewrite <- (unread_compact p1). reflexivity.
Qed.

Section WithPlatform.
Variable toLowerCase : jsstring -> jsstring.
Variable entropy : nat -> jsstring.

Lemma handleHeadersComplete_measure hs p p1 r :
  handleHeadersComplete toLowerCase hs p = (p1, r) ->
  error r = None /\ needsMoreData r = false /\
  unread p1 = unread p /\ rank (state p1) <= 2 + rank (state p).
Proof.
  unfold handleHeadersComplete.
  set (p2 := set_headers _ p).
  set (p3 := match Headers.get _ _ (lit "connection") with Some _ => _ | None => _ end).
  set (p4 := match messageType p3, statusLine p3 with Some RESPONSE, Some _ => _ | _, _ => _ end).
  assert (U : unread p4 = unread p /\ state p4 = state p).
  { subst p4 p3 p2. split_cases; split; reflexivity. }
  destruct U as [U U'].
  destruct (match Headers.get _ _ (lit "transfer-encoding") with Some _ => _ | None => _ end).
  - intros [= <- <-]. unfold unread in *. simpl. repeat split; auto. lia.
  - destruct (match Headers.get _ _ (lit "content-length") with Some _ => _ | None => _ end) as [n|].
    + destruct (n =? 0)%N.
      * intros [= <- <-]. pose proof (createCompleteMessage_flags (set_bodyLength n p4)) as (A & B & C).
        rewrite B, C. repeat split; auto. simpl. rewrite U'. lia.
      * intros [= <- <-]. unfold unread in *. simpl. repeat split; auto. lia.
    + intros [= <- <-]. pose proof (createCompleteMessage_flags p4) as (A & B & C).
      rewrite B, C. repeat split; auto. rewrite U'. lia.
Qed.

Lemma step_decreases p p1 r :
  parseNext toLowerCase entropy p = (p1, r) ->
  error r = None -> needsMoreData r = false ->
  iterations (afterStep p1 r) < iterations p.
Proof.
  unfold parseNext. destruct (state p) eqn:St.
  - (* IDLE *)
    unfold parseMessageStart. split_cases; intros [= <- <-]; try discriminate;
    intros _ _; unfold afterStep, iterations, unread; simpl; rewrite St; simpl; lia.
  - (* REQUEST_LINE *)
    unfold parseRequestLine.
    pose proof (Request_consumes (buffer p) (bufferOffset p) (length (buffer p))) as H.
    cbv zeta in H.
    destruct (Request.needsMoreData _); [intros [= <- <-]; discriminate|].
    destruct (Request.error _); [intros [= <- <-]; discriminate|].
    destruct H as [H1 H2]; auto.
    intros [= <- <-] _ _. unfold afterStep, iterations, unread. simpl. lia.
  - (* STATUS_LINE *)
    unfold parseStatusLine.
    pose proof (Response_consumes (buffer p) (bufferOffset p) (length (buffer p))) as H.
    cbv zeta in H.
    destruct (Response.needsMoreData _); [intros [= <- <-]; discriminate|].
    destruct (Response.error _); [intros [= <- <-]; discriminate|].
    destruct H as [H1 H2]; auto.
    intros [= <- <-] _ _. unfold afterStep, iterations, unread. simpl. lia.
  - (* HEADERS *)
    unfold parseHeaders. cbv zeta.
    destruct (findCRLFCRLF _ _ _) as [i|] eqn:E.
    + apply scan_some in E. destruct E as (Hi & _).
      destruct (Headers.parseHeaders _ _ _ _ _) as [hs|]; [|intros [= <- <-]; discriminate].
      destruct (negb _); [intros [= <- <-]; discriminate|].
      intros H _ _. apply handleHeadersComplete_measure in H.
      destruct H as (_ & _ & U & R).
      assert (U1 : unread p1 + 4 <= unread p).
      { rewrite U. unfold unread. simpl. lia. }
      destruct (complete r) eqn:C.
      * rewrite iterations_afterStep_complete by auto. unfold iterations. lia.
      * unfold afterStep. rewrite C. unfold iterations. simpl in R. lia.
    + destruct (_ && _)%bool; [intros [= <- <-]; discriminate|].
      destruct (((getBufferedBytes p =? 2)%Z && _ && _)%bool) eqn:G;
        [|intros [= <- <-]; discriminate].
      apply andb_prop in G. destruct G as [G _]. apply andb_prop in G.
      destruct G as [G _]. apply Z.eqb_eq in G. unfold getBufferedBytes, len in G.
      intros H _ _. apply handleHeadersComplete_measure in H.
      destruct H as (_ & _ & U & R).
      assert (U1 : unread p1 = 0 /\ unread p = 2).
      { rewrite U. unfold unread. simpl. lia. }
      destruct (complete r) eqn:C.
      * rewrite iterations_afterStep_complete by auto. unfold iterations. lia.
      * unfold afterStep. rewrite C. unfold iterations. simpl in R. lia.
  - (* BODY_CONTENT_LENGTH *)
    unfold parseBodyContentLength. cbv zeta.
    destruct (getBufferedBytes p <? _)%Z; [intros [= <- <-]; discriminate|].
    intros [= <- <-] _ _.
    rewrite iterations_afterStep_complete by apply createCompleteMessage_flags.
    unfold iterations, unread. simpl. rewrite St. simpl.
    destruct (appendToBody_buffer
      (slice (buffer p) (bufferOffset p) (bufferOffset p + N.to_nat (bodyLength p))) p)
      as [-> ->]. lia.
  - (* BODY_CHUNKED *) intros [= <- <-]; discriminate.
  - (* BODY_CHUNKED_SIZE *)
    unfold parseChunkedSize. destruct (findCRLF _ _ _) as [i|] eqn:E;
      [|intros [= <- <-]; discriminate].
    apply scan_some in E. destruct E as (Hi & _). cbv zeta.
    destruct (parseChunkSize _ _) as [sz|]; [|intros [= <- <-]; discriminate].
    destruct (sz =? 0)%N.
    + intros [= <- <-] _ _. unfold afterStep, iterations, unread. simpl. lia.
    + destruct (_ <? _)%Z; [intros [= <- <-]; discriminate|].
      intros [= <- <-] _ _. unfold afterStep, iterations, unread. simpl. lia.
  - (* BODY_CHUNKED_DATA *)
    unfold parseChunkedData. cbv zeta.
    destruct (getBufferedBytes p <? _)%Z.
    { destruct (_ <=? _)%Z; intros [= <- <-]; discriminate. }
    set (d := slice _ _ _).
    destruct (appendToBody_buffer d p) as [B O].
    intros [= <- <-] _ _. unfold afterStep, iterations, unread. simpl.
    rewrite St. simpl.
    destruct (_ && _)%bool; simpl; rewrite ?B, ?O; lia.
  - (* BODY_CHUNKED_TRAILER *)
    unfold parseChunkedTrailer. cbv zeta.
    destruct (findCRLFCRLF _ _ _) as [i|] eqn:E.
    + apply scan_some in E. destruct E as (Hi & _).
      intros [= <- <-] _ _.
      rewrite iterations_afterStep_complete by apply createCompleteMessage_flags.
      unfold iterations, unread. simpl. rewrite St. simpl. lia.
    + destruct (_ && _ && _)%bool; [|intros [= <- <-]; discriminate].
      intros [= <- <-] _ _.
      rewrite iterations_afterStep_complete by apply createCompleteMessage_flags.
      unfold iterations, unread. simpl. rewrite St. simpl. lia.
  - (* COMPLETE *)
    intros [= <- <-] _ _. rewrite iterations_afterStep_complete by reflexivity.
    unfold iterations. rewrite St. simpl. lia.
  - (* ERROR *) intros [= <- <-]; discriminate.
Qed.


Lemma parseLoop_enough n p acc :
  iterations p < n -> exists r, parseLoop toLowerCase entropy n p acc = Some r.
Proof.
  revert p acc. induction n as [|n IH]; intros p acc H; [lia|].
  simpl. destruct (ParserState_eqb (state p) ERROR); [eauto|].
  destruct (parseNext toLowerCase entropy p) as [p1 r] eqn:E.
  destruct (error r) eqn:Er; [eauto|].
  destruct (needsMoreData r) eqn:Em.
  - destruct (complete r); eauto.
  - pose proof (step_decreases _ _ _ E Er Em) as D. unfold afterStep in D.
    destruct (complete r); apply IH; lia.
Qed.

Lemma parseLoop_fuel n m p acc :
  iterations p < n -> iterations p < m ->
  parseLoop toLowerCase entropy n p acc = parseLoop toLowerCase entropy m p acc.
Proof.
  revert m p acc. induction n as [|n IH]; intros m p acc Hn Hm; [lia|].
  destruct m as [|m]; [lia|].
  simpl. destruct (ParserState_eqb (state p) ERROR); [reflexivity|].
  destruct (parseNext toLowerCase entropy p) as [p1 r] eqn:E.
  destruct (error r) eqn:Er; [reflexivity|].
  destruct (needsMoreData r) eqn:Em.
  - destruct (complete r); reflexivity.
  - pose proof (step_decreases _ _ _ E Er Em) as D. unfold afterStep in D.
    destruct (complete r); apply IH; lia.
Qed.

Lemma parse_parseLoop n data p :
  iterations (appendBuffer data p) < n ->
  parseLoop toLowerCase entropy n (appendBuffer data p) [] =
  Some (parse toLowerCase entropy data p).
Proof.
  intros H. unfold parse.
  rewrite (parseLoop_fuel n (S (iterations (appendBuffer data p)))) by lia.
  destruct (parseLoop_enough (S (iterations (appendBuffer data p)))
              (appendBuffer data p) []) as [r ->]; [lia|]. reflexivity.
Qed.

End WithPlatform.

End LoopFacts.

(* ===================================================================== *)
(** * Properties of the streaming parser *)
(* ===================================================================== *)

Module ParserProps.
Import Parser Feed LoopFacts.

Lemma scan_all_false P from n :
  (forall j, P j = false) -> scan P from n = None.
Proof.
  intros H. revert from. induction n as [|n IH]; intros from; simpl; auto.
  rewrite H. apply IH.
Qed.

Lemma findSpace_none data s e :
  (forall b, In b data -> b <> SP) -> findSpace data s e = None.
Proof.
  intros H. apply scan_all_false. intros j. unfold byte_is.
  destruct (nth_error data j) as [x|] eqn:E; auto.
  apply nth_error_In in E. apply H in E.
  destruct (Byte.eqb x SP) eqn:B; auto.
  apply Byte.byte_dec_bl in B. contradiction.
Qed.

Lemma Request_needMore data s e :
  (forall b, In b data -> b <> SP) ->
  Request.parseRequestLine data s e = Request.needMore.
Proof.
  intros H. unfold Request.parseRequestLine. cbv zeta.
  rewrite findSpace_none by assumption. reflexivity.
Qed.

Lemma Response_needMore data s e :
  (forall b, In b data -> b <> SP) ->
  Response.parseStatusLine data s e = Response.needMore.
Proof.
  intros H. unfold Response.parseStatusLine. cbv zeta.
  rewrite findSpace_none by assumption. reflexivity.
Qed.

Lemma steady_create o : steady (create o).
Proof. split; simpl; [reflexivity | lia]. Qed.

Lemma steady_reset b p : steady (reset b p).
Proof. split; simpl; [reflexivity | lia]. Qed.

Lemma steady_appendBuffer data p : steady p -> steady (appendBuffer data p).
Proof.
  intros [B C]. unfold appendBuffer. split_cases; split; simpl; assumption.
Qed.

Lemma appendToBody_chunk d p :
  chunkSize (appendToBody d p) = chunkSize p /\
  chunkBytesRead (appendToBody d p) = chunkBytesRead p /\
  (state (appendToBody d p) = state p \/ state (appendToBody d p) = ERROR).
Proof.
  unfold appendToBody. destruct (body p); simpl;
  match goal with |- context [if ?c then _ else _] => destruct c end; simpl; auto.
Qed.

Section WithPlatform.

Variable toLowerCase : jsstring -> jsstring.
Variable entropy : nat -> jsstring.

Lemma pending_appendBuffer data p :
  pending (appendBuffer data p) = pending p ++ data.
Proof.
  unfold appendBuffer, pending, slice_from.
  destruct (0 <? bufferOffset p) eqn:E; simpl.
  - destruct (length (skipn (bufferOffset p) (buffer p)) =? 0) eqn:L; simpl.
    + apply Nat.eqb_eq in L. apply length_zero_iff_nil in L. rewrite L. reflexivity.
    + reflexivity.
  - apply Nat.ltb_ge in E. assert (O : bufferOffset p = 0) by lia.
    destruct (length (buffer p) =? 0) eqn:L; simpl; rewrite O; simpl.
    + apply Nat.eqb_eq in L. apply length_zero_iff_nil in L. rewrite L. reflexivity.
    + reflexivity.
Qed.

Lemma state_appendBuffer data p : state (appendBuffer data p) = state p.
Proof.
  unfold appendBuffer. split_cases; reflexivity.
Qed.

Lemma parse_in_error data p :
  state p = ERROR ->
  parse toLowerCase entropy data p = (appendBuffer data p, []).
Proof.
  intros H. unfold parse. simpl. rewrite state_appendBuffer, H. reflexivity.
Qed.

(** C3: once the state is ERROR, every later [parse] call emits nothing,
    leaves the state ERROR and consumes none of the buffered bytes (the
    pending bytes only grow by the data handed in); [reset] then gives
    IDLE. *)
Theorem error_state_is_terminal (fragments : list bytes) (p : HttpParser) :
  getState p = ERROR ->
  let (p', messages) := parseAll toLowerCase entropy fragments p in
  messages = [] /\ getState p' = ERROR /\
  pending p' = pending p ++ List.concat fragments /\
  forall clearBuffer, getState (reset clearBuffer p') = IDLE.
Proof.
  unfold getState. revert p. induction fragments as [|f rest IH]; intros p H; simpl.
  - rewrite app_nil_r. auto.
  - rewrite parse_in_error by assumption.
    specialize (IH (appendBuffer f p)). rewrite state_appendBuffer in IH.
    specialize (IH H).
    destruct (parseAll toLowerCase entropy rest (appendBuffer f p)) as [p2 ms2].
    destruct IH as (-> & S2 & P2 & R2). rewrite P2, pending_appendBuffer, app_assoc.
    auto.
Qed.

Lemma createCompleteMessage_framed p : framedOpt (message (createCompleteMessage p)).
Proof.
  unfold createCompleteMessage.
  destruct (messageType p) as [[]|]; destruct (body p); simpl; unfold framed; simpl; auto.
Qed.

Lemma handleHeadersComplete_framed hs p p1 r :
  handleHeadersComplete toLowerCase hs p = (p1, r) -> framedOpt (message r).
Proof.
  unfold handleHeadersComplete.
  set (p2 := set_headers _ p).
  set (p3 := match Headers.get _ _ (lit "connection") with Some _ => _ | None => _ end).
  set (p4 := match messageType p3, statusLine p3 with Some RESPONSE, Some _ => _ | _, _ => _ end).
  destruct (match Headers.get _ _ (lit "transfer-encoding") with Some _ => _ | None => _ end).
  - intros [= <- <-]. exact I.
  - destruct (match Headers.get _ _ (lit "content-length") with Some _ => _ | None => _ end) as [n|].
    + destruct (n =? 0)%N; intros [= <- <-];
        [apply createCompleteMessage_framed | exact I].
    + intros [= <- <-]. apply createCompleteMessage_framed.
Qed.

Lemma parseNext_framed p p1 r :
  parseNext toLowerCase entropy p = (p1, r) -> framedOpt (message r).
Proof.
  unfold parseNext. destruct (state p).
  - unfold parseMessageStart. split_cases; intros [= <- <-]; exact I.
  - unfold parseRequestLine. split_cases; intros [= <- <-]; exact I.
  - unfold parseStatusLine. split_cases; intros [= <- <-]; exact I.
  - unfold parseHeaders. cbv zeta.
    destruct (findCRLFCRLF _ _ _).
    + destruct (Headers.parseHeaders _ _ _ _ _); [|intros [= <- <-]; exact I].
      destruct (negb _); [intros [= <- <-]; exact I|].
      apply handleHeadersComplete_framed.
    + destruct (_ && _)%bool; [intros [= <- <-]; exact I|].
      destruct (_ && _)%bool; [|intros [= <- <-]; exact I].
      apply handleHeadersComplete_framed.
  - unfold parseBodyContentLength. cbv zeta.
    destruct (_ <? _)%Z; intros [= <- <-];
      [exact I | apply createCompleteMessage_framed].
  - intros [= <- <-]; exact I.
  - unfold parseChunkedSize. cbv zeta. split_cases; intros [= <- <-]; exact I.
  - unfold parseChunkedData. cbv zeta.
    destruct (_ <? _)%Z; [destruct (_ <=? _)%Z|]; intros [= <- <-]; exact I.
  - unfold parseChunkedTrailer. cbv zeta.
    destruct (findCRLFCRLF _ _ _); [|destruct (_ && _)%bool]; intros [= <- <-];
      try exact I; apply createCompleteMessage_framed.
  - intros [= <- <-]; exact I.
  - intros [= <- <-]; exact I.
Qed.

Lemma parseLoop_framed n p acc p' ms :
  Forall framedOpt acc ->
  parseLoop toLowerCase entropy n p acc = Some (p', ms) ->
  Forall framedOpt ms.
Proof.
  revert p acc. induction n as [|n IH]; intros p acc Hacc; simpl; [discriminate|].
  destruct (ParserState_eqb (state p) ERROR); [intros [= <- <-]; assumption|].
  destruct (parseNext toLowerCase entropy p) as [p1 r] eqn:E.
  pose proof (parseNext_framed _ _ _ E) as F.
  destruct (error r); [intros [= <- <-]; assumption|].
  assert (Hacc' : Forall framedOpt (acc ++ [message r])).
  { apply Forall_app. split; auto. }
  destruct (complete r); destruct (needsMoreData r);
    try (intros [= <- <-]; assumption); apply IH; assumption.
Qed.

(** The framing fields of what [parse] emits, from whatever parser. *)
Lemma emitted_messages_framed data p m :
  In (Some m) (snd (parse toLowerCase entropy data p)) ->
  m_transferEncoding m = CONTENT_LENGTH /\
  (m_contentLength m = Some (length (m_body m)) \/
   m_contentLength m = None /\ m_body m = []).
Proof.
  intros H.
  pose proof (parse_parseLoop toLowerCase entropy _ data p (Nat.lt_succ_diag_r _)) as E.
  destruct (parse toLowerCase entropy data p) as [p' ms].
  apply parseLoop_framed in E; [|constructor].
  rewrite Forall_forall in E. apply (E (Some m) H).
Qed.


Lemma handleHeadersComplete_buffer hs p p1 r :
  handleHeadersComplete toLowerCase hs p = (p1, r) ->
  buffer p1 = buffer p /\ bufferOffset p1 = bufferOffset p.
Proof.
  unfold handleHeadersComplete. cbv zeta.
  split_cases; intros [= <- <-]; simpl; auto.
Qed.

Lemma parseNext_buffer p p1 r :
  parseNext toLowerCase entropy p = (p1, r) -> buffer p1 = buffer p.
Proof.
  unfold parseNext. destruct (state p).
  - unfold parseMessageStart. split_cases; intros [= <- <-]; reflexivity.
  - unfold parseRequestLine. split_cases; intros [= <- <-]; reflexivity.
  - unfold parseStatusLine. split_cases; intros [= <- <-]; reflexivity.
  - unfold parseHeaders. cbv zeta.
    destruct (findCRLFCRLF _ _ _).
    + destruct (Headers.parseHeaders _ _ _ _ _); [|intros [= <- <-]; reflexivity].
      destruct (negb _); [intros [= <- <-]; reflexivity|].
      intros H. apply handleHeadersComplete_buffer in H. destruct H as [-> _]. reflexivity.
    + destruct (_ && _)%bool; [intros [= <- <-]; reflexivity|].
      destruct (_ && _)%bool; [|intros [= <- <-]; reflexivity].
      intros H. apply handleHeadersComplete_buffer in H. destruct H as [-> _]. reflexivity.
  - unfold parseBodyContentLength. cbv zeta.
    destruct (_ <? _)%Z; intros [= <- <-]; simpl; apply appendToBody_buffer.
  - intros [= <- <-]; reflexivity.
  - unfold parseChunkedSize. cbv zeta. split_cases; intros [= <- <-]; reflexivity.
  - unfold parseChunkedData. cbv zeta.
    destruct (_ <? _)%Z; [destruct (_ <=? _)%Z|]; intros [= <- <-]; simpl;
      try apply appendToBody_buffer.
    destruct (_ && _)%bool; simpl; apply appendToBody_buffer.
  - unfold parseChunkedTrailer. cbv zeta.
    destruct (findCRLFCRLF _ _ _); [|destruct (_ && _)%bool]; intros [= <- <-];
      reflexivity.
  - intros [= <- <-]; reflexivity.
  - intros [= <- <-]; reflexivity.
Qed.

Lemma firstMessage_buffer k p p1 m :
  firstMessage toLowerCase entropy k p = Some (p1, m) -> buffer p1 = buffer p.
Proof.
  revert p. induction k as [|k IH]; intros p; simpl; [discriminate|].
  destruct (ParserState_eqb (state p) ERROR); [discriminate|].
  destruct (parseNext toLowerCase entropy p) as [q r] eqn:E.
  apply parseNext_buffer in E.
  destruct (error r); [discriminate|].
  destruct (needsMoreData r); [discriminate|].
  destruct (complete r).
  - intros [= <- <-]. assumption.
  - intros H. apply IH in H. congruence.
Qed.

Lemma parseLoop_firstMessage k p p1 m n n' acc :
  firstMessage toLowerCase entropy k p = Some (p1, m) ->
  iterations p < n ->
  iterations (reset false (compactBuffer p1)) < n' ->
  parseLoop toLowerCase entropy n p acc =
  parseLoop toLowerCase entropy n' (reset false (compactBuffer p1)) (acc ++ [m]).
Proof.
  revert p n. induction k as [|k IH]; intros p n; simpl; [discriminate|].
  intros H Hn Hn'. destruct n as [|n]; [lia|]. simpl.
  destruct (ParserState_eqb (state p) ERROR); [discriminate|].
  destruct (parseNext toLowerCase entropy p) as [q r] eqn:E.
  destruct (error r) eqn:Er; [discriminate|].
  destruct (needsMoreData r) eqn:Em; [discriminate|].
  pose proof (step_decreases _ _ _ _ _ E Er Em) as D. unfold afterStep in D.
  destruct (complete r).
  - injection H as <- <-. apply parseLoop_fuel; lia.
  - apply IH; auto. lia.
Qed.

Lemma appendBuffer_empty data p :
  pending p = [] ->
  buffer (appendBuffer data p) = data /\ bufferOffset (appendBuffer data p) = 0.
Proof.
  unfold pending, appendBuffer. intros H.
  destruct (0 <? bufferOffset p) eqn:E.
  - cbn [buffer bufferOffset set_buffer set_bufferOffset]. rewrite H. simpl. auto.
  - apply Nat.ltb_ge in E. assert (O : bufferOffset p = 0) by lia.
    rewrite O in H. unfold slice_from in H. simpl in H. rewrite H. simpl. auto.
Qed.


Lemma createCompleteMessage_body p :
  body p = None ->
  complete (createCompleteMessage p) = true /\
  exists m, message (createCompleteMessage p) = Some m /\ m_body m = [] /\
            m_headers m = headers p.
Proof.
  intros H. unfold createCompleteMessage. rewrite H.
  destruct (messageType p) as [[]|]; simpl; split; auto; eexists; repeat split.
Qed.

(** C4: at the end of the header block, a Transfer-Encoding whose
    lowercased value contains the word chunked selects chunked framing
    whatever Content-Length says; otherwise a Content-Length that parses
    frames the body, and a length of 0, or no Content-Length at all, emits
    the message at once with an empty body.  ([body] is null whenever the
    headers are being read.) *)
Theorem framing_decision (hs : Headers.HeadersMap) (p : HttpParser) :
  toLowerCase [] = [] -> body p = None ->
  let te := Headers.get toLowerCase hs (lit "transfer-encoding") in
  let cl := Headers.get toLowerCase hs (lit "content-length") in
  let chunked :=
    exists v, te = Some v /\ includes (toLowerCase v) (lit "chunked") = true in
  let (p', r) := handleHeadersComplete toLowerCase hs p in
  (chunked ->
     state p' = BODY_CHUNKED_SIZE /\ bodyLength p' = bodyLength p /\ r = proceed) /\
  (~ chunked -> forall c n, cl = Some c -> parseContentLength c = Some n ->
     if (n =? 0)%N then emitsEmptyBody hs r
     else state p' = BODY_CONTENT_LENGTH /\ bodyLength p' = n /\ r = proceed) /\
  (~ chunked -> cl = None -> emitsEmptyBody hs r).
Proof.
  intros Hnil Hbody. cbv zeta. unfold handleHeadersComplete.
  set (p2 := set_headers _ p).
  set (p3 := match Headers.get _ _ (lit "connection") with Some _ => _ | None => _ end).
  set (p4 := match messageType p3, statusLine p3 with Some RESPONSE, Some _ => _ | _, _ => _ end).
  assert (U : body p4 = None /\ bodyLength p4 = bodyLength p /\ headers p4 = Some hs).
  { subst p4 p3 p2. split_cases; repeat split; assumption. }
  destruct U as (U1 & U2 & U3).
  set (te := Headers.get toLowerCase hs (lit "transfer-encoding")).
  set (cl := Headers.get toLowerCase hs (lit "content-length")).
  destruct (match te with Some _ => _ | None => _ end) eqn:Ch.
  - (* chunked *)
    assert (C : exists v, te = Some v /\ includes (toLowerCase v) (lit "chunked") = true).
    { destruct te as [v|]; [|discriminate]. apply andb_prop in Ch. exists v. tauto. }
    cbv beta iota. split; [intros _; repeat split; auto | split; intros N; contradiction].
  - assert (NC : ~ exists v, te = Some v /\ includes (toLowerCase v) (lit "chunked") = true).
    { intros (v & E & I). rewrite E in Ch. rewrite I in Ch.
      destruct v; [rewrite Hnil in I; discriminate | discriminate]. }
    destruct cl as [c|]; cbv beta iota.
    + destruct (truthy c) eqn:T.
      * destruct (parseContentLength c) as [n|] eqn:PC; cbv beta iota.
        -- destruct (n =? 0)%N eqn:Z0; cbv beta iota.
           ++ split; [intros C; contradiction|]. split; [|discriminate].
              intros _ c' n' [= <-] H'. rewrite PC in H'. injection H' as <-. rewrite Z0.
              destruct (createCompleteMessage_body (set_bodyLength n p4) U1) as (A & m & B & C & D).
              split; auto. exists m. simpl in D. rewrite U3 in D. auto.
           ++ split; [intros C; contradiction|]. split; [|discriminate].
              intros _ c' n' [= <-] H'. rewrite PC in H'. injection H' as <-. rewrite Z0. auto.
        -- split; [intros C; contradiction|]. split; [|discriminate].
           intros _ c' n' [= <-] H'. rewrite PC in H'. discriminate.
      * split; [intros C; contradiction|]. split; [|discriminate].
        intros _ c' n' [= <-] H'. destruct c; [|discriminate].
        vm_compute in H'. discriminate.
    + split; [intros C; contradiction|]. split; [discriminate|].
      intros _ _. destruct (createCompleteMessage_body p4 U1) as (A & m & B & C & D).
      split; auto. exists m. rewrite U3 in D. auto.
Qed.


Lemma handleHeadersComplete_steady hs p p1 r :
  handleHeadersComplete toLowerCase hs p = (p1, r) ->
  body p1 = body p /\ chunkSize p1 = chunkSize p /\
  chunkBytesRead p1 = chunkBytesRead p.
Proof.
  unfold handleHeadersComplete. cbv zeta.
  split_cases; intros [= <- <-]; simpl; auto.
Qed.

(** A handler leaves a steady parser steady, also once the loop has set
    ERROR or has reset the parser after a message. *)
Lemma parseNext_steady p p1 r :
  steady p -> parseNext toLowerCase entropy p = (p1, r) ->
  steady p1 /\ steady (set_state ERROR p1).
Proof.
  intros [B C]. unfold parseNext. destruct (state p) eqn:St.
  - unfold parseMessageStart. split_cases; intros [= <- <-];
      (split; split; simpl; try rewrite St; auto; discriminate).
  - unfold parseRequestLine. split_cases; intros [= <- <-];
      (split; split; simpl; try rewrite St; auto; discriminate).
  - unfold parseStatusLine. split_cases; intros [= <- <-];
      (split; split; simpl; try rewrite St; auto; discriminate).
  - assert (Bn : body p = None) by (apply B; reflexivity).
    unfold parseHeaders. cbv zeta.
    destruct (findCRLFCRLF _ _ _).
    + destruct (Headers.parseHeaders _ _ _ _ _);
        [|intros [= <- <-]; split; split; simpl; try rewrite St; auto; discriminate].
      destruct (negb _);
        [intros [= <- <-]; split; split; simpl; try rewrite St; auto; discriminate|].
      intros H. apply handleHeadersComplete_steady in H. simpl in H.
      destruct H as (H1 & H2 & H3).
      split; split; simpl; try rewrite H1, Bn; try rewrite H2, H3; auto; discriminate.
    + destruct (_ && _)%bool;
        [intros [= <- <-]; split; split; simpl; try rewrite St; auto; discriminate|].
      destruct (_ && _)%bool;
        [|intros [= <- <-]; split; split; simpl; try rewrite St; auto; discriminate].
      intros H. apply handleHeadersComplete_steady in H. simpl in H.
      destruct H as (H1 & H2 & H3).
      split; split; simpl; try rewrite H1, Bn; try rewrite H2, H3; auto; discriminate.
  - unfold parseBodyContentLength. cbv zeta.
    destruct (_ <? _)%Z; intros [= <- <-];
    match goal with
    | |- context [appendToBody ?d p] =>
        destruct (appendToBody_chunk d p) as (A1 & A2 & [A3|A3])
    end;
    (split; split; simpl; rewrite ?A1, ?A2, ?A3, ?St; auto; discriminate).
  - intros [= <- <-]; split; split; simpl; rewrite ?St; auto; discriminate.
  - unfold parseChunkedSize. cbv zeta.
    split_cases; intros [= <- <-]; split; split; simpl; rewrite ?St; auto;
      try discriminate; lia.
  - unfold parseChunkedData. cbv zeta.
    destruct (_ <? _)%Z; [destruct (_ <=? _)%Z|]; intros [= <- <-];
    match goal with
    | |- context [appendToBody ?d p] =>
        destruct (appendToBody_chunk d p) as (A1 & A2 & [A3|A3])
    end;
    try (split; split; simpl; rewrite ?A1, ?A2, ?A3, ?St; auto; try discriminate; lia);
    (destruct (_ && _)%bool; split; split; simpl; rewrite ?A1, ?A2, ?A3, ?St; auto;
      try discriminate; lia).
  - unfold parseChunkedTrailer. cbv zeta.
    destruct (findCRLFCRLF _ _ _); [|destruct (_ && _)%bool]; intros [= <- <-];
      split; split; simpl; rewrite ?St; auto; discriminate.
  - intros [= <- <-]; split; split; simpl; rewrite ?St; auto; discriminate.
  - intros [= <- <-]; split; split; simpl; rewrite ?St; auto; discriminate.
Qed.

Lemma parseLoop_steady n p acc p' ms :
  steady p -> parseLoop toLowerCase entropy n p acc = Some (p', ms) -> steady p'.
Proof.
  revert p acc. induction n as [|n IH]; intros p acc S; simpl; [discriminate|].
  destruct (ParserState_eqb (state p) ERROR); [intros [= <- <-]; assumption|].
  destruct (parseNext toLowerCase entropy p) as [p1 r] eqn:E.
  destruct (parseNext_steady _ _ _ S E) as [S1 S2].
  destruct (error r); [intros [= <- <-]; assumption|].
  destruct (complete r); destruct (needsMoreData r);
    try (intros [= <- <-]; auto using steady_reset); apply IH; auto using steady_reset.
Qed.

Lemma steady_parse data p :
  steady p -> steady (fst (parse toLowerCase entropy data p)).
Proof.
  intros S.
  pose proof (parse_parseLoop toLowerCase entropy _ data p (Nat.lt_succ_diag_r _)) as E.
  destruct (parse toLowerCase entropy data p) as [p' ms].
  apply parseLoop_steady in E; [exact E | apply steady_appendBuffer, S].
Qed.


(** The keep-alive flag once the headers are complete: false for a response
    whose status line says HTTP/1.0; otherwise decided by a non-empty
    Connection value, and left as it was without one.  The version of a
    request line plays no part. *)
Lemma keepAlive_after_headers (hs : Headers.HeadersMap) (p : HttpParser) :
  keepAlive (fst (handleHeadersComplete toLowerCase hs p)) =
  let byConnection :=
    match Headers.get toLowerCase hs (lit "connection") with
    | Some c =>
        if truthy c then negb (jseqb (toLowerCase c) (lit "close")) else keepAlive p
    | None => keepAlive p
    end in
  match messageType p, statusLine p with
  | Some RESPONSE, Some sl =>
      if jseqb (sl_version sl) HTTP_1_0 then false else byConnection
  | _, _ => byConnection
  end.
Proof.
  unfold handleHeadersComplete. cbv zeta.
  destruct (Headers.get toLowerCase hs (lit "connection")) as [c|];
    [destruct (truthy c)|];
    cbn [messageType statusLine set_headers set_keepAlive];
    (destruct (messageType p) as [[]|]; [| destruct (statusLine p) as [sl|];
       [destruct (jseqb (sl_version sl) HTTP_1_0)|] |]);
    split_cases; reflexivity.
Qed.

End WithPlatform.

End ParserProps.

(* ===================================================================== *)
(** * Properties of the header container *)
(* ===================================================================== *)

Module HeadersProps.
Import Headers HeadersSpec.

Section MapFacts.
Context {V : Type}.
Implicit Types (m : Map V) (k : jsstring).

Lemma map_get_set m k v k' :
  map_get (map_set m k v) k' = if jseqb k k' then Some v else map_get m k'.
Proof.
  induction m as [|[k0 v0] t IH]; simpl.
  - reflexivity.
  - destruct (jseqb k0 k) eqn:E0; simpl.
    + apply jseqb_eq in E0. subst k0. destruct (jseqb k k'); reflexivity.
    + destruct (jseqb k0 k') eqn:E1.
      * apply jseqb_eq in E1. subst k0. rewrite jseqb_sym, E0. reflexivity.
      * exact IH.
Qed.

Lemma map_get_none m k : ~ In k (map_keys m) -> map_get m k = None.
Proof.
  induction m as [|[k0 v0] t IH]; simpl; intros H; auto.
  destruct (jseqb k0 k) eqn:E.
  - apply jseqb_eq in E. tauto.
  - apply IH. tauto.
Qed.

Lemma map_get_in m k v : map_get m k = Some v -> In (k, v) m.
Proof.
  induction m as [|[k0 v0] t IH]; simpl; [discriminate|].
  destruct (jseqb k0 k) eqn:E.
  - apply jseqb_eq in E. intros [= <-]. left. congruence.
  - auto.
Qed.

Lemma map_get_some m k v :
  NoDup (map_keys m) -> In (k, v) m -> map_get m k = Some v.
Proof.
  induction m as [|[k0 v0] t IH]; simpl; intros N H; [contradiction|].
  inversion N as [|? ? N1 N2]; subst.
  destruct H as [[= -> ->]|H].
  - rewrite jseqb_refl. reflexivity.
  - destruct (jseqb k0 k) eqn:E.
    + apply jseqb_eq in E. subst k0. exfalso. apply N1.
      apply (in_map fst) in H. exact H.
    + auto.
Qed.

Lemma map_set_fresh m k v : ~ In k (map_keys m) -> map_set m k v = m ++ [(k, v)].
Proof.
  induction m as [|[k0 v0] t IH]; simpl; intros H; auto.
  destruct (jseqb k0 k) eqn:E.
  - apply jseqb_eq in E. tauto.
  - f_equal. apply IH. tauto.
Qed.

Lemma map_keys_set m k v :
  map_keys (map_set m k v) =
  if existsb (jseqb k) (map_keys m) then map_keys m else map_keys m ++ [k].
Proof.
  induction m as [|[k0 v0] t IH]; simpl; auto.
  destruct (jseqb k0 k) eqn:E; simpl.
  - apply jseqb_eq in E. subst. rewrite jseqb_refl. reflexivity.
  - rewrite jseqb_sym, E. simpl. rewrite IH.
    destruct (existsb _ _); reflexivity.
Qed.

Lemma existsb_jseqb k l : existsb (jseqb k) l = true <-> In k l.
Proof.
  rewrite existsb_exists. split.
  - intros (x & I & E). apply jseqb_eq in E. congruence.
  - intros I. exists k. split; auto. apply jseqb_refl.
Qed.

Lemma NoDup_map_keys_set m k v :
  NoDup (map_keys m) -> NoDup (map_keys (map_set m k v)).
Proof.
  intros N. rewrite map_keys_set. destruct (existsb _ _) eqn:E; auto.
  apply NoDup_app; auto.
  - repeat constructor. simpl. tauto.
  - intros x I [->|[]].
    assert (existsb (jseqb x) (map_keys m) = true) by (apply existsb_jseqb; auto).
    congruence.
Qed.

Lemma map_delete_filter m k :
  NoDup (map_keys m) ->
  map_delete m k = filter (fun kv => negb (jseqb (fst kv) k)) m.
Proof.
  induction m as [|[k0 v0] t IH]; simpl; intros N; auto.
  inversion N as [|? ? N1 N2]; subst.
  destruct (jseqb k0 k) eqn:E; simpl.
  - apply jseqb_eq in E. subst k0.
    symmetry. apply forallb_filter_id. apply forallb_forall.
    intros [k1 v1] I. simpl. apply negb_true_iff. apply jseqb_neq.
    intros ->. apply N1. apply (in_map fst) in I. exact I.
  - f_equal. auto.
Qed.

Lemma NoDup_map_fst_filter (f : jsstring * V -> bool) m :
  NoDup (map_keys m) -> NoDup (map_keys (filter f m)).
Proof.
  induction m as [|[k0 v0] t IH]; simpl; intros N; auto.
  inversion N as [|? ? N1 N2]; subst.
  destruct (f (k0, v0)); simpl; auto.
  constructor; auto. intros I. apply N1.
  unfold map_keys in *. rewrite in_map_iff in *.
  destruct I as (x & E & I). exists x. split; auto. apply filter_In in I. tauto.
Qed.

Lemma filter_twice {A} (f g : A -> bool) l :
  filter f (filter g l) = filter (fun x => g x && f x) l.
Proof.
  induction l as [|x l IH]; simpl; auto.
  destruct (g x); simpl; [destruct (f x)|]; rewrite IH; reflexivity.
Qed.

Lemma fold_delete_filter ks m :
  NoDup (map_keys m) ->
  fold_left (fun m k => map_delete m k) ks m =
  filter (fun kv => negb (existsb (jseqb (fst kv)) ks)) m.
Proof.
  revert m. induction ks as [|k ks IH]; intros m N; simpl.
  - symmetry. apply forallb_filter_id. apply forallb_forall. auto.
  - rewrite IH, map_delete_filter by (try rewrite map_delete_filter; auto using NoDup_map_fst_filter).
    rewrite filter_twice. apply filter_ext. intros [k1 v1]. simpl.
    rewrite negb_orb. reflexivity.
Qed.
End MapFacts.


Lemma to_N_toByte c : (c < 256)%N -> Byte.to_N (toByte c) = c.
Proof.
  intros H. unfold toByte. destruct (Byte.of_N c) as [b|] eqn:E.
  - apply Byte.to_of_N. exact E.
  - apply Byte.of_N_None_iff in E. lia.
Qed.

Lemma codePoints_ascii s : isAscii s = true -> codePoints s = s.
Proof.
  induction s as [|c t IH]; intros H; [reflexivity|].
  unfold isAscii in *. cbn [forallb] in H.
  apply andb_prop in H. destruct H as [Hc Ht]. apply N.ltb_lt in Hc.
  cbn [codePoints].
  replace (0xD800 <=? c)%N with false by (symmetry; apply N.leb_gt; lia).
  replace (0xDC00 <=? c)%N with false by (symmetry; apply N.leb_gt; lia).
  cbn [andb]. rewrite IH by assumption. reflexivity.
Qed.

Lemma utf8_points_ascii s :
  isAscii s = true ->
  utf8_points (flat_map utf8_encode_point s) 0 0 0x80 0xBF = s.
Proof.
  induction s as [|c t IH]; simpl; intros H; [reflexivity|].
  apply andb_prop in H. destruct H as [Hc Ht]. apply N.ltb_lt in Hc.
  unfold utf8_encode_point at 1.
  replace (c <=? 0x7F)%N with true by (symmetry; apply N.leb_le; lia).
  cbn [app utf8_points N.eqb]. rewrite to_N_toByte by lia.
  unfold utf8_lead.
  replace (c <=? 0x7F)%N with true by (symmetry; apply N.leb_le; lia).
  rewrite IH by assumption. reflexivity.
Qed.

Lemma utf16_units_ascii s : isAscii s = true -> flat_map utf16_units s = s.
Proof.
  induction s as [|c t IH]; simpl; intros H; [reflexivity|].
  apply andb_prop in H. destruct H as [Hc Ht]. apply N.ltb_lt in Hc.
  unfold utf16_units at 1.
  replace (c <? 0x10000)%N with true by (symmetry; apply N.ltb_lt; lia).
  simpl. rewrite IH by assumption. reflexivity.
Qed.

Lemma ascii_roundtrip s : isAscii s = true -> decodeUtf8 (encodeUtf8 s) = s.
Proof.
  intros H. unfold decodeUtf8, encodeUtf8.
  rewrite codePoints_ascii, utf8_points_ascii by assumption.
  destruct s as [|c t]; [reflexivity|].
  assert (Hc : (c < 128)%N).
  { simpl in H. apply andb_prop in H. destruct H as [Hc _]. apply N.ltb_lt in Hc. exact Hc. }
  replace (c =? 0xFEFF)%N with false by (symmetry; apply N.eqb_neq; lia).
  apply utf16_units_ascii. exact H.
Qed.

Lemma isAscii_app a b : isAscii (a ++ b) = isAscii a && isAscii b.
Proof. apply forallb_app. Qed.

(** The text of a container with ASCII names and values survives UTF-8
    encoding and decoding. *)
Lemma ascii_container_roundtrip (h : HeadersMap) :
  (forall hd, In hd (toArray h) ->
     isAscii (name hd) = true /\ isAscii (value hd) = true) ->
  decodeUtf8 (toBytes h) = toText h.
Proof.
  intros H. unfold toBytes. apply ascii_roundtrip. unfold toText.
  fold (toArray h). rewrite isAscii_app. apply andb_true_intro. split; [|reflexivity].
  induction (toArray h) as [|hd t IH]; [reflexivity|].
  cbn [map List.concat]. rewrite !isAscii_app.
  destruct (H hd (or_introl eq_refl)) as [-> ->].
  rewrite IH by (intros x I; apply H; right; exact I). reflexivity.
Qed.

Section WithPlatform.
Variable toLowerCase : jsstring -> jsstring.
Variable entropy : nat -> jsstring.

Local Abbreviation sameLower := (HeadersSpec.sameLower toLowerCase).
Local Abbreviation carries := (HeadersSpec.carries toLowerCase).
Local Abbreviation keysWith := (HeadersSpec.keysWith toLowerCase).
Local Abbreviation wf := (HeadersSpec.wf toLowerCase).
Local Abbreviation wf_keys := (HeadersSpec.wf_keys toLowerCase).
Local Abbreviation wf_index := (HeadersSpec.wf_index toLowerCase).
Local Abbreviation wf_nonempty := (HeadersSpec.wf_nonempty toLowerCase).
Local Abbreviation drawnKeys := (HeadersSpec.drawnKeys entropy).
Local Abbreviation appendAll := (HeadersSpec.appendAll toLowerCase entropy).


Lemma valueAt_in h k header :
  NoDup (map_keys (headers h)) -> In (k, header) (headers h) ->
  valueAt h k = value header.
Proof.
  intros N I. unfold valueAt. rewrite (map_get_some _ _ _ N I). reflexivity.
Qed.

Lemma map_valueAt h (l : list (jsstring * Header)) :
  NoDup (map_keys (headers h)) -> incl l (headers h) ->
  map (valueAt h) (map fst l) = map (fun kh => value (snd kh)) l.
Proof.
  intros N. induction l as [|[k hd] t IH]; simpl; intros I; auto.
  f_equal.
  - apply valueAt_in; auto. apply I. left. reflexivity.
  - apply IH. intros x Hx. apply I. right. exact Hx.
Qed.

Lemma filter_map_snd (f : Header -> bool) (m : Map Header) :
  filter f (map snd m) = map snd (filter (fun kh => f (snd kh)) m).
Proof.
  induction m as [|[k hd] t IH]; simpl; auto.
  destruct (f hd); simpl; rewrite IH; reflexivity.
Qed.

Lemma getAll_values h n :
  wf h ->
  getAll toLowerCase h n = map value (filter (sameLower n) (toArray h)).
Proof.
  intros W. unfold getAll.
  change (match map_get (lowerCaseMap h) (toLowerCase n) with
          | Some originalNames => map (valueAt h) originalNames
          | None => []
          end) with
    (match map_get (lowerCaseMap h) (toLowerCase n) with
          | Some originalNames => map (valueAt h) originalNames
          | None => map (valueAt h) []
          end).
  transitivity (map (valueAt h) (index h (toLowerCase n))).
  { unfold index. destruct (map_get _ _); reflexivity. }
  rewrite (wf_index h W). unfold keysWith.
  rewrite map_valueAt; [|apply W|apply incl_filter].
  unfold toArray, map_values. rewrite filter_map_snd, map_map. reflexivity.
Qed.



Lemma wf_empty : wf empty.
Proof. split; simpl; try constructor; try reflexivity; discriminate. Qed.

Lemma lowerCaseMap_append e n v h l :
  map_get (lowerCaseMap (append toLowerCase e n v h)) l =
  if jseqb (toLowerCase n) l then Some (index h (toLowerCase n) ++ [uniqueKey n e])
  else map_get (lowerCaseMap h) l.
Proof.
  unfold index, append. cbn [lowerCaseMap]. unfold map_has.
  destruct (map_get (lowerCaseMap h) (toLowerCase n)) as [ks|] eqn:G; cbn [negb].
  - rewrite G, map_get_set. destruct (jseqb _ l); reflexivity.
  - rewrite map_get_set, jseqb_refl, map_get_set.
    destruct (jseqb (toLowerCase n) l) eqn:E; [reflexivity|].
    rewrite map_get_set, E. reflexivity.
Qed.

Lemma index_append e n v h l :
  index (append toLowerCase e n v h) l =
  if jseqb (toLowerCase n) l then index h (toLowerCase n) ++ [uniqueKey n e]
  else index h l.
Proof.
  unfold index at 1. rewrite lowerCaseMap_append.
  destruct (jseqb _ l); reflexivity.
Qed.

Lemma wf_append e n v h :
  wf h -> ~ In (uniqueKey n e) (map_keys (headers h)) ->
  wf (append toLowerCase e n v h).
Proof.
  intros W F. split.
  - unfold append. cbn [headers]. apply NoDup_map_keys_set, W.
  - unfold append. cbn [lowerCaseMap].
    destruct (negb _); [destruct (map_get _ _)|destruct (map_get _ _)];
      repeat apply NoDup_map_keys_set; apply W.
  - intros l. rewrite index_append. unfold keysWith, append. cbn [headers].
    rewrite map_set_fresh by assumption. rewrite filter_app, map_app. simpl.
    unfold carries at 2. simpl.
    destruct (jseqb (toLowerCase n) l) eqn:E.
    + apply jseqb_eq in E. subst l. simpl. f_equal. apply (wf_index h W).
    + rewrite app_nil_r. apply (wf_index h W).
  - intros l. rewrite lowerCaseMap_append.
    destruct (jseqb (toLowerCase n) l).
    + destruct (index h (toLowerCase n)); discriminate.
    + apply W.
Qed.

Lemma map_delete_absent {V} (m : Map V) k :
  ~ In k (map_keys m) -> map_delete m k = m.
Proof.
  induction m as [|[k0 v0] t IH]; simpl; intros H; auto.
  destruct (jseqb k0 k) eqn:E.
  - apply jseqb_eq in E. tauto.
  - f_equal. apply IH. tauto.
Qed.

Lemma map_get_delete {V} (m : Map V) k k' :
  NoDup (map_keys m) ->
  map_get (map_delete m k) k' = if jseqb k k' then None else map_get m k'.
Proof.
  induction m as [|[k0 v0] t IH]; simpl; intros N.
  - destruct (jseqb k k'); reflexivity.
  - inversion N as [|? ? N1 N2]; subst.
    destruct (jseqb k0 k) eqn:E.
    + apply jseqb_eq in E. subst k0.
      destruct (jseqb k k') eqn:E'; [|reflexivity].
      apply jseqb_eq in E'. subst k'. apply map_get_none. exact N1.
    + simpl. destruct (jseqb k0 k') eqn:E'.
      * apply jseqb_eq in E'. subst k0. rewrite jseqb_sym, E. reflexivity.
      * auto.
Qed.

Lemma NoDup_map_delete {V} (m : Map V) k :
  NoDup (map_keys m) -> NoDup (map_keys (map_delete m k)).
Proof.
  intros N. rewrite map_delete_filter by assumption.
  apply NoDup_map_fst_filter. exact N.
Qed.

Lemma filter_never {A} (f : A -> bool) l :
  (forall x, f x = false) -> filter f l = [].
Proof.
  intros H. induction l as [|x l IH]; simpl; auto. rewrite H. exact IH.
Qed.

Lemma headers_without l h :
  wf h ->
  headers (without l h) = filter (fun kh => negb (carries l kh)) (headers h).
Proof.
  intros W. unfold without. cbn [headers].
  rewrite fold_delete_filter by apply W.
  apply filter_ext_in. intros [k hd] I. f_equal.
  rewrite (wf_index h W). unfold keysWith.
  destruct (carries l (k, hd)) eqn:C.
  - apply existsb_jseqb. simpl. apply in_map_iff. exists (k, hd). split; auto.
    apply filter_In. auto.
  - destruct (existsb _ _) eqn:X; auto. apply existsb_jseqb in X. simpl in X.
    apply in_map_iff in X. destruct X as ([k' hd'] & Ek & X). simpl in Ek. subst k'.
    apply filter_In in X. destruct X as [X C'].
    assert (hd' = hd).
    { pose proof (map_get_some _ _ _ (wf_keys h W) I) as G1.
      pose proof (map_get_some _ _ _ (wf_keys h W) X) as G2. congruence. }
    subst hd'. congruence.
Qed.

Lemma wf_without l h : wf h -> wf (without l h).
Proof.
  intros W. split.
  - rewrite headers_without by assumption. apply NoDup_map_fst_filter, W.
  - unfold without. cbn [lowerCaseMap]. apply NoDup_map_delete, W.
  - intros l'. unfold index at 1, keysWith. rewrite headers_without by assumption.
    unfold without at 1. cbn [lowerCaseMap].
    rewrite map_get_delete by apply W. rewrite filter_twice.
    destruct (jseqb l l') eqn:E.
    + apply jseqb_eq in E. subst l'.
      rewrite filter_never; [reflexivity|].
      intros x. destruct (carries l x); reflexivity.
    + pose proof (wf_index h W l') as IX. unfold index, keysWith in IX. rewrite IX.
      f_equal. apply filter_ext. intros [k hd]. unfold carries. simpl.
      destruct (jseqb (toLowerCase (name hd)) l') eqn:C'; [|symmetry; apply andb_false_r].
      apply jseqb_eq in C'. subst l'. rewrite jseqb_sym, E. reflexivity.
  - intros l'. unfold without. cbn [lowerCaseMap]. rewrite map_get_delete by apply W.
    destruct (jseqb l l'); [discriminate | apply W].
Qed.

Lemma delete_without n h :
  fst (delete toLowerCase n h) =
  match map_get (lowerCaseMap h) (toLowerCase n) with
  | Some _ => without (toLowerCase n) h
  | None => h
  end.
Proof.
  unfold delete, without, index. destruct (map_get _ _); reflexivity.
Qed.

Lemma wf_delete n h : wf h -> wf (fst (delete toLowerCase n h)).
Proof.
  intros W. rewrite delete_without. destruct (map_get _ _); auto using wf_without.
Qed.

Lemma set_without e n v h :
  set toLowerCase e n v h = append toLowerCase e n v (without (toLowerCase n) h).
Proof. reflexivity. Qed.

Lemma wf_set e n v h :
  wf h -> ~ In (uniqueKey n e) (map_keys (headers h)) ->
  wf (set toLowerCase e n v h).
Proof.
  intros W F. rewrite set_without. apply wf_append; [apply wf_without, W|].
  rewrite headers_without by assumption. intros I. apply F.
  unfold map_keys in *. apply in_map_iff in I. destruct I as (x & E & I).
  apply filter_In in I. apply in_map_iff. exists x. tauto.
Qed.

Lemma wf_clear h : wf (clear h).
Proof. apply wf_empty. Qed.



Lemma split_line line cur rest :
  hasCRLF line = false ->
  split_crlf_from cur (line ++ 13%N :: 10%N :: rest) =
  (rev cur ++ line) :: split_crlf_from [] rest.
Proof.
  revert cur. induction line as [|c t IH]; intros cur H.
  - simpl. rewrite app_nil_r. reflexivity.
  - cbn [app split_crlf_from].
    destruct t as [|d t'].
    + cbn [app]. destruct ((c =? 13) && (13 =? 10))%N eqn:E.
      { rewrite andb_false_r in E. discriminate. }
      specialize (IH (c :: cur) eq_refl). cbn [app] in IH. rewrite IH.
      simpl. rewrite <- app_assoc. reflexivity.
    + cbn [app]. cbn [hasCRLF] in H. apply orb_false_elim in H. destruct H as [H1 H2].
      rewrite H1. specialize (IH (c :: cur) H2). cbn [app] in IH. rewrite IH.
      simpl. rewrite <- app_assoc. reflexivity.
Qed.

Lemma toText_lines (hs : list Header) :
  (forall hd, In hd hs -> hasCRLF (lineOf hd) = false) ->
  split_crlf (List.concat (map (fun header => name header ++ lit ": " ++ value header ++ [13; 10]%N) hs)
              ++ [13; 10]%N)
  = map lineOf hs ++ [[]; []].
Proof.
  unfold split_crlf. induction hs as [|hd t IH]; intros H.
  - reflexivity.
  - cbn [map List.concat].
    replace (name hd ++ lit ": " ++ value hd ++ [13; 10]%N)
      with (lineOf hd ++ [13; 10]%N)
      by (unfold lineOf; rewrite <- !app_assoc; reflexivity).
    rewrite <- !app_assoc. cbn [app].
    rewrite split_line by (apply H; left; reflexivity).
    cbn [rev app]. f_equal. apply IH. intros x I. apply H. right. exact I.
Qed.

Lemma indexOf_app_colon n rest :
  indexOf n 58 = None -> indexOf (n ++ 58%N :: rest) 58 = Some (length n).
Proof.
  induction n as [|c t IH]; simpl; intros H; [reflexivity|].
  destruct (c =? 58)%N; [discriminate|].
  destruct (indexOf t 58); [discriminate|]. rewrite IH by reflexivity. reflexivity.
Qed.

Lemma truthy_nonempty (s : jsstring) : s <> [] -> truthy s = true.
Proof. destruct s; [congruence | reflexivity]. Qed.

Lemma parseHeaderLine_lineOf hd :
  clean hd -> parseHeaderLine (lineOf hd) = Some (name hd, value hd).
Proof.
  intros C. unfold parseHeaderLine, lineOf.
  change (lit ": ") with [58; 32]%N. cbn [app].
  rewrite indexOf_app_colon by apply C.
  unfold slice, slice_from. rewrite Nat.sub_0_r. cbn [skipn].
  rewrite firstn_app, firstn_all, Nat.sub_diag. cbn [firstn]. rewrite app_nil_r.
  rewrite (clean_name_trim hd C).
  rewrite skipn_app, skipn_all2 by lia.
  replace (length (name hd) + 1 - length (name hd)) with 1 by lia.
  cbn [skipn app].
  change (trim (32%N :: value hd)) with (trim (value hd)).
  rewrite (clean_value_trim hd C).
  rewrite !truthy_nonempty by apply C. reflexivity.
Qed.

Lemma totalEntries_append e n v h :
  totalEntries (append toLowerCase e n v h) <= S (totalEntries h).
Proof.
  unfold totalEntries, append. cbn [headers].
  rewrite <- (length_map fst), <- (length_map fst (headers h)).
  fold (map_keys (map_set (headers h) (uniqueKey n e) {| name := n; value := v |})).
  rewrite map_keys_set. destruct (existsb _ _).
  - unfold map_keys. lia.
  - rewrite length_app. unfold map_keys. simpl. lia.
Qed.

Lemma parseLines_lines hs rest i maxHeaders maxLineLength acc :
  (forall hd, In hd hs -> clean hd /\ (len (lineOf hd) <= maxLineLength)%Z) ->
  (0 <= maxLineLength)%Z ->
  (Z.of_nat (totalEntries acc + length hs) <= maxHeaders)%Z ->
  parseLines toLowerCase entropy (map lineOf hs ++ [] :: rest) i
             maxHeaders maxLineLength acc
  = Some (appendAll hs i acc).
Proof.
  revert i acc. induction hs as [|hd t IH]; intros i acc H M0 Mh.
  - cbn [map app parseLines appendAll].
    change (len (@nil N)) with 0%Z.
    destruct (maxLineLength <? 0)%Z eqn:E; [lia|]. reflexivity.
  - cbn [map app parseLines appendAll].
    destruct (H hd (or_introl eq_refl)) as [C L].
    destruct (maxLineLength <? len (lineOf hd))%Z eqn:E; [lia|].
    assert (NE : lineOf hd <> []).
    { unfold lineOf. pose proof (clean_name hd C). destruct (name hd); [congruence|discriminate]. }
    destruct (jseqb (lineOf hd) []) eqn:E1; [apply jseqb_eq in E1; contradiction|].
    destruct (maxHeaders <=? Z.of_nat (totalEntries acc))%Z eqn:E2.
    { simpl in Mh. lia. }
    rewrite parseHeaderLine_lineOf by assumption.
    apply IH; auto.
    + intros x I. apply H. right. exact I.
    + pose proof (totalEntries_append (entropy i) (name hd) (value hd) acc).
      simpl in Mh. lia.
Qed.

Lemma appendAll_spec hs i acc :
  wf acc ->
  NoDup (map_keys (headers acc) ++ drawnKeys hs i) ->
  wf (appendAll hs i acc) /\
  toArray (appendAll hs i acc) = toArray acc ++ hs.
Proof.
  revert i acc. induction hs as [|hd t IH]; intros i acc W N.
  - simpl. rewrite app_nil_r. auto.
  - cbn [appendAll drawnKeys] in *.
    assert (F : ~ In (uniqueKey (name hd) (entropy i)) (map_keys (headers acc))).
    { intros I. apply NoDup_remove_2 in N. apply N. apply in_or_app. auto. }
    destruct (IH (S i) (append toLowerCase (entropy i) (name hd) (value hd) acc)) as [W' T'].
    + apply wf_append; assumption.
    + unfold append. cbn [headers]. rewrite map_set_fresh by assumption.
      unfold map_keys. rewrite map_app. simpl. rewrite <- app_assoc. exact N.
    + split; [exact W'|]. rewrite T'. unfold toArray, append, map_values. cbn [headers].
      rewrite map_set_fresh by assumption. rewrite map_app. simpl.
      rewrite <- app_assoc. destruct hd; reflexivity.
Qed.

(** C9 (amended): for a container whose entries have non-empty, trimmed
    names and values, no colon in a name and no CR LF inside a line, within
    the limits on entries and line length, whose text survives UTF-8
    encoding and decoding, [parseHeaders] applied to the decoded [toBytes()]
    yields a container equal to the original under [equals], provided the
    keys drawn while parsing do not collide. *)
Theorem toBytes_parseHeaders_equals (h : HeadersMap) (maxHeaders maxLineLength : Z) :
  (forall hd, In hd (toArray h) ->
     clean hd /\ (len (lineOf hd) <= maxLineLength)%Z) ->
  (0 <= maxLineLength)%Z ->
  (Z.of_nat (totalEntries h) <= maxHeaders)%Z ->
  decodeUtf8 (toBytes h) = toText h ->
  NoDup (drawnKeys (toArray h) 0) ->
  exists h',
    parseHeaders toLowerCase entropy (decodeUtf8 (toBytes h)) maxHeaders maxLineLength
      = Some h' /\
    equals toLowerCase h h' = true.
Proof.
  intros C M0 Mh RT ND.
  exists (appendAll (toArray h) 0 empty).
  destruct (appendAll_spec (toArray h) 0 empty wf_empty ND) as [W T]. simpl in T.
  split.
  - rewrite RT. unfold parseHeaders, toText. fold (toArray h).
    rewrite toText_lines by (intros hd I; apply (C hd I)).
    change (map lineOf (toArray h) ++ [[]; []])
      with (map lineOf (toArray h) ++ [] :: [[]]).
    apply parseLines_lines; auto.
    unfold totalEntries at 1. simpl.
    unfold totalEntries, toArray, map_values in *. rewrite length_map. exact Mh.
  - unfold equals.
    assert (E : totalEntries h = totalEntries (appendAll (toArray h) 0 empty)).
    { unfold totalEntries. rewrite <- (length_map snd (headers (appendAll _ _ _))).
      fold (map_values (headers (appendAll (toArray h) 0 empty))).
      fold (toArray (appendAll (toArray h) 0 empty)). rewrite T.
      unfold toArray, map_values. rewrite length_map. reflexivity. }
    rewrite <- E, Nat.eqb_refl. cbn [negb].
    apply forallb_forall. intros hd I.
    rewrite getAll_values by assumption. rewrite T.
    apply existsb_jseqb. apply in_map. apply filter_In. split; [exact I|].
    unfold sameLower. apply jseqb_refl.
Qed.

End WithPlatform.

End HeadersProps.

(* ===================================================================== *)
(** * Properties of the Content-Length validator *)
(* ===================================================================== *)

Module NumberProps.
Import NumberSpec.

Lemma roundToDouble_exact neg v :
  (0 <= v < 2 ^ 53)%Z -> roundToDouble neg v 1 = Integer neg (Z.to_N v).
Proof.
  intros [H0 H1]. unfold roundToDouble.
  destruct (v =? 0)%Z eqn:E0.
  { apply Z.eqb_eq in E0. subst. reflexivity. }
  apply Z.eqb_neq in E0. assert (Hp : (0 < v)%Z) by lia.
  change (Z.log2 1) with 0%Z. rewrite Z.sub_0_r.
  pose proof (Z.log2_nonneg v) as L0.
  pose proof (Z.log2_spec v Hp) as [L1 L2].
  assert (L3 : (Z.log2 v < 53)%Z) by (apply Z.log2_lt_pow2; lia).
  cbv zeta.
  replace (0 <=? Z.log2 v)%Z with true by (symmetry; apply Z.leb_le; lia).
  replace (1 * 2 ^ Z.log2 v <=? v)%Z with true by (symmetry; apply Z.leb_le; lia).
  rewrite Z.max_l by lia.
  set (k := (Z.log2 v - 52)%Z).
  destruct (0 <=? k)%Z eqn:Ek.
  - apply Z.leb_le in Ek. assert (k = 0%Z) by lia. 
    replace k with 0%Z. change (2 ^ 0)%Z with 1%Z. change (1 * 1)%Z with 1%Z.
    rewrite Z.div_1_r, Z.mod_1_r. cbn [Z.mul Z.ltb Z.eqb Z.compare orb andb].
    rewrite Z.mul_1_r.
    replace (2 ^ 1024 <=? v)%Z with false; [reflexivity|].
    symmetry. apply Z.leb_gt. eapply Z.lt_trans; [exact H1|]. reflexivity.
  - apply Z.leb_gt in Ek.
    rewrite Z.div_1_r, Z.mod_1_r. cbn [Z.mul Z.ltb Z.eqb Z.compare orb andb].
    assert (P : (0 < 2 ^ (- k))%Z) by (apply Z.pow_pos_nonneg; lia).
    rewrite Z.mod_mul by lia. cbn [Z.eqb].
    rewrite Z.div_mul by lia. reflexivity.
Qed.

Lemma digitVal_digit c : isDigit c = true -> digitVal 10 c = Some (c - 48)%N.
Proof.
  unfold isDigit, digitVal. intros H. rewrite H.
  apply andb_prop in H. destruct H as [H1 H2].
  apply N.leb_le in H1, H2.
  replace (c - 48 <? 10)%N with true; [reflexivity|].
  symmetry. apply N.ltb_lt. lia.
Qed.

Lemma digits_all ds acc n :
  forallb isDigit ds = true ->
  digits 10 ds acc n = (fold_left (fun a c => a * 10 + (c - 48))%N ds acc, n + length ds, []).
Proof.
  revert acc n. induction ds as [|c t IH]; intros acc n H; simpl.
  - rewrite Nat.add_0_r. reflexivity.
  - apply andb_prop in H. destruct H as [Hc Ht].
    rewrite digitVal_digit by assumption. rewrite IH by assumption.
    f_equal. f_equal. lia.
Qed.

(** No code unit from the digit 0 to the letter z is white space. *)
Lemma printable_not_space c : (48 <= c <= 122)%N -> isWhiteSpace c = false.
Proof.
  intros H. unfold isWhiteSpace.
  repeat match goal with
         | |- context [(?a <=? ?b)%N] =>
             first [ replace (a <=? b)%N with true
                       by (symmetry; apply N.leb_le; lia)
                   | replace (a <=? b)%N with false
                       by (symmetry; apply N.leb_gt; lia) ]
         | |- context [(?a =? ?b)%N] =>
             replace (a =? b)%N with false by (symmetry; apply N.eqb_neq; lia)
         end.
  reflexivity.
Qed.

Lemma digit_not_space c : isDigit c = true -> isWhiteSpace c = false.
Proof.
  unfold isDigit. intros H. apply andb_prop in H. destruct H as [H1 H2].
  apply N.leb_le in H1, H2. apply printable_not_space. lia.
Qed.

Lemma trimStart_id s :
  match s with c :: _ => isWhiteSpace c = false | [] => True end -> trimStart s = s.
Proof. destruct s as [|c t]; simpl; auto. intros ->. reflexivity. Qed.

Lemma trim_id s :
  forallb (fun c => negb (isWhiteSpace c)) s = true -> trim s = s.
Proof.
  intros H. unfold trim, trimEnd.
  rewrite (trimStart_id s).
  - rewrite trimStart_id; [apply rev_involutive|].
    destruct (rev s) as [|c t] eqn:E; auto.
    rewrite forallb_forall in H. apply negb_true_iff, H.
    apply in_rev. rewrite E. left. reflexivity.
  - destruct s as [|c t]; auto. simpl in H. apply andb_prop in H.
    apply negb_true_iff. tauto.
Qed.

Lemma digits_trim ds : forallb isDigit ds = true -> trim ds = ds.
Proof.
  intros H. apply trim_id. rewrite forallb_forall in *. intros c I.
  apply negb_true_iff, digit_not_space, H, I.
Qed.

Lemma Number_digits ds :
  ds <> [] -> forallb isDigit ds = true -> (decimal ds < 2 ^ 53)%N ->
  Number ds = Integer false (decimal ds).
Proof.
  intros NE D B. unfold Number. rewrite digits_trim by assumption.
  destruct ds as [|c t]; [congruence|].
  assert (Dc : isDigit c = true) by (simpl in D; apply andb_prop in D; tauto).
  assert (Rc : (48 <= c <= 57)%N).
  { unfold isDigit in Dc. apply andb_prop in Dc. destruct Dc as [A1 A2].
    apply N.leb_le in A1, A2. lia. }
  assert (ND : nonDecimalLiteral (c :: t) = None).
  { unfold nonDecimalLiteral. destruct t as [|p ds]; [reflexivity|].
    assert (Dp : (48 <= p <= 57)%N).
    { simpl in D. apply andb_prop in D. destruct D as [_ D]. apply andb_prop in D.
      destruct D as [D _]. unfold isDigit in D. apply andb_prop in D.
      destruct D as [A1 A2]. apply N.leb_le in A1, A2. lia. }
    destruct (negb (c =? 48)%N); [reflexivity|].
    replace (p =? 120)%N with false by (symmetry; apply N.eqb_neq; lia).
    replace (p =? 88)%N with false by (symmetry; apply N.eqb_neq; lia).
    replace (p =? 111)%N with false by (symmetry; apply N.eqb_neq; lia).
    replace (p =? 79)%N with false by (symmetry; apply N.eqb_neq; lia).
    replace (p =? 98)%N with false by (symmetry; apply N.eqb_neq; lia).
    replace (p =? 66)%N with false by (symmetry; apply N.eqb_neq; lia).
    reflexivity. }
  rewrite ND. unfold splitSign.
  replace (c =? 43)%N with false by (symmetry; apply N.eqb_neq; lia).
  replace (c =? 45)%N with false by (symmetry; apply N.eqb_neq; lia).
  replace (jseqb (c :: t) (lit "Infinity")) with false.
  2:{ symmetry. apply jseqb_neq. intros E. change (lit "Infinity") with
        [73; 110; 102; 105; 110; 105; 116; 121]%N in E. injection E as E _. lia. }
  unfold decimalLiteral. rewrite digits_all by assumption.
  cbn [length Nat.add]. fold (decimal (c :: t)).
  unfold exponentPart, decimalValue. cbn [Z.of_nat Z.opp Z.leb Z.compare].
  change (10 ^ 0)%Z with 1%Z. rewrite Z.mul_1_r.
  rewrite roundToDouble_exact.
  - rewrite N2Z.id. reflexivity.
  - split; [lia|]. change (2 ^ 53)%Z with (Z.of_N (2 ^ 53)). lia.
Qed.

Lemma parseContentLength_digits ds :
  ds <> [] -> forallb isDigit ds = true -> (decimal ds < 2 ^ 53)%N ->
  parseContentLength ds = Some (decimal ds).
Proof.
  intros NE D B. unfold parseContentLength.
  rewrite digits_trim by assumption.
  destruct ds as [|c t] eqn:E; [congruence|]. cbn [truthy negb]. rewrite <- E in *.
  rewrite Number_digits by (subst; auto).
  cbn [isInteger negb orb ltZ signed toZ].
  replace (Z.of_N (decimal ds) <? 0)%Z with false by (symmetry; apply Z.ltb_ge; lia).
  rewrite N2Z.id. reflexivity.
Qed.

(** trim is idempotent *)
Lemma trimStart_head s :
  match trimStart s with c :: _ => isWhiteSpace c = false | [] => True end.
Proof.
  induction s as [|c t IH]; simpl; auto.
  destruct (isWhiteSpace c) eqn:E; auto.
Qed.

Lemma trimStart_idem s : trimStart (trimStart s) = trimStart s.
Proof. apply trimStart_id, trimStart_head. Qed.

Lemma trimStart_snoc l c :
  isWhiteSpace c = false -> exists l', trimStart (l ++ [c]) = l' ++ [c].
Proof.
  intros H. induction l as [|x l IH]; simpl.
  - rewrite H. exists []. reflexivity.
  - destruct (isWhiteSpace x).
    + exact IH.
    + exists (x :: l). reflexivity.
Qed.

Lemma trimEnd_head c t :
  isWhiteSpace c = false -> exists t', trimEnd (c :: t) = c :: t'.
Proof.
  intros H. unfold trimEnd. simpl.
  destruct (trimStart_snoc (rev t) c H) as [l' ->].
  rewrite rev_app_distr. simpl. eauto.
Qed.

Lemma trim_idem s : trim (trim s) = trim s.
Proof.
  unfold trim.
  assert (E : trimStart (trimEnd (trimStart s)) = trimEnd (trimStart s)).
  { pose proof (trimStart_head s) as H. destruct (trimStart s) as [|c t].
    - reflexivity.
    - destruct (trimEnd_head c t H) as [t' ->]. simpl. rewrite H. reflexivity. }
  rewrite E. unfold trimEnd. rewrite rev_involutive, trimStart_idem. reflexivity.
Qed.

Lemma space_not_digit r w : isWhiteSpace w = true -> digitVal r w = None.
Proof.
  unfold digitVal. intros H.
  destruct ((48 <=? w) && (w <=? 57))%N eqn:E1;
    [|destruct ((97 <=? w) && (w <=? 122))%N eqn:E2;
      [|destruct ((65 <=? w) && (w <=? 90))%N eqn:E3; [|reflexivity]]];
  exfalso;
  match goal with
  | E : (_ && _)%bool = true |- _ =>
      apply andb_prop in E; destruct E as [A1 A2]; apply N.leb_le in A1, A2
  end;
  rewrite printable_not_space in H by lia; discriminate H.
Qed.

Lemma digits_keep_space r w s acc n :
  isWhiteSpace w = true -> In w s -> In w (snd (digits r s acc n)).
Proof.
  intros W. revert acc n. induction s as [|c t IH]; intros acc n I; simpl.
  - exact I.
  - destruct (digitVal r c) eqn:E.
    + apply IH. destruct I as [->|I]; auto.
      rewrite space_not_digit in E by assumption. discriminate.
    + exact I.
Qed.

Lemma splitSign_keep_space w s :
  isWhiteSpace w = true -> In w s -> In w (snd (splitSign s)).
Proof.
  intros W I. unfold splitSign. destruct s as [|c t]; [exact I|].
  destruct (c =? 43)%N eqn:E1.
  { apply N.eqb_eq in E1. subst c. destruct I as [<-|I]; [discriminate W | exact I]. }
  destruct (c =? 45)%N eqn:E2.
  { apply N.eqb_eq in E2. subst c. destruct I as [<-|I]; [discriminate W | exact I]. }
  exact I.
Qed.

Lemma exponentPart_space neg m nf w r :
  isWhiteSpace w = true -> In w r -> exponentPart neg m nf r = NaN.
Proof.
  intros W I. unfold exponentPart.
  destruct r as [|c t]; [contradiction|].
  destruct ((c =? 101) || (c =? 69))%N eqn:E; [|reflexivity].
  assert (It : In w t).
  { destruct I as [<-|]; auto. apply orb_prop in E.
    destruct E as [E|E]; apply N.eqb_eq in E; subst; discriminate W. }
  pose proof (splitSign_keep_space w t W It) as I3.
  destruct (splitSign t) as [eneg t']. simpl in I3.
  pose proof (digits_keep_space 10 w t' 0 0 W I3) as I4.
  destruct (digits 10 t' 0 0) as [[ev ne] r3]. simpl in I4.
  destruct ne; [reflexivity|]. destruct r3; [contradiction|reflexivity].
Qed.

Lemma decimalLiteral_space neg w u :
  isWhiteSpace w = true -> In w u -> decimalLiteral neg u = NaN.
Proof.
  intros W I. unfold decimalLiteral.
  pose proof (digits_keep_space 10 w u 0 0 W I) as I1.
  destruct (digits 10 u 0 0) as [[ip ni] r1]. simpl in I1.
  destruct r1 as [|c t]; [contradiction|].
  destruct (c =? 46)%N eqn:E.
  - apply N.eqb_eq in E. subst c.
    assert (It : In w t) by (destruct I1 as [<-|]; [discriminate W | assumption]).
    pose proof (digits_keep_space 10 w t ip 0 W It) as I2.
    destruct (digits 10 t ip 0) as [[m nf] r2]. simpl in I2.
    destruct ni, nf; try reflexivity; apply (exponentPart_space _ _ _ w); assumption.
  - destruct ni; try reflexivity; apply (exponentPart_space _ _ _ w); assumption.
Qed.

Lemma nonDecimalLiteral_space w u :
  isWhiteSpace w = true -> In w u -> nonDecimalLiteral u = None.
Proof.
  intros W I. unfold nonDecimalLiteral.
  destruct u as [|z [|p ds]]; try reflexivity.
  destruct (negb (z =? 48)%N) eqn:Ez; [reflexivity|].
  apply negb_false_iff, N.eqb_eq in Ez. subst z.
  destruct I as [<-|I]; [discriminate W|].
  assert (R : forall r, match digits r ds 0 0 with
                        | (v, S _, []) => Some (roundToDouble false (Z.of_N v) 1)
                        | _ => None
                        end = None \/ p = w).
  { intros r. destruct I as [->|I]; [right; reflexivity|left].
    pose proof (digits_keep_space r w ds 0 0 W I) as I2.
    destruct (digits r ds 0 0) as [[v k] rest]. simpl in I2.
    destruct k; [reflexivity|]. destruct rest; [contradiction|reflexivity]. }
  destruct ((p =? 120) || (p =? 88))%N eqn:E1;
    [|destruct ((p =? 111) || (p =? 79))%N eqn:E2;
      [|destruct ((p =? 98) || (p =? 66))%N eqn:E3; [|reflexivity]]];
  match goal with
  | |- match digits ?r _ _ _ with _ => _ end = None =>
      destruct (R r) as [->| ->]; [reflexivity|]
  end;
  match goal with
  | E : (_ || _)%bool = true |- _ =>
      apply orb_prop in E; destruct E as [E|E]; apply N.eqb_eq in E; subst w;
      discriminate W
  end.
Qed.

Lemma Number_space w u :
  isWhiteSpace w = true -> In w (trim u) -> Number u = NaN.
Proof.
  intros W I. unfold Number.
  destruct (trim u) as [|c t] eqn:E; [contradiction|]. rewrite <- E in *.
  rewrite (nonDecimalLiteral_space w) by assumption.
  pose proof (splitSign_keep_space w (trim u) W I) as I2.
  destruct (splitSign (trim u)) as [neg u']. simpl in I2.
  destruct (jseqb u' (lit "Infinity")) eqn:J.
  - apply jseqb_eq in J. subst u'. exfalso.
    change (lit "Infinity") with [73; 110; 102; 105; 110; 105; 116; 121]%N in I2.
    simpl in I2. repeat (destruct I2 as [<-|I2]; [discriminate W|]). exact I2.
  - apply (decimalLiteral_space neg w); assumption.
Qed.

Lemma parseContentLength_space s w :
  In w (trim s) -> isWhiteSpace w = true -> parseContentLength s = None.
Proof.
  intros I W. unfold parseContentLength.
  destruct (negb (truthy (trim s))); [reflexivity|].
  rewrite (Number_space w) by (try rewrite trim_idem; assumption). reflexivity.
Qed.

Lemma roundToDouble_sign neg a b : signIs neg (roundToDouble neg a b).
Proof.
  unfold roundToDouble. cbv zeta.
  repeat match goal with
         | |- context [if ?c then _ else _] => destruct c
         end; reflexivity.
Qed.

Lemma decimalValue_sign neg m e : signIs neg (decimalValue neg m e).
Proof. unfold decimalValue. destruct (0 <=? e)%Z; apply roundToDouble_sign. Qed.

Lemma exponentPart_sign neg m nf r : signIs neg (exponentPart neg m nf r).
Proof.
  unfold exponentPart. destruct r as [|c t]; [apply decimalValue_sign|].
  destruct (_ || _)%bool; [|exact I].
  destruct (splitSign t) as [eneg t'].
  destruct (digits 10 t' 0 0) as [[ev ne] r3].
  destruct ne; [exact I|]. destruct r3; [apply decimalValue_sign | exact I].
Qed.

Lemma decimalLiteral_sign neg u : signIs neg (decimalLiteral neg u).
Proof.
  unfold decimalLiteral.
  destruct (digits 10 u 0 0) as [[ip ni] r1].
  destruct (match r1 with
            | [] => (ip, 0, r1)
            | c :: t => if (c =? 46)%N then digits 10 t ip 0 else (ip, 0, r1)
            end) as [[m nf] r2].
  destruct ni, nf; try apply exponentPart_sign. exact I.
Qed.

Lemma parseContentLength_minus s u :
  trim s = 45%N :: u ->
  parseContentLength s = None \/ parseContentLength s = Some 0%N.
Proof.
  intros E. unfold parseContentLength. rewrite E. cbn [truthy negb].
  unfold Number. rewrite <- E, trim_idem, E.
  assert (ND : nonDecimalLiteral (45%N :: u) = None).
  { unfold nonDecimalLiteral. destruct u; reflexivity. }
  rewrite ND. cbn [splitSign N.eqb Pos.eqb].
  destruct (jseqb u (lit "Infinity")); [left; reflexivity|].
  pose proof (decimalLiteral_sign true u) as S.
  destruct (decimalLiteral true u) as [|b|b n|b q k]; try (left; reflexivity).
  simpl in S. subst b. cbn [isInteger negb orb ltZ signed toZ].
  destruct n as [|p].
  - right. reflexivity.
  - left. reflexivity.
Qed.

End NumberProps.

(* ===================================================================== *)
(** * Properties of the chunk-size reader *)
(* ===================================================================== *)

Module ChunkSizeProps.
Import NumberSpec NumberProps.

(** A whole number is never rounded to a fraction. *)
Lemma roundToDouble_whole neg v :
  (0 <= v)%Z -> match roundToDouble neg v 1 with Fraction _ _ _ | NaN => False | _ => True end.
Proof.
  intros H0. unfold roundToDouble.
  destruct (v =? 0)%Z eqn:E0; [exact I|].
  apply Z.eqb_neq in E0.
  cbv zeta.
  match goal with |- context [Z.max ?a ?b] => set (k := Z.max a b) end.
  destruct (0 <=? k)%Z eqn:Ek.
  - match goal with |- context [if ?c then Infinity _ else _] => destruct c end; exact I.
  - apply Z.leb_gt in Ek.
    rewrite Z.div_1_r, Z.mod_1_r. cbn [Z.mul Z.ltb Z.eqb Z.compare orb andb].
    assert (P : (0 < 2 ^ (- k))%Z) by (apply Z.pow_pos_nonneg; lia).
    rewrite Z.mod_mul by lia. cbn [Z.eqb]. exact I.
Qed.

Lemma parseInt_whole s radix :
  match parseInt s radix with Fraction _ _ _ => False | _ => True end.
Proof.
  unfold parseInt. destruct (splitSign (trimStart s)) as [neg s1].
  match goal with |- context [digits radix ?x 0 0] => destruct (digits radix x 0 0) as [[v n] r] end.
  destruct n; [exact I|].
  pose proof (roundToDouble_whole neg (Z.of_N v) (N2Z.is_nonneg v)) as W.
  destruct (roundToDouble neg (Z.of_N v) 1); auto.
Qed.

(** X1: an accepted chunk size never exceeds the limit passed. *)
Theorem parseChunkSize_within_limit (hex : jsstring) (maxSize : Z) (n : N) :
  parseChunkSize hex maxSize = Some n -> (Z.of_N n <= maxSize)%Z.
Proof.
  unfold parseChunkSize.
  destruct (negb (truthy (trim hex))); [discriminate|].
  pose proof (parseInt_whole (trim hex) 16) as W.
  destruct (parseInt (trim hex) 16) as [|neg|neg m|neg q k]; simpl; try discriminate.
  - destruct neg; simpl; discriminate.
  - destruct (signed neg m <? 0)%Z eqn:L; [discriminate|].
    destruct (maxSize <? signed neg m)%Z eqn:G; [discriminate|].
    intros [= <-]. apply Z.ltb_ge in L, G. rewrite Z2N.id by exact L. exact G.
  - contradiction.
Qed.

Lemma hexDigit_range c : isHexDigit c = true ->
  (48 <= c <= 57 \/ 65 <= c <= 70 \/ 97 <= c <= 102)%N.
Proof.
  unfold isHexDigit. intros H.
  apply orb_prop in H. destruct H as [H|H].
  - apply orb_prop in H. destruct H as [H|H]; apply andb_prop in H; destruct H as [A B];
      apply N.leb_le in A, B; lia.
  - apply andb_prop in H; destruct H as [A B]; apply N.leb_le in A, B; lia.
Qed.

Lemma digitVal_hex c : isHexDigit c = true -> digitVal 16 c = Some (hexDigitValue c).
Proof.
  intros H. apply hexDigit_range in H. unfold digitVal, hexDigitValue.
  destruct H as [H|[H|H]].
  - replace (48 <=? c)%N with true by (symmetry; apply N.leb_le; lia).
    replace (c <=? 57)%N with true by (symmetry; apply N.leb_le; lia). simpl.
    replace (c - 48 <? 16)%N with true by (symmetry; apply N.ltb_lt; lia). reflexivity.
  - replace (c <=? 57)%N with false by (symmetry; apply N.leb_gt; lia).
    rewrite andb_false_r.
    replace (97 <=? c)%N with false by (symmetry; apply N.leb_gt; lia). simpl.
    replace (65 <=? c)%N with true by (symmetry; apply N.leb_le; lia).
    replace (c <=? 90)%N with true by (symmetry; apply N.leb_le; lia). simpl.
    replace (c <=? 70)%N with true by (symmetry; apply N.leb_le; lia).
    replace (c - 55 <? 16)%N with true by (symmetry; apply N.ltb_lt; lia). reflexivity.
  - replace (c <=? 57)%N with false by (symmetry; apply N.leb_gt; lia).
    rewrite andb_false_r.
    replace (97 <=? c)%N with true by (symmetry; apply N.leb_le; lia).
    replace (c <=? 122)%N with true by (symmetry; apply N.leb_le; lia). simpl.
    replace (c <=? 70)%N with false by (symmetry; apply N.leb_gt; lia).
    replace (c - 87 <? 16)%N with true by (symmetry; apply N.ltb_lt; lia). reflexivity.
Qed.

(** The digits of [ds] are read in full, and reading stops at [r] when [r]
    is empty or begins with something that is no hexadecimal digit. *)
Lemma digits_hex ds r acc n :
  forallb isHexDigit ds = true ->
  match r with c :: _ => digitVal 16 c = None | [] => True end ->
  digits 16 (ds ++ r) acc n =
  (fold_left (fun a c => a * 16 + hexDigitValue c)%N ds acc, n + length ds, r).
Proof.
  revert acc n. induction ds as [|c t IH]; intros acc n H R; simpl.
  - rewrite Nat.add_0_r. destruct r as [|c r]; [reflexivity|]. simpl. rewrite R. reflexivity.
  - apply andb_prop in H. destruct H as [Hc Ht].
    rewrite digitVal_hex by assumption. rewrite IH by assumption.
    f_equal. f_equal. lia.
Qed.

Lemma hex_not_space c : isHexDigit c = true -> isWhiteSpace c = false.
Proof. intros H. apply hexDigit_range in H. apply printable_not_space. lia. Qed.

Lemma parseInt_hex ds r :
  ds <> [] -> forallb isHexDigit ds = true -> stops r ->
  parseInt (ds ++ r) 16 = roundToDouble false (Z.of_N (hexadecimal ds)) 1.
Proof.
  intros NE H R. unfold parseInt.
  destruct ds as [|c t]; [congruence|].
  assert (Hc : isHexDigit c = true) by (simpl in H; apply andb_prop in H; tauto).
  assert (Ht : forallb isHexDigit t = true) by (simpl in H; apply andb_prop in H; tauto).
  pose proof (hexDigit_range c Hc) as Rc.
  rewrite trimStart_id by (simpl; apply hex_not_space, Hc).
  cbn [app splitSign].
  replace (c =? 43)%N with false by (symmetry; apply N.eqb_neq; lia).
  replace (c =? 45)%N with false by (symmetry; apply N.eqb_neq; lia).
  change (16 =? 16)%N with true. cbv iota.
  assert (S2 : match t ++ r with
               | p :: t' => if ((c =? 48) && ((p =? 120) || (p =? 88)))%N then t' else c :: t ++ r
               | [] => c :: t ++ r
               end = c :: t ++ r).
  { destruct t as [|p t'].
    - simpl. destruct r as [|x r']; [reflexivity|]. simpl in R. destruct R as (_ & R1 & R2).
      replace (x =? 120)%N with false by (symmetry; apply N.eqb_neq; lia).
      replace (x =? 88)%N with false by (symmetry; apply N.eqb_neq; lia).
      rewrite andb_false_r. reflexivity.
    - simpl in Ht. apply andb_prop in Ht. destruct Ht as [Hp _].
      apply hexDigit_range in Hp. simpl.
      replace (p =? 120)%N with false by (symmetry; apply N.eqb_neq; lia).
      replace (p =? 88)%N with false by (symmetry; apply N.eqb_neq; lia).
      rewrite andb_false_r. reflexivity. }
  match goal with |- context [digits 16 ?x 0 0] =>
    replace x with (c :: t ++ r) by (symmetry; exact S2) end.
  change (c :: t ++ r) with ((c :: t) ++ r).
  rewrite digits_hex; [| exact H | destruct r; [exact I | apply R]].
  cbn [length Nat.add]. reflexivity.
Qed.

(** [trim] leaves a prefix that begins and ends with no white space where
    it is, and what it keeps after it is a prefix of what was there. *)
Lemma trimStart_app_keep l a :
  match a with c :: _ => isWhiteSpace c = false | [] => False end ->
  exists l1 l2, l = l1 ++ l2 /\ trimStart (l ++ a) = l2 ++ a.
Proof.
  intros Ha. induction l as [|x l IH].
  - exists [], []. split; [reflexivity|]. simpl. apply trimStart_id.
    destruct a; [contradiction | exact Ha].
  - simpl. destruct (isWhiteSpace x) eqn:W.
    + destruct IH as (l1 & l2 & E & T). exists (x :: l1), l2. split; [simpl; congruence | exact T].
    + exists [], (x :: l). split; reflexivity.
Qed.

Lemma trim_keeps_prefix ds r :
  ds <> [] -> forallb (fun c => negb (isWhiteSpace c)) ds = true ->
  exists r1 r2, r = r1 ++ r2 /\ trim (ds ++ r) = ds ++ r1.
Proof.
  intros NE H. unfold trim, trimEnd.
  rewrite (trimStart_id (ds ++ r)).
  2:{ destruct ds as [|c t]; [congruence|]. simpl in *. apply andb_prop in H.
      apply negb_true_iff. tauto. }
  rewrite rev_app_distr.
  destruct (trimStart_app_keep (rev r) (rev ds)) as (l1 & l2 & E & T).
  { destruct (rev ds) as [|c t] eqn:Er.
    - apply (f_equal (@rev N)) in Er. rewrite rev_involutive in Er. simpl in Er. congruence.
    - rewrite forallb_forall in H. apply negb_true_iff, H, in_rev. rewrite Er. left. reflexivity. }
  rewrite T. rewrite rev_app_distr, rev_involutive.
  exists (rev l2), (rev l1). split; [|reflexivity].
  rewrite <- rev_app_distr, <- E. symmetry. apply rev_involutive.
Qed.

Lemma hex_no_space ds :
  forallb isHexDigit ds = true -> forallb (fun c => negb (isWhiteSpace c)) ds = true.
Proof.
  intros H. rewrite forallb_forall in *. intros c I. apply negb_true_iff, hex_not_space, H, I.
Qed.

Lemma truthy_app_l (a b : jsstring) : a <> [] -> truthy (a ++ b) = true.
Proof. destruct a; [congruence | reflexivity]. Qed.

(** X2: a string of hexadecimal digits is read as the number it denotes, and
    accepted when that number is within the limit. *)
Theorem parseChunkSize_hexadecimal (ds : jsstring) (maxSize : Z) :
  ds <> [] -> forallb isHexDigit ds = true -> (hexadecimal ds < 2 ^ 53)%N ->
  parseChunkSize ds maxSize =
  if (Z.of_N (hexadecimal ds) <=? maxSize)%Z then Some (hexadecimal ds) else None.
Proof.
  intros NE H B. unfold parseChunkSize.
  rewrite trim_id by (apply hex_no_space, H).
  rewrite <- (app_nil_r ds) at 1. rewrite truthy_app_l by assumption. cbn [negb].
  assert (P : parseInt ds 16 = Integer false (hexadecimal ds)).
  { rewrite <- (app_nil_r ds) at 1. rewrite parseInt_hex by (auto; exact I).
    rewrite roundToDouble_exact.
    - rewrite N2Z.id. reflexivity.
    - split; [lia|]. change (2 ^ 53)%Z with (Z.of_N (2 ^ 53)). lia. }
  rewrite P. cbn [isNaN ltZ gtZ signed toZ orb].
  replace (Z.of_N (hexadecimal ds) <? 0)%Z with false by (symmetry; apply Z.ltb_ge; lia).
  rewrite N2Z.id.
  destruct (Z.of_N (hexadecimal ds) <=? maxSize)%Z eqn:L.
  - apply Z.leb_le in L. replace (maxSize <? Z.of_N (hexadecimal ds))%Z with false
      by (symmetry; apply Z.ltb_ge; lia). reflexivity.
  - apply Z.leb_gt in L. replace (maxSize <? Z.of_N (hexadecimal ds))%Z with true
      by (symmetry; apply Z.ltb_lt; lia). reflexivity.
Qed.

(** X3: whatever follows the hexadecimal digits is ignored, from the first
    unit that is neither a digit nor an x. *)
Theorem parseChunkSize_ignores_tail (ds : jsstring) (c : N) (tail : jsstring) (maxSize : Z) :
  ds <> [] -> forallb isHexDigit ds = true ->
  digitVal 16 c = None -> c <> 120%N -> c <> 88%N ->
  parseChunkSize (ds ++ c :: tail) maxSize = parseChunkSize ds maxSize.
Proof.
  intros NE H Dc C1 C2. unfold parseChunkSize.
  destruct (trim_keeps_prefix ds (c :: tail) NE (hex_no_space ds H)) as (r1 & r2 & E & T).
  rewrite T. rewrite trim_id by (apply hex_no_space, H).
  rewrite truthy_app_l by assumption.
  replace (truthy ds) with true by (destruct ds; [congruence | reflexivity]).
  assert (St : stops r1).
  { destruct r1 as [|x r1]; [exact I|]. simpl in E. injection E as <- _.
    repeat split; assumption. }
  rewrite (parseInt_hex ds r1) by assumption.
  assert (P : parseInt ds 16 = roundToDouble false (Z.of_N (hexadecimal ds)) 1).
  { rewrite <- (app_nil_r ds) at 1. apply parseInt_hex; auto. exact I. }
  rewrite P. reflexivity.
Qed.

End ChunkSizeProps.

(* ===================================================================== *)
(** * parseContentLength by the shape of its argument *)
(* ===================================================================== *)

Module ContentLengthProps.
Import NumberSpec NumberProps ChunkSizeProps.

(** ** What [parseContentLength] does with the number read *)

Lemma parseContentLength_trim s : parseContentLength s = parseContentLength (trim s).
Proof. unfold parseContentLength. rewrite trim_idem. reflexivity. Qed.

Lemma trim_fixed s v : trim s = v -> trim v = v.
Proof. intros <-. apply trim_idem. Qed.

(** [Number] on a trimmed, non-empty string. *)
Lemma Number_trimmed v :
  trim v = v -> v <> [] ->
  Number v =
  match nonDecimalLiteral v with
  | Some x => x
  | None =>
      let '(neg, u) := splitSign v in
      if jseqb u (lit "Infinity") then Infinity neg else decimalLiteral neg u
  end.
Proof.
  intros T NE. unfold Number. rewrite T. destruct v; [congruence | reflexivity].
Qed.

Lemma parseContentLength_whole s neg n :
  trim s <> [] -> Number (trim s) = Integer neg n ->
  parseContentLength s =
  if (signed neg n <? 0)%Z then None else Some (Z.to_N (signed neg n)).
Proof.
  intros NE E. unfold parseContentLength.
  rewrite (HeadersProps.truthy_nonempty _ NE), E. reflexivity.
Qed.

Lemma parseContentLength_not_whole s :
  isInteger (Number (trim s)) = false -> parseContentLength s = None.
Proof.
  intros E. unfold parseContentLength.
  destruct (negb (truthy (trim s))); [reflexivity|]. rewrite E. reflexivity.
Qed.

(** ** Reading decimal digits *)

Lemma digitVal_other c : isDigit c = false -> digitVal 10 c = None.
Proof.
  unfold isDigit, digitVal. intros ->.
  destruct ((97 <=? c) && (c <=? 122))%N eqn:E1.
  { apply andb_prop in E1. destruct E1 as [A B]. apply N.leb_le in A, B.
    replace (c - 87 <? 10)%N with false by (symmetry; apply N.ltb_ge; lia). reflexivity. }
  destruct ((65 <=? c) && (c <=? 90))%N eqn:E2; [|reflexivity].
  apply andb_prop in E2. destruct E2 as [A B]. apply N.leb_le in A, B.
  replace (c - 55 <? 10)%N with false by (symmetry; apply N.ltb_ge; lia). reflexivity.
Qed.

(** The digits are read in full, and reading stops at a unit that is none. *)
Lemma digits_prefix ds c rest acc n :
  forallb isDigit ds = true -> isDigit c = false ->
  digits 10 (ds ++ c :: rest) acc n =
  (fold_left (fun a d => a * 10 + (d - 48))%N ds acc, n + length ds, c :: rest).
Proof.
  revert acc n. induction ds as [|d t IH]; intros acc n H Hc.
  - cbn [app digits fold_left length]. rewrite digitVal_other by exact Hc.
    rewrite Nat.add_0_r. reflexivity.
  - cbn [forallb] in H. apply andb_prop in H. destruct H as [Hd Ht].
    cbn [app digits]. rewrite digitVal_digit by exact Hd.
    rewrite IH by assumption. cbn [fold_left length]. f_equal. f_equal. lia.
Qed.

Lemma digit_head_range d t : forallb isDigit (d :: t) = true -> (48 <= d <= 57)%N.
Proof.
  cbn [forallb]. intros H. apply andb_prop in H. destruct H as [H _].
  unfold isDigit in H. apply andb_prop in H. destruct H as [A B].
  apply N.leb_le in A, B. lia.
Qed.

Lemma not_Infinity c t : c <> 73%N -> jseqb (c :: t) (lit "Infinity") = false.
Proof.
  intros H. apply jseqb_neq. intros E.
  change (lit "Infinity") with [73; 110; 102; 105; 110; 105; 116; 121]%N in E.
  injection E as E _. congruence.
Qed.

(** A literal made of digits only. *)
Lemma decimalLiteral_digits neg ds :
  ds <> [] -> forallb isDigit ds = true -> (decimal ds < 2 ^ 53)%N ->
  decimalLiteral neg ds = Integer neg (decimal ds).
Proof.
  intros NE D B. unfold decimalLiteral. rewrite digits_all by exact D.
  destruct ds as [|c t]; [congruence|].
  cbn [length Nat.add]. fold (decimal (c :: t)).
  unfold exponentPart, decimalValue. cbn [Z.of_nat Z.opp Z.leb Z.compare].
  change (10 ^ 0)%Z with 1%Z. rewrite Z.mul_1_r.
  rewrite roundToDouble_exact.
  - rewrite N2Z.id. reflexivity.
  - split; [lia|]. change (2 ^ 53)%Z with (Z.of_N (2 ^ 53)). lia.
Qed.

Lemma nonDecimalLiteral_sign c u :
  c <> 48%N -> nonDecimalLiteral (c :: u) = None.
Proof.
  intros H. unfold nonDecimalLiteral. destruct u as [|p ds]; [reflexivity|].
  replace (c =? 48)%N with false by (symmetry; apply N.eqb_neq; exact H). reflexivity.
Qed.

(** A sign followed by digits. *)
Lemma Number_signed (c : N) ds :
  c = 43%N \/ c = 45%N ->
  ds <> [] -> forallb isDigit ds = true -> (decimal ds < 2 ^ 53)%N ->
  trim (c :: ds) = c :: ds ->
  Number (c :: ds) = Integer (c =? 45)%N (decimal ds).
Proof.
  intros Hc NE D B T. rewrite Number_trimmed by (auto; discriminate).
  rewrite nonDecimalLiteral_sign by (destruct Hc; subst; discriminate).
  destruct ds as [|d t] eqn:Eds; [congruence|]. rewrite <- Eds in *.
  assert (Rd : (48 <= d <= 57)%N) by (apply (digit_head_range d t); rewrite <- Eds; exact D).
  assert (J : jseqb ds (lit "Infinity") = false).
  { rewrite Eds. apply not_Infinity. lia. }
  destruct Hc as [-> | ->]; cbn [splitSign N.eqb Pos.eqb]; rewrite J;
    apply decimalLiteral_digits; assumption.
Qed.

(** The prefix [0x] or [0X] followed by hexadecimal digits. *)
Lemma Number_hex (x : N) hs :
  x = 120%N \/ x = 88%N ->
  hs <> [] -> forallb isHexDigit hs = true -> (hexadecimal hs < 2 ^ 53)%N ->
  trim (48%N :: x :: hs) = 48%N :: x :: hs ->
  Number (48%N :: x :: hs) = Integer false (hexadecimal hs).
Proof.
  intros Hx NE H B T. rewrite Number_trimmed by (auto; discriminate).
  unfold nonDecimalLiteral. cbn [N.eqb Pos.eqb negb].
  replace ((x =? 120) || (x =? 88))%N with true
    by (destruct Hx; subst; reflexivity).
  rewrite <- (app_nil_r hs) at 1. rewrite digits_hex by (auto; exact I).
  destruct hs as [|c t]; [congruence|]. cbn [length Nat.add].
  fold (hexadecimal (c :: t)). rewrite roundToDouble_exact.
  - rewrite N2Z.id. reflexivity.
  - split; [lia|]. change (2 ^ 53)%Z with (Z.of_N (2 ^ 53)). lia.
Qed.

(** Digits followed by something: no prefix of another radix unless the
    digits are a single 0 and a radix letter follows. *)
Lemma nonDecimalLiteral_digits ds c rest :
  ds <> [] -> forallb isDigit ds = true ->
  (ds = [48%N] -> radixLetter c = false) ->
  nonDecimalLiteral (ds ++ c :: rest) = None.
Proof.
  intros NE D R. unfold nonDecimalLiteral.
  destruct ds as [|z [|p t]]; [congruence | |]; cbn [app].
  - destruct (negb (z =? 48)%N) eqn:Ez; [reflexivity|].
    apply negb_false_iff, N.eqb_eq in Ez. subst z. specialize (R eq_refl).
    unfold radixLetter in R.
    repeat (apply orb_false_elim in R; destruct R as [R ?]).
    repeat match goal with H : (c =? _)%N = false |- _ => rewrite H; clear H end.
    reflexivity.
  - destruct (negb (z =? 48)%N); [reflexivity|].
    assert (Rp : (48 <= p <= 57)%N).
    { apply (digit_head_range p t). cbn [forallb] in D. apply andb_prop in D. tauto. }
    replace (p =? 120)%N with false by (symmetry; apply N.eqb_neq; lia).
    replace (p =? 88)%N with false by (symmetry; apply N.eqb_neq; lia).
    replace (p =? 111)%N with false by (symmetry; apply N.eqb_neq; lia).
    replace (p =? 79)%N with false by (symmetry; apply N.eqb_neq; lia).
    replace (p =? 98)%N with false by (symmetry; apply N.eqb_neq; lia).
    replace (p =? 66)%N with false by (symmetry; apply N.eqb_neq; lia).
    reflexivity.
Qed.

Lemma splitSign_digits ds rest :
  ds <> [] -> forallb isDigit ds = true -> splitSign (ds ++ rest) = (false, ds ++ rest).
Proof.
  intros NE D. destruct ds as [|d t]; [congruence|].
  pose proof (digit_head_range d t D) as Rd. cbn [app splitSign].
  replace (d =? 43)%N with false by (symmetry; apply N.eqb_neq; lia).
  replace (d =? 45)%N with false by (symmetry; apply N.eqb_neq; lia).
  reflexivity.
Qed.

Lemma digits_not_Infinity ds rest :
  ds <> [] -> forallb isDigit ds = true -> jseqb (ds ++ rest) (lit "Infinity") = false.
Proof.
  intros NE D. destruct ds as [|d t]; [congruence|].
  pose proof (digit_head_range d t D) as Rd. cbn [app]. apply not_Infinity. lia.
Qed.

(** Digits, the letter e, digits. *)
Lemma Number_exponent ds (e : N) es :
  e = 101%N \/ e = 69%N ->
  ds <> [] -> forallb isDigit ds = true ->
  es <> [] -> forallb isDigit es = true ->
  (decimal ds * 10 ^ decimal es < 2 ^ 53)%N ->
  trim (ds ++ e :: es) = ds ++ e :: es ->
  Number (ds ++ e :: es) = Integer false (decimal ds * 10 ^ decimal es).
Proof.
  intros He NEd Dd NEe De B T.
  assert (Ne : isDigit e = false) by (destruct He; subst; reflexivity).
  assert (NEv : ds ++ e :: es <> []) by (destruct ds; discriminate).
  rewrite (Number_trimmed _ T NEv).
  assert (Re : ds = [48%N] -> radixLetter e = false)
    by (intros _; destruct He; subst; reflexivity).
  rewrite (nonDecimalLiteral_digits ds e es NEd Dd Re).
  rewrite splitSign_digits, digits_not_Infinity by assumption.
  unfold decimalLiteral. rewrite digits_prefix by assumption.
  fold (decimal ds).
  replace (e =? 46)%N with false by (destruct He; subst; reflexivity).
  destruct (0 + length ds) eqn:L; [destruct ds; [congruence | discriminate L]|].
  unfold exponentPart.
  replace ((e =? 101) || (e =? 69))%N with true by (destruct He; subst; reflexivity).
  rewrite <- (app_nil_r es) at 1. rewrite splitSign_digits by assumption.
  rewrite app_nil_r, digits_all by exact De. fold (decimal es).
  destruct (0 + length es) eqn:Le; [destruct es; [congruence | discriminate Le]|].
  cbn [Z.of_nat]. rewrite Z.sub_0_r.
  unfold decimalValue.
  replace (0 <=? Z.of_N (decimal es))%Z with true by (symmetry; apply Z.leb_le; lia).
  assert (V : (Z.of_N (decimal ds) * 10 ^ Z.of_N (decimal es)
               = Z.of_N (decimal ds * 10 ^ decimal es))%Z).
  { rewrite N2Z.inj_mul, N2Z.inj_pow. reflexivity. }
  rewrite V, roundToDouble_exact.
  - rewrite N2Z.id. reflexivity.
  - split; [lia|]. change (2 ^ 53)%Z with (Z.of_N (2 ^ 53)). lia.
Qed.

(** Digits, if any, followed by a unit that no numeric literal has there. *)
Lemma Number_stray ds c rest :
  forallb isDigit ds = true -> isDigit c = false ->
  c <> 46%N -> c <> 43%N -> c <> 45%N -> c <> 101%N -> c <> 69%N ->
  (ds = [48%N] -> radixLetter c = false) ->
  trim (ds ++ c :: rest) = ds ++ c :: rest ->
  isInteger (Number (ds ++ c :: rest)) = false.
Proof.
  intros D Nc C1 C2 C3 C4 C5 R T.
  assert (NEv : ds ++ c :: rest <> []) by (destruct ds; discriminate).
  rewrite (Number_trimmed _ T NEv).
  assert (C0 : c <> 48%N) by (intros ->; discriminate Nc).
  assert (ND : nonDecimalLiteral (ds ++ c :: rest) = None).
  { destruct ds as [|d t] eqn:Eds.
    - apply nonDecimalLiteral_sign. exact C0.
    - rewrite <- Eds in *. apply nonDecimalLiteral_digits; auto. rewrite Eds. discriminate. }
  rewrite ND.
  assert (S : splitSign (ds ++ c :: rest) = (false, ds ++ c :: rest)).
  { destruct ds as [|d t] eqn:Eds.
    - cbn [app splitSign].
      replace (c =? 43)%N with false by (symmetry; apply N.eqb_neq; exact C2).
      replace (c =? 45)%N with false by (symmetry; apply N.eqb_neq; exact C3).
      reflexivity.
    - rewrite <- Eds in *. apply splitSign_digits; auto. rewrite Eds. discriminate. }
  rewrite S. destruct (jseqb _ (lit "Infinity")); [reflexivity|].
  unfold decimalLiteral. rewrite digits_prefix by assumption.
  replace (c =? 46)%N with false by (symmetry; apply N.eqb_neq; exact C1).
  destruct (0 + length ds); [reflexivity|].
  unfold exponentPart.
  replace (c =? 101)%N with false by (symmetry; apply N.eqb_neq; exact C4).
  replace (c =? 69)%N with false by (symmetry; apply N.eqb_neq; exact C5).
  reflexivity.
Qed.

(** C5 (amended): [parseContentLength] trims the value, hands it to
    [Number] and accepts what comes back when it is an integer that is not
    below zero.  In terms of the trimmed value:
    - empty: rejected;
    - decimal digits with a value below 2^53: accepted with that value;
    - the same digits after a plus sign: accepted with that value;
    - the same digits after a minus sign: rejected, unless the value is
      zero, which is accepted as 0;
    - [0x] or [0X] and hexadecimal digits with a value below 2^53: accepted
      with that value;
    - digits, [e] or [E], digits, denoting a number below 2^53: accepted
      with that number;
    - white space inside: rejected;
    - decimal digits (or none) followed by a unit that is no digit, point,
      sign or exponent letter, and that does not complete one of the
      prefixes [0x], [0o], [0b]: rejected;
    - anything after a minus sign: rejected or accepted as 0. *)
Theorem parseContentLength_by_shape :
  (forall s, trim s = [] -> parseContentLength s = None) /\
  (forall s ds, trim s = ds ->
     ds <> [] -> forallb isDigit ds = true -> (decimal ds < 2 ^ 53)%N ->
     parseContentLength s = Some (decimal ds)) /\
  (forall s ds, trim s = 43%N :: ds ->
     ds <> [] -> forallb isDigit ds = true -> (decimal ds < 2 ^ 53)%N ->
     parseContentLength s = Some (decimal ds)) /\
  (forall s ds, trim s = 45%N :: ds ->
     ds <> [] -> forallb isDigit ds = true -> (decimal ds < 2 ^ 53)%N ->
     parseContentLength s = if (decimal ds =? 0)%N then Some 0%N else None) /\
  (forall s x hs, trim s = 48%N :: x :: hs -> x = 120%N \/ x = 88%N ->
     hs <> [] -> forallb isHexDigit hs = true -> (hexadecimal hs < 2 ^ 53)%N ->
     parseContentLength s = Some (hexadecimal hs)) /\
  (forall s ds e es, trim s = ds ++ e :: es -> e = 101%N \/ e = 69%N ->
     ds <> [] -> forallb isDigit ds = true ->
     es <> [] -> forallb isDigit es = true ->
     (decimal ds * 10 ^ decimal es < 2 ^ 53)%N ->
     parseContentLength s = Some (decimal ds * 10 ^ decimal es)%N) /\
  (forall s w, In w (trim s) -> isWhiteSpace w = true ->
     parseContentLength s = None) /\
  (forall s ds c rest, trim s = ds ++ c :: rest ->
     forallb isDigit ds = true -> isDigit c = false ->
     c <> 46%N -> c <> 43%N -> c <> 45%N -> c <> 101%N -> c <> 69%N ->
     (ds = [48%N] -> radixLetter c = false) ->
     parseContentLength s = None) /\
  (forall s u, trim s = 45%N :: u ->
     parseContentLength s = None \/ parseContentLength s = Some 0%N).
Proof.
  split; [|split; [|split; [|split; [|split; [|split; [|split; [|split]]]]]]].
  - intros s E. unfold parseContentLength. rewrite E. reflexivity.
  - intros s ds E NE D B. rewrite parseContentLength_trim, E.
    apply parseContentLength_digits; assumption.
  - intros s ds E NE D B.
    pose proof (Number_signed 43 ds (or_introl eq_refl) NE D B (trim_fixed _ _ E)) as Nm.
    rewrite <- E in Nm.
    rewrite (parseContentLength_whole s _ _ ltac:(rewrite E; discriminate) Nm).
    cbn [N.eqb Pos.eqb signed].
    replace (Z.of_N (decimal ds) <? 0)%Z with false by (symmetry; apply Z.ltb_ge; lia).
    rewrite N2Z.id. reflexivity.
  - intros s ds E NE D B.
    pose proof (Number_signed 45 ds (or_intror eq_refl) NE D B (trim_fixed _ _ E)) as Nm.
    rewrite <- E in Nm.
    rewrite (parseContentLength_whole s _ _ ltac:(rewrite E; discriminate) Nm).
    cbn [N.eqb Pos.eqb signed].
    destruct (decimal ds) as [|p]; reflexivity.
  - intros s x hs E Hx NE H B.
    pose proof (Number_hex x hs Hx NE H B (trim_fixed _ _ E)) as Nm.
    rewrite <- E in Nm.
    rewrite (parseContentLength_whole s _ _ ltac:(rewrite E; discriminate) Nm).
    cbn [signed].
    replace (Z.of_N (hexadecimal hs) <? 0)%Z with false by (symmetry; apply Z.ltb_ge; lia).
    rewrite N2Z.id. reflexivity.
  - intros s ds e es E He NEd Dd NEe De B.
    pose proof (Number_exponent ds e es He NEd Dd NEe De B (trim_fixed _ _ E)) as Nm.
    rewrite <- E in Nm.
    assert (NEv : trim s <> []) by (rewrite E; destruct ds; discriminate).
    rewrite (parseContentLength_whole s _ _ NEv Nm).
    cbn [signed].
    replace (Z.of_N (decimal ds * 10 ^ decimal es) <? 0)%Z with false
      by (symmetry; apply Z.ltb_ge; lia).
    rewrite N2Z.id. reflexivity.
  - exact parseContentLength_space.
  - intros s ds c rest E D Nc C1 C2 C3 C4 C5 R.
    apply parseContentLength_not_whole. rewrite E.
    apply Number_stray; auto. exact (trim_fixed _ _ E).
  - exact parseContentLength_minus.
Qed.

End ContentLengthProps.

(* ===================================================================== *)
(** * Laws of the header container *)
(* ===================================================================== *)

Module HeadersLaws.
Import Headers HeadersSpec HeadersProps.

Section WithPlatform.
Variable toLowerCase : jsstring -> jsstring.
Variable entropy : nat -> jsstring.

Local Abbreviation sameLower := (HeadersSpec.sameLower toLowerCase).
Local Abbreviation carries := (HeadersSpec.carries toLowerCase).
Local Abbreviation wf := (HeadersSpec.wf toLowerCase).
Local Abbreviation without := (HeadersSpec.without).
Local Abbreviation get := (Headers.get toLowerCase).
Local Abbreviation getAll := (Headers.getAll toLowerCase).
Local Abbreviation has := (Headers.has toLowerCase).
Local Abbreviation append := (Headers.append toLowerCase).
Local Abbreviation set := (Headers.set toLowerCase).
Local Abbreviation delete := (Headers.delete toLowerCase).
Local Abbreviation equals := (Headers.equals toLowerCase).

(** ** The entries after each operation *)

Lemma toArray_append e n v h :
  ~ In (uniqueKey n e) (map_keys (headers h)) ->
  toArray (append e n v h) = toArray h ++ [{| name := n; value := v |}].
Proof.
  intros F. unfold toArray, Headers.append, map_values. cbn [headers].
  rewrite map_set_fresh by assumption. rewrite map_app. reflexivity.
Qed.

Lemma toArray_without l h :
  wf h ->
  toArray (without l h) =
  filter (fun hd => negb (jseqb (toLowerCase (name hd)) l)) (toArray h).
Proof.
  intros W. unfold toArray, map_values. rewrite (headers_without toLowerCase) by assumption.
  rewrite filter_map_snd. reflexivity.
Qed.

Lemma keys_without l h k :
  wf h -> In k (map_keys (headers (without l h))) -> In k (map_keys (headers h)).
Proof.
  intros W I. rewrite (headers_without toLowerCase) in I by assumption.
  unfold map_keys in *. apply in_map_iff in I. destruct I as (x & E & I).
  apply filter_In in I. apply in_map_iff. exists x. tauto.
Qed.

(** [has] and [get] read off [getAll]. *)
Lemma has_getAll h n :
  wf h -> has h n = match getAll h n with [] => false | _ => true end.
Proof.
  intros W. unfold Headers.has, Headers.getAll, map_has.
  pose proof (HeadersSpec.wf_nonempty toLowerCase h W (toLowerCase n)) as NE.
  destruct (map_get (lowerCaseMap h) (toLowerCase n)) as [[|k ks]|]; try reflexivity.
  congruence.
Qed.

Lemma get_getAll h n :
  wf h ->
  get h n = match getAll h n with
            | [] => None
            | vs => Some (join (lit ", ") vs)
            end.
Proof.
  intros W. unfold Headers.get, Headers.getAll.
  pose proof (HeadersSpec.wf_nonempty toLowerCase h W (toLowerCase n)) as NE.
  pose proof (HeadersSpec.wf_index toLowerCase h W (toLowerCase n)) as IX. unfold index in IX.
  destruct (map_get (lowerCaseMap h) (toLowerCase n)) as [[|k [|k2 ks]]|] eqn:E;
    try reflexivity.
  simpl. unfold valueAt.
  assert (I : In k (map_keys (headers h))).
  { unfold keysWith in IX.
    assert (I : In k (map fst (filter (carries (toLowerCase n)) (headers h)))).
    { rewrite <- IX. left. reflexivity. }
    apply in_map_iff in I. destruct I as (x & <- & I). apply filter_In in I.
    apply in_map. tauto. }
  destruct (map_get (headers h) k) eqn:G; [reflexivity|].
  exfalso. apply in_map_iff in I. destruct I as ([k' hd] & <- & I).
  simpl in G. rewrite (map_get_some _ _ _ (HeadersSpec.wf_keys toLowerCase h W) I) in G.
  discriminate.
Qed.

Lemma getAll_append e n v h n' :
  wf h -> ~ In (uniqueKey n e) (map_keys (headers h)) ->
  getAll (append e n v h) n' =
  getAll h n' ++ (if jseqb (toLowerCase n) (toLowerCase n') then [v] else []).
Proof.
  intros W F.
  rewrite (getAll_values toLowerCase) by (apply wf_append; assumption).
  rewrite (getAll_values toLowerCase h) by assumption.
  rewrite toArray_append by assumption. rewrite filter_app, map_app. f_equal.
  simpl. unfold HeadersSpec.sameLower at 1. simpl.
  destruct (jseqb _ _); reflexivity.
Qed.

Lemma getAll_without l h n' :
  wf h ->
  getAll (without l h) n' = if jseqb l (toLowerCase n') then [] else getAll h n'.
Proof.
  intros W.
  rewrite (getAll_values toLowerCase) by (apply wf_without; assumption).
  rewrite (getAll_values toLowerCase h) by assumption.
  rewrite toArray_without by assumption. rewrite filter_twice.
  destruct (jseqb l (toLowerCase n')) eqn:E.
  - apply jseqb_eq in E. subst l. rewrite filter_never; [reflexivity|].
    intros hd. unfold HeadersSpec.sameLower. destruct (jseqb _ _); reflexivity.
  - f_equal. apply filter_ext. intros hd. unfold HeadersSpec.sameLower.
    destruct (jseqb (toLowerCase (name hd)) (toLowerCase n')) eqn:S;
      [|apply andb_false_r].
    apply jseqb_eq in S. rewrite S, jseqb_sym, E. reflexivity.
Qed.

Lemma set_spec (e n v : jsstring) (h : HeadersMap) (n' : jsstring) :
  wf h -> ~ In (uniqueKey n e) (map_keys (headers h)) ->
  let same := jseqb (toLowerCase n) (toLowerCase n') in
  getAll (set e n v h) n' = (if same then [v] else getAll h n') /\
  get (set e n v h) n' = (if same then Some v else get h n') /\
  has (set e n v h) n' = (same || has h n').
Proof.
  intros W F same.
  assert (W1 : wf (without (toLowerCase n) h)) by (apply wf_without, W).
  assert (F1 : ~ In (uniqueKey n e) (map_keys (headers (without (toLowerCase n) h)))).
  { intros I. apply F. eapply keys_without; eauto. }
  assert (W2 : wf (set e n v h)) by (apply wf_set; assumption).
  assert (G : getAll (set e n v h) n' = (if same then [v] else getAll h n')).
  { rewrite set_without, getAll_append, getAll_without by assumption.
    fold same. destruct same; [reflexivity | apply app_nil_r]. }
  split; [exact G|]. split.
  - rewrite get_getAll by assumption. rewrite G.
    destruct same; [reflexivity|]. symmetry. apply get_getAll, W.
  - rewrite has_getAll by assumption. rewrite G.
    destruct same; [reflexivity|]. symmetry. apply has_getAll, W.
Qed.

(** X4: [set] replaces every value filed under the name, whatever its case,
    and leaves the other names alone. *)
Theorem set_replaces (e n v : jsstring) (h : HeadersMap) (n' : jsstring) :
  wf h -> ~ In (uniqueKey n e) (map_keys (headers h)) ->
  let same := jseqb (toLowerCase n) (toLowerCase n') in
  getAll (set e n v h) n' = (if same then [v] else getAll h n') /\
  get (set e n v h) n' = (if same then Some v else get h n') /\
  has (set e n v h) n' = (same || has h n') /\
  wf (set e n v h).
Proof.
  intros W F same. destruct (set_spec e n v h n' W F) as (A & B & C).
  split; [exact A|]. split; [exact B|]. split; [exact C|]. apply wf_set; assumption.
Qed.

(** X5: [append] adds its value after the values already filed under the
    name, and keeps every other entry. *)
Theorem append_adds_last (e n v : jsstring) (h : HeadersMap) (n' : jsstring) :
  wf h -> ~ In (uniqueKey n e) (map_keys (headers h)) ->
  let same := jseqb (toLowerCase n) (toLowerCase n') in
  getAll (append e n v h) n' = getAll h n' ++ (if same then [v] else []) /\
  has (append e n v h) n' = (same || has h n') /\
  toArray (append e n v h) = toArray h ++ [{| name := n; value := v |}].
Proof.
  intros W F same.
  assert (W2 : wf (append e n v h)) by (apply wf_append; assumption).
  split; [apply getAll_append; assumption|]. split; [|apply toArray_append, F].
  rewrite !has_getAll by assumption. rewrite getAll_append by assumption. fold same.
  destruct same; destruct (getAll h n'); reflexivity.
Qed.

(** X6: [delete] removes every entry filed under the name, reports whether
    there was one, and keeps the entries of other names. *)
Theorem delete_removes (n : jsstring) (h : HeadersMap) (n' : jsstring) :
  wf h ->
  let same := jseqb (toLowerCase n) (toLowerCase n') in
  snd (delete n h) = has h n /\
  getAll (fst (delete n h)) n' = (if same then [] else getAll h n') /\
  has (fst (delete n h)) n' = (negb same && has h n') /\
  get (fst (delete n h)) n' = (if same then None else get h n').
Proof.
  intros W same.
  assert (W2 : wf (fst (delete n h))) by (apply wf_delete, W).
  assert (G : getAll (fst (delete n h)) n' = (if same then [] else getAll h n')).
  { rewrite delete_without.
    destruct (map_get (lowerCaseMap h) (toLowerCase n)) eqn:E.
    - apply getAll_without, W.
    - destruct same eqn:S; [|reflexivity]. apply jseqb_eq in S.
      unfold Headers.getAll. rewrite <- S, E. reflexivity. }
  split.
  - unfold Headers.delete, Headers.has, map_has. destruct (map_get _ _); reflexivity.
  - split; [exact G|]. split.
    + rewrite has_getAll by assumption. rewrite G.
      destruct same; [reflexivity|]. symmetry. apply has_getAll, W.
    + rewrite get_getAll by assumption. rewrite G.
      destruct same; [reflexivity|]. symmetry. apply get_getAll, W.
Qed.

(** ** [equals] *)

Lemma equals_same_entries (a b : HeadersMap) :
  wf b -> Permutation (toArray a) (toArray b) -> equals a b = true.
Proof.
  intros Wb P. unfold Headers.equals.
  assert (E : totalEntries a = totalEntries b).
  { unfold totalEntries. apply Permutation_length in P.
    unfold toArray, map_values in P. rewrite !length_map in P. exact P. }
  rewrite E, Nat.eqb_refl. cbn [negb].
  apply forallb_forall. intros hd I.
  rewrite (getAll_values toLowerCase) by assumption.
  apply existsb_jseqb. apply in_map. apply filter_In. split.
  - eapply Permutation_in; [exact P | exact I].
  - unfold HeadersSpec.sameLower. apply jseqb_refl.
Qed.

(** X7: two containers that hold the same entries, in whatever order, are
    equal under [equals]; in particular every container equals itself. *)
Theorem equals_ignores_order (a b : HeadersMap) :
  wf a -> wf b -> Permutation (toArray a) (toArray b) ->
  equals a b = true /\ equals b a = true /\ equals a a = true.
Proof.
  intros Wa Wb P. repeat split.
  - apply equals_same_entries; assumption.
  - apply equals_same_entries; [assumption | apply Permutation_sym, P].
  - apply equals_same_entries; [assumption | apply Permutation_refl].
Qed.

(** ** The constructor and [clone] *)

Lemma appendEach_appendAll hs i acc :
  appendEach toLowerCase entropy hs i acc = appendAll toLowerCase entropy hs i acc.
Proof.
  revert i acc. induction hs as [|hd t IH]; intros i acc; simpl; auto.
Qed.

Lemma construct_spec (hs : list Header) :
  NoDup (drawnKeys entropy hs 0) ->
  wf (construct toLowerCase entropy (Some hs)) /\
  toArray (construct toLowerCase entropy (Some hs)) = hs.
Proof.
  intros N. unfold construct. rewrite appendEach_appendAll.
  apply (appendAll_spec toLowerCase entropy hs 0 empty (wf_empty toLowerCase) N).
Qed.

(** X8: the constructor files the given entries in their order: the
    container holds exactly them, and [getAll] returns, for a name, the
    values of the entries with its lowercase form. *)
Theorem construct_holds_entries (hs : list Header) (n : jsstring) :
  NoDup (drawnKeys entropy hs 0) ->
  let h := construct toLowerCase entropy (Some hs) in
  wf h /\ toArray h = hs /\
  getAll h n = map value (filter (sameLower n) hs) /\
  totalEntries h = length hs.
Proof.
  intros N h. destruct (construct_spec hs N) as [W T]. fold h in W, T.
  split; [exact W|]. split; [exact T|]. split.
  - rewrite (getAll_values toLowerCase) by assumption. rewrite T. reflexivity.
  - unfold totalEntries. rewrite <- T. unfold toArray, map_values.
    rewrite length_map. reflexivity.
Qed.

(** X9: a clone holds the entries of the original in the same order, and
    each of the two equals the other. *)
Theorem clone_equals (h : HeadersMap) :
  wf h -> NoDup (drawnKeys entropy (toArray h) 0) ->
  let c := clone toLowerCase entropy h in
  toArray c = toArray h /\ equals h c = true /\ equals c h = true.
Proof.
  intros W N c. destruct (construct_spec (toArray h) N) as [Wc T].
  fold (clone toLowerCase entropy h) in Wc, T. fold c in Wc, T.
  repeat split; try assumption.
  - apply equals_same_entries; [assumption|]. rewrite T. apply Permutation_refl.
  - apply equals_same_entries; [assumption|]. rewrite T. apply Permutation_refl.
Qed.

(** ** [toObject] *)

Lemma toObject_fold h (m : Map (list jsstring)) acc l :
  NoDup (map_keys m) -> l <> lit "__proto__" ->
  map_get
    (fold_left
       (fun result (entry : jsstring * list jsstring) =>
          let (lowerName, originalNames) := entry in
          let values := map (valueAt h) originalNames in
          if jseqb lowerName (lit "__proto__") then result
          else map_set result lowerName (join (lit ", ") values))
       m acc) l =
  match map_get m l with
  | Some ks => Some (join (lit ", ") (map (valueAt h) ks))
  | None => map_get acc l
  end.
Proof.
  intros N P. revert acc. induction m as [|[k ks] t IH]; intros acc; [reflexivity|].
  inversion N as [|? ? N1 N2]; subst. cbn [fold_left map_get].
  rewrite IH by assumption.
  destruct (jseqb k l) eqn:E.
  - apply jseqb_eq in E. subst k.
    rewrite (map_get_none t l) by exact N1.
    destruct (jseqb l (lit "__proto__")) eqn:E'; [apply jseqb_eq in E'; contradiction|].
    rewrite map_get_set, jseqb_refl. reflexivity.
  - destruct (map_get t l); [reflexivity|].
    destruct (jseqb k (lit "__proto__")); [reflexivity|].
    rewrite map_get_set, E. reflexivity.
Qed.

(** X10: the record of [toObject] holds, under each lowercase name other than
    [__proto__], what [get] returns for it, and nothing under a name that
    the container does not have. *)
Theorem toObject_agrees_with_get (h : HeadersMap) (n : jsstring) :
  wf h -> toLowerCase n <> lit "__proto__" ->
  map_get (toObject h) (toLowerCase n) = get h n.
Proof.
  intros W P. unfold toObject.
  rewrite toObject_fold; [| apply W | exact P].
  rewrite get_getAll by assumption. unfold Headers.getAll.
  pose proof (HeadersSpec.wf_nonempty toLowerCase h W (toLowerCase n)) as NE.
  destruct (map_get (lowerCaseMap h) (toLowerCase n)) as [[|k ks]|]; try reflexivity.
  congruence.
Qed.

(** ** [headersFromObject] *)

Lemma drawnKeys_map i (pairs : list (jsstring * jsstring)) :
  drawnKeys entropy (map headerOf pairs) i =
  match pairs with
  | [] => []
  | (k, v) :: rest => uniqueKey k (entropy i) :: drawnKeys entropy (map headerOf rest) (S i)
  end.
Proof. destruct pairs as [|[k v] rest]; reflexivity. Qed.

Lemma keys_set e n v h k :
  wf h -> In k (map_keys (headers (set e n v h))) ->
  k = uniqueKey n e \/ In k (map_keys (headers h)).
Proof.
  intros W I. rewrite set_without in I. unfold Headers.append in I. cbn [headers] in I.
  rewrite map_keys_set in I. destruct (existsb _ _).
  - right. eapply keys_without; eauto.
  - apply in_app_or in I. destruct I as [I|[I|[]]]; [right | left; auto].
    eapply keys_without; eauto.
Qed.

Lemma setEach_spec pairs i h n :
  wf h ->
  NoDup (drawnKeys entropy (map headerOf pairs) i) ->
  (forall k, In k (map_keys (headers h)) ->
             ~ In k (drawnKeys entropy (map headerOf pairs) i)) ->
  wf (setEach toLowerCase entropy pairs i h) /\
  get (setEach toLowerCase entropy pairs i h) n =
    lastValue toLowerCase n pairs (get h n).
Proof.
  revert i h. induction pairs as [|[k v] rest IH]; intros i h W N D.
  - simpl. auto.
  - rewrite drawnKeys_map in N, D. cbn [setEach lastValue fold_left fst snd].
    inversion N as [|? ? N1 N2]; subst.
    assert (F : ~ In (uniqueKey k (entropy i)) (map_keys (headers h))).
    { intros I. apply (D _ I). left. reflexivity. }
    destruct (set_spec (entropy i) k v h n W F) as (_ & G & _).
    destruct (IH (S i) (set (entropy i) k v h)) as [W' G'].
    + apply wf_set; assumption.
    + exact N2.
    + intros x I. apply keys_set in I; [|exact W]. destruct I as [->|I]; [exact N1|].
      intros J. apply (D _ I). right. exact J.
    + split; [exact W'|]. rewrite G'. unfold lastValue. f_equal. exact G.
Qed.

(** X11: in the container built by [headersFromObject], [get] returns for a
    name the value of the last property whose key has its lowercase form,
    and nothing when there is none. *)
Theorem headersFromObject_last_wins (pairs : list (jsstring * jsstring)) (n : jsstring) :
  NoDup (drawnKeys entropy (map headerOf pairs) 0) ->
  let h := headersFromObject toLowerCase entropy pairs in
  wf h /\ get h n = lastValue toLowerCase n pairs None.
Proof.
  intros N h. unfold h, headersFromObject.
  apply setEach_spec; [apply wf_empty | exact N | intros k []].
Qed.

(** ** What [parseHeaders] returns *)

Lemma trimStart_suffix s : exists p, s = p ++ trimStart s.
Proof.
  induction s as [|c t [p IH]]; [exists []; reflexivity|]. simpl.
  destruct (isWhiteSpace c).
  - exists (c :: p). simpl. f_equal. exact IH.
  - exists []. reflexivity.
Qed.

Lemma trim_inside s : exists p q, s = p ++ trim s ++ q.
Proof.
  unfold trim, trimEnd.
  destruct (trimStart_suffix s) as [p Ep].
  destruct (trimStart_suffix (rev (trimStart s))) as [q Eq].
  exists p, (rev q). rewrite <- rev_app_distr, <- Eq, rev_involutive. exact Ep.
Qed.

Lemma indexOf_none s c : indexOf s c = None <-> ~ In c s.
Proof.
  induction s as [|x t IH]; simpl; [tauto|].
  destruct (x =? c)%N eqn:E.
  - apply N.eqb_eq in E. split; [discriminate | intros H; exfalso; apply H; auto].
  - apply N.eqb_neq in E. destruct (indexOf t c).
    + split; [discriminate|]. intros H. exfalso. apply H. right.
      destruct (in_dec N.eq_dec c t) as [I|I]; [exact I|]. apply IH in I. discriminate.
    + split; [|reflexivity]. intros _ [H|H]; [congruence|]. apply IH in H; auto.
Qed.

Lemma indexOf_before s c i : indexOf s c = Some i -> ~ In c (firstn i s) /\ i < length s.
Proof.
  revert i. induction s as [|x t IH]; simpl; intros i H; [discriminate|].
  destruct (x =? c)%N eqn:E.
  - injection H as <-. simpl. split; [tauto | lia].
  - apply N.eqb_neq in E. destruct (indexOf t c) as [j|]; [|discriminate].
    injection H as <-. destruct (IH j eq_refl) as [A B]. simpl. split; [|lia].
    intros [I|I]; [congruence | tauto].
Qed.

Lemma parseHeaderLine_tidy line n v :
  parseHeaderLine line = Some (n, v) ->
  tidy {| name := n; value := v |} /\ length n + length v < length line.
Proof.
  unfold parseHeaderLine. destruct (indexOf line 58) as [i|] eqn:E; [|discriminate].
  destruct (truthy (trim (slice line 0 i))) eqn:Tn; [|discriminate].
  destruct (truthy (trim (slice_from line (i + 1)))) eqn:Tv; [|discriminate].
  cbn [negb]. intros [= <- <-].
  destruct (indexOf_before _ _ _ E) as [NC Li].
  destruct (trim_inside (slice line 0 i)) as (p1 & q1 & E1).
  destruct (trim_inside (slice_from line (i + 1))) as (p2 & q2 & E2).
  split.
  - split; cbn [name value].
    + intros H. rewrite H in Tn. discriminate.
    + intros H. rewrite H in Tv. discriminate.
    + apply NumberProps.trim_idem.
    + apply NumberProps.trim_idem.
    + apply indexOf_none. intros I. apply NC.
      unfold slice in E1, I. rewrite Nat.sub_0_r in E1, I. cbn [skipn] in E1, I.
      rewrite E1. apply in_or_app. right. apply in_or_app. left. exact I.
  - apply (f_equal (@List.length N)) in E1, E2.
    rewrite !length_app in E1, E2. cbn [name value]. unfold slice, slice_from in *.
    rewrite length_firstn, length_skipn in E1. rewrite length_skipn in E2. lia.
Qed.

Lemma toArray_append_in e n v h hd :
  In hd (toArray (append e n v h)) ->
  hd = {| name := n; value := v |} \/ In hd (toArray h).
Proof.
  unfold toArray, map_values, Headers.append. cbn [headers].
  generalize (uniqueKey n e) as k. intros k.
  induction (headers h) as [|[k0 v0] t IH]; simpl.
  - intros [H|[]]. auto.
  - destruct (jseqb k0 k); simpl; intros [H|H]; auto.
    destruct (IH H); auto.
Qed.

Lemma parseLines_tidy lines i maxHeaders maxLineLength acc h bound :
  parseLines toLowerCase entropy lines i maxHeaders maxLineLength acc = Some h ->
  (Z.of_nat (totalEntries acc) <= bound)%Z -> (maxHeaders <= bound)%Z ->
  (forall hd, In hd (toArray acc) ->
     tidy hd /\ (len (name hd) + len (value hd) < maxLineLength)%Z) ->
  (Z.of_nat (totalEntries h) <= bound)%Z /\
  (forall hd, In hd (toArray h) ->
     tidy hd /\ (len (name hd) + len (value hd) < maxLineLength)%Z).
Proof.
  revert i acc. induction lines as [|line rest IH]; intros i acc; cbn [parseLines].
  - intros [= <-]. auto.
  - destruct (maxLineLength <? len line)%Z eqn:L; [discriminate|].
    destruct (jseqb line []); [intros [= <-]; auto|].
    destruct (maxHeaders <=? Z.of_nat (totalEntries acc))%Z eqn:M; [discriminate|].
    destruct (parseHeaderLine line) as [[n v]|] eqn:P; [|discriminate].
    intros H B Mb T. apply (IH _ _ H); auto.
    + pose proof (totalEntries_append toLowerCase (entropy i) n v acc). lia.
    + intros hd I. apply toArray_append_in in I. destruct I as [->|I]; [|auto].
      destruct (parseHeaderLine_tidy _ _ _ P) as [Ti Le]. split; [exact Ti|].
      cbn [name value]. unfold len in *. lia.
Qed.

(** X12: a block of header lines that [parseHeaders] accepts yields at most
    [maxHeaders] entries, each with a non-empty trimmed name without colon
    and a non-empty trimmed value that fit in a line of [maxLineLength]. *)
Theorem parseHeaders_entries_tidy (headerText : jsstring) (maxHeaders maxLineLength : Z)
    (h : HeadersMap) :
  parseHeaders toLowerCase entropy headerText maxHeaders maxLineLength = Some h ->
  (Z.of_nat (totalEntries h) <= Z.max 0 maxHeaders)%Z /\
  (forall hd, In hd (toArray h) ->
     tidy hd /\ (len (name hd) + len (value hd) < maxLineLength)%Z).
Proof.
  unfold parseHeaders. intros H.
  apply (parseLines_tidy _ _ _ _ _ _ _ H).
  - simpl. lia.
  - lia.
  - intros hd [].
Qed.

End WithPlatform.

End HeadersLaws.

(* ===================================================================== *)
(** * Invariants of the parser *)
(* ===================================================================== *)

Module ParserLaws.
Import Parser Feed Shape LoopFacts ParserProps.

(** ** Invariants of the loop *)

Section LoopInvariant.
Variable toLowerCase : jsstring -> jsstring.
Variable entropy : nat -> jsstring.

(** [Inv] holds of the parser between handlers, [Emitted] of what is pushed. *)
Variable Inv : HttpParser -> Prop.
Variable Emitted : option HttpMessage -> Prop.

Hypothesis step : forall p p1 r,
  Inv p -> ParserState_eqb (state p) ERROR = false ->
  parseNext toLowerCase entropy p = (p1, r) ->
  match error r with
  | Some _ => Inv (set_state ERROR p1)
  | None =>
      if complete r
      then Emitted (message r) /\ Inv (reset false (compactBuffer p1))
      else Inv p1
  end.

Lemma parseLoop_invariant n p acc p' ms :
  Inv p -> Forall Emitted acc ->
  parseLoop toLowerCase entropy n p acc = Some (p', ms) ->
  Inv p' /\ Forall Emitted ms.
Proof.
  revert p acc. induction n as [|n IH]; intros p acc Hp Hacc; simpl; [discriminate|].
  destruct (ParserState_eqb (state p) ERROR) eqn:St; [intros [= <- <-]; auto|].
  destruct (parseNext toLowerCase entropy p) as [p1 r] eqn:E.
  pose proof (step p p1 r Hp St E) as S.
  destruct (error r); [intros [= <- <-]; auto|].
  destruct (complete r).
  - destruct S as [S1 S2].
    assert (F : Forall Emitted (acc ++ [message r])).
    { apply Forall_app. split; [exact Hacc | constructor; [exact S1 | constructor]]. }
    destruct (needsMoreData r); [intros [= <- <-]; auto | apply IH; auto].
  - destruct (needsMoreData r); [intros [= <- <-]; auto | apply IH; auto].
Qed.

Hypothesis fed : forall data p, Inv p -> Inv (appendBuffer data p).

Lemma parse_invariant data p :
  Inv p ->
  Inv (fst (parse toLowerCase entropy data p)) /\
  Forall Emitted (snd (parse toLowerCase entropy data p)).
Proof.
  intros Hp.
  pose proof (parse_parseLoop toLowerCase entropy _ data p (Nat.lt_succ_diag_r _)) as E.
  destruct (parse toLowerCase entropy data p) as [p' ms].
  apply parseLoop_invariant in E; auto.
Qed.

Lemma parseAll_invariant fragments p :
  Inv p ->
  Inv (fst (parseAll toLowerCase entropy fragments p)) /\
  Forall Emitted (snd (parseAll toLowerCase entropy fragments p)).
Proof.
  revert p. induction fragments as [|f rest IH]; intros p Hp; simpl; [auto|].
  destruct (parse_invariant f p Hp) as [A B].
  destruct (parse toLowerCase entropy f p) as [p1 ms1].
  destruct (IH p1 A) as [C D].
  destruct (parseAll toLowerCase entropy rest p1) as [p2 ms2].
  simpl in *. split; [exact C | apply Forall_app; auto].
Qed.

End LoopInvariant.

(** ** The offset stays within the buffer *)

Lemma Request_bound data start stop :
  let res := Request.parseRequestLine data start stop in
  Request.needsMoreData res = false -> Request.error res = None ->
  Request.bytesConsumed res <= stop.
Proof.
  unfold Request.parseRequestLine.
  destruct (findCRLF data start (stop - 1)) as [i|] eqn:Ecr.
  - apply scan_some in Ecr. destruct Ecr as (Hi & _).
    cbv zeta. split_cases; simpl; intros; try discriminate; lia.
  - cbv zeta. split_cases; simpl; intros; try discriminate; lia.
Qed.

Lemma Response_bound data start stop :
  let res := Response.parseStatusLine data start stop in
  Response.needsMoreData res = false -> Response.error res = None ->
  Response.bytesConsumed res <= stop.
Proof.
  unfold Response.parseStatusLine.
  destruct (findCRLF data start (stop - 1)) as [i|] eqn:Ecr.
  - apply scan_some in Ecr. destruct Ecr as (Hi & _).
    cbv zeta. split_cases; simpl; intros; try discriminate; lia.
  - cbv zeta. split_cases; simpl; intros; try discriminate; lia.
Qed.


Lemma inBounds_reset p1 : inBounds (reset false (compactBuffer p1)).
Proof.
  assert (O : bufferOffset (reset false (compactBuffer p1)) = 0).
  { unfold compactBuffer. destruct (0 <? bufferOffset p1) eqn:E; simpl; [reflexivity|].
    apply Nat.ltb_ge in E. lia. }
  split; [rewrite O; lia | intros _; exact O].
Qed.

Section WithPlatform.
Variable toLowerCase : jsstring -> jsstring.
Variable entropy : nat -> jsstring.

Lemma handleHeadersComplete_state hs p p1 r :
  handleHeadersComplete toLowerCase hs p = (p1, r) ->
  state p1 = state p \/ state p1 = BODY_CHUNKED_SIZE \/ state p1 = BODY_CONTENT_LENGTH.
Proof.
  unfold handleHeadersComplete. cbv zeta.
  split_cases; intros [= <- <-]; simpl; auto.
Qed.

Lemma inBounds_step p p1 r :
  inBounds p -> ParserState_eqb (state p) ERROR = false ->
  parseNext toLowerCase entropy p = (p1, r) ->
  match error r with
  | Some _ => inBounds (set_state ERROR p1)
  | None =>
      if complete r
      then True /\ inBounds (reset false (compactBuffer p1))
      else inBounds p1
  end.
Proof.
  intros [B S] NE E.
  assert (G : inBounds p1 /\ inBounds (set_state ERROR p1)).
  2:{ destruct G as [G1 G2]. destruct (error r); [exact G2|].
      destruct (complete r); [split; [exact I | apply inBounds_reset] | exact G1]. }
  revert E. unfold parseNext. destruct (state p) eqn:St.
  - (* IDLE *)
    specialize (S eq_refl).
    unfold parseMessageStart. split_cases; intros [= <- <-]; split; split; simpl;
      rewrite ?St; auto; discriminate.
  - (* REQUEST_LINE *)
    specialize (S eq_refl). unfold parseRequestLine.
    pose proof (Request_bound (buffer p) (bufferOffset p) (length (buffer p))) as H.
    cbv zeta in H.
    destruct (Request.needsMoreData _);
      [intros [= <- <-]; split; split; simpl; rewrite ?St; auto; discriminate|].
    destruct (Request.error _);
      [intros [= <- <-]; split; split; simpl; rewrite ?St; auto; discriminate|].
    specialize (H eq_refl eq_refl).
    intros [= <- <-]; split; split; simpl; try discriminate; lia.
  - (* STATUS_LINE *)
    specialize (S eq_refl). unfold parseStatusLine.
    pose proof (Response_bound (buffer p) (bufferOffset p) (length (buffer p))) as H.
    cbv zeta in H.
    destruct (Response.needsMoreData _);
      [intros [= <- <-]; split; split; simpl; rewrite ?St; auto; discriminate|].
    destruct (Response.error _);
      [intros [= <- <-]; split; split; simpl; rewrite ?St; auto; discriminate|].
    specialize (H eq_refl eq_refl).
    intros [= <- <-]; split; split; simpl; try discriminate; lia.
  - (* HEADERS *)
    unfold parseHeaders. cbv zeta.
    destruct (findCRLFCRLF _ _ _) as [i|] eqn:E.
    + apply scan_some in E. destruct E as (Hi & _).
      destruct (Headers.parseHeaders _ _ _ _ _) as [hs|];
        [|intros [= <- <-]; split; split; simpl; rewrite ?St; auto; discriminate].
      destruct (negb _);
        [intros [= <- <-]; split; split; simpl; rewrite ?St; auto; discriminate|].
      intros H. pose proof (handleHeadersComplete_buffer _ _ _ _ _ H) as [Hb Ho].
      apply handleHeadersComplete_state in H. simpl in Hb, Ho, H. rewrite St in H.
      split; split; simpl; rewrite ?Hb, ?Ho; try lia; try discriminate.
      destruct H as [H|[H|H]]; rewrite H; discriminate.
    + destruct (_ && _)%bool;
        [intros [= <- <-]; split; split; simpl; rewrite ?St; auto; discriminate|].
      destruct (_ && _)%bool;
        [|intros [= <- <-]; split; split; simpl; rewrite ?St; auto; discriminate].
      intros H. pose proof (handleHeadersComplete_buffer _ _ _ _ _ H) as [Hb Ho].
      apply handleHeadersComplete_state in H. simpl in Hb, Ho, H. rewrite St in H.
      split; split; simpl; rewrite ?Hb, ?Ho; try lia; try discriminate.
      destruct H as [H|[H|H]]; rewrite H; discriminate.
  - (* BODY_CONTENT_LENGTH *)
    unfold parseBodyContentLength. cbv zeta.
    destruct (getBufferedBytes p <? _)%Z eqn:L; intros [= <- <-];
    match goal with
    | |- context [appendToBody ?d p] =>
        destruct (appendToBody_buffer d p) as [A1 A2];
        destruct (appendToBody_chunk d p) as (_ & _ & [A3|A3])
    end;
    (split; split; simpl; rewrite ?A1, ?A2, ?A3, ?St; try discriminate;
     unfold getBufferedBytes, len in L; try apply Z.ltb_ge in L; lia).
  - (* BODY_CHUNKED *)
    intros [= <- <-]; split; split; simpl; rewrite ?St; auto; discriminate.
  - (* BODY_CHUNKED_SIZE *)
    unfold parseChunkedSize. destruct (findCRLF _ _ _) as [i|] eqn:E;
      [|intros [= <- <-]; split; split; simpl; rewrite ?St; auto; discriminate].
    apply scan_some in E. destruct E as (Hi & _). cbv zeta.
    split_cases; intros [= <- <-]; split; split; simpl; rewrite ?St; auto;
      try discriminate; lia.
  - (* BODY_CHUNKED_DATA *)
    unfold parseChunkedData. cbv zeta.
    destruct (getBufferedBytes p <? _)%Z eqn:L1;
      [destruct (_ <=? _)%Z eqn:L2|]; intros [= <- <-];
    match goal with
    | |- context [appendToBody ?d p] =>
        destruct (appendToBody_buffer d p) as [A1 A2];
        destruct (appendToBody_chunk d p) as (_ & _ & [A3|A3])
    end;
    unfold getBufferedBytes, len in *;
    try (apply Z.leb_le in L2); try (apply Z.ltb_ge in L1);
    try (split; split; simpl; rewrite ?A1, ?A2, ?A3, ?St; try discriminate; lia);
    (destruct (_ && _)%bool; split; split; simpl; rewrite ?A1, ?A2, ?A3, ?St;
      try discriminate; lia).
  - (* BODY_CHUNKED_TRAILER *)
    unfold parseChunkedTrailer. cbv zeta.
    destruct (findCRLFCRLF _ _ _) as [i|] eqn:E.
    + apply scan_some in E. destruct E as (Hi & _).
      intros [= <- <-]; split; split; simpl; rewrite ?St; try discriminate; lia.
    + destruct (_ && _ && _)%bool; intros [= <- <-];
        split; split; simpl; rewrite ?St; auto; discriminate.
  - intros [= <- <-]; split; split; simpl; rewrite ?St; auto; discriminate.
  - intros [= <- <-]; split; split; simpl; rewrite ?St; auto; discriminate.
Qed.

Lemma inBounds_appendBuffer data p : inBounds (appendBuffer data p).
Proof.
  unfold appendBuffer.
  destruct (0 <? bufferOffset p) eqn:E; cbn [buffer bufferOffset set_buffer set_bufferOffset].
  - destruct (_ =? 0); split; simpl; auto; lia.
  - apply Nat.ltb_ge in E. destruct (_ =? 0); split; simpl; auto; lia.
Qed.

(** X13: after [parse], from whatever parser, the offset lies within the
    buffer: [getBufferedBytes] is the number of bytes still pending and is
    never negative, and no byte counts as consumed while a start line is
    awaited. *)
Theorem buffered_bytes_never_negative (data : bytes) (p : HttpParser) :
  let p' := fst (parse toLowerCase entropy data p) in
  bufferOffset p' <= length (buffer p') /\
  (0 <= getBufferedBytes p')%Z /\
  getBufferedBytes p' = len (pending p') /\
  (startPhase (state p') = true -> getBufferedBytes p' = len (buffer p')).
Proof.
  intros p'.
  assert (B : inBounds p').
  { pose proof (parse_parseLoop toLowerCase entropy _ data p (Nat.lt_succ_diag_r _)) as E.
    subst p'. destruct (parse toLowerCase entropy data p) as [q ms].
    apply (parseLoop_invariant toLowerCase entropy inBounds (fun _ => True)) in E.
    - apply E.
    - intros a a1 r0 H1 H2 H3. exact (inBounds_step a a1 r0 H1 H2 H3).
    - apply inBounds_appendBuffer.
    - constructor. }
  destruct B as [B S]. unfold getBufferedBytes, pending, slice_from, len.
  rewrite length_skipn. repeat split; try lia.
  intros H. rewrite (S H). lia.
Qed.

(** ** Consumed bytes are a prefix *)

Lemma pending_compact p : pending (compactBuffer p) = pending p.
Proof.
  unfold compactBuffer, pending, slice_from.
  destruct (0 <? bufferOffset p) eqn:E; simpl; [reflexivity|].
  reflexivity.
Qed.

Lemma pending_later p p1 :
  buffer p1 = buffer p -> bufferOffset p <= bufferOffset p1 ->
  exists c, pending p = c ++ pending p1.
Proof.
  intros B O. unfold pending, slice_from. rewrite B.
  exists (firstn (bufferOffset p1 - bufferOffset p) (skipn (bufferOffset p) (buffer p))).
  replace (bufferOffset p1) with ((bufferOffset p1 - bufferOffset p) + bufferOffset p) at 2 by lia.
  rewrite <- skipn_skipn. symmetry. apply firstn_skipn.
Qed.

Lemma parseNext_offset p p1 r :
  inBounds p -> parseNext toLowerCase entropy p = (p1, r) ->
  bufferOffset p <= bufferOffset p1.
Proof.
  intros [B S]. unfold parseNext. destruct (state p) eqn:St.
  - unfold parseMessageStart. split_cases; intros [= <- <-]; simpl; lia.
  - unfold parseRequestLine. split_cases; intros [= <- <-]; simpl; lia.
  - unfold parseStatusLine. split_cases; intros [= <- <-]; simpl; lia.
  - unfold parseHeaders. cbv zeta.
    destruct (findCRLFCRLF _ _ _) as [i|] eqn:E.
    + apply scan_some in E. destruct E as (Hi & _).
      destruct (Headers.parseHeaders _ _ _ _ _) as [hs|]; [|intros [= <- <-]; lia].
      destruct (negb _); [intros [= <- <-]; lia|].
      intros H. apply handleHeadersComplete_buffer in H. simpl in H. lia.
    + destruct (_ && _)%bool; [intros [= <- <-]; lia|].
      destruct (_ && _)%bool; [|intros [= <- <-]; lia].
      intros H. apply handleHeadersComplete_buffer in H. simpl in H. lia.
  - unfold parseBodyContentLength. cbv zeta.
    destruct (getBufferedBytes p <? _)%Z; intros [= <- <-];
    match goal with
    | |- context [appendToBody ?d p] => destruct (appendToBody_buffer d p) as [A1 A2]
    end; simpl; rewrite ?A1, ?A2; lia.
  - intros [= <- <-]; lia.
  - unfold parseChunkedSize. destruct (findCRLF _ _ _) as [i|] eqn:E;
      [|intros [= <- <-]; lia].
    apply scan_some in E. destruct E as (Hi & _). cbv zeta.
    split_cases; intros [= <- <-]; simpl; lia.
  - unfold parseChunkedData. cbv zeta.
    destruct (getBufferedBytes p <? _)%Z; [destruct (_ <=? _)%Z|]; intros [= <- <-];
    match goal with
    | |- context [appendToBody ?d p] => destruct (appendToBody_buffer d p) as [A1 A2]
    end; try (simpl; rewrite ?A1, ?A2; lia).
    destruct (_ && _)%bool; simpl; rewrite ?A1, ?A2; lia.
  - unfold parseChunkedTrailer. cbv zeta.
    destruct (findCRLFCRLF _ _ _) as [i|] eqn:E.
    + apply scan_some in E. destruct E as (Hi & _). intros [= <- <-]; simpl; lia.
    + destruct (_ && _ && _)%bool; intros [= <- <-]; simpl; lia.
  - intros [= <- <-]; lia.
  - intros [= <- <-]; lia.
Qed.

Lemma suffixOf_step all p p1 r :
  suffixOf all p -> ParserState_eqb (state p) ERROR = false ->
  parseNext toLowerCase entropy p = (p1, r) ->
  match error r with
  | Some _ => suffixOf all (set_state ERROR p1)
  | None =>
      if complete r
      then True /\ suffixOf all (reset false (compactBuffer p1))
      else suffixOf all p1
  end.
Proof.
  intros [B [c C]] NE E.
  pose proof (inBounds_step p p1 r B NE E) as S.
  destruct (pending_later p p1 (parseNext_buffer _ _ _ _ _ E) (parseNext_offset _ _ _ B E))
    as [c' C'].
  assert (P : all = (c ++ c') ++ pending p1) by (rewrite <- app_assoc, <- C'; exact C).
  destruct (error r).
  - split; [exact S | exists (c ++ c'); exact P].
  - destruct (complete r).
    + split; [exact I|]. split; [apply S|]. exists (c ++ c').
      change (pending (reset false (compactBuffer p1))) with (pending (compactBuffer p1)).
      rewrite pending_compact. exact P.
    + split; [exact S | exists (c ++ c'); exact P].
Qed.

(** X14: [parse] never loses or reorders bytes: what is pending afterwards is
    a suffix of what was pending before followed by the new data. *)
Theorem pending_is_a_suffix (data : bytes) (p : HttpParser) :
  exists consumed,
    pending p ++ data = consumed ++ pending (fst (parse toLowerCase entropy data p)).
Proof.
  pose proof (parse_parseLoop toLowerCase entropy _ data p (Nat.lt_succ_diag_r _)) as E.
  destruct (parse toLowerCase entropy data p) as [q ms].
  apply (parseLoop_invariant toLowerCase entropy (suffixOf (pending p ++ data))
           (fun _ => True)) in E.
  - apply E.
  - intros a a1 r0 H1 H2 H3. exact (suffixOf_step _ a a1 r0 H1 H2 H3).
  - split; [apply inBounds_appendBuffer|]. exists []. rewrite pending_appendBuffer. reflexivity.
  - constructor.
Qed.

(** ** The loop ends *)

Lemma rank_le s : rank s <= 2.
Proof. destruct s; simpl; lia. Qed.

(** X15: the loop of [parse] ends: it makes at most four iterations for each
    byte pending or passed, and two more. *)
Theorem parse_loop_is_bounded (n : nat) (data : bytes) (p : HttpParser) :
  4 * (length (pending p) + length data) + 2 < n ->
  parseLoop toLowerCase entropy n (appendBuffer data p) [] =
  Some (parse toLowerCase entropy data p).
Proof.
  intros H. apply parse_parseLoop. unfold iterations.
  pose proof (rank_le (state (appendBuffer data p))).
  assert (U : unread (appendBuffer data p) = length (pending p) + length data).
  { rewrite <- length_app, <- pending_appendBuffer. unfold unread, pending, slice_from.
    rewrite length_skipn. reflexivity. }
  lia.
Qed.

End WithPlatform.

End ParserLaws.

(* ===================================================================== *)
(** * Framing of the emitted messages *)
(* ===================================================================== *)

Module FramingLaws.
Import Parser Feed LoopFacts ParserProps ParserLaws.

(** ** Slices that are as long as asked *)

Lemma length_slice {A} (a : list A) s e :
  e <= length a -> length (slice a s e) = e - s.
Proof. intros H. unfold slice. rewrite length_firstn, length_skipn. lia. Qed.

Lemma slice_has_bytes (a : bytes) s n :
  0 < n -> (Z.of_nat n <= len a - Z.of_nat s)%Z -> slice a s (s + n) <> [].
Proof.
  intros Hn H. unfold len in H. intros E. apply (f_equal (@length byte)) in E.
  rewrite length_slice in E by lia. simpl in E. lia.
Qed.

Lemma app_has_bytes {A} (a b : list A) : a <> [] \/ b <> [] -> a ++ b <> [].
Proof.
  intros [H|H] E; apply app_eq_nil in E; destruct E; contradiction.
Qed.

(** ** The message made from the parser *)

Lemma createCompleteMessage_exact p :
  bodyNotEmpty p -> framedExactlyOpt (message (createCompleteMessage p)).
Proof.
  unfold bodyNotEmpty, createCompleteMessage.
  destruct (messageType p) as [[]|]; destruct (body p) as [[|x b]|]; intros H;
    try congruence; split; reflexivity.
Qed.

(** Appending bytes to the body: the fields the invariant reads. *)
Lemma appendToBody_fields d p :
  let q := appendToBody d p in
  body q = Some (match body p with Some b => b ++ d | None => d end) /\
  bodyLength q = bodyLength p /\ chunkSize q = chunkSize p /\
  chunkBytesRead q = chunkBytesRead p /\
  (state q = state p \/ state q = ERROR).
Proof.
  unfold appendToBody. destruct (body p); cbn [body set_body];
    destruct (_ <? _)%Z; cbn; auto 10.
Qed.

Lemma appended_has_bytes d p :
  d <> [] \/ (exists b, body p = Some b /\ b <> []) ->
  match body p with Some b => b ++ d | None => d end <> [].
Proof.
  intros [H|(b & E & H)].
  - destruct (body p); [apply app_has_bytes; auto | exact H].
  - rewrite E. apply app_has_bytes. auto.
Qed.

(** ** One handler *)

Section WithPlatform.
Variable toLowerCase : jsstring -> jsstring.
Variable entropy : nat -> jsstring.

(** A handler that goes on without a message. *)
Ltac goes_on :=
  cbn [error complete needsMoreData message moreData proceed failure];
  unfold settled;
  cbn [state body bodyLength chunkSize chunkBytesRead set_state set_messageType
       set_buffer set_bufferOffset set_requestLine set_statusLine set_headers
       set_body set_bodyLength set_chunkSize set_chunkBytesRead set_totalChunks
       set_keepAlive];
  try match goal with H : state _ = _ |- _ => rewrite H end.

(** A handler that returns the message made from [q]. *)
Ltac emits q :=
  destruct (createCompleteMessage_flags q) as (? & ? & ?);
  match goal with
  | Hc : complete (createCompleteMessage q) = true,
    He : error (createCompleteMessage q) = None |- _ => rewrite He, Hc
  end;
  split; [apply createCompleteMessage_exact | reflexivity].

Lemma handleHeadersComplete_settled hs p p1 r :
  body p = None ->
  handleHeadersComplete toLowerCase hs p = (p1, r) ->
  match error r with
  | Some _ => settled (set_state ERROR p1)
  | None =>
      if complete r
      then framedExactlyOpt (message r) /\ settled (reset false (compactBuffer p1))
      else settled p1
  end.
Proof.
  intros Bn. unfold handleHeadersComplete.
  set (p2 := set_headers _ p).
  set (p3 := match Headers.get _ _ (lit "connection") with Some _ => _ | None => _ end).
  set (p4 := match messageType p3, statusLine p3 with Some RESPONSE, Some _ => _ | _, _ => _ end).
  assert (B4 : body p4 = None).
  { subst p4 p3 p2.
    destruct (Headers.get _ _ (lit "connection")) as [c|]; [destruct (truthy c)|];
      cbn [messageType statusLine set_keepAlive set_headers];
      destruct (messageType p) as [[|]|]; try exact Bn;
      destruct (statusLine p) as [sl|]; try exact Bn;
      destruct (jseqb _ _); exact Bn. }
  destruct (match Headers.get _ _ (lit "transfer-encoding") with Some _ => _ | None => _ end).
  - intros [= <- <-]. goes_on. unfold bodyNotEmpty. cbn [body set_state]. rewrite B4. exact I.
  - destruct (match Headers.get _ _ (lit "content-length") with Some _ => _ | None => _ end)
      as [n|].
    + destruct (n =? 0)%N eqn:En; intros [= <- <-].
      * emits (set_bodyLength n p4). unfold bodyNotEmpty. cbn [body set_bodyLength].
        rewrite B4. exact I.
      * goes_on. cbn [bodyLength set_state set_bodyLength]. apply N.eqb_neq. exact En.
    + intros [= <- <-]. emits p4. unfold bodyNotEmpty. rewrite B4. exact I.
Qed.

Lemma settled_step p p1 r :
  settled p -> ParserState_eqb (state p) ERROR = false ->
  parseNext toLowerCase entropy p = (p1, r) ->
  match error r with
  | Some _ => settled (set_state ERROR p1)
  | None =>
      if complete r
      then framedExactlyOpt (message r) /\ settled (reset false (compactBuffer p1))
      else settled p1
  end.
Proof.
  intros Sp NE. unfold parseNext. unfold settled in Sp. destruct (state p) eqn:St.
  - (* IDLE *)
    unfold parseMessageStart.
    destruct (_ <? _)%Z; [|destruct (_ && _)%bool]; intros [= <- <-]; goes_on;
      rewrite ?St; exact Sp.
  - (* REQUEST_LINE *)
    unfold parseRequestLine.
    destruct (Request.needsMoreData _); [|destruct (Request.error _)];
      intros [= <- <-]; goes_on; rewrite ?St; try exact Sp; exact I.
  - (* STATUS_LINE *)
    unfold parseStatusLine.
    destruct (Response.needsMoreData _); [|destruct (Response.error _)];
      intros [= <- <-]; goes_on; rewrite ?St; try exact Sp; exact I.
  - (* HEADERS *)
    unfold parseHeaders. cbv zeta.
    destruct (findCRLFCRLF _ _ _).
    + destruct (Headers.parseHeaders _ _ _ _ _);
        [|intros [= <- <-]; goes_on; exact I].
      destruct (negb _); [intros [= <- <-]; goes_on; exact I|].
      apply handleHeadersComplete_settled. exact Sp.
    + destruct (_ && _)%bool; [intros [= <- <-]; goes_on; exact I|].
      destruct (_ && _)%bool; [|intros [= <- <-]; goes_on; exact Sp].
      apply handleHeadersComplete_settled. exact Sp.
  - (* BODY_CONTENT_LENGTH *)
    unfold parseBodyContentLength, getBufferedBytes. cbv zeta.
    destruct (_ <? _)%Z eqn:Lt; intros [= <- <-].
    + goes_on.
      destruct (appendToBody_fields (slice_from (buffer p) (bufferOffset p)) p)
        as (_ & Bl & _ & _ & [S1|S1]);
        unfold settled; cbn [state bodyLength set_bufferOffset]; rewrite S1, ?St;
        [rewrite Bl; exact Sp | exact I].
    + match goal with |- context [createCompleteMessage ?q] => emits q end.
      unfold bodyNotEmpty. cbn [body set_bufferOffset].
      match goal with |- context [appendToBody ?d p] =>
        destruct (appendToBody_fields d p) as (-> & _)
      end.
      apply appended_has_bytes. left. apply Z.ltb_ge in Lt.
      apply slice_has_bytes; lia.
  - (* BODY_CHUNKED *)
    intros [= <- <-]. goes_on. exact I.
  - (* BODY_CHUNKED_SIZE *)
    unfold parseChunkedSize.
    destruct (findCRLF _ _ _); [|intros [= <- <-]; goes_on; exact Sp].
    destruct (parseChunkSize _ _) as [size|]; [|intros [= <- <-]; goes_on; exact I].
    cbv zeta. destruct (size =? 0)%N eqn:Ez.
    + intros [= <- <-]. goes_on. exact Sp.
    + destruct (_ <? _)%Z; intros [= <- <-]; goes_on; [exact I|].
      cbn. split; [apply N.eqb_neq; exact Ez | left; reflexivity].
  - (* BODY_CHUNKED_DATA *)
    destruct Sp as [Cs Rd].
    assert (Tr : (chunkSize p - chunkBytesRead p = chunkSize p)%N /\ chunkBytesRead p = 0%N
                 \/ (chunkSize p - chunkBytesRead p = 0)%N /\
                    chunkBytesRead p = chunkSize p /\
                    exists b, body p = Some b /\ b <> []).
    { destruct Rd as [R0|[Rs Bd]]; [left; rewrite R0, N.sub_0_r; auto|right].
      rewrite Rs, N.sub_diag. auto. }
    unfold parseChunkedData, getBufferedBytes. cbv zeta.
    set (toRead := (chunkSize p - chunkBytesRead p)%N) in *.
    destruct (_ <? _)%Z eqn:Lt; [destruct (_ <=? _)%Z eqn:Le|]; intros [= <- <-].
    + (* the data without its CR LF *)
      goes_on.
      match goal with |- context [appendToBody ?d p] =>
        destruct (appendToBody_fields d p) as (Bd & _ & Cz & Cr & [S1|S1]);
        pose proof (appended_has_bytes d p) as Hb
      end;
        unfold settled;
        cbn [state chunkSize chunkBytesRead body set_bufferOffset set_chunkBytesRead];
        rewrite S1, ?St; [|exact I].
      rewrite Cz, Cr, Bd. split; [exact Cs|]. right.
      apply Z.leb_le in Le.
      destruct Tr as [[T0 R0]|(T0 & Rs & Bb)].
      * split; [rewrite R0, T0; reflexivity|]. eexists. split; [reflexivity|].
        apply Hb. left. apply slice_has_bytes; lia.
      * split; [rewrite T0, N.add_0_r; exact Rs|]. eexists. split; [reflexivity|].
        apply Hb. right. exact Bb.
    + (* part of the data *)
      goes_on.
      match goal with |- context [appendToBody ?d p] =>
        destruct (appendToBody_fields d p) as (Bd & _ & Cz & Cr & [S1|S1]);
        pose proof (appended_has_bytes d p) as Hb
      end;
        unfold settled;
        cbn [state chunkSize chunkBytesRead body set_bufferOffset]; rewrite S1, ?St;
        [|exact I].
      rewrite Cz, Cr, Bd. split; [exact Cs|].
      destruct Tr as [[T0 R0]|(T0 & Rs & Bb)]; [left; exact R0|right].
      split; [exact Rs|]. eexists. split; [reflexivity|]. apply Hb. right. exact Bb.
    + (* the data and its CR LF *)
      goes_on. unfold bodyNotEmpty.
      match goal with |- context [if ?c then _ else _] => destruct c end;
        cbn [body set_state set_bufferOffset];
      (match goal with |- context [appendToBody ?d p] =>
         destruct (appendToBody_fields d p) as (-> & _);
         pose proof (appended_has_bytes d p) as Hb
       end;
       apply Hb; apply Z.ltb_ge in Lt;
       destruct Tr as [[T0 R0]|(T0 & Rs & Bb)]; [left|right; exact Bb];
       apply slice_has_bytes; lia).
  - (* BODY_CHUNKED_TRAILER *)
    unfold parseChunkedTrailer. cbv zeta.
    destruct (findCRLFCRLF _ _ _); [|destruct (_ && _)%bool]; intros [= <- <-].
    + match goal with |- context [createCompleteMessage ?q] => emits q end. exact Sp.
    + match goal with |- context [createCompleteMessage ?q] => emits q end. exact Sp.
    + goes_on. exact Sp.
  - (* COMPLETE *)
    intros [= <- <-]. cbn [error complete message]. split; [exact I | reflexivity].
  - (* ERROR *)
    discriminate NE.
Qed.

Lemma settled_appendBuffer data p : settled p -> settled (appendBuffer data p).
Proof.
  unfold appendBuffer, settled, bodyNotEmpty.
  destruct (0 <? bufferOffset p); cbv zeta; destruct (length _ =? 0); exact (fun H => H).
Qed.

(** C10 (amended): every message emitted by [parse] carries the tag
    [CONTENT_LENGTH], also when its body was chunked, and its
    [contentLength] is the byte length of its body when the body has bytes.
    When the body is empty (a message without body, with a Content-Length
    of 0, or with a chunked body of no chunks) the [contentLength] is
    absent, on every settled parser: one that is new, was reset, or was left
    by [parse] calls on a settled parser. *)
Theorem emitted_framing_follows_body (data : bytes) (p : HttpParser) :
  (forall m, In (Some m) (snd (parse toLowerCase entropy data p)) ->
     m_transferEncoding m = CONTENT_LENGTH /\
     (m_body m <> [] -> m_contentLength m = Some (length (m_body m))) /\
     (settled p -> m_body m = [] -> m_contentLength m = None)) /\
  (settled p -> settled (fst (parse toLowerCase entropy data p))) /\
  (forall o, settled (create o)) /\
  (forall clearBuffer q, settled (reset clearBuffer q)).
Proof.
  split; [|split; [|split]].
  - intros m H.
    destruct (emitted_messages_framed toLowerCase entropy data p m H) as [Te Cl].
    split; [exact Te|]. split.
    + intros NE. destruct Cl as [Cl|[_ Cl]]; [exact Cl | contradiction].
    + intros Sp E.
      destruct (parse_invariant toLowerCase entropy settled framedExactlyOpt
                  settled_step settled_appendBuffer data p Sp) as [_ F].
      rewrite Forall_forall in F. destruct (F (Some m) H) as [_ Ex].
      rewrite E in Ex. exact Ex.
  - intros Sp.
    apply (parse_invariant toLowerCase entropy settled framedExactlyOpt
             settled_step settled_appendBuffer data p Sp).
  - intros o. reflexivity.
  - intros clearBuffer q. reflexivity.
Qed.

End WithPlatform.

End FramingLaws.

(* ===================================================================== *)
(** * What the parser emits *)
(* ===================================================================== *)

Module MessageLaws.
Import Parser Feed Shape LoopFacts ParserProps.

(** ** What the start-line parsers return *)

Lemma Request_valid data start stop rl :
  Request.requestLine (Request.parseRequestLine data start stop) = Some rl ->
  Request.validateRequestLine rl = true.
Proof.
  unfold Request.parseRequestLine. cbv zeta.
  destruct (findSpace data start _) as [s1|]; [|discriminate].
  destruct (findSpace data (s1 + 1) _) as [s2|];
    destruct (findCRLF data start (stop - 1)) as [i|];
    repeat match goal with
           | |- context [if ?c then _ else _] => destruct c eqn:?
           end; try discriminate;
    intros [= <-]; unfold Request.validateRequestLine; cbn [method target version];
    repeat match goal with
           | H : negb ?c = false |- _ => apply negb_false_iff in H; rewrite H
           end; reflexivity.
Qed.

Lemma Request_some data start stop :
  let res := Request.parseRequestLine data start stop in
  Request.needsMoreData res = false -> Request.error res = None ->
  exists rl, Request.requestLine res = Some rl.
Proof.
  unfold Request.parseRequestLine. cbv zeta.
  split_cases; simpl; intros; try discriminate; eauto.
Qed.

Lemma statusCode_whole x :
  match x with Fraction _ _ _ => False | _ => True end ->
  isValidStatusCode x = true ->
  exists n, x = Integer false n /\ (100 <= n <= 999)%N.
Proof.
  unfold isValidStatusCode, geZ, leZ.
  destruct x as [|neg|neg n|neg q k]; simpl; intros W H; try discriminate; try contradiction.
  - destruct neg; discriminate.
  - apply andb_prop in H. destruct H as [H1 H2].
    apply negb_true_iff in H1, H2. apply Z.ltb_ge in H1, H2.
    destruct neg; simpl in *; [lia|]. exists n. split; [reflexivity | lia].
Qed.

Lemma Response_valid data start stop sl :
  Response.statusLine (Response.parseStatusLine data start stop) = Some sl ->
  statusLineOk sl.
Proof.
  unfold Response.parseStatusLine. cbv zeta.
  destruct (findSpace data start _) as [s1|]; [|discriminate].
  destruct (findSpace data (s1 + 1) _) as [s2|];
    destruct (findCRLF data start (stop - 1)) as [i|];
    repeat match goal with
           | |- context [if ?c then _ else _] => destruct c eqn:?
           end; try discriminate;
    intros [= <-]; unfold statusLineOk; cbn [sl_version statusCode];
    repeat match goal with
           | H : negb ?c = false |- _ => apply negb_false_iff in H
           end;
    (split; [assumption|]);
    (apply statusCode_whole; [apply ChunkSizeProps.parseInt_whole | assumption]).
Qed.

Lemma Response_some data start stop :
  let res := Response.parseStatusLine data start stop in
  Response.needsMoreData res = false -> Response.error res = None ->
  exists sl, Response.statusLine res = Some sl.
Proof.
  unfold Response.parseStatusLine. cbv zeta.
  split_cases; simpl; intros; try discriminate; eauto.
Qed.

(** ** The fields that make a message *)

Lemma sameHead_refl p : sameHead p p.
Proof. repeat split. Qed.

Lemma sameHead_appendToBody d p : sameHead p (appendToBody d p).
Proof.
  unfold appendToBody. destruct (body p); simpl;
  match goal with |- context [if ?c then _ else _] => destruct c end; repeat split.
Qed.

Lemma options_appendBuffer data p : options (appendBuffer data p) = options p.
Proof. unfold appendBuffer. split_cases; reflexivity. Qed.

Section WithPlatform.
Variable toLowerCase : jsstring -> jsstring.
Variable entropy : nat -> jsstring.

Local Abbreviation collected := (Shape.collected toLowerCase).
Local Abbreviation coherent := (Shape.coherent toLowerCase).
Local Abbreviation wellFormed := (Shape.wellFormed toLowerCase).
Local Abbreviation wellFormedOpt := (Shape.wellFormedOpt toLowerCase).
Local Abbreviation keepAliveRule := (Shape.keepAliveRule toLowerCase).
Local Abbreviation stepOk := (Shape.stepOk toLowerCase).
Local Abbreviation ready := (Shape.ready toLowerCase).

Lemma collected_sameHead p q : collected p -> sameHead p q -> collected q.
Proof.
  intros [S (hs & H & O & K)] (E1 & E2 & E3 & E4 & E5 & E6).
  split; [rewrite E1, E2, E3; exact S|].
  exists hs. rewrite E4, E5, E6, E1, E3. auto.
Qed.

Lemma createCompleteMessage_wellFormed p :
  collected p -> wellFormedOpt (options p) (message (createCompleteMessage p)).
Proof.
  intros [S (hs & H & O & K)]. unfold createCompleteMessage.
  unfold startLineOk in S.
  destruct (messageType p) as [[]|] eqn:T; [| |contradiction];
    destruct S as (l & El & V); simpl; unfold Shape.wellFormed; simpl.
  - split; [reflexivity|]. rewrite El. split; [exact V|].
    exists hs. split; [exact H|]. split; [exact O|]. rewrite K. reflexivity.
  - split; [reflexivity|]. rewrite El. split; [exact V|].
    exists hs. split; [exact H|]. split; [exact O|]. rewrite K, El. reflexivity.
Qed.

(** The headers done, the fields are collected; the result either goes on
    to a body state or is the message made of them. *)
Lemma handleHeadersComplete_collected hs p p1 r :
  startLineOk (messageType p) (Parser.requestLine p) (Parser.statusLine p) ->
  keepAlive p = true -> headersOk (options p) hs ->
  handleHeadersComplete toLowerCase hs p = (p1, r) ->
  collected p1 /\ options p1 = options p /\
  (r = createCompleteMessage p1 \/
   r = proceed /\ (state p1 = BODY_CHUNKED_SIZE \/ state p1 = BODY_CONTENT_LENGTH)).
Proof.
  intros S K O. unfold handleHeadersComplete.
  set (p2 := set_headers _ p).
  set (p3 := match Headers.get _ _ (lit "connection") with Some _ => _ | None => _ end).
  set (p4 := match messageType p3, Parser.statusLine p3 with
             | Some RESPONSE, Some _ => _ | _, _ => _ end).
  assert (C3 : messageType p3 = messageType p /\ Parser.requestLine p3 = Parser.requestLine p /\
               Parser.statusLine p3 = Parser.statusLine p /\ Parser.headers p3 = Some hs /\
               options p3 = options p /\ keepAlive p3 = byConnection toLowerCase hs).
  { subst p3 p2. unfold byConnection.
    destruct (Headers.get toLowerCase hs (lit "connection")) as [c|];
      [destruct (truthy c)|]; simpl; repeat split; auto. }
  destruct C3 as (A1 & A2 & A3 & A4 & A5 & A6).
  assert (C4 : collected p4 /\ options p4 = options p).
  { subst p4. rewrite A1, A3. unfold Shape.collected, Shape.keepAliveRule.
    destruct (messageType p) as [[]|] eqn:T; [| |contradiction].
    - rewrite A1, A2, A3, A4, A5, A6. split; [|reflexivity].
      split; [exact S|]. exists hs. split; [reflexivity|]. split; [exact O|].
      destruct (Parser.statusLine p); reflexivity.
    - destruct S as (l & El & V). rewrite El.
      destruct (jseqb (sl_version l) HTTP_1_0) eqn:J; simpl;
        rewrite ?A1, ?A2, ?A3, ?A4, ?A5, ?A6, ?El, ?J; (split; [|reflexivity]);
        (split; [exists l; auto|]); exists hs; (split; [reflexivity|]);
        (split; [exact O | reflexivity]). }
  destruct C4 as [C4 O4].
  destruct (match Headers.get _ _ (lit "transfer-encoding") with Some _ => _ | None => _ end).
  - intros [= <- <-]. split; [|split; [exact O4 | right; auto]].
    apply (collected_sameHead p4); [exact C4 | repeat split].
  - destruct (match Headers.get _ _ (lit "content-length") with Some _ => _ | None => _ end) as [n|].
    + destruct (n =? 0)%N; intros [= <- <-].
      * split; [|split; [exact O4 | left; reflexivity]].
        apply (collected_sameHead p4); [exact C4 | repeat split].
      * split; [|split; [exact O4 | right; auto]].
        apply (collected_sameHead p4); [exact C4 | repeat split].
    + intros [= <- <-]. split; [exact C4|]. split; [exact O4 | left; reflexivity].
Qed.

Lemma parseHeaders_ok text o hs :
  Headers.parseHeaders toLowerCase entropy text (maxHeaders o) (maxHeaderLineLength o) = Some hs ->
  headersValid o hs = true ->
  headersOk o hs.
Proof.
  intros P V. unfold Headers.parseHeaders in P.
  destruct (HeadersLaws.parseLines_tidy toLowerCase entropy _ _ _ _ _ _
              (Z.max 0 (maxHeaders o)) P) as [A B].
  - simpl. lia.
  - lia.
  - intros hd [].
  - split; [exact V|]. split; [exact A|]. intros hd I. apply (B hd I).
Qed.

Lemma headersOk_empty o : headersOk o Headers.empty.
Proof.
  unfold headersOk, headersValid. simpl. split.
  - destruct (_ || _)%bool; reflexivity.
  - split; [lia | intros hd []].
Qed.

Lemma sameHead_trans p q t : sameHead p q -> sameHead q t -> sameHead p t.
Proof.
  intros (A1 & A2 & A3 & A4 & A5 & A6) (B1 & B2 & B3 & B4 & B5 & B6).
  repeat split; congruence.
Qed.

Lemma handleHeadersComplete_options hs p p1 r :
  handleHeadersComplete toLowerCase hs p = (p1, r) -> options p1 = options p.
Proof.
  unfold handleHeadersComplete. cbv zeta.
  split_cases; intros [= <- <-]; reflexivity.
Qed.

Lemma parseNext_options p p1 r :
  parseNext toLowerCase entropy p = (p1, r) -> options p1 = options p.
Proof.
  unfold parseNext. destruct (state p).
  - unfold parseMessageStart. split_cases; intros [= <- <-]; reflexivity.
  - unfold parseRequestLine. split_cases; intros [= <- <-]; reflexivity.
  - unfold parseStatusLine. split_cases; intros [= <- <-]; reflexivity.
  - unfold parseHeaders. cbv zeta.
    destruct (findCRLFCRLF _ _ _).
    + destruct (Headers.parseHeaders _ _ _ _ _); [|intros [= <- <-]; reflexivity].
      destruct (negb _); [intros [= <- <-]; reflexivity|].
      intros H. apply handleHeadersComplete_options in H. exact H.
    + destruct (_ && _)%bool; [intros [= <- <-]; reflexivity|].
      destruct (_ && _)%bool; [|intros [= <- <-]; reflexivity].
      intros H. apply handleHeadersComplete_options in H. exact H.
  - unfold parseBodyContentLength. cbv zeta.
    destruct (_ <? _)%Z; intros [= <- <-]; simpl;
      match goal with |- context [appendToBody ?d p] =>
        apply (sameHead_appendToBody d p) end.
  - intros [= <- <-]; reflexivity.
  - unfold parseChunkedSize. cbv zeta. split_cases; intros [= <- <-]; reflexivity.
  - unfold parseChunkedData. cbv zeta.
    destruct (_ <? _)%Z; [destruct (_ <=? _)%Z|]; intros [= <- <-];
      try destruct (_ && _)%bool; simpl;
      match goal with |- context [appendToBody ?d p] =>
        apply (sameHead_appendToBody d p) end.
  - unfold parseChunkedTrailer. cbv zeta. split_cases; intros [= <- <-]; reflexivity.
  - intros [= <- <-]; reflexivity.
  - intros [= <- <-]; reflexivity.
Qed.

Lemma coherent_body q :
  collected q ->
  (state q = BODY_CONTENT_LENGTH \/ state q = BODY_CHUNKED_SIZE \/
   state q = BODY_CHUNKED_DATA \/ state q = BODY_CHUNKED_TRAILER \/ state q = ERROR) ->
  coherent q.
Proof.
  intros C S. unfold Shape.coherent.
  destruct S as [S|[S|[S|[S|S]]]]; rewrite S; auto.
Qed.

Lemma complete_wellFormed o q :
  collected q -> options q = o ->
  match error (createCompleteMessage q) with
  | Some _ => True
  | None =>
      if complete (createCompleteMessage q)
      then wellFormedOpt o (message (createCompleteMessage q))
      else coherent q
  end.
Proof.
  intros C O. destruct (createCompleteMessage_flags q) as (A & _ & B).
  rewrite A, B, <- O. apply createCompleteMessage_wellFormed, C.
Qed.


Ltac step_done := unfold Shape.stepOk; simpl; try exact I.

(** One handler: what it emits is well formed, and it leaves the parser
    coherent when it goes on. *)
Lemma coherent_step p p1 r :
  coherent p -> ParserState_eqb (state p) ERROR = false ->
  parseNext toLowerCase entropy p = (p1, r) ->
  stepOk (options p) p1 r.
Proof.
  unfold Shape.coherent at 1. unfold parseNext.
  destruct (state p) eqn:St; intros C NE; try contradiction; try discriminate NE; clear NE.
  - (* IDLE *)
    unfold parseMessageStart. split_cases; intros [= <- <-]; step_done;
      unfold Shape.coherent; simpl; rewrite ?St; auto.
  - (* REQUEST_LINE *)
    destruct C as [T K]. unfold parseRequestLine.
    pose proof (Request_some (buffer p) (bufferOffset p) (length (buffer p))) as So.
    cbv zeta in So.
    destruct (Request.needsMoreData _);
      [intros [= <- <-]; step_done; unfold Shape.coherent; rewrite St; auto|].
    destruct (Request.error _); [intros [= <- <-]; exact I|].
    destruct (So eq_refl eq_refl) as [rl E].
    intros [= <- <-]; step_done. unfold Shape.coherent; simpl. split; [|exact K].
    rewrite T. exists rl. split; [exact E | eapply Request_valid; exact E].
  - (* STATUS_LINE *)
    destruct C as [T K]. unfold parseStatusLine.
    pose proof (Response_some (buffer p) (bufferOffset p) (length (buffer p))) as So.
    cbv zeta in So.
    destruct (Response.needsMoreData _);
      [intros [= <- <-]; step_done; unfold Shape.coherent; rewrite St; auto|].
    destruct (Response.error _); [intros [= <- <-]; exact I|].
    destruct (So eq_refl eq_refl) as [sl E].
    intros [= <- <-]; step_done. unfold Shape.coherent; simpl. split; [|exact K].
    rewrite T. exists sl. split; [exact E | eapply Response_valid; exact E].
  - (* HEADERS *)
    destruct C as [S K].
    assert (HC : forall hs q,
              (messageType q = messageType p /\
               Parser.requestLine q = Parser.requestLine p /\
               Parser.statusLine q = Parser.statusLine p /\
               keepAlive q = keepAlive p /\ options q = options p) ->
              headersOk (options p) hs ->
              handleHeadersComplete toLowerCase hs q = (p1, r) ->
              stepOk (options p) p1 r).
    { intros hs q (E1 & E2 & E3 & E5 & E6) O H.
      apply handleHeadersComplete_collected in H.
      - destruct H as (C1 & O1 & [->|[-> B]]).
        + apply complete_wellFormed; [exact C1 | congruence].
        + step_done. apply coherent_body; [exact C1 | tauto].
      - rewrite E1, E2, E3. exact S.
      - congruence.
      - rewrite E6. exact O. }
    unfold parseHeaders. cbv zeta.
    destruct (findCRLFCRLF _ _ _).
    + destruct (Headers.parseHeaders _ _ _ _ _) as [hs|] eqn:P; [|intros [= <- <-]; exact I].
      destruct (negb (headersValid (options p) hs)) eqn:V; [intros [= <- <-]; exact I|].
      apply negb_false_iff in V.
      apply HC; [repeat split | apply (parseHeaders_ok _ _ _ P V)].
    + destruct (_ && _)%bool; [intros [= <- <-]; exact I|].
      destruct (_ && _)%bool;
        [|intros [= <- <-]; step_done; unfold Shape.coherent; rewrite St; auto].
      apply HC; [repeat split | apply headersOk_empty].
  - (* BODY_CONTENT_LENGTH *)
    unfold parseBodyContentLength. cbv zeta.
    destruct (_ <? _)%Z; intros [= <- <-].
    + step_done. match goal with |- context [appendToBody ?d p] =>
        pose proof (sameHead_appendToBody d p) as SH;
        destruct (appendToBody_chunk d p) as (_ & _ & [A|A]) end;
      (apply coherent_body;
       [ apply (collected_sameHead p); [exact C|];
         eapply sameHead_trans; [exact SH | repeat split]
       | simpl; rewrite A, ?St; tauto ]).
    + match goal with |- context [appendToBody ?d p] =>
        pose proof (sameHead_appendToBody d p) as SH end.
      apply complete_wellFormed.
      * apply (collected_sameHead p); [exact C|].
        eapply sameHead_trans; [exact SH | repeat split].
      * simpl. apply SH.
  - (* BODY_CHUNKED_SIZE *)
    unfold parseChunkedSize. cbv zeta.
    split_cases; intros [= <- <-]; step_done;
      try (unfold Shape.coherent; rewrite St; exact C);
      (apply coherent_body; [apply (collected_sameHead p); [exact C | repeat split]
                            | simpl; tauto]).
  - (* BODY_CHUNKED_DATA *)
    unfold parseChunkedData. cbv zeta.
    destruct (_ <? _)%Z; [destruct (_ <=? _)%Z|]; intros [= <- <-]; step_done;
    try destruct (_ && _)%bool;
    match goal with |- context [appendToBody ?d p] =>
      pose proof (sameHead_appendToBody d p) as SH;
      destruct (appendToBody_chunk d p) as (_ & _ & [A|A]) end;
    (apply coherent_body;
         [ apply (collected_sameHead p); [exact C|];
           eapply sameHead_trans; [exact SH | repeat split; reflexivity]
         | simpl; rewrite ?A, ?St; tauto ]).
  - (* BODY_CHUNKED_TRAILER *)
    unfold parseChunkedTrailer. cbv zeta.
    destruct (findCRLFCRLF _ _ _); [|destruct (_ && _ && _)%bool]; intros [= <- <-].
    + apply complete_wellFormed; [|reflexivity].
      apply (collected_sameHead p); [exact C | repeat split].
    + apply complete_wellFormed; [|reflexivity].
      apply (collected_sameHead p); [exact C | repeat split].
    + step_done. unfold Shape.coherent. rewrite St. exact C.
Qed.

Lemma ready_step o p p1 r :
  ready o p -> ParserState_eqb (state p) ERROR = false ->
  parseNext toLowerCase entropy p = (p1, r) ->
  match error r with
  | Some _ => ready o (set_state ERROR p1)
  | None =>
      if complete r
      then wellFormedOpt o (message r) /\ ready o (reset false (compactBuffer p1))
      else ready o p1
  end.
Proof.
  intros [C O] NE E. pose proof (coherent_step p p1 r C NE E) as S. unfold Shape.stepOk in S.
  pose proof (parseNext_options p p1 r E) as O1.
  assert (O2 : options p1 = o) by congruence.
  destruct (error r).
  - split; [exact I | exact O2].
  - destruct (complete r).
    + rewrite O in S. split; [exact S|]. split; [reflexivity|].
      unfold compactBuffer. destruct (0 <? _); exact O2.
    + split; [exact S | exact O2].
Qed.

Lemma ready_appendBuffer o data p : ready o p -> ready o (appendBuffer data p).
Proof.
  intros [C O]. split; [|rewrite options_appendBuffer; exact O].
  unfold Shape.coherent, Shape.collected in *. unfold appendBuffer.
  destruct (0 <? bufferOffset p); destruct (_ =? 0); exact C.
Qed.

Lemma parse_ready data p :
  coherent p ->
  coherent (fst (parse toLowerCase entropy data p)) /\
  options (fst (parse toLowerCase entropy data p)) = options p /\
  Forall (wellFormedOpt (options p)) (snd (parse toLowerCase entropy data p)).
Proof.
  intros C.
  destruct (ParserLaws.parse_invariant toLowerCase entropy (ready (options p))
              (wellFormedOpt (options p)) (ready_step (options p))
              (ready_appendBuffer (options p)) data p) as [[A B] F].
  - split; [exact C | reflexivity].
  - auto.
Qed.

(** X16: from a coherent parser (a new one, or one left by [reset] or by an
    earlier [parse]), everything [parse] pushes is a message, never
    [undefined]: it is marked complete and carries the start line of its
    type, which has passed the validators (method, target and version of a
    request; version and a whole status code from 100 to 999 of a response).
    The parser is coherent again afterwards. *)
Theorem emitted_start_line_is_validated (data : bytes) (p : HttpParser)
    (x : option HttpMessage) :
  coherent p -> In x (snd (parse toLowerCase entropy data p)) ->
  coherent (fst (parse toLowerCase entropy data p)) /\
  exists m, x = Some m /\ m_complete m = true /\
    match m_type m, m_startLine m with
    | REQUEST, RequestStart (Some l) => Request.validateRequestLine l = true
    | RESPONSE, StatusStart (Some l) => statusLineOk l
    | _, _ => False
    end.
Proof.
  intros C I. destruct (parse_ready data p C) as (A & _ & F).
  split; [exact A|]. rewrite Forall_forall in F. specialize (F x I).
  destruct x as [m|]; [|contradiction]. destruct F as (F1 & F2 & _).
  exists m. auto.
Qed.

(** X17: the keep-alive flag of every emitted message is false for a response
    whose status line says HTTP/1.0, and otherwise false exactly when the
    message has a non-empty Connection value whose lowercase form is
    [close]; the version of a request plays no part. *)
Theorem emitted_keepAlive_follows_rule (data : bytes) (p : HttpParser) (m : HttpMessage) :
  coherent p -> In (Some m) (snd (parse toLowerCase entropy data p)) ->
  exists hs, m_headers m = Some hs /\
    m_keepAlive m =
      match m_startLine m with
      | StatusStart (Some l) =>
          if jseqb (sl_version l) HTTP_1_0 then false else byConnection toLowerCase hs
      | _ => byConnection toLowerCase hs
      end.
Proof.
  intros C I. destruct (parse_ready data p C) as (_ & _ & F).
  rewrite Forall_forall in F. specialize (F _ I).
  destruct F as (_ & F2 & hs & H & _ & K).
  exists hs. split; [exact H|]. rewrite K. unfold Shape.keepAliveRule.
  destruct (m_type m); destruct (m_startLine m) as [[l|]|[l|]]; try contradiction; reflexivity.
Qed.

(** X18: the headers of every emitted message have passed the validation the
    options ask for, are at most [maxHeaders], and have non-empty trimmed
    names without colon and non-empty trimmed values. *)
Theorem emitted_headers_are_validated (data : bytes) (p : HttpParser) (m : HttpMessage) :
  coherent p -> In (Some m) (snd (parse toLowerCase entropy data p)) ->
  exists hs, m_headers m = Some hs /\
    headersValid (options p) hs = true /\
    (Z.of_nat (Headers.totalEntries hs) <= Z.max 0 (maxHeaders (options p)))%Z /\
    forall hd, In hd (Headers.toArray hs) -> HeadersSpec.tidy hd.
Proof.
  intros C I. destruct (parse_ready data p C) as (_ & _ & F).
  rewrite Forall_forall in F. specialize (F _ I).
  destruct F as (_ & _ & hs & H & O & _). exists hs. split; [exact H | exact O].
Qed.

End WithPlatform.

End MessageLaws.

(* ===================================================================== *)
(** * Text written and read back *)
(* ===================================================================== *)

Module WireProps.
Import Headers HeadersSpec HeadersProps Wire.

(** ** ASCII text and its bytes *)

Lemma encodeUtf8_ascii s : isAscii s = true -> encodeUtf8 s = asciiBytes s.
Proof.
  intros H. unfold encodeUtf8, asciiBytes. rewrite codePoints_ascii by assumption.
  induction s as [|c t IH]; [reflexivity|].
  simpl in H. apply andb_prop in H. destruct H as [Hc Ht].
  cbn [flat_map map]. rewrite IH by assumption.
  unfold utf8_encode_point. apply N.ltb_lt in Hc.
  replace (c <=? 0x7F)%N with true by (symmetry; apply N.leb_le; lia). reflexivity.
Qed.

Lemma decodeUtf8_ascii s : isAscii s = true -> decodeUtf8 (asciiBytes s) = s.
Proof.
  intros H. rewrite <- encodeUtf8_ascii by assumption. apply ascii_roundtrip, H.
Qed.

Lemma length_asciiBytes s : length (asciiBytes s) = length s.
Proof. apply length_map. Qed.

Lemma asciiBytes_app a b : asciiBytes (a ++ b) = asciiBytes a ++ asciiBytes b.
Proof. apply map_app. Qed.

Lemma isAscii_forall s : isAscii s = true <-> forall c, In c s -> (c < 128)%N.
Proof.
  unfold isAscii. rewrite forallb_forall. split; intros H c I.
  - apply N.ltb_lt, H, I.
  - apply N.ltb_lt, H, I.
Qed.

Lemma toByte_eqb c b : (c < 256)%N -> Byte.eqb (toByte c) b = (c =? Byte.to_N b)%N.
Proof.
  intros H. destruct (c =? Byte.to_N b)%N eqn:E.
  - apply N.eqb_eq in E. subst c. unfold toByte. rewrite Byte.of_to_N.
    apply Byte.byte_dec_lb. reflexivity.
  - destruct (Byte.eqb (toByte c) b) eqn:B; [|reflexivity].
    apply Byte.byte_dec_bl in B. subst b. rewrite to_N_toByte in E by assumption.
    rewrite N.eqb_refl in E. discriminate.
Qed.

(** The unit at [i] of the text [T], written [T @ i]; [None] past the end. *)
Local Notation "T @ i" := (nth_error T i) (at level 20).

(** A byte of the data is read off the text it begins with. *)
Lemma byte_is_text T B i b :
  isAscii T = true -> i < length T ->
  byte_is (asciiBytes T ++ B) i b =
  match T @ i with Some c => (c =? Byte.to_N b)%N | None => false end.
Proof.
  intros A L. unfold byte_is, asciiBytes.
  rewrite nth_error_app1 by (rewrite length_map; exact L).
  rewrite nth_error_map. destruct (T @ i) as [c|] eqn:E; [|reflexivity].
  simpl. apply toByte_eqb. apply nth_error_In in E.
  rewrite isAscii_forall in A. specialize (A c E). lia.
Qed.

Lemma slice_text T B s e :
  e <= length T -> slice (asciiBytes T ++ B) s e = asciiBytes (slice T s e).
Proof.
  intros L. unfold slice, asciiBytes.
  rewrite skipn_app, firstn_app, length_skipn, length_map.
  replace (e - s - (length T - s)) with 0 by lia. cbn [firstn]. rewrite app_nil_r.
  rewrite skipn_map, firstn_map. reflexivity.
Qed.

Lemma in_slice {A} (l : list A) s e x : In x (slice l s e) -> In x l.
Proof.
  unfold slice. intros I.
  rewrite <- (firstn_skipn s l). apply in_or_app. right.
  rewrite <- (firstn_skipn (e - s) (skipn s l)). apply in_or_app. left. exact I.
Qed.

Lemma isAscii_slice T s e : isAscii T = true -> isAscii (slice T s e) = true.
Proof.
  rewrite !isAscii_forall. intros H c I. apply H. eapply in_slice. exact I.
Qed.

Lemma decode_slice_text T B s e :
  isAscii T = true -> e <= length T ->
  decodeUtf8 (slice (asciiBytes T ++ B) s e) = slice T s e.
Proof.
  intros A L. rewrite slice_text by assumption.
  apply decodeUtf8_ascii, isAscii_slice, A.
Qed.

(** ** Searching *)

Lemma scan_first P from n i :
  from <= i < from + n -> P i = true -> (forall j, from <= j < i -> P j = false) ->
  scan P from n = Some i.
Proof.
  revert from. induction n as [|n IH]; intros from R Pi N; [lia|].
  simpl. destruct (Nat.eq_dec from i) as [->|D].
  - rewrite Pi. reflexivity.
  - rewrite N by lia. apply IH; [lia | exact Pi | intros j Hj; apply N; lia].
Qed.

Lemma scan_nothing P from n :
  (forall j, from <= j < from + n -> P j = false) -> scan P from n = None.
Proof.
  revert from. induction n as [|n IH]; intros from N; [reflexivity|].
  simpl. rewrite N by lia. apply IH. intros j Hj. apply N. lia.
Qed.

Lemma nth_lt (T : jsstring) i c : T @ i = Some c -> i < length T.
Proof. intros H. apply nth_error_Some. congruence. Qed.

Lemma findSpace_text T B s e i :
  isAscii T = true -> firstAt T 32 s i -> i < e ->
  findSpace (asciiBytes T ++ B) s e = Some i.
Proof.
  intros A (S & H & N) E. unfold findSpace. pose proof (nth_lt _ _ _ H) as L.
  apply scan_first; [lia | |].
  - rewrite byte_is_text by assumption. rewrite H. reflexivity.
  - intros j Hj. rewrite byte_is_text by (auto; lia).
    destruct (T @ j) as [c|] eqn:Ej; [|reflexivity].
    apply N.eqb_neq. intros ->. apply (N j Hj). exact Ej.
Qed.

Lemma findCRLF_text T B s e i :
  isAscii T = true -> firstAt T 13 s i -> T @ (i + 1) = Some 10%N -> i < e ->
  findCRLF (asciiBytes T ++ B) s e = Some i.
Proof.
  intros A (S & H & N) H1 E. unfold findCRLF. pose proof (nth_lt _ _ _ H1) as L.
  apply scan_first; [lia | |].
  - rewrite !byte_is_text by (auto; lia). rewrite H, H1. reflexivity.
  - intros j Hj. rewrite byte_is_text by (auto; lia).
    destruct (T @ j) as [c|] eqn:Ej; [|reflexivity].
    replace (c =? Byte.to_N CR)%N with false; [reflexivity|].
    symmetry. apply N.eqb_neq. intros ->. apply (N j Hj). exact Ej.
Qed.

(** ** Units of a text made of pieces *)

Lemma at_app_l (a b : jsstring) i : i < length a -> (a ++ b) @ i = a @ i.
Proof. apply nth_error_app1. Qed.

Lemma at_app_r (a b : jsstring) i : (a ++ b) @ (length a + i) = b @ i.
Proof.
  rewrite nth_error_app2 by lia. f_equal. lia.
Qed.

Lemma at_in (a : jsstring) i c : a @ i = Some c -> In c a.
Proof. apply nth_error_In. Qed.

Lemma visible_range s c :
  visible s = true -> In c s -> (32 < c < 127)%N.
Proof.
  unfold visible. rewrite forallb_forall. intros H I. specialize (H c I).
  apply andb_prop in H. destruct H as [H1 H2]. apply N.ltb_lt in H1, H2. lia.
Qed.

Lemma visible_ascii s : visible s = true -> isAscii s = true.
Proof.
  intros H. apply isAscii_forall. intros c I. pose proof (visible_range s c H I). lia.
Qed.

Lemma slice_mid {A} (a b c : list A) :
  slice (a ++ b ++ c) (length a) (length a + length b) = b.
Proof.
  unfold slice. rewrite skipn_app, skipn_all, Nat.sub_diag. cbn [skipn app].
  replace (length a + length b - length a) with (length b + 0) by lia.
  rewrite firstn_app_2. cbn [firstn]. apply app_nil_r.
Qed.

Lemma version_units v c :
  isValidVersion v = true -> In c v -> (32 < c < 127)%N.
Proof.
  unfold isValidVersion. intros H I. apply orb_prop in H.
  destruct H as [H|H]; apply jseqb_eq in H; subst v; simpl in I;
    repeat (destruct I as [<-|I]; [lia|]); contradiction.
Qed.

(** ** The request line *)

Section RequestLine.
Variables (m t v R : jsstring) (B : bytes).
Hypothesis Hm : visible m = true.
Hypothesis Ht : visible t = true.
Hypothesis Vm : isValidMethod m = true.
Hypothesis Vt : isValidTarget t = true.
Hypothesis Vv : isValidVersion v = true.
Hypothesis AR : isAscii R = true.

Let P : jsstring := m ++ 32%N :: t ++ 32%N :: v.
Let T : jsstring := P ++ 13%N :: 10%N :: R.
Let e : nat := length P.

Lemma P_units c : In c P -> (32 <= c < 127)%N.
Proof.
  unfold P. intros I. apply in_app_or in I. destruct I as [I|[<-|I]].
  - pose proof (visible_range m c Hm I). lia.
  - lia.
  - apply in_app_or in I. destruct I as [I|[<-|I]].
    + pose proof (visible_range t c Ht I). lia.
    + lia.
    + pose proof (version_units v c Vv I). lia.
Qed.

Lemma T_ascii : isAscii T = true.
Proof.
  apply isAscii_forall. intros c I. unfold T in I. apply in_app_or in I.
  destruct I as [I|[<-|[<-|I]]]; try lia.
  - pose proof (P_units c I). lia.
  - rewrite isAscii_forall in AR. apply AR, I.
Qed.

Lemma T_before j : j < e -> exists c, T @ j = Some c /\ In c P.
Proof.
  intros L. unfold T. rewrite at_app_l by exact L.
  destruct (P @ j) as [c|] eqn:E.
  - exists c. split; [reflexivity | eapply at_in; exact E].
  - apply nth_error_None in E. unfold e in L. lia.
Qed.

Lemma T_crlf : firstAt T 13 0 e /\ T @ (e + 1) = Some 10%N.
Proof.
  split; [split; [lia | split]|].
  - unfold T, e. rewrite <- (Nat.add_0_r (length P)). rewrite at_app_r. reflexivity.
  - intros j Hj H. destruct (T_before j) as (c & E & I); [lia|].
    rewrite E in H. injection H as ->. pose proof (P_units _ I). lia.
  - unfold T, e. rewrite at_app_r. reflexivity.
Qed.

Lemma T_space1 : firstAt T 32 0 (length m).
Proof.
  assert (L : length m < e) by (unfold e, P; rewrite length_app; simpl; lia).
  split; [lia | split].
  - unfold T. rewrite at_app_l by exact L. unfold P.
    rewrite <- (Nat.add_0_r (length m)). rewrite at_app_r. reflexivity.
  - intros j Hj H. unfold T in H. rewrite at_app_l in H by lia. unfold P in H.
    rewrite at_app_l in H by lia. apply at_in in H.
    pose proof (visible_range m _ Hm H). lia.
Qed.

Lemma T_space2 : firstAt T 32 (length m + 1) (length m + 1 + length t).
Proof.
  assert (L : length m + 1 + length t < e).
  { unfold e, P. rewrite length_app. simpl. rewrite length_app. simpl. lia. }
  split; [lia | split].
  - unfold T. rewrite at_app_l by exact L. unfold P.
    replace (length m + 1 + length t) with (length m + S (length t)) by lia.
    rewrite at_app_r. cbn [nth_error].
    rewrite <- (Nat.add_0_r (length t)). rewrite at_app_r. reflexivity.
  - intros j Hj H. unfold T in H. rewrite at_app_l in H by lia. unfold P in H.
    replace j with (length m + S (j - length m - 1)) in H by lia.
    rewrite at_app_r in H. cbn [nth_error] in H.
    rewrite at_app_l in H by lia. apply at_in in H.
    pose proof (visible_range t _ Ht H). lia.
Qed.

Lemma T_slices :
  slice T 0 (length m) = m /\
  slice T (length m + 1) (length m + 1 + length t) = t /\
  slice T (length m + 1 + length t + 1) e = v.
Proof.
  assert (E1 : T = [] ++ m ++ (32%N :: t ++ 32%N :: v ++ 13%N :: 10%N :: R)).
  { unfold T, P. repeat (rewrite <- app_assoc; cbn [app]). reflexivity. }
  assert (E2 : T = (m ++ [32%N]) ++ t ++ (32%N :: v ++ 13%N :: 10%N :: R)).
  { unfold T, P. repeat (rewrite <- app_assoc; cbn [app]). reflexivity. }
  assert (E3 : T = (m ++ 32%N :: t ++ [32%N]) ++ v ++ (13%N :: 10%N :: R)).
  { unfold T, P. repeat (rewrite <- app_assoc; cbn [app]). reflexivity. }
  repeat split.
  - rewrite E1. apply (slice_mid [] m).
  - rewrite E2.
    replace (length m + 1) with (length (m ++ [32%N])) by (rewrite length_app; reflexivity).
    apply slice_mid.
  - rewrite E3.
    assert (L : length (m ++ 32%N :: t ++ [32%N]) = length m + 1 + length t + 1).
    { rewrite length_app. simpl. rewrite length_app. simpl. lia. }
    rewrite <- L.
    replace e with (length (m ++ 32%N :: t ++ [32%N]) + length v).
    + apply slice_mid.
    + rewrite L. unfold e, P. rewrite length_app. simpl. rewrite length_app. simpl. lia.
Qed.

Lemma parseRequestLine_text stop :
  length T <= stop ->
  Request.parseRequestLine (asciiBytes T ++ B) 0 stop =
  {| Request.requestLine := Some {| method := m; target := t; version := v |};
     Request.bytesConsumed := e + 2;
     Request.needsMoreData := false;
     Request.error := None |}.
Proof.
  intros L.
  assert (Le : e + 2 <= length T) by (unfold T, e; rewrite length_app; simpl; lia).
  assert (L1 : length m + 1 + length t + 1 <= e).
  { unfold e, P. rewrite length_app. simpl. rewrite length_app. simpl. lia. }
  destruct T_crlf as [C1 C2]. destruct T_slices as (S1 & S2 & S3).
  unfold Request.parseRequestLine.
  rewrite (findCRLF_text T B 0 (stop - 1) e T_ascii C1 C2) by lia.
  cbv zeta.
  rewrite (findSpace_text T B 0 e (length m) T_ascii T_space1) by lia.
  rewrite (findSpace_text T B (length m + 1) e (length m + 1 + length t) T_ascii T_space2)
    by lia.
  unfold Request.decodeUtf8.
  rewrite !decode_slice_text by (auto using T_ascii; lia).
  rewrite S1, S2, S3, Vm, Vt, Vv. reflexivity.
Qed.

End RequestLine.

(** X19: a request line written by [formatRequestLine] is read back by
    [parseRequestLine], whatever follows it: the same method, target and
    version, and as many bytes consumed as were written.  The line must be
    valid, with method and target made of visible ASCII characters. *)
Theorem formatRequestLine_parseRequestLine (rl : RequestLine) (rest : bytes) :
  Request.validateRequestLine rl = true ->
  visible (method rl) = true -> visible (target rl) = true ->
  let data := Request.formatRequestLine rl ++ rest in
  Request.parseRequestLine data 0 (length data) =
  {| Request.requestLine := Some rl;
     Request.bytesConsumed := length (Request.formatRequestLine rl);
     Request.needsMoreData := false;
     Request.error := None |}.
Proof.
  intros V Hm Ht data.
  unfold Request.validateRequestLine in V. apply andb_prop in V. destruct V as [V Vv].
  apply andb_prop in V. destruct V as [Vm Vt].
  set (T := (method rl ++ 32%N :: target rl ++ 32%N :: version rl) ++ [13%N; 10%N]).
  assert (AT : isAscii T = true)
    by (apply (T_ascii _ _ _ [] Hm Ht Vv eq_refl)).
  assert (F : Request.formatRequestLine rl = asciiBytes T).
  { unfold Request.formatRequestLine. rewrite <- encodeUtf8_ascii by exact AT.
    f_equal. unfold T. change (lit " ") with [32%N].
    repeat (rewrite <- app_assoc; cbn [app]). reflexivity. }
  subst data. rewrite F.
  rewrite (parseRequestLine_text _ _ _ [] rest Hm Ht Vm Vt Vv eq_refl).
  - f_equal.
    + destruct rl; reflexivity.
    + rewrite length_asciiBytes. unfold T. rewrite (length_app (_ ++ _) [13%N; 10%N]). reflexivity.
  - fold T. rewrite length_app, length_asciiBytes. lia.
Qed.

End WireProps.

(* ===================================================================== *)
(** * The request written and read back *)
(* ===================================================================== *)

Module RequestRoundTrip.
Import Parser Feed LoopFacts ParserProps Headers HeadersSpec HeadersProps HeadersLaws NumberSpec NumberProps Wire WireProps.

Local Notation "T @ i" := (nth_error T i) (at level 20).

(** ** The decimal digits of a length *)

Lemma decimal_snoc ds c : decimal (ds ++ [c]) = (decimal ds * 10 + (c - 48))%N.
Proof. unfold decimal. rewrite fold_left_app. reflexivity. Qed.

Lemma decimalDigits_spec fuel n acc :
  (n < N.of_nat fuel)%N ->
  exists ds, decimalDigits fuel n acc = ds ++ acc /\ ds <> [] /\
             forallb isDigit ds = true /\ decimal ds = n.
Proof.
  revert n acc. induction fuel as [|fuel IH]; intros n acc L; [exfalso; simpl in L; lia|].
  cbn [decimalDigits].
  assert (M : (n mod 10 < 10)%N) by (apply N.mod_lt; lia).
  pose proof (N.div_mod n 10 ltac:(lia)) as DM.
  remember (n mod 10)%N as r eqn:Er. remember (n / 10)%N as q eqn:Eq.
  assert (D : isDigit (48 + r) = true).
  { unfold isDigit. apply andb_true_intro. split; apply N.leb_le; lia. }
  destruct (q =? 0)%N eqn:E.
  - apply N.eqb_eq in E. exists [(48 + r)%N]. repeat split.
    + discriminate.
    + cbn [forallb]. rewrite D. reflexivity.
    + unfold decimal. cbn [fold_left]. lia.
  - apply N.eqb_neq in E.
    destruct (IH q ((48 + r)%N :: acc)) as (ds & E1 & E2 & E3 & E4); [lia|].
    exists (ds ++ [(48 + r)%N]). repeat split.
    + rewrite E1, <- app_assoc. reflexivity.
    + destruct ds; discriminate.
    + rewrite forallb_app, E3. cbn [forallb]. rewrite D. reflexivity.
    + rewrite decimal_snoc, E4. lia.
Qed.

Lemma decimalDigits_length k fuel n acc :
  (n < 10 ^ N.of_nat (S k))%N ->
  length (decimalDigits fuel n acc) <= length acc + S k.
Proof.
  revert fuel n acc. induction k as [|k IH]; intros fuel n acc L;
    (destruct fuel as [|fuel]; [simpl; lia|]); cbn [decimalDigits].
  - change (10 ^ N.of_nat 1)%N with 10%N in L.
    replace (n / 10 =? 0)%N with true; [simpl; lia|].
    symmetry. apply N.eqb_eq. apply N.div_small. exact L.
  - destruct (n / 10 =? 0)%N; [simpl; lia|].
    eapply Nat.le_trans; [apply IH|simpl; lia].
    apply N.Div0.div_lt_upper_bound.
    replace (10 * 10 ^ N.of_nat (S k))%N with (10 ^ N.of_nat (S (S k)))%N; [exact L|].
    rewrite (Nat2N.inj_succ (S k)), N.pow_succ_r'. reflexivity.
Qed.

Lemma lengthToString_spec n :
  let ds := lengthToString n in
  ds <> [] /\ forallb isDigit ds = true /\ decimal ds = N.of_nat n.
Proof.
  unfold lengthToString.
  destruct (decimalDigits_spec (S n) (N.of_nat n) []) as (ds & E1 & E2 & E3 & E4); [lia|].
  rewrite app_nil_r in E1. rewrite E1. auto.
Qed.

Lemma lengthToString_short n :
  (N.of_nat n < 2 ^ 53)%N -> length (lengthToString n) <= 16.
Proof.
  intros L. unfold lengthToString.
  apply (decimalDigits_length 15 (S n) (N.of_nat n) []).
  eapply N.lt_trans; [exact L|]. reflexivity.
Qed.

(** ** Headers that fit on a line *)

Lemma ascii_not_space c : (32 < c < 160)%N -> isWhiteSpace c = false.
Proof.
  intros H. unfold isWhiteSpace.
  repeat match goal with
         | |- context [(?a <=? ?b)%N] =>
             first [ replace (a <=? b)%N with true
                       by (symmetry; apply N.leb_le; lia)
                   | replace (a <=? b)%N with false
                       by (symmetry; apply N.leb_gt; lia) ]
         | |- context [(?a =? ?b)%N] =>
             replace (a =? b)%N with false by (symmetry; apply N.eqb_neq; lia)
         end.
  reflexivity.
Qed.

Lemma isSeparator_false c :
  isSeparator c = false -> c <> 58%N /\ c <> 32%N /\ c <> 9%N.
Proof.
  unfold isSeparator. intros H. repeat split; intros ->; discriminate H.
Qed.

(** The units of a valid header name. *)
Lemma headerName_units n au c :
  isValidHeaderName n au = true -> In c n ->
  (31 < c)%N /\ c <> 127%N /\ c <> 58%N /\ c <> 32%N.
Proof.
  unfold isValidHeaderName.
  destruct (negb (truthy n) || (len n =? 0)%Z || (256 <? len n)%Z)%bool; [discriminate|].
  rewrite forallb_forall. intros H I. specialize (H c I).
  apply andb_prop in H. destruct H as [H S]. apply andb_prop in H. destruct H as [H _].
  apply negb_true_iff in H, S. apply orb_false_elim in H. destruct H as [H1 H2].
  apply N.leb_gt in H1. apply N.eqb_neq in H2.
  destruct (isSeparator_false c S) as (S1 & S2 & _). auto.
Qed.

Lemma headerName_nonempty n au : isValidHeaderName n au = true -> n <> [].
Proof. intros H ->. discriminate H. Qed.

Lemma headerValue_units v c :
  isValidHeaderValue v = true -> In c v -> (c < 127)%N.
Proof.
  unfold isValidHeaderValue. destruct (8192 <? len v)%Z; [discriminate|].
  rewrite forallb_forall. intros H I. specialize (H c I).
  repeat (apply orb_prop in H; destruct H as [H|H]);
    try (apply N.eqb_eq in H; lia).
  apply andb_prop in H. destruct H as [_ H]. apply N.leb_le in H. lia.
Qed.

Lemma noCR_forall s : noCR s = true <-> forall c, In c s -> c <> 13%N.
Proof.
  unfold noCR. rewrite forallb_forall. split; intros H c I.
  - specialize (H c I). apply negb_true_iff, N.eqb_neq in H. exact H.
  - apply negb_true_iff, N.eqb_neq, H, I.
Qed.

Lemma noCR_hasCRLF s : noCR s = true -> hasCRLF s = false.
Proof.
  rewrite noCR_forall. induction s as [|c t IH]; intros H; [reflexivity|].
  cbn [hasCRLF]. destruct t as [|d t']; [reflexivity|].
  rewrite IH by (intros x I; apply H; right; exact I).
  replace (c =? 13)%N with false; [reflexivity|].
  symmetry. apply N.eqb_neq. apply H. left. reflexivity.
Qed.

Lemma in_lineOf hd c :
  In c (lineOf hd) -> In c (name hd) \/ c = 58%N \/ c = 32%N \/ In c (value hd).
Proof.
  unfold lineOf. change (lit ": ") with [58; 32]%N. intros I.
  apply in_app_or in I. destruct I as [I|I]; [auto|].
  apply in_app_or in I. destruct I as [[<-|[<-|[]]]|I]; auto.
Qed.

Lemma sendable_lineOk au hd : sendable au hd -> lineOk au hd.
Proof.
  intros [A Vn Vv NE Tr NC _].
  assert (Un : forall c, In c (name hd) -> (31 < c < 128)%N /\ c <> 58%N /\ c <> 32%N).
  { intros c I. destruct (headerName_units _ _ _ Vn I) as (U1 & U2 & U3 & U4).
    rewrite isAscii_forall in A. specialize (A c I). repeat split; auto. }
  split; try assumption.
  - split; try assumption.
    + eapply headerName_nonempty; eauto.
    + apply trim_id. apply forallb_forall. intros c I. apply negb_true_iff.
      destruct (Un c I) as (U1 & _ & U2). apply ascii_not_space. lia.
    + apply indexOf_none. intros I. destruct (Un _ I) as (_ & U & _). congruence.
    + apply noCR_hasCRLF. apply noCR_forall. intros c I.
      apply in_lineOf in I. destruct I as [I|[->|[->|I]]]; try discriminate.
      * destruct (Un c I). lia.
      * rewrite noCR_forall in NC. apply NC, I.
  - apply isAscii_forall. intros c I.
    apply in_lineOf in I. destruct I as [I|[->|[->|I]]]; try lia.
    + destruct (Un c I). lia.
    + pose proof (headerValue_units _ _ Vv I). lia.
  - apply noCR_forall. intros c I.
    apply in_lineOf in I. destruct I as [I|[->|[->|I]]]; try discriminate.
    + destruct (Un c I). lia.
    + rewrite noCR_forall in NC. apply NC, I.
Qed.

Lemma digit_range c : isDigit c = true -> (48 <= c <= 57)%N.
Proof.
  unfold isDigit. intros H. apply andb_prop in H. destruct H as [A B].
  apply N.leb_le in A, B. lia.
Qed.

Lemma contentLength_lineOk au n :
  (N.of_nat n < 2 ^ 53)%N ->
  lineOk au {| name := lit "Content-Length"; value := lengthToString n |}.
Proof.
  intros L. destruct (lengthToString_spec n) as (NE & D & _).
  pose proof (lengthToString_short n L) as Sh.
  assert (Ud : forall c, In c (lengthToString n) -> (48 <= c <= 57)%N).
  { intros c I. rewrite forallb_forall in D. apply digit_range, D, I. }
  assert (Un : forall c, In c (lit "Content-Length") -> (44 < c < 128)%N /\ c <> 58%N).
  { intros c I. simpl in I. repeat (destruct I as [<-|I]; [split; [lia | discriminate]|]).
    contradiction. }
  assert (NC : noCR (lit "Content-Length" ++ lit ": " ++ lengthToString n) = true).
  { apply noCR_forall. intros c I.
    apply (in_lineOf {| name := lit "Content-Length"; value := lengthToString n |}) in I.
    cbn [name value] in I. destruct I as [I|[->|[->|I]]]; try discriminate.
    - destruct (Un c I). lia.
    - specialize (Ud c I). lia. }
  split; cbn [name value].
  - split; cbn [name value]; try assumption.
    + discriminate.
    + reflexivity.
    + apply digits_trim, D.
    + reflexivity.
    + apply noCR_hasCRLF. exact NC.
  - apply isAscii_forall. intros c I.
    apply in_lineOf in I. cbn [name value] in I. destruct I as [I|[->|[->|I]]]; try lia.
    + destruct (Un c I). lia.
    + specialize (Ud c I). lia.
  - exact NC.
  - destruct au; reflexivity.
  - unfold isValidHeaderValue.
    replace (8192 <? len (lengthToString n))%Z with false
      by (symmetry; apply Z.ltb_ge; unfold len; lia).
    apply forallb_forall. intros c I. specialize (Ud c I).
    replace (32 <=? c)%N with true by (symmetry; apply N.leb_le; lia).
    replace (c <=? 126)%N with true by (symmetry; apply N.leb_le; lia).
    apply orb_true_r.
Qed.

Lemma sentHeaders_lineOk au headers body :
  (forall pair, In pair headers -> sendable au (headerOf pair)) ->
  match body with Some b => (N.of_nat (length b) < 2 ^ 53)%N | None => True end ->
  forall hd, In hd (sentHeaders headers body) -> lineOk au hd.
Proof.
  intros S B hd I. unfold sentHeaders in I. apply in_app_or in I. destruct I as [I|I].
  - apply in_map_iff in I. destruct I as (pair & <- & I). apply sendable_lineOk, S, I.
  - destruct body as [[|x b]|]; try contradiction.
    destruct I as [<-|[]]. apply contentLength_lineOk, B.
Qed.

(** ** The bytes of [createRequest] *)

Lemma joined_cons l ls : joined (l :: ls) = l ++ 13%N :: 10%N :: joined ls.
Proof. unfold joined. cbn [map List.concat]. rewrite <- app_assoc. reflexivity. Qed.

Lemma joined_app a b : joined (a ++ b) = joined a ++ joined b.
Proof. unfold joined. rewrite map_app, concat_app. reflexivity. Qed.

Lemma joined_ascii ls :
  (forall l, In l ls -> isAscii l = true) -> isAscii (joined ls) = true.
Proof.
  induction ls as [|l ls IH]; intros H; [reflexivity|].
  rewrite joined_cons, isAscii_app, (H l) by (left; reflexivity).
  cbn [isAscii forallb andb]. apply IH. intros x I. apply H. right. exact I.
Qed.

Lemma headerBytes_joined (headers : list (jsstring * jsstring)) :
  (forall pair, In pair headers -> isAscii (lineOf (headerOf pair)) = true) ->
  List.concat
    (map (fun nv : jsstring * jsstring =>
            let (name, value) := nv in
            encodeUtf8 (name ++ lit ": " ++ value ++ [13; 10]%N)) headers)
  = asciiBytes (joined (map lineOf (map headerOf headers))).
Proof.
  induction headers as [|[n v] t IH]; intros H; [reflexivity|].
  cbn [map List.concat]. rewrite joined_cons, asciiBytes_app.
  rewrite IH by (intros x I; apply H; right; exact I).
  assert (A : isAscii (lineOf (headerOf (n, v))) = true) by (apply H; left; reflexivity).
  unfold lineOf, headerOf in *. cbn [name value fst snd] in *.
  rewrite encodeUtf8_ascii.
  - rewrite !asciiBytes_app. rewrite <- !app_assoc. reflexivity.
  - rewrite !app_assoc. rewrite isAscii_app, <- !app_assoc, A. reflexivity.
Qed.

Lemma requestLine_ascii method target :
  visible method = true -> visible target = true ->
  isAscii (method ++ 32%N :: target ++ 32%N :: HTTP_1_1) = true.
Proof.
  intros Hm Ht. rewrite isAscii_app, (visible_ascii _ Hm).
  cbn [isAscii forallb andb]. change (forallb (fun c => (c <? 128)%N)) with isAscii.
  rewrite isAscii_app, (visible_ascii _ Ht). reflexivity.
Qed.

Lemma text_bytes (R J : jsstring) :
  asciiBytes (R ++ 13%N :: 10%N :: J ++ [13; 10]%N) =
  asciiBytes (R ++ [13; 10]%N) ++ asciiBytes J ++ [CR; LF].
Proof.
  unfold asciiBytes. rewrite !map_app. cbn [map]. rewrite map_app, <- !app_assoc. reflexivity.
Qed.

Lemma createRequest_text au method target headers body :
  visible method = true -> visible target = true ->
  (forall hd, In hd (sentHeaders headers body) -> lineOk au hd) ->
  createRequest method target headers body =
  asciiBytes (requestText method target (sentHeaders headers body))
  ++ match body with Some b => b | None => [] end.
Proof.
  intros Hm Ht Ok.
  assert (A1 : isAscii (method ++ 32%N :: target ++ 32%N :: HTTP_1_1) = true)
    by (apply requestLine_ascii; assumption).
  set (R := method ++ 32%N :: target ++ 32%N :: HTTP_1_1) in *.
  assert (F : Request.formatRequestLine
                {| method := method; target := target; version := HTTP_1_1 |} =
              asciiBytes (R ++ [13; 10]%N)).
  { unfold Request.formatRequestLine. cbn [Types.method Types.target version].
    rewrite <- encodeUtf8_ascii.
    - f_equal. subst R. change (lit " ") with [32%N].
      repeat (rewrite <- app_assoc; cbn [app]). reflexivity.
    - rewrite isAscii_app, A1. reflexivity. }
  assert (H : forall pair, In pair headers -> isAscii (lineOf (headerOf pair)) = true).
  { intros pair I. apply (lineOk_ascii au). apply Ok. unfold sentHeaders.
    apply in_or_app. left. apply in_map, I. }
  pose proof (headerBytes_joined headers H) as HB.
  unfold createRequest. cbv zeta. rewrite F. fold R. unfold requestText. fold R.
  set (hs := map _ headers) in *.
  set (J := joined (map lineOf (map headerOf headers))) in *.
  destruct body as [[|x b]|].
  - cbn [length Nat.ltb Nat.leb]. unfold sentHeaders. rewrite !app_nil_r. fold J.
    rewrite text_bytes, !concat_app. cbn [List.concat]. rewrite HB, !app_nil_r.
    rewrite <- !app_assoc. reflexivity.
  - change (0 <? length (x :: b)) with true. cbv iota.
    set (clh := {| name := lit "Content-Length"; value := lengthToString (length (x :: b)) |}).
    assert (E : encodeUtf8 (lit "Content-Length: " ++ lengthToString (length (x :: b))
                            ++ [13; 10]%N) = asciiBytes (lineOf clh ++ [13; 10]%N)).
    { assert (T : lit "Content-Length: " ++ lengthToString (length (x :: b)) ++ [13; 10]%N
                  = lineOf clh ++ [13; 10]%N).
      { unfold lineOf, clh. cbn [name value].
        change (lit "Content-Length: ") with (lit "Content-Length" ++ lit ": ").
        rewrite <- !app_assoc. reflexivity. }
      rewrite T. apply encodeUtf8_ascii. rewrite isAscii_app.
      rewrite (lineOk_ascii au clh); [reflexivity|]. apply Ok. unfold sentHeaders.
      apply in_or_app. right. left. reflexivity. }
    rewrite E. unfold sentHeaders. fold clh. rewrite map_app, joined_app. fold J.
    cbn [map]. rewrite joined_cons. change (joined []) with (@nil N).
    replace ((J ++ lineOf clh ++ [13%N; 10%N]) ++ [13; 10]%N)
      with ((J ++ lineOf clh ++ [13%N; 10%N]) ++ [13; 10]%N) by reflexivity.
    rewrite text_bytes, !concat_app. cbn [List.concat].
    rewrite HB, !app_nil_r. rewrite !asciiBytes_app. rewrite <- !app_assoc. reflexivity.
  - unfold sentHeaders. rewrite !app_nil_r. fold J.
    rewrite text_bytes, !concat_app. cbn [List.concat]. rewrite HB, !app_nil_r.
    rewrite <- !app_assoc. reflexivity.
Qed.

(** ** Where the header block ends *)

Lemma findCRLFCRLF_text T B s stop i :
  isAscii T = true ->
  T @ i = Some 13%N -> T @ (i + 1) = Some 10%N ->
  T @ (i + 2) = Some 13%N -> T @ (i + 3) = Some 10%N ->
  (forall j, s <= j < i -> T @ j = Some 13%N -> T @ (j + 2) <> Some 13%N) ->
  s <= i < stop ->
  findCRLFCRLF (asciiBytes T ++ B) s stop = Some i.
Proof.
  intros A H0 H1 H2 H3 N R. unfold findCRLFCRLF.
  pose proof (nth_lt _ _ _ H3) as L.
  apply scan_first; [lia | |].
  - rewrite !byte_is_text by (auto; lia). rewrite H0, H1, H2, H3. reflexivity.
  - intros j Hj. rewrite !byte_is_text by (auto; lia).
    destruct (T @ j) as [c|] eqn:Ej; [|reflexivity].
    destruct (c =? Byte.to_N CR)%N eqn:Ec; [|reflexivity].
    apply N.eqb_eq in Ec. change (Byte.to_N CR) with 13%N in Ec. subst c.
    specialize (N j Hj Ej).
    destruct (T @ (j + 2)) as [d|]; [|rewrite andb_false_r; reflexivity].
    replace (d =? Byte.to_N CR)%N with false; [rewrite andb_false_r; reflexivity|].
    symmetry. apply N.eqb_neq. intros ->. apply N. reflexivity.
Qed.

Lemma length_joined_cons l ls :
  length (joined (l :: ls)) = length l + 2 + length (joined ls).
Proof. rewrite joined_cons, length_app. simpl. lia. Qed.

(** In joined lines, two units after a carriage return there is none,
    except after the last line. *)
Lemma joined_CR ls tail j :
  solid ls ->
  (joined ls ++ tail) @ j = Some 13%N -> j + 2 < length (joined ls) ->
  (joined ls ++ tail) @ (j + 2) <> Some 13%N.
Proof.
  revert j. induction ls as [|l ls IH]; intros j So H L; [simpl in L; lia|].
  rewrite length_joined_cons in L. rewrite joined_cons in *.
  destruct (So l (or_introl eq_refl)) as [NE NC]. rewrite noCR_forall in NC.
  assert (So' : solid ls) by (intros x I; apply So; right; exact I).
  rewrite <- app_assoc in *. cbn [app] in *.
  destruct (Nat.lt_ge_cases j (length l)) as [C|C].
  { rewrite at_app_l in H by exact C. apply at_in in H. exfalso. apply (NC _ H). reflexivity. }
  replace j with (length l + (j - length l)) in H by lia.
  replace (j + 2) with (length l + (j - length l + 2)) by lia.
  rewrite at_app_r in *.
  destruct (j - length l) as [|[|k]] eqn:Ek; cbn [nth_error Nat.add] in *.
  - (* the carriage return that ends [l] *)
    destruct ls as [|l2 ls2]; [simpl in L; lia|].
    destruct (So' l2 (or_introl eq_refl)) as [NE2 NC2]. rewrite noCR_forall in NC2.
    rewrite joined_cons, <- app_assoc. destruct l2 as [|c l2]; [congruence|].
    cbn [app nth_error]. intros [= ->]. apply (NC2 13%N); [left|]; reflexivity.
  - discriminate.
  - apply IH; [exact So' | exact H | lia].
Qed.

Lemma joined_last ls l : joined (ls ++ [l]) = (joined ls ++ l) ++ [13; 10]%N.
Proof.
  rewrite joined_app. unfold joined at 2. cbn [map List.concat].
  rewrite app_nil_r, app_assoc. reflexivity.
Qed.

Lemma split_one line cur :
  hasCRLF line = false -> split_crlf_from cur line = [rev cur ++ line].
Proof.
  revert cur. induction line as [|c t IH]; intros cur H.
  - simpl. rewrite app_nil_r. reflexivity.
  - cbn [split_crlf_from]. destruct t as [|d t'].
    + simpl. reflexivity.
    + cbn [hasCRLF] in H. apply orb_false_elim in H. destruct H as [H1 H2].
      rewrite H1. rewrite IH by exact H2. simpl. rewrite <- app_assoc. reflexivity.
Qed.

Lemma split_joined ls l :
  (forall x, In x (ls ++ [l]) -> hasCRLF x = false) ->
  split_crlf (joined ls ++ l) = ls ++ [l].
Proof.
  unfold split_crlf. induction ls as [|x ls IH]; intros H.
  - simpl. apply split_one. apply H. left. reflexivity.
  - rewrite joined_cons, <- !app_assoc. cbn [app].
    rewrite split_line by (apply H; left; reflexivity).
    cbn [rev app]. f_equal. apply IH. intros y I. apply H. right. exact I.
Qed.

(** ** The header block read back *)

Section WithPlatform.
Variable toLowerCase : jsstring -> jsstring.
Variable entropy : nat -> jsstring.
Hypothesis lowerAscii :
  forall s, isAscii s = true -> toLowerCase s = asciiToLowerCase s.

Local Abbreviation appendAll := (HeadersSpec.appendAll toLowerCase entropy).
Local Abbreviation sameLower := (HeadersSpec.sameLower toLowerCase).
Local Abbreviation wf := (HeadersSpec.wf toLowerCase).
Local Abbreviation get := (Headers.get toLowerCase).

Lemma parseLines_exact hs i maxHeaders maxLineLength acc :
  (forall hd, In hd hs -> clean hd /\ (len (lineOf hd) <= maxLineLength)%Z) ->
  (Z.of_nat (totalEntries acc + length hs) <= maxHeaders)%Z ->
  parseLines toLowerCase entropy (map lineOf hs) i maxHeaders maxLineLength acc
  = Some (appendAll hs i acc).
Proof.
  revert i acc. induction hs as [|hd t IH]; intros i acc H Mh; [reflexivity|].
  cbn [map app parseLines HeadersSpec.appendAll].
  destruct (H hd (or_introl eq_refl)) as [C L].
  destruct (maxLineLength <? len (lineOf hd))%Z eqn:E; [lia|].
  assert (NE : lineOf hd <> []).
  { unfold lineOf. pose proof (clean_name hd C). destruct (name hd); [congruence|discriminate]. }
  destruct (jseqb (lineOf hd) []) eqn:E1; [apply jseqb_eq in E1; contradiction|].
  destruct (maxHeaders <=? Z.of_nat (totalEntries acc))%Z eqn:E2.
  { simpl in Mh. lia. }
  rewrite parseHeaderLine_lineOf by assumption.
  apply IH.
  - intros x I. apply H. right. exact I.
  - pose proof (totalEntries_append toLowerCase (entropy i) (name hd) (value hd) acc).
    simpl in Mh. lia.
Qed.

Lemma parseHeaders_block au hs h maxHeaders maxLineLength :
  (forall hd, In hd (hs ++ [h]) ->
     lineOk au hd /\ (len (lineOf hd) <= maxLineLength)%Z) ->
  (Z.of_nat (length (hs ++ [h])) <= maxHeaders)%Z ->
  Headers.parseHeaders toLowerCase entropy (joined (map lineOf hs) ++ lineOf h)
    maxHeaders maxLineLength
  = Some (appendAll (hs ++ [h]) 0 empty).
Proof.
  intros Ok Mh. unfold Headers.parseHeaders.
  rewrite split_joined.
  - replace (map lineOf hs ++ [lineOf h]) with (map lineOf (hs ++ [h]))
      by (rewrite map_app; reflexivity).
    apply parseLines_exact.
    + intros hd I. destruct (Ok hd I) as [O L]. split; [apply O | exact L].
    + exact Mh.
  - intros x I.
    replace (map lineOf hs ++ [lineOf h]) with (map lineOf (hs ++ [h])) in I
      by (rewrite map_app; reflexivity).
    apply in_map_iff in I. destruct I as (hd & <- & I).
    apply (clean_crlf hd). apply (Ok hd I).
Qed.

(** ** The container of the headers sent *)

Lemma entries_toArray h :
  entries h = map (fun hd => (name hd, value hd)) (toArray h).
Proof. reflexivity. Qed.

Lemma headersValid_sent o h :
  (forall hd, In hd (toArray h) -> lineOk (allowUnderscoreInHeaders o) hd) ->
  headersValid o h = true.
Proof.
  intros Ok. unfold headersValid. destruct (_ || _)%bool; [|reflexivity].
  rewrite entries_toArray. apply forallb_forall. intros [n v] I.
  apply in_map_iff in I. destruct I as (hd & [= <- <-] & I).
  rewrite (lineOk_name _ _ (Ok hd I)), (lineOk_value _ _ (Ok hd I)).
  cbn [negb]. rewrite !andb_false_r. reflexivity.
Qed.

Lemma lower_fixed n :
  isAscii n = true -> asciiToLowerCase n = n -> toLowerCase n = n.
Proof. intros A E. rewrite lowerAscii by exact A. exact E. Qed.

Lemma sameLower_other n hd :
  isAscii n = true -> asciiToLowerCase n = n ->
  isAscii (name hd) = true -> asciiToLowerCase (name hd) <> n ->
  sameLower n hd = false.
Proof.
  intros A E Ah D. unfold HeadersSpec.sameLower.
  rewrite (lower_fixed n A E), (lowerAscii _ Ah). apply jseqb_neq. exact D.
Qed.

Lemma sameLower_this n hd :
  isAscii n = true -> asciiToLowerCase n = n ->
  isAscii (name hd) = true -> asciiToLowerCase (name hd) = n ->
  sameLower n hd = true.
Proof.
  intros A E Ah D. unfold HeadersSpec.sameLower.
  rewrite (lower_fixed n A E), (lowerAscii _ Ah). apply jseqb_eq. exact D.
Qed.

Lemma filter_none {A} (f : A -> bool) l :
  (forall x, In x l -> f x = false) -> filter f l = [].
Proof.
  induction l as [|x t IH]; intros H; [reflexivity|].
  cbn [filter]. rewrite (H x) by (left; reflexivity).
  apply IH. intros y I. apply H. right. exact I.
Qed.

Lemma sendable_name_ascii au hd : sendable au hd -> isAscii (name hd) = true.
Proof. intros S. apply S. Qed.

(** What [get] finds for the two framing names in the headers sent. *)
Lemma get_framing au headers body h :
  (forall pair, In pair headers -> sendable au (headerOf pair)) ->
  wf h -> toArray h = sentHeaders headers body ->
  get h (lit "transfer-encoding") = None /\
  get h (lit "content-length") =
    match body with
    | Some ((_ :: _) as b) => Some (lengthToString (length b))
    | _ => None
    end.
Proof.
  intros S W T.
  assert (U : forall n, isAscii n = true -> asciiToLowerCase n = n ->
                (n = lit "transfer-encoding" \/ n = lit "content-length") ->
                filter (sameLower n) (map headerOf headers) = []).
  { intros n A E D. apply filter_none. intros hd I.
    apply in_map_iff in I. destruct I as (pair & <- & I). specialize (S pair I).
    apply sameLower_other; auto.
    - apply S.
    - destruct (sendable_framing _ _ S) as [F1 F2]. destruct D as [->| ->]; assumption. }
  rewrite !get_getAll by exact W. rewrite !getAll_values by exact W. rewrite T.
  unfold sentHeaders. rewrite !filter_app, !U by auto.
  destruct body as [[|x b]|]; cbn [app filter map]; auto.
  rewrite sameLower_other, sameLower_this by (try reflexivity; discriminate).
  cbn [map join]. auto.
Qed.

(** ** One message out of one call *)

Lemma parseLoop_idle_empty n q acc :
  state q = IDLE -> buffer q = [] -> bufferOffset q = 0 ->
  parseLoop toLowerCase entropy (S n) q acc = Some (q, acc).
Proof.
  intros St B O. cbn [parseLoop]. rewrite St. cbn [ParserState_eqb].
  unfold parseNext. rewrite St. unfold parseMessageStart, getBufferedBytes.
  rewrite B, O. reflexivity.
Qed.

Lemma parse_single data p k q m :
  pending p = [] ->
  firstMessage toLowerCase entropy k (appendBuffer data p) = Some (q, m) ->
  bufferOffset q = length data ->
  exists p', parse toLowerCase entropy data p = (p', [m]) /\
             state p' = IDLE /\ getBufferedBytes p' = 0%Z.
Proof.
  intros Hp HF HO.
  pose proof (parse_parseLoop toLowerCase entropy _ data p (Nat.lt_succ_diag_r _)) as E.
  destruct (appendBuffer_empty data _ Hp) as [B O].
  pose proof (firstMessage_buffer _ _ _ _ _ _ HF) as B1. rewrite B in B1.
  rewrite (parseLoop_firstMessage _ _ _ _ _ _ _
             (S (iterations (reset false (compactBuffer q)))) [] HF) in E by lia.
  set (q' := reset false (compactBuffer q)) in *.
  assert (Bq : buffer q' = [] /\ bufferOffset q' = 0 /\ state q' = IDLE).
  { subst q'. unfold compactBuffer. rewrite HO, B1.
    destruct (0 <? length data) eqn:L; simpl.
    - unfold slice_from. rewrite skipn_all. auto.
    - apply Nat.ltb_ge in L.
      assert (data = []) as -> by (destruct data; simpl in *; auto; lia).
      simpl. rewrite B1, HO. auto. }
  destruct Bq as (Bq & Oq & Sq).
  rewrite parseLoop_idle_empty in E by assumption. injection E as E.
  exists q'. split; [symmetry; exact E|]. split; [exact Sq|].
  unfold getBufferedBytes. rewrite Bq, Oq. reflexivity.
Qed.

(** ** The handlers on a request written by [createRequest] *)

Lemma created_request q rl hs sent bb :
  messageType q = Some REQUEST -> Parser.requestLine q = Some rl ->
  Parser.headers q = Some hs -> toArray hs = sent ->
  match Parser.body q with Some b => b | None => [] end = bb ->
  complete (createCompleteMessage q) = true /\
  error (createCompleteMessage q) = None /\
  needsMoreData (createCompleteMessage q) = false /\
  exists m, message (createCompleteMessage q) = Some m /\ requestRead m rl sent bb.
Proof.
  intros Mt Rl Hh Ta Bb. unfold createCompleteMessage. rewrite Mt.
  cbn [complete error needsMoreData message]. repeat split.
  eexists. split; [reflexivity|]. unfold requestRead.
  cbn [m_type m_startLine m_body m_headers]. rewrite Rl.
  repeat split; [exact Bb|]. exists hs. auto.
Qed.

(** After the headers of a request: the parser [q'] the framing decision
    is taken on differs from [q] in [headers] and [keepAlive] only. *)
Lemma handleHeadersComplete_request hs q :
  messageType q = Some REQUEST ->
  get hs (lit "transfer-encoding") = None ->
  exists q',
    buffer q' = buffer q /\ bufferOffset q' = bufferOffset q /\
    messageType q' = Some REQUEST /\ Parser.requestLine q' = Parser.requestLine q /\
    Parser.body q' = Parser.body q /\ Parser.headers q' = Some hs /\
    handleHeadersComplete toLowerCase hs q =
    match get hs (lit "content-length") with
    | Some cl =>
        match (if truthy cl then parseContentLength cl else None) with
        | Some n =>
            if (n =? 0)%N
            then (set_bodyLength n q', createCompleteMessage (set_bodyLength n q'))
            else (set_state BODY_CONTENT_LENGTH (set_bodyLength n q'), proceed)
        | None => (q', createCompleteMessage q')
        end
    | None => (q', createCompleteMessage q')
    end.
Proof.
  intros Mt Te. unfold handleHeadersComplete. cbv zeta. rewrite Te.
  destruct (get hs (lit "connection")) as [c|]; [destruct (truthy c)|];
    cbn [messageType set_keepAlive set_headers]; rewrite Mt;
    match goal with
    | |- context [(?x, createCompleteMessage ?x)] => exists x
    end;
    (repeat split; [..|destruct (get hs (lit "content-length")); reflexivity]);
    try reflexivity; cbn; auto.
Qed.

Lemma no_HTTP_prefix (m rest : jsstring) :
  startsWith m (lit "HTTP") = false ->
  match (m ++ 32%N :: rest) @ 0 with Some c => (c =? 72)%N | None => false end
  && match (m ++ 32%N :: rest) @ 1 with Some c => (c =? 84)%N | None => false end
  && match (m ++ 32%N :: rest) @ 2 with Some c => (c =? 84)%N | None => false end
  && match (m ++ 32%N :: rest) @ 3 with Some c => (c =? 80)%N | None => false end
  = false.
Proof.
  intros NH. destruct m as [|a [|b [|c [|d m]]]]; cbn [app nth_error];
    try reflexivity; try (rewrite ?andb_false_r; reflexivity).
  destruct (a =? 72)%N eqn:Ea; [|reflexivity].
  destruct (b =? 84)%N eqn:Eb; [|reflexivity].
  destruct (c =? 84)%N eqn:Ec; [|reflexivity].
  destruct (d =? 80)%N eqn:Ed; [|reflexivity].
  apply N.eqb_eq in Ea, Eb, Ec, Ed. subst. cbn in NH. destruct m; discriminate NH.
Qed.

Lemma last_cases {A} (l : list A) : l = [] \/ exists l' x, l = l' ++ [x].
Proof.
  destruct l as [|a t]; [left; reflexivity|right].
  destruct (@exists_last _ (a :: t)) as (l' & x & E); [discriminate|]. eauto.
Qed.

Lemma sent_empty headers body :
  sentHeaders headers body = [] -> match body with Some b => b | None => [] end = [].
Proof.
  unfold sentHeaders. intros E. apply app_eq_nil in E. destruct E as [_ E].
  destruct body as [[|x b]|]; try reflexivity. discriminate E.
Qed.

Lemma body_cases (body : option bytes) :
  let bodyBytes := match body with Some b => b | None => [] end in
  let contentLength :=
    match body with
    | Some ((_ :: _) as b) => Some (lengthToString (length b))
    | _ => None
    end in
  bodyBytes = [] /\ contentLength = None \/
  bodyBytes <> [] /\ contentLength = Some (lengthToString (length bodyBytes)).
Proof.
  destruct body as [[|x b]|]; cbv zeta; auto. right. split; [discriminate | reflexivity].
Qed.

Lemma step_body q (pre b : bytes) :
  state q = BODY_CONTENT_LENGTH -> buffer q = pre ++ b -> bufferOffset q = length pre ->
  bodyLength q = N.of_nat (length b) -> Parser.body q = None ->
  exists qf,
    parseNext toLowerCase entropy q = (qf, createCompleteMessage qf) /\
    bufferOffset qf = length (pre ++ b) /\ Parser.body qf = Some b /\
    messageType qf = messageType q /\ Parser.requestLine qf = Parser.requestLine q /\
    Parser.headers qf = Parser.headers q.
Proof.
  intros St B O Bl Bd. unfold parseNext. rewrite St.
  unfold parseBodyContentLength, getBufferedBytes. cbv zeta. rewrite B, O, Bl.
  replace (len (pre ++ b) - Z.of_nat (length pre) <? Z.of_N (N.of_nat (length b)))%Z
    with false
    by (symmetry; apply Z.ltb_ge; unfold len; rewrite length_app; lia).
  rewrite Nat2N.id.
  assert (S1 : slice (pre ++ b) (length pre) (length pre + length b) = b).
  { unfold slice. rewrite skipn_app, skipn_all, Nat.sub_diag. cbn [skipn app].
    apply firstn_all2. lia. }
  rewrite S1. unfold appendToBody. rewrite Bd. cbn [Parser.body set_body].
  destruct (maxBodySize _ <? len b)%Z;
    match goal with
    | |- context [createCompleteMessage ?x] => exists x
    end;
    (split; [reflexivity|]); cbn; rewrite ?O, ?length_app; auto.
Qed.

Section Written.
Variables (o : ParserOptions) (method target : jsstring)
          (headers : list (jsstring * jsstring)) (body : option bytes).

Let rl := Build_RequestLine method target HTTP_1_1.
Let sent := sentHeaders headers body.
Let bodyBytes := match body with Some b => b | None => [] end.
Let R := method ++ 32%N :: target ++ 32%N :: HTTP_1_1.
Let e := length R.
Let J := joined (map lineOf sent).
Let T := R ++ 13%N :: 10%N :: (J ++ [13; 10]%N).
Let data := asciiBytes T ++ bodyBytes.

Hypothesis Hm : visible method = true.
Hypothesis Ht : visible target = true.
Hypothesis Vm : isValidMethod method = true.
Hypothesis Vt : isValidTarget target = true.
Hypothesis NH : startsWith method (lit "HTTP") = false.
Hypothesis Hs :
  forall pair, In pair headers -> sendable (allowUnderscoreInHeaders o) (headerOf pair).
Hypothesis Hl :
  forall hd, In hd sent -> (len (lineOf hd) <= maxHeaderLineLength o)%Z.
Hypothesis Hn : (Z.of_nat (length sent) <= maxHeaders o)%Z.
Hypothesis H2 : (2 <= maxHeaderLineLength o)%Z.
Hypothesis Hk : NoDup (drawnKeys entropy sent 0).
Hypothesis Hb : (N.of_nat (length bodyBytes) < 2 ^ 53)%N.

Lemma sent_ok hd : In hd sent -> lineOk (allowUnderscoreInHeaders o) hd.
Proof.
  apply sentHeaders_lineOk; [exact Hs|].
  destruct body; [exact Hb | exact I].
Qed.

Lemma J_ascii : isAscii (J ++ [13; 10]%N) = true.
Proof.
  rewrite isAscii_app. unfold J. rewrite joined_ascii; [reflexivity|].
  intros l I. apply in_map_iff in I. destruct I as (hd & <- & I).
  apply (lineOk_ascii _ _ (sent_ok hd I)).
Qed.

Lemma text_ascii : isAscii T = true.
Proof. exact (T_ascii method target HTTP_1_1 (J ++ [13; 10]%N) Hm Ht eq_refl J_ascii). Qed.

Lemma length_T : length T = e + 2 + length J + 2.
Proof.
  unfold T, e. rewrite length_app. cbn [length]. rewrite length_app. cbn [length]. lia.
Qed.

Lemma length_data : length data = length T + length bodyBytes.
Proof. unfold data. rewrite length_app, length_asciiBytes. reflexivity. Qed.

Lemma e_long : 10 <= e.
Proof. unfold e, R. rewrite length_app. cbn [length]. rewrite length_app. simpl. lia. Qed.

Variable q0 : HttpParser.
Hypothesis Q_state : state q0 = IDLE.
Hypothesis Q_buffer : buffer q0 = data.
Hypothesis Q_offset : bufferOffset q0 = 0.
Hypothesis Q_body : Parser.body q0 = None.
Hypothesis Q_options : options q0 = o.

Let q1 := set_state REQUEST_LINE (set_messageType (Some REQUEST) q0).
Let q2 := set_state HEADERS (set_bufferOffset (e + 2) (set_requestLine (Some rl) q1)).

Lemma not_a_status_line :
  byte_is data 0 x48 && byte_is data 1 x54 && byte_is data 2 x54 && byte_is data 3 x50
  = false.
Proof.
  pose proof e_long as L. pose proof length_T as LT.
  unfold data. rewrite !byte_is_text by (try exact text_ascii; lia).
  assert (TE : T = method ++ 32%N :: ((target ++ 32%N :: HTTP_1_1)
                                        ++ 13%N :: 10%N :: (J ++ [13; 10]%N))).
  { unfold T, R. rewrite <- app_assoc. reflexivity. }
  rewrite TE. exact (no_HTTP_prefix method _ NH).
Qed.

Lemma step_start : parseNext toLowerCase entropy q0 = (q1, proceed).
Proof.
  pose proof e_long as L. pose proof length_T as LT. pose proof length_data as LD.
  unfold parseNext. rewrite Q_state. unfold parseMessageStart, getBufferedBytes.
  rewrite Q_buffer, Q_offset. cbn [Nat.add].
  replace (len data - Z.of_nat 0 <? 4)%Z with false
    by (symmetry; apply Z.ltb_ge; unfold len; lia).
  rewrite not_a_status_line. reflexivity.
Qed.

Lemma step_line : parseNext toLowerCase entropy q1 = (q2, proceed).
Proof.
  assert (LL : length T <= length data) by (rewrite length_data; lia).
  unfold parseNext, q1 at 1. cbn [state set_state]. unfold parseRequestLine.
  replace (buffer q1) with data by (symmetry; exact Q_buffer).
  replace (bufferOffset q1) with 0 by (symmetry; exact Q_offset).
  rewrite (parseRequestLine_text method target HTTP_1_1 (J ++ [13; 10]%N) bodyBytes
             Hm Ht Vm Vt eq_refl J_ascii (length data) LL : Request.parseRequestLine data 0 (length data) = _).
  cbn [Request.needsMoreData Request.error Request.requestLine Request.bytesConsumed
       Nat.add].
  reflexivity.
Qed.

Lemma T_at j : T @ (e + 2 + j) = (J ++ [13; 10]%N) @ j.
Proof. unfold T, e. rewrite <- Nat.add_assoc, at_app_r. reflexivity. Qed.

Lemma sent_solid : solid (map lineOf sent).
Proof.
  intros l I. apply in_map_iff in I. destruct I as (hd & <- & I).
  pose proof (sent_ok hd I) as Ok. split; [|apply Ok].
  unfold lineOf. pose proof (clean_name hd (lineOk_clean _ _ Ok)).
  destruct (name hd); [congruence | discriminate].
Qed.

Lemma step_headers :
  exists hs q3,
    parseNext toLowerCase entropy q2 = handleHeadersComplete toLowerCase hs q3 /\
    wf hs /\ toArray hs = sent /\
    buffer q3 = data /\ bufferOffset q3 = length T /\
    messageType q3 = Some REQUEST /\ Parser.requestLine q3 = Some rl /\
    Parser.body q3 = None.
Proof.
  pose proof e_long as L. pose proof length_T as LT. pose proof length_data as LD.
  pose proof text_ascii as AT.
  unfold parseNext, q2 at 1. cbn [state set_state].
  unfold Parser.parseHeaders, getBufferedBytes. cbv zeta.
  replace (buffer q2) with data by (symmetry; exact Q_buffer).
  replace (bufferOffset q2) with (e + 2) by reflexivity.
  replace (options q2) with o by (symmetry; exact Q_options).
  destruct (last_cases sent) as [E0 | (hs' & h & E0)].
  - (* no header line *)
    assert (EJ : J = []) by (unfold J; rewrite E0; reflexivity).
    assert (EB : bodyBytes = []) by (apply (sent_empty headers body), E0).
    rewrite EJ in LT. rewrite EB in LD. cbn [length] in LT, LD.
    unfold findCRLFCRLF. replace (length data - 3 - (e + 2)) with 0 by lia. cbn [scan].
    replace (maxHeaderLineLength o <? len data - Z.of_nat (e + 2))%Z with false
      by (symmetry; apply Z.ltb_ge; unfold len; lia).
    rewrite andb_false_r.
    replace (len data - Z.of_nat (e + 2) =? 2)%Z with true
      by (symmetry; apply Z.eqb_eq; unfold len; lia).
    assert (B0 : byte_is data (e + 2) CR = true).
    { unfold data. rewrite byte_is_text by (auto; lia).
      replace (e + 2) with (e + 2 + 0) by lia. rewrite T_at, EJ. reflexivity. }
    assert (B1 : byte_is data (e + 2 + 1) LF = true).
    { unfold data. rewrite byte_is_text by (auto; lia). rewrite T_at, EJ. reflexivity. }
    rewrite B0, B1. cbn [andb].
    exists empty, (set_bufferOffset (length data) q2).
    split; [reflexivity|]. split; [apply wf_empty|]. split; [symmetry; exact E0|].
    split; [exact Q_buffer|]. split; [cbn; lia|]. split; [reflexivity|].
    split; [reflexivity | exact Q_body].
  - (* header lines *)
    set (X := joined (map lineOf hs') ++ lineOf h).
    assert (EJ : J = X ++ [13; 10]%N).
    { unfold J. rewrite E0, map_app. cbn [map]. apply joined_last. }
    assert (LJ : length J = length X + 2) by (rewrite EJ, length_app; reflexivity).
    assert (F : findCRLFCRLF data (e + 2) (length data - 3) = Some (e + 2 + length X)).
    { assert (K : forall k, k < 4 ->
                    T @ (e + 2 + length X + k) = [13; 10; 13; 10]%N @ k).
      { intros k Hk4. rewrite <- Nat.add_assoc, T_at, EJ, <- app_assoc, at_app_r.
        reflexivity. }
      apply findCRLFCRLF_text; try exact AT.
      - rewrite <- (Nat.add_0_r (e + 2 + length X)). apply (K 0). lia.
      - apply (K 1). lia.
      - apply (K 2). lia.
      - apply (K 3). lia.
      - intros j Hj Ej. replace j with (e + 2 + (j - (e + 2))) in Ej by lia.
        replace (j + 2) with (e + 2 + (j - (e + 2) + 2)) by lia.
        rewrite T_at in *. apply joined_CR; [apply sent_solid | exact Ej |].
        fold J. lia.
      - lia. }
    rewrite F.
    assert (SX : slice T (e + 2) (e + 2 + length X) = X).
    { assert (ET : T = (R ++ [13; 10]%N) ++ X ++ [13; 10; 13; 10]%N).
      { unfold T. rewrite EJ, <- !app_assoc. reflexivity. }
      rewrite ET.
      replace (e + 2) with (length (R ++ [13; 10]%N))
        by (rewrite length_app; reflexivity).
      apply slice_mid. }
    unfold data at 1. rewrite decode_slice_text by (auto; lia). rewrite SX.
    unfold X.
    rewrite (parseHeaders_block (allowUnderscoreInHeaders o)).
    + rewrite <- E0.
      destruct (appendAll_spec toLowerCase entropy sent 0 empty
                  (wf_empty toLowerCase) Hk) as [W TA].
      cbn [app] in TA. change (toArray empty) with (@nil Header) in TA. cbn [app] in TA.
      rewrite headersValid_sent by (rewrite TA; exact sent_ok).
      cbn [negb].
      exists (appendAll sent 0 empty),
             (set_bufferOffset (e + 2 + length X + 4)
                (set_headers (Some (appendAll sent 0 empty)) q2)).
      split; [reflexivity|]. split; [exact W|]. split; [exact TA|].
      split; [exact Q_buffer|]. split; [cbn; lia|]. split; [reflexivity|].
      split; [reflexivity | exact Q_body].
    + rewrite <- E0. intros hd I. split; [apply sent_ok, I | apply Hl, I].
    + rewrite <- E0. exact Hn.
Qed.

Lemma first_message :
  exists qf m,
    firstMessage toLowerCase entropy 4 q0 = Some (qf, Some m) /\
    bufferOffset qf = length data /\ requestRead m rl sent bodyBytes.
Proof.
  pose proof length_data as LD.
  destruct step_headers as (hs & q3 & E3 & W & TA & B3 & O3 & M3 & R3 & Bd3).
  destruct (get_framing (allowUnderscoreInHeaders o) headers body hs Hs W TA) as [Te Cl].
  destruct (handleHeadersComplete_request hs q3 M3 Te) as (q4 & B4 & O4 & M4 & R4 & Bd4 & H4 & E4).
  rewrite Cl in E4.
  assert (F : forall k,
            firstMessage toLowerCase entropy (S (S (S k))) q0 =
            let (p1, r) := handleHeadersComplete toLowerCase hs q3 in
            match error r with
            | Some _ => None
            | None =>
                if needsMoreData r then None
                else if complete r then Some (p1, message r)
                else firstMessage toLowerCase entropy k p1
            end).
  { intros k. cbn [firstMessage]. rewrite Q_state. cbn [ParserState_eqb].
    rewrite step_start. cbn [error proceed needsMoreData complete].
    change (state q1) with REQUEST_LINE. cbn [ParserState_eqb].
    rewrite step_line. cbn [error proceed needsMoreData complete].
    change (state q2) with HEADERS. cbn [ParserState_eqb].
    rewrite E3. reflexivity. }
  rewrite F.
  destruct (body_cases body) as [[EB EC] | [EB EC]]; cbv zeta in EB, EC;
    fold bodyBytes in EB, EC; rewrite EC in E4.
  - (* no body *)
    rewrite E4.
    destruct (created_request q4 rl hs sent bodyBytes) as (C1 & C2 & C3 & m & C4 & RR);
      auto; try congruence.
    { rewrite Bd4, Bd3. symmetry. exact EB. }
    rewrite C1, C2, C3, C4. exists q4, m. split; [reflexivity|]. split; [|exact RR].
    rewrite O4, O3, LD, EB. cbn [length]. lia.
  - (* a body *)
    destruct (lengthToString_spec (length bodyBytes)) as (NE & D & V).
    rewrite (truthy_nonempty _ NE) in E4.
    rewrite parseContentLength_digits in E4 by (auto; rewrite V; exact Hb).
    rewrite V in E4.
    replace (N.of_nat (length bodyBytes) =? 0)%N with false in E4
      by (symmetry; apply N.eqb_neq; destruct bodyBytes; [congruence | discriminate]).
    rewrite E4. cbn [error proceed needsMoreData complete].
    destruct (step_body
                (set_state BODY_CONTENT_LENGTH
                   (set_bodyLength (N.of_nat (length bodyBytes)) q4))
                (asciiBytes T) bodyBytes)
      as (qf & E5 & O5 & Bd5 & M5 & R5 & H5); try reflexivity.
    { cbn. rewrite B4, B3. reflexivity. }
    { cbn. rewrite O4, O3. symmetry. apply length_asciiBytes. }
    { cbn. rewrite Bd4, Bd3. reflexivity. }
    cbn [firstMessage state set_state ParserState_eqb]. rewrite E5.
    cbn [messageType Parser.requestLine Parser.headers set_state set_bodyLength] in M5, R5, H5.
    destruct (created_request qf rl hs sent bodyBytes) as (C1 & C2 & C3 & m & C4 & RR);
      auto; try congruence.
    { rewrite Bd5. reflexivity. }
    rewrite C1, C2, C3, C4. exists qf, m. split; [reflexivity|]. split; [|exact RR].
    exact O5.
Qed.

End Written.

Lemma appendBuffer_fields data p :
  Parser.body (appendBuffer data p) = Parser.body p /\
  options (appendBuffer data p) = options p.
Proof.
  unfold appendBuffer. destruct (0 <? bufferOffset p); cbv zeta;
    destruct (length _ =? 0); auto.
Qed.

(** X20: a request written by [createRequest] is read back by one [parse]
    call on an idle parser with nothing pending: exactly one message, a
    request with the same method and target, version HTTP/1.1, the headers
    given in their order (followed by the Content-Length that was added for
    a non-empty body) and the same body; afterwards the parser is idle and
    no byte is left.  Method and target are valid and of visible ASCII
    characters, the method does not begin with HTTP, the headers can be
    sent on a line and are within the limits of the options, and the keys
    drawn for them are distinct. *)
Theorem createRequest_parse (p : HttpParser) (method target : jsstring)
    (headers : list (jsstring * jsstring)) (body : option bytes) :
  state p = IDLE -> pending p = [] -> Parser.body p = None ->
  visible method = true -> visible target = true ->
  isValidMethod method = true -> isValidTarget target = true ->
  startsWith method (lit "HTTP") = false ->
  (forall pair, In pair headers ->
     sendable (allowUnderscoreInHeaders (options p)) (headerOf pair)) ->
  (forall hd, In hd (sentHeaders headers body) ->
     (len (lineOf hd) <= maxHeaderLineLength (options p))%Z) ->
  (Z.of_nat (length (sentHeaders headers body)) <= maxHeaders (options p))%Z ->
  (2 <= maxHeaderLineLength (options p))%Z ->
  NoDup (drawnKeys entropy (sentHeaders headers body) 0) ->
  (N.of_nat (length (match body with Some b => b | None => [] end)) < 2 ^ 53)%N ->
  exists p' m,
    parse toLowerCase entropy (createRequest method target headers body) p
    = (p', [Some m]) /\
    state p' = IDLE /\ getBufferedBytes p' = 0%Z /\
    requestRead m {| Types.method := method; Types.target := target;
                     version := HTTP_1_1 |}
                (sentHeaders headers body)
                (match body with Some b => b | None => [] end).
Proof.
  intros St Pe Bd Hm Ht Vm Vt NH Hs Hl Hn H2 Hk Hb.
  assert (Ok : forall hd, In hd (sentHeaders headers body) ->
                 lineOk (allowUnderscoreInHeaders (options p)) hd).
  { apply sentHeaders_lineOk; [exact Hs | destruct body; [exact Hb | exact I]]. }
  rewrite (createRequest_text _ _ _ _ _ Hm Ht Ok).
  set (data := asciiBytes _ ++ _).
  destruct (appendBuffer_empty data p Pe) as [B O].
  destruct (appendBuffer_fields data p) as [Bd' Op'].
  destruct (first_message (options p) method target headers body
              Hm Ht Vm Vt NH Hs Hl Hn H2 Hk Hb (appendBuffer data p))
    as (qf & m & F & Of & RR).
  - rewrite state_appendBuffer. exact St.
  - exact B.
  - exact O.
  - rewrite Bd'. exact Bd.
  - exact Op'.
  - destruct (parse_single data p 4 qf (Some m) Pe F Of) as (p' & E & S' & G').
    exists p', m. auto.
Qed.

End WithPlatform.

End RequestRoundTrip.

(* ===================================================================== *)
(** * The status line read *)
(* ===================================================================== *)

Module StatusLineProps.
Import NumberSpec NumberProps HeadersSpec HeadersProps Wire WireProps RequestRoundTrip.

Local Notation "T @ i" := (nth_error T i) (at level 20).

(** ** [parseInt] on decimal digits *)

Lemma parseInt_decimal ds :
  ds <> [] -> forallb isDigit ds = true -> (decimal ds < 2 ^ 53)%N ->
  parseInt ds 10 = Integer false (decimal ds).
Proof.
  intros NE D B. unfold parseInt.
  destruct ds as [|c t]; [congruence|].
  assert (Dc : isDigit c = true) by (simpl in D; apply andb_prop in D; tauto).
  pose proof (digit_range c Dc) as Rc.
  rewrite trimStart_id by (simpl; apply digit_not_space, Dc).
  cbn [splitSign].
  replace (c =? 43)%N with false by (symmetry; apply N.eqb_neq; lia).
  replace (c =? 45)%N with false by (symmetry; apply N.eqb_neq; lia).
  change (10 =? 16)%N with false. cbv iota.
  rewrite digits_all by exact D. cbn [length Nat.add]. fold (decimal (c :: t)).
  rewrite roundToDouble_exact.
  - rewrite N2Z.id. reflexivity.
  - split; [lia|]. change (2 ^ 53)%Z with (Z.of_N (2 ^ 53)). lia.
Qed.

Lemma isValidStatusCode_whole n :
  (100 <= n <= 999)%N -> isValidStatusCode (Integer false n) = true.
Proof.
  intros H. unfold isValidStatusCode, geZ, leZ. cbn [isNaN negb ltZ gtZ signed andb].
  replace (Z.of_N n <? 100)%Z with false by (symmetry; apply Z.ltb_ge; lia).
  replace (999 <? Z.of_N n)%Z with false by (symmetry; apply Z.ltb_ge; lia).
  reflexivity.
Qed.

(** ** The status line *)

Section StatusLine.
Variables (v code text R : jsstring) (B : bytes).
Hypothesis Vv : isValidVersion v = true.
Hypothesis NE : code <> [].
Hypothesis Dc : forallb isDigit code = true.
Hypothesis Rc : (100 <= decimal code <= 999)%N.
Hypothesis At : isAscii text = true.
Hypothesis Nt : noCR text = true.
Hypothesis AR : isAscii R = true.

Let P : jsstring := v ++ 32%N :: code ++ 32%N :: text.
Let T : jsstring := P ++ 13%N :: 10%N :: R.
Let e : nat := length P.

Lemma code_units c : In c code -> (48 <= c <= 57)%N.
Proof. intros I. rewrite forallb_forall in Dc. apply digit_range, Dc, I. Qed.

Lemma text_units c : In c text -> (c < 128)%N /\ c <> 13%N.
Proof.
  intros I. split.
  - rewrite isAscii_forall in At. apply At, I.
  - rewrite noCR_forall in Nt. apply Nt, I.
Qed.

Lemma line_units c : In c P -> (c < 128)%N /\ c <> 13%N.
Proof.
  unfold P. intros I. apply in_app_or in I. destruct I as [I|[<-|I]].
  - pose proof (version_units v c Vv I). lia.
  - lia.
  - apply in_app_or in I. destruct I as [I|[<-|I]].
    + pose proof (code_units c I). lia.
    + lia.
    + apply text_units, I.
Qed.

Lemma status_ascii : isAscii T = true.
Proof.
  apply isAscii_forall. intros c I. unfold T in I. apply in_app_or in I.
  destruct I as [I|[<-|[<-|I]]]; try lia.
  - apply line_units, I.
  - rewrite isAscii_forall in AR. apply AR, I.
Qed.

Lemma status_crlf : firstAt T 13 0 e /\ T @ (e + 1) = Some 10%N.
Proof.
  split; [split; [lia | split]|].
  - unfold T, e. rewrite <- (Nat.add_0_r (length P)). rewrite at_app_r. reflexivity.
  - intros j Hj H. unfold T in H. rewrite at_app_l in H by (unfold e in Hj; lia).
    apply at_in in H. destruct (line_units _ H) as [_ N]. congruence.
  - unfold T, e. rewrite at_app_r. reflexivity.
Qed.

Lemma status_space1 : firstAt T 32 0 (length v).
Proof.
  assert (L : length v < e) by (unfold e, P; rewrite length_app; simpl; lia).
  split; [lia | split].
  - unfold T. rewrite at_app_l by exact L. unfold P.
    rewrite <- (Nat.add_0_r (length v)). rewrite at_app_r. reflexivity.
  - intros j Hj H. unfold T in H. rewrite at_app_l in H by lia. unfold P in H.
    rewrite at_app_l in H by lia. apply at_in in H.
    pose proof (version_units v _ Vv H). lia.
Qed.

Lemma status_space2 : firstAt T 32 (length v + 1) (length v + 1 + length code).
Proof.
  assert (L : length v + 1 + length code < e).
  { unfold e, P. rewrite length_app. simpl. rewrite length_app. simpl. lia. }
  split; [lia | split].
  - unfold T. rewrite at_app_l by exact L. unfold P.
    replace (length v + 1 + length code) with (length v + S (length code)) by lia.
    rewrite at_app_r. cbn [nth_error].
    rewrite <- (Nat.add_0_r (length code)). rewrite at_app_r. reflexivity.
  - intros j Hj H. unfold T in H. rewrite at_app_l in H by lia. unfold P in H.
    replace j with (length v + S (j - length v - 1)) in H by lia.
    rewrite at_app_r in H. cbn [nth_error] in H.
    rewrite at_app_l in H by lia. apply at_in in H.
    pose proof (code_units _ H). lia.
Qed.

Lemma status_slices :
  slice T 0 (length v) = v /\
  slice T (length v + 1) (length v + 1 + length code) = code /\
  slice T (length v + 1 + length code + 1) e = text.
Proof.
  assert (E1 : T = [] ++ v ++ (32%N :: code ++ 32%N :: text ++ 13%N :: 10%N :: R)).
  { unfold T, P. repeat (rewrite <- app_assoc; cbn [app]). reflexivity. }
  assert (E2 : T = (v ++ [32%N]) ++ code ++ (32%N :: text ++ 13%N :: 10%N :: R)).
  { unfold T, P. repeat (rewrite <- app_assoc; cbn [app]). reflexivity. }
  assert (E3 : T = (v ++ 32%N :: code ++ [32%N]) ++ text ++ (13%N :: 10%N :: R)).
  { unfold T, P. repeat (rewrite <- app_assoc; cbn [app]). reflexivity. }
  repeat split.
  - rewrite E1. apply (slice_mid [] v).
  - rewrite E2.
    replace (length v + 1) with (length (v ++ [32%N])) by (rewrite length_app; reflexivity).
    apply slice_mid.
  - rewrite E3.
    assert (L : length (v ++ 32%N :: code ++ [32%N]) = length v + 1 + length code + 1).
    { rewrite length_app. simpl. rewrite length_app. simpl. lia. }
    rewrite <- L.
    replace e with (length (v ++ 32%N :: code ++ [32%N]) + length text).
    + apply slice_mid.
    + rewrite L. unfold e, P. rewrite length_app. simpl. rewrite length_app. simpl. lia.
Qed.

Lemma parseStatusLine_text stop :
  length T <= stop ->
  Response.parseStatusLine (asciiBytes T ++ B) 0 stop =
  {| Response.statusLine :=
       Some {| sl_version := v; statusCode := Integer false (decimal code);
               statusText := text |};
     Response.bytesConsumed := e + 2;
     Response.needsMoreData := false;
     Response.error := None |}.
Proof.
  intros L.
  assert (Le : e + 2 <= length T) by (unfold T, e; rewrite length_app; simpl; lia).
  assert (L1 : length v + 1 + length code + 1 <= e).
  { unfold e, P. rewrite length_app. simpl. rewrite length_app. simpl. lia. }
  destruct status_crlf as [C1 C2]. destruct status_slices as (S1 & S2 & S3).
  pose proof status_ascii as AT.
  unfold Response.parseStatusLine.
  rewrite (findCRLF_text T B 0 (stop - 1) e AT C1 C2) by lia.
  cbv zeta.
  rewrite (findSpace_text T B 0 e (length v) AT status_space1) by lia.
  rewrite (findSpace_text T B (length v + 1) e (length v + 1 + length code) AT status_space2)
    by lia.
  rewrite !decode_slice_text by (auto; lia).
  rewrite S1, S2, S3, Vv. cbn [negb].
  assert (Bd : (decimal code < 2 ^ 53)%N).
  { eapply N.le_lt_trans; [apply Rc | reflexivity]. }
  rewrite (parseInt_decimal code NE Dc Bd).
  rewrite isValidStatusCode_whole by exact Rc. reflexivity.
Qed.

End StatusLine.

(** X21: a status line made of a valid version, a space, decimal digits that
    denote a number from 100 to 999, a space, and a reason phrase of ASCII
    characters without carriage return, ended by CR LF, is read by
    [parseStatusLine] whatever bytes follow: the result holds the version,
    the number and the reason phrase, reports the length of the line with
    its CR LF as consumed, and no error. *)
Theorem parseStatusLine_reads (v code text : jsstring) (rest : bytes) :
  isValidVersion v = true ->
  code <> [] -> forallb isDigit code = true -> (100 <= decimal code <= 999)%N ->
  isAscii text = true -> noCR text = true ->
  let line := v ++ lit " " ++ code ++ lit " " ++ text in
  let data := asciiBytes (line ++ [13; 10]%N) ++ rest in
  Response.parseStatusLine data 0 (length data) =
  {| Response.statusLine :=
       Some {| sl_version := v; statusCode := Integer false (decimal code);
               statusText := text |};
     Response.bytesConsumed := length line + 2;
     Response.needsMoreData := false;
     Response.error := None |}.
Proof.
  intros Vv NE Dc Rc At Nt line data.
  assert (El : line = v ++ 32%N :: code ++ 32%N :: text) by reflexivity.
  subst data. rewrite El.
  apply (parseStatusLine_text v code text [] rest Vv NE Dc Rc At Nt eq_refl).
  cbv zeta. rewrite (length_app (asciiBytes _) rest), length_asciiBytes. lia.
Qed.

End StatusLineProps.

(* ===================================================================== *)
(** * A chunked body reassembled *)
(* ===================================================================== *)

Module ChunkedBody.
Import Parser Feed LoopFacts ParserProps NumberSpec NumberProps ChunkSizeProps.
Import HeadersSpec Wire WireProps Chunks RequestRoundTrip.

Local Notation "T @ i" := (nth_error T i) (at level 20).

(** ** Bytes after a prefix *)

Lemma byte_is_after (pre rest : bytes) j b :
  byte_is (pre ++ rest) (length pre + j) b = byte_is rest j b.
Proof.
  unfold byte_is. rewrite nth_error_app2 by lia.
  replace (length pre + j - length pre) with j by lia. reflexivity.
Qed.

Lemma byte_is_here (pre rest : bytes) b :
  byte_is (pre ++ rest) (length pre) b = byte_is rest 0 b.
Proof. rewrite <- (Nat.add_0_r (length pre)) at 1. apply byte_is_after. Qed.

Lemma hexDigits_ascii ds : forallb isHexDigit ds = true -> isAscii ds = true.
Proof.
  intros H. apply isAscii_forall. intros c I. rewrite forallb_forall in H.
  pose proof (hexDigit_range c (H c I)). lia.
Qed.

Lemma crlf_after (pre rest : bytes) :
  byte_is (pre ++ CRLF ++ rest) (length pre) CR = true /\
  byte_is (pre ++ CRLF ++ rest) (length pre + 1) LF = true.
Proof. rewrite byte_is_here, byte_is_after. split; reflexivity. Qed.

(** The size line ends where the digits end. *)
Lemma findCRLF_size (pre : bytes) ds (rest : bytes) stop :
  forallb isHexDigit ds = true ->
  length pre + length ds < stop ->
  findCRLF (pre ++ asciiBytes ds ++ CRLF ++ rest) (length pre) stop
  = Some (length pre + length ds).
Proof.
  intros H L. unfold findCRLF. pose proof (hexDigits_ascii ds H) as A.
  apply scan_first; [lia | |].
  - rewrite app_assoc.
    replace (length pre + length ds) with (length (pre ++ asciiBytes ds))
      by (rewrite length_app, length_asciiBytes; reflexivity).
    destruct (crlf_after (pre ++ asciiBytes ds) rest) as [-> ->]. reflexivity.
  - intros j Hj. replace j with (length pre + (j - length pre)) by lia.
    rewrite byte_is_after, byte_is_text by (auto; lia).
    destruct (ds @ (j - length pre)) as [c|] eqn:E; [|reflexivity].
    apply nth_error_In in E. rewrite forallb_forall in H.
    pose proof (hexDigit_range c (H c E)) as Rg.
    replace (c =? Byte.to_N CR)%N with false; [reflexivity|].
    symmetry. apply N.eqb_neq. change (Byte.to_N CR) with 13%N. lia.
Qed.

Lemma slice_after {A} (pre mid rest : list A) :
  slice (pre ++ mid ++ rest) (length pre) (length pre + length mid) = mid.
Proof. apply slice_mid. Qed.

Lemma before_semicolon_hex ds :
  forallb isHexDigit ds = true -> before_semicolon ds = ds.
Proof.
  induction ds as [|c t IH]; intros H; [reflexivity|].
  cbn [forallb] in H. apply andb_prop in H. destruct H as [Hc Ht].
  cbn [before_semicolon]. pose proof (hexDigit_range c Hc).
  replace (c =? 59)%N with false by (symmetry; apply N.eqb_neq; lia).
  rewrite IH by exact Ht. reflexivity.
Qed.

Lemma parseChunkSize_accepts ds maxSize :
  ds <> [] -> forallb isHexDigit ds = true -> (hexadecimal ds < 2 ^ 53)%N ->
  (Z.of_N (hexadecimal ds) <= maxSize)%Z ->
  parseChunkSize ds maxSize = Some (hexadecimal ds).
Proof.
  intros NE H B L. unfold parseChunkSize.
  rewrite trim_id by (apply hex_no_space, H).
  rewrite (HeadersProps.truthy_nonempty ds NE). cbn [negb].
  assert (P : parseInt ds 16 = Integer false (hexadecimal ds)).
  { rewrite <- (app_nil_r ds) at 1. rewrite parseInt_hex by (auto; exact I).
    rewrite roundToDouble_exact.
    - rewrite N2Z.id. reflexivity.
    - split; [lia|]. change (2 ^ 53)%Z with (Z.of_N (2 ^ 53)). lia. }
  rewrite P. cbn [isNaN ltZ gtZ signed toZ orb].
  replace (Z.of_N (hexadecimal ds) <? 0)%Z with false by (symmetry; apply Z.ltb_ge; lia).
  replace (maxSize <? Z.of_N (hexadecimal ds))%Z with false
    by (symmetry; apply Z.ltb_ge; lia).
  rewrite N2Z.id. reflexivity.
Qed.

(** ** The three handlers on a chunked body *)

Section WithPlatform.
Variable toLowerCase : jsstring -> jsstring.
Variable entropy : nat -> jsstring.

Lemma step_size q (pre : bytes) ds (rest : bytes) :
  state q = BODY_CHUNKED_SIZE ->
  buffer q = pre ++ asciiBytes ds ++ CRLF ++ rest -> bufferOffset q = length pre ->
  ds <> [] -> forallb isHexDigit ds = true -> (hexadecimal ds < 2 ^ 53)%N ->
  (Z.of_N (hexadecimal ds) <= maxBodySize (options q))%Z ->
  parseNext toLowerCase entropy q =
  let q1 := set_bufferOffset (length pre + length ds + 2)
              (set_chunkBytesRead 0 (set_chunkSize (hexadecimal ds) q)) in
  if (hexadecimal ds =? 0)%N then (set_state BODY_CHUNKED_TRAILER q1, proceed)
  else
    let q2 := set_totalChunks (totalChunks q1 + 1) q1 in
    if (maxChunks (options q2) <? totalChunks q2)%Z
    then (q2, failure (createError BODY_TOO_LARGE BODY_CHUNKED_DATA
                                   (Some (bufferOffset q2))))
    else (set_state BODY_CHUNKED_DATA q2, proceed).
Proof.
  intros St B O NE H Bd L. unfold parseNext. rewrite St. unfold parseChunkedSize.
  rewrite B, O.
  rewrite findCRLF_size
    by (auto; rewrite !length_app, length_asciiBytes; unfold CRLF; cbn [length]; lia).
  replace (length pre + length ds) with (length pre + length (asciiBytes ds))
    by (rewrite length_asciiBytes; reflexivity).
  rewrite slice_after, decodeUtf8_ascii by (apply hexDigits_ascii, H).
  rewrite before_semicolon_hex by exact H.
  rewrite trim_id by (apply hex_no_space, H).
  rewrite parseChunkSize_accepts by assumption.
  rewrite length_asciiBytes. reflexivity.
Qed.

Lemma step_data q (pre data rest : bytes) :
  state q = BODY_CHUNKED_DATA ->
  buffer q = pre ++ data ++ CRLF ++ rest -> bufferOffset q = length pre ->
  chunkSize q = N.of_nat (length data) -> chunkBytesRead q = 0%N ->
  exists q',
    parseNext toLowerCase entropy q = (q', proceed) /\
    state q' = BODY_CHUNKED_SIZE /\ buffer q' = buffer q /\
    bufferOffset q' = length pre + length data + 2 /\
    collectedBody q' = collectedBody q ++ data /\
    totalChunks q' = totalChunks q /\ options q' = options q.
Proof.
  intros St B O Cs Cr. unfold parseNext. rewrite St.
  unfold parseChunkedData, getBufferedBytes. cbv zeta. rewrite Cs, Cr, N.sub_0_r, Nat2N.id.
  rewrite B, O.
  replace (len (pre ++ data ++ CRLF ++ rest) - Z.of_nat (length pre)
           <? Z.of_N (N.of_nat (length data)) + 2)%Z with false
    by (symmetry; apply Z.ltb_ge; unfold len; rewrite !length_app; unfold CRLF; cbn [length]; lia).
  rewrite slice_after.
  assert (F : forall x, buffer x = pre ++ data ++ CRLF ++ rest ->
                bufferOffset x = length pre + length data ->
                byte_is (buffer x) (bufferOffset x) CR
                && byte_is (buffer x) (bufferOffset x + 1) LF = true).
  { intros x Bx Ox. rewrite Bx, Ox, app_assoc.
    replace (length pre + length data) with (length (pre ++ data))
      by (rewrite length_app; reflexivity).
    destruct (crlf_after (pre ++ data) rest) as [-> ->]. reflexivity. }
  unfold appendToBody, collectedBody.
  destruct (Parser.body q) as [b|] eqn:Eb; cbn [Parser.body set_body];
    destruct (maxBodySize _ <? len _)%Z;
    rewrite F by (cbn; rewrite ?B, ?O; reflexivity);
    eexists; (split; [reflexivity|]); cbn; rewrite ?O; repeat split; auto; lia.
Qed.

Lemma step_trailer q (pre : bytes) :
  state q = BODY_CHUNKED_TRAILER ->
  buffer q = pre ++ CRLF -> bufferOffset q = length pre ->
  exists qf,
    parseNext toLowerCase entropy q = (qf, createCompleteMessage qf) /\
    bufferOffset qf = length (buffer q) /\ collectedBody qf = collectedBody q.
Proof.
  intros St B O. unfold parseNext. rewrite St. unfold parseChunkedTrailer. cbv zeta.
  rewrite B, O. unfold findCRLFCRLF.
  replace (length (pre ++ CRLF) - 3 - length pre) with 0
    by (rewrite length_app; unfold CRLF; cbn [length]; lia).
  cbn [scan].
  replace (2 <=? length (pre ++ CRLF)) with true
    by (symmetry; apply Nat.leb_le; rewrite length_app; unfold CRLF; cbn [length]; lia).
  replace (length (pre ++ CRLF) - 2) with (length pre)
    by (rewrite length_app; unfold CRLF; cbn [length]; lia).
  replace (length (pre ++ CRLF) - 1) with (length pre + 1)
    by (rewrite length_app; unfold CRLF; cbn [length]; lia).
  assert (F : byte_is (pre ++ CRLF) (length pre) CR
              && byte_is (pre ++ CRLF) (length pre + 1) LF = true).
  { rewrite <- (app_nil_r CRLF). destruct (crlf_after pre []) as [-> ->]. reflexivity. }
  cbn [andb]. rewrite F.
  eexists. split; [reflexivity|]. split; reflexivity.
Qed.

(** ** The chunks in turn *)

Lemma chunkedBody_cons chunk chunks :
  chunkedBody (chunk :: chunks) =
  asciiBytes (fst chunk) ++ CRLF ++ snd chunk ++ CRLF ++ chunkedBody chunks.
Proof.
  unfold chunkedBody, chunkBytes. cbn [map List.concat].
  rewrite <- !app_assoc. reflexivity.
Qed.

Lemma chunkOk_nonzero maxSize chunk :
  chunkOk maxSize chunk -> fst chunk <> [] /\ hexadecimal (fst chunk) <> 0%N.
Proof.
  intros [D Sz N _ _].
  assert (Z : hexadecimal (fst chunk) <> 0%N).
  { rewrite Sz. destruct (snd chunk); [congruence | discriminate]. }
  split; [|exact Z]. intros E. apply Z. rewrite E. reflexivity.
Qed.

Lemma run_chunks chunks : forall q (pre : bytes),
  state q = BODY_CHUNKED_SIZE ->
  buffer q = pre ++ chunkedBody chunks -> bufferOffset q = length pre ->
  (0 <= maxBodySize (options q))%Z ->
  (totalChunks q + Z.of_nat (length chunks) <= maxChunks (options q))%Z ->
  (forall chunk, In chunk chunks -> chunkOk (maxBodySize (options q)) chunk) ->
  exists qf,
    firstMessage toLowerCase entropy (2 * length chunks + 2) q
    = Some (qf, message (createCompleteMessage qf)) /\
    bufferOffset qf = length (buffer q) /\
    collectedBody qf = collectedBody q ++ List.concat (map snd chunks).
Proof.
  induction chunks as [|chunk chunks IH]; intros q pre St B O M0 Mc Ok.
  - (* the last chunk and the empty line *)
    assert (B' : buffer q = pre ++ asciiBytes (lit "0") ++ CRLF ++ CRLF) by exact B.
    pose proof (step_size q pre (lit "0") CRLF St B' O ltac:(discriminate) eq_refl eq_refl M0)
      as E1.
    cbv zeta in E1. change (hexadecimal (lit "0") =? 0)%N with true in E1. cbv iota in E1.
    match type of E1 with _ = (?x, _) => set (q1 := x) in * end.
    destruct (step_trailer q1 (pre ++ asciiBytes (lit "0") ++ CRLF)) as (qf & E2 & O2 & C2).
    + reflexivity.
    + subst q1. cbn [buffer set_state set_bufferOffset set_chunkBytesRead set_chunkSize].
      rewrite B'. rewrite <- !app_assoc. reflexivity.
    + subst q1. cbn [bufferOffset set_state set_bufferOffset].
      rewrite !length_app. cbn. lia.
    + exists qf. split; [|split].
      * change (2 * length (@nil (jsstring * bytes)) + 2) with 2.
        cbn [firstMessage]. rewrite St. cbn [ParserState_eqb]. rewrite E1.
        cbn [error proceed needsMoreData complete].
        change (state q1) with BODY_CHUNKED_TRAILER. cbn [ParserState_eqb]. rewrite E2.
        destruct (createCompleteMessage_flags qf) as (F1 & F2 & F3).
        rewrite F1, F2, F3. reflexivity.
      * rewrite O2. reflexivity.
      * rewrite C2. cbn [map List.concat]. rewrite app_nil_r. reflexivity.
  - (* a chunk, then the rest *)
    pose proof (Ok chunk (or_introl eq_refl)) as Oc.
    destruct (chunkOk_nonzero _ _ Oc) as [NE NZ].
    destruct Oc as [D Sz Dn Li Ex].
    set (ds := fst chunk) in *. set (data := snd chunk) in *.
    assert (B' : buffer q = pre ++ asciiBytes ds ++ CRLF ++ (data ++ CRLF ++ chunkedBody chunks)).
    { rewrite B, chunkedBody_cons. reflexivity. }
    pose proof (step_size q pre ds _ St B' O NE D) as E1.
    rewrite Sz in E1. specialize (E1 Ex). unfold len in Li.
    specialize (E1 ltac:(lia)). cbv zeta in E1.
    replace (N.of_nat (length data) =? 0)%N with false in E1
      by (symmetry; apply N.eqb_neq; rewrite <- Sz; exact NZ).
    cbn [totalChunks options set_bufferOffset set_chunkBytesRead set_chunkSize
         set_totalChunks] in E1.
    cbn [length] in Mc.
    replace (maxChunks (options q) <? totalChunks q + 1)%Z with false in E1
      by (symmetry; apply Z.ltb_ge; lia).
    match type of E1 with _ = (?x, _) => set (q1 := x) in * end.
    destruct (step_data q1 (pre ++ asciiBytes ds ++ CRLF) data (chunkedBody chunks))
      as (q2 & E2 & St2 & B2 & O2 & C2 & T2 & Op2).
    + reflexivity.
    + subst q1. cbn. rewrite B'. rewrite <- !app_assoc. reflexivity.
    + subst q1. cbn. rewrite !length_app, length_asciiBytes. unfold CRLF. cbn [length]. lia.
    + reflexivity.
    + reflexivity.
    + assert (Bq1 : buffer q1 = buffer q) by reflexivity.
      destruct (IH q2 ((pre ++ asciiBytes ds ++ CRLF) ++ data ++ CRLF)) as (qf & E3 & O3 & C3).
      * exact St2.
      * rewrite B2, Bq1, B'. rewrite <- !app_assoc. reflexivity.
      * rewrite O2. rewrite !length_app. unfold CRLF. cbn [length]. lia.
      * rewrite Op2. exact M0.
      * rewrite T2, Op2. subst q1. cbn. lia.
      * rewrite Op2. intros c I. apply Ok. right. exact I.
      * exists qf. split; [|split].
        -- replace (2 * length (chunk :: chunks) + 2)
             with (S (S (2 * length chunks + 2))) by (cbn [length]; lia).
           cbn [firstMessage]. rewrite St. cbn [ParserState_eqb]. rewrite E1.
           cbn [error proceed needsMoreData complete].
           change (state q1) with BODY_CHUNKED_DATA. cbn [ParserState_eqb]. rewrite E2.
           cbn [error proceed needsMoreData complete]. exact E3.
        -- rewrite O3, B2. reflexivity.
        -- rewrite C3, C2. cbn [map List.concat]. rewrite <- app_assoc. reflexivity.
Qed.

Lemma createCompleteMessage_collected q :
  exists m, message (createCompleteMessage q) = Some m /\ m_body m = collectedBody q.
Proof.
  unfold createCompleteMessage, collectedBody.
  destruct (messageType q) as [[|]|]; eexists; split; reflexivity.
Qed.

Lemma totalChunks_appendBuffer data p : totalChunks (appendBuffer data p) = totalChunks p.
Proof.
  unfold appendBuffer. destruct (0 <? bufferOffset p); cbv zeta;
    destruct (length _ =? 0); reflexivity.
Qed.

(** X22: a chunked body that arrives in one [parse] call, on a parser that
    has read the headers and nothing else, is put together again: exactly
    one message is emitted, its body is the data of the chunks in their
    order, and the parser is idle afterwards with no byte left.  The body is
    written without trailers; each size field is the length of its data in
    hexadecimal digits, no chunk is empty or longer than [maxBodySize], and
    the chunks are within [maxChunks]. *)
Theorem chunked_body_is_reassembled (p : HttpParser) (chunks : list (jsstring * bytes)) :
  state p = BODY_CHUNKED_SIZE -> pending p = [] -> Parser.body p = None ->
  (0 <= maxBodySize (options p))%Z ->
  (totalChunks p + Z.of_nat (length chunks) <= maxChunks (options p))%Z ->
  (forall chunk, In chunk chunks -> chunkOk (maxBodySize (options p)) chunk) ->
  exists p' m,
    parse toLowerCase entropy (chunkedBody chunks) p = (p', [Some m]) /\
    m_body m = List.concat (map snd chunks) /\
    state p' = IDLE /\ getBufferedBytes p' = 0%Z.
Proof.
  intros St Pe Bd M0 Mc Ok.
  set (data := chunkedBody chunks).
  destruct (appendBuffer_empty data p Pe) as [B O].
  destruct (appendBuffer_fields data p) as [Bd' Op'].
  destruct (run_chunks chunks (appendBuffer data p) []) as (qf & F & Of & C).
  - rewrite state_appendBuffer. exact St.
  - exact B.
  - exact O.
  - rewrite Op'. exact M0.
  - rewrite Op', totalChunks_appendBuffer. exact Mc.
  - rewrite Op'. exact Ok.
  - destruct (createCompleteMessage_collected qf) as (m & Em & Eb).
    rewrite Em in F. rewrite B in Of.
    destruct (parse_single toLowerCase entropy data p _ qf (Some m) Pe F Of)
      as (p' & E & S' & G').
    exists p', m. split; [exact E|]. split; [|auto].
    rewrite Eb, C. unfold collectedBody at 1. rewrite Bd', Bd. reflexivity.
Qed.

End WithPlatform.

End ChunkedBody.

(* ===================================================================== *)
(** * A message followed by more bytes *)
(* ===================================================================== *)

Module FollowedBy.
Import Parser Feed LoopFacts ParserProps ParserLaws.

(** ** A buffer with more bytes after it *)








(** ** The start line, once its CR LF is there, does not depend on what follows *)



(** ** Bytes from which no start line is read *)

Lemma startLineRead_unfinished (R : bytes) :
  length R < 4 \/
  (forall b, In b R -> b <> SP) \/
  (findCRLF R 0 (length R - 1) = None /\
   forall i, findSpace R 0 (length R) = Some i ->
             findSpace R (i + 1) (length R) = None) ->
  startLineRead R = false.
Proof.
  unfold startLineRead. intros [H|[H|[C H]]].
  - apply Nat.leb_gt in H. rewrite H. reflexivity.
  - rewrite Request_needMore, Response_needMore by exact H.
    destruct (4 <=? length R); [|reflexivity]. cbn [andb].
    destruct (_ && _)%bool; reflexivity.
  - assert (Q : Request.parseRequestLine R 0 (length R) = Request.needMore).
    { unfold Request.parseRequestLine. rewrite C. cbv zeta.
      destruct (findSpace R 0 (length R)) as [i|]; [|reflexivity].
      rewrite (H i eq_refl). destruct (_ && _)%bool; reflexivity. }
    assert (Sl : Response.parseStatusLine R 0 (length R) = Response.needMore).
    { unfold Response.parseStatusLine. rewrite C. cbv zeta.
      destruct (findSpace R 0 (length R)) as [i|]; [|reflexivity].
      rewrite (H i eq_refl). destruct (_ && _)%bool; reflexivity. }
    rewrite Q, Sl. destruct (4 <=? length R); [|reflexivity]. cbn [andb].
    destruct (_ && _)%bool; reflexivity.
Qed.

(** ** Handlers that do not read the buffer *)



Section WithPlatform.
Variable toLowerCase : jsstring -> jsstring.
Variable entropy : nat -> jsstring.


Variable R : bytes.

Lemma followedBy_same p1 p :
  buffer p1 = buffer p -> set_buffer (buffer p ++ R) p1 = followedBy R p1.
Proof. intros E. unfold followedBy. rewrite E. reflexivity. Qed.

(** ** One handler on the longer buffer *)






(** ** A start line without its CR LF *)






(** ** The headers of the message a run ends with *)







(** ** The run up to the first message, on the longer buffer *)



(** ** The loop around the first message *)










(** ** The bytes after the message *)








End WithPlatform.

End FollowedBy.

(* ===================================================================== *)
(** * Concrete runs *)
(* ===================================================================== *)

Module Examples.
Import Parser Feed Headers HeadersSpec NumberSpec Run.
Import ParserProps HeadersProps NumberProps.


(** C1: the request line [GET / HTTP/1.1] split after [GET / H].  Fed whole,
    the bytes give one request; fed in two fragments, the first call already
    rejects the line (the version read so far is [H]) and nothing is ever
    emitted. *)
Theorem fragmented_request_line_is_rejected :
  let whole := blit "GET / HTTP/1.1" ++ CRLF ++ CRLF in
  let f1 := blit "GET / H" in
  let f2 := blit "TTP/1.1" ++ CRLF ++ CRLF in
  f1 ++ f2 = whole /\
  map versionOf (snd (parse whole fresh)) = [Some HTTP_1_1] /\
  snd (parseAll [f1; f2] fresh) = [] /\
  getState (fst (parseAll [f1; f2] fresh)) = ERROR.
Proof. vm_compute. repeat split. Qed.

(** The same for a body: split inside a Content-Length body, the bytes give
    no message, because the bytes already collected are not counted. *)
Theorem fragmented_body_is_not_emitted :
  let head := blit "POST / HTTP/1.1" ++ CRLF ++ blit "Content-Length: 5" ++ CRLF ++ CRLF in
  map bodyOf (snd (parse (head ++ blit "hello") fresh)) = [Some (blit "hello")] /\
  snd (parseAll [head ++ blit "hel"; blit "lo"] fresh) = [] /\
  getState (fst (parseAll [head ++ blit "hel"; blit "lo"] fresh)) = BODY_CONTENT_LENGTH.
Proof. vm_compute. repeat split. Qed.

(** The end of a chunked body: the terminating CRLF of the last chunk is
    looked for only in the bytes at hand.  The same bytes give two messages
    when the fragment ends after that CRLF, one message when they come in one
    call (the next request is read as trailers), and one message and a parser
    stuck in REQUEST_LINE when the fragment ends before it. *)
Theorem fragmented_chunk_end_diverges :
  let response := blit "HTTP/1.1 200 OK" ++ CRLF ++ blit "Transfer-Encoding: chunked"
                  ++ CRLF ++ CRLF ++ blit "2" ++ CRLF ++ blit "hi" ++ CRLF
                  ++ blit "0" ++ CRLF in
  let next := blit "GET /2 HTTP/1.1" ++ CRLF ++ blit "Host: b" ++ CRLF ++ CRLF in
  map bodyOf (snd (parseAll [response ++ CRLF; next] fresh)) = [Some (blit "hi"); Some []] /\
  map bodyOf (snd (parse (response ++ CRLF ++ next) fresh)) = [Some (blit "hi")] /\
  getState (fst (parse (response ++ CRLF ++ next) fresh)) = IDLE /\
  map bodyOf (snd (parseAll [response; CRLF ++ next] fresh)) = [Some (blit "hi")] /\
  getState (fst (parseAll [response; CRLF ++ next] fresh)) = REQUEST_LINE /\
  getBufferedBytes (fst (parseAll [response; CRLF ++ next] fresh)) = len (CRLF ++ next).
Proof. vm_compute. repeat split. Qed.

(** A fragment that ends between two tokens of the request line, or inside a
    header line, is resumed: the three fragments below give the one request. *)
Theorem fragments_between_tokens_are_resumed :
  let fragments := [blit "GET /api/da";
                    blit "ta HTTP/1.1" ++ CRLF ++ blit "Host: ";
                    blit "example.com" ++ CRLF ++ CRLF] in
  map versionOf (snd (parseAll fragments fresh)) = [Some HTTP_1_1] /\
  snd (parseAll fragments fresh) = snd (parse (List.concat fragments) fresh) /\
  getState (fst (parseAll fragments fresh)) = IDLE.
Proof. vm_compute. repeat split. Qed.

(** C2: with [maxBodySize] 4, a Content-Length body of 5 bytes and a
    chunked body of 3 + 3 bytes are both emitted, and the parser ends in
    IDLE: the ERROR state set by [appendToBody] is overwritten. *)
Theorem oversized_body_is_emitted :
  let p := create smallBody in
  let input := blit "POST / HTTP/1.1" ++ CRLF ++ blit "Content-Length: 5" ++ CRLF
               ++ CRLF ++ blit "hello" in
  let chunkedInput := blit "POST / HTTP/1.1" ++ CRLF ++ blit "Transfer-Encoding: chunked"
               ++ CRLF ++ CRLF ++ blit "3" ++ CRLF ++ blit "abc" ++ CRLF
               ++ blit "3" ++ CRLF ++ blit "def" ++ CRLF ++ blit "0" ++ CRLF ++ CRLF in
  maxBodySize (options p) = 4%Z /\
  map bodyOf (snd (parse input p)) = [Some (blit "hello")] /\
  getState (fst (parse input p)) = IDLE /\
  map bodyOf (snd (parse chunkedInput p)) = [Some (blit "abcdef")] /\
  getState (fst (parse chunkedInput p)) = IDLE.
Proof. vm_compute. repeat split. Qed.

(** The limit does hold when the body arrives in part: with [maxBodySize] 4,
    five of ten announced bytes leave the parser in ERROR with nothing
    emitted, since no later state is written over it. *)
Theorem oversized_partial_body_is_an_error :
  let input := blit "POST / HTTP/1.1" ++ CRLF ++ blit "Content-Length: 10" ++ CRLF
               ++ CRLF ++ blit "hello" in
  snd (parse input (create smallBody)) = [] /\
  getState (fst (parse input (create smallBody))) = ERROR.
Proof. vm_compute. repeat split. Qed.

(** C6: an HTTP/1.0 request without a Connection header is emitted with
    [keepAlive] true; the HTTP/1.0 response gets false. *)
Theorem http10_request_keeps_alive :
  let request := blit "GET / HTTP/1.0" ++ CRLF ++ CRLF in
  let response := blit "HTTP/1.0 200 OK" ++ CRLF ++ CRLF in
  map versionOf (snd (parse request fresh)) = [Some HTTP_1_0] /\
  map keepAliveOf (snd (parse request fresh)) = [Some true] /\
  map keepAliveOf (snd (parse response fresh)) = [Some false].
Proof. vm_compute. repeat split. Qed.

(** C10, as stated, fails on a message without a body: its [contentLength]
    is absent, not 0. *)
Lemma bodyless_message_has_no_contentLength :
  ~ (forall m, In (Some m) (snd (parse (blit "GET / HTTP/1.1" ++ CRLF ++ CRLF) fresh)) ->
       m_transferEncoding m = CONTENT_LENGTH /\
       m_contentLength m = Some (length (m_body m))).
Proof.
  intros H.
  assert (E : exists m, In (Some m) (snd (parse (blit "GET / HTTP/1.1" ++ CRLF ++ CRLF) fresh))
                        /\ m_contentLength m = None).
  { vm_compute. eexists. split; [left; reflexivity | reflexivity]. }
  destruct E as (m & I & N). destruct (H m I) as [_ C]. rewrite N in C. discriminate C.
Qed.

(** A message with Content-Length 0 and a chunked one under C10 (amended). *)
Lemma emitted_framing_follows_body_witness :
  let empty := blit "POST / HTTP/1.1" ++ CRLF ++ blit "Content-Length: 0" ++ CRLF ++ CRLF in
  let chunked := blit "HTTP/1.1 200 OK" ++ CRLF ++ blit "Transfer-Encoding: chunked"
                 ++ CRLF ++ CRLF ++ blit "5" ++ CRLF ++ blit "Hello" ++ CRLF
                 ++ blit "0" ++ CRLF ++ CRLF in
  settled fresh /\
  (exists m, In (Some m) (snd (parse empty fresh)) /\ m_body m = [] /\
             m_transferEncoding m = CONTENT_LENGTH /\ m_contentLength m = None) /\
  (exists m, In (Some m) (snd (parse chunked fresh)) /\ m_body m = blit "Hello" /\
             m_transferEncoding m = CONTENT_LENGTH /\ m_contentLength m = Some 5) /\
  settled (fst (parse chunked fresh)).
Proof.
  intros empty chunked. split; [reflexivity|]. split; [|split].
  - assert (E : exists m, In (Some m) (snd (parse empty fresh)) /\ m_body m = []).
    { vm_compute. eexists. split; [left; reflexivity | reflexivity]. }
    destruct E as (m & I & B). exists m.
    destruct (FramingLaws.emitted_framing_follows_body asciiToLowerCase drawn empty fresh)
      as [Fm _].
    destruct (Fm m I) as (Te & _ & Ce).
    split; [exact I|]. split; [exact B|]. split; [exact Te|].
    apply Ce; [reflexivity | exact B].
  - assert (E : exists m, In (Some m) (snd (parse chunked fresh))
                          /\ m_body m = blit "Hello").
    { vm_compute. eexists. split; [left; reflexivity | reflexivity]. }
    destruct E as (m & I & B). exists m.
    destruct (FramingLaws.emitted_framing_follows_body asciiToLowerCase drawn chunked fresh)
      as [Fm _].
    destruct (Fm m I) as (Te & Cl & _).
    split; [exact I|]. split; [exact B|]. split; [exact Te|].
    rewrite Cl; rewrite B; [reflexivity | discriminate].
  - destruct (FramingLaws.emitted_framing_follows_body asciiToLowerCase drawn chunked fresh)
      as (_ & St & _).
    apply St. reflexivity.
Defined.

(** A parser in ERROR under C3. *)
Lemma error_state_is_terminal_witness :
  let p := fst (parse (blit "GET / HTTP/2.0" ++ CRLF) fresh) in
  let fragments := [blit "GET / HTTP/1.1" ++ CRLF; CRLF] in
  getState p = ERROR /\
  (let (p', messages) := parseAll fragments p in
   messages = [] /\ getState p' = ERROR /\
   pending p' = pending p ++ List.concat fragments /\
   forall clearBuffer, getState (reset clearBuffer p') = IDLE).
Proof.
  cbv zeta. split; [vm_compute; reflexivity|].
  apply (error_state_is_terminal asciiToLowerCase drawn). vm_compute. reflexivity.
Defined.



(** A request without header lines is emitted when it ends the buffer, and
    is not when bytes follow: the empty header block is looked for at the
    end of the buffer only. *)
Lemma no_header_line_then_bytes :
  let M := blit "GET / HTTP/1.1" ++ CRLF ++ CRLF in
  length (snd (parse M fresh)) = 1 /\
  getBufferedBytes (fst (parse M fresh)) = 0%Z /\
  snd (parse (M ++ blit "HT") fresh) = [] /\
  getState (fst (parse (M ++ blit "HT") fresh)) = HEADERS.
Proof. vm_compute. repeat split. Qed.

(** A chunked message takes what follows it into its trailers: up to the
    end of the buffer when that is CR LF, and else it waits. *)
Lemma chunked_message_then_bytes :
  let M := blit "HTTP/1.1 200 OK" ++ CRLF ++ blit "Transfer-Encoding: chunked"
           ++ CRLF ++ CRLF ++ blit "2" ++ CRLF ++ blit "hi" ++ CRLF
           ++ blit "0" ++ CRLF ++ CRLF in
  length (snd (parse M fresh)) = 1 /\
  getBufferedBytes (fst (parse M fresh)) = 0%Z /\
  length (snd (parse (M ++ blit "HTTP/1.1 404" ++ CRLF) fresh)) = 1 /\
  getBufferedBytes (fst (parse (M ++ blit "HTTP/1.1 404" ++ CRLF) fresh)) = 0%Z /\
  snd (parse (M ++ blit "HT") fresh) = [] /\
  getState (fst (parse (M ++ blit "HT") fresh)) = BODY_CHUNKED_TRAILER.
Proof. vm_compute. repeat split. Qed.

(** A chunked header block under C4. *)
Lemma framing_decision_witness :
  let hs := appendAll asciiToLowerCase drawn
              [ {| name := lit "Transfer-Encoding"; value := lit "Chunked" |};
                {| name := lit "Content-Length"; value := lit "5" |} ] 0 empty in
  asciiToLowerCase [] = [] /\ body fresh = None /\
  (let (p', r) := handleHeadersComplete asciiToLowerCase hs fresh in
   state p' = BODY_CHUNKED_SIZE /\ bodyLength p' = bodyLength fresh /\ r = proceed).
Proof.
  cbv zeta. split; [reflexivity|]. split; [reflexivity|].
  pose proof (framing_decision asciiToLowerCase
    (appendAll asciiToLowerCase drawn
              [ {| name := lit "Transfer-Encoding"; value := lit "Chunked" |};
                {| name := lit "Content-Length"; value := lit "5" |} ] 0 empty)
    fresh eq_refl eq_refl) as H.
  cbv zeta in H.
  destruct (handleHeadersComplete asciiToLowerCase _ fresh) as [p' r].
  destruct H as (H & _). apply H.
  exists (lit "Chunked"). split; vm_compute; reflexivity.
Defined.

(** C5, as stated, fails: a leading plus sign, hexadecimal notation and
    exponent notation are accepted. *)
Lemma plus_hex_exponent_are_accepted :
  parseContentLength (lit "+5") = Some 5%N /\
  parseContentLength (lit "0x10") = Some 16%N /\
  parseContentLength (lit "1e3") = Some 1000%N.
Proof. vm_compute. repeat split. Qed.

(** Values of each shape under C5 (amended). *)
Lemma parseContentLength_by_shape_witness :
  parseContentLength (lit "  ") = None /\
  parseContentLength (lit " 42 ") = Some 42%N /\
  parseContentLength (lit "+5") = Some 5%N /\
  parseContentLength (lit "-5") = None /\
  parseContentLength (lit "-0") = Some 0%N /\
  parseContentLength (lit "0xA") = Some 10%N /\
  parseContentLength (lit "1e3") = Some 1000%N /\
  parseContentLength (lit "1 5") = None /\
  parseContentLength (lit "12abc") = None /\
  parseContentLength (lit "1,000") = None /\
  parseContentLength (lit "0z1") = None /\
  (parseContentLength (lit "-1e-400") = None \/
   parseContentLength (lit "-1e-400") = Some 0%N).
Proof.
  destruct ContentLengthProps.parseContentLength_by_shape
    as (A & B & C & D & E & F & G & H & I).
  split; [apply (A (lit "  ")); reflexivity|].
  split; [apply (B (lit " 42 ") (lit "42"));
          [reflexivity | discriminate | reflexivity | vm_compute; reflexivity]|].
  split; [apply (C (lit "+5") (lit "5"));
          [reflexivity | discriminate | reflexivity | vm_compute; reflexivity]|].
  split; [apply (D (lit "-5") (lit "5"));
          [reflexivity | discriminate | reflexivity | vm_compute; reflexivity]|].
  split; [apply (D (lit "-0") (lit "0"));
          [reflexivity | discriminate | reflexivity | vm_compute; reflexivity]|].
  split; [apply (E (lit "0xA") 120%N (lit "A"));
          [reflexivity | left; reflexivity | discriminate | reflexivity
          | vm_compute; reflexivity]|].
  split; [apply (F (lit "1e3") (lit "1") 101%N (lit "3"));
          [reflexivity | left; reflexivity | discriminate | reflexivity
          | discriminate | reflexivity | vm_compute; reflexivity]|].
  split; [apply (G (lit "1 5") 32%N); [vm_compute; tauto | reflexivity]|].
  split; [apply (H (lit "12abc") (lit "12") 97%N (lit "bc"));
          [reflexivity | reflexivity | reflexivity | discriminate | discriminate
          | discriminate | discriminate | discriminate | discriminate]|].
  split; [apply (H (lit "1,000") (lit "1") 44%N (lit "000"));
          [reflexivity | reflexivity | reflexivity | discriminate | discriminate
          | discriminate | discriminate | discriminate | discriminate]|].
  split; [apply (H (lit "0z1") (lit "0") 122%N (lit "1"));
          [reflexivity | reflexivity | reflexivity | discriminate | discriminate
          | discriminate | discriminate | discriminate | intros _; reflexivity]|].
  apply (I (lit "-1e-400") (lit "1e-400")). reflexivity.
Defined.

Lemma twoCookies_wf : wf asciiToLowerCase twoCookies.
Proof.
  unfold twoCookies. apply wf_append; [apply wf_append; [apply wf_empty|]|].
  - simpl. tauto.
  - vm_compute. intros [H|[]]. discriminate H.
Qed.



(** C9, as stated, fails on an entry with an empty value: the serialised
    block does not parse. *)
Lemma empty_value_does_not_parse :
  let h := append asciiToLowerCase (drawn 0) (lit "X-Empty") [] empty in
  parseHeaders (decodeUtf8 (toBytes h)) = None.
Proof. vm_compute. reflexivity. Qed.

(** A container of two entries under C9 (amended). *)
Lemma toBytes_parseHeaders_equals_witness :
  (forall hd, In hd (toArray hostAccept) ->
     clean hd /\ (len (lineOf hd) <= 8192)%Z) /\
  (0 <= 8192)%Z /\
  (Z.of_nat (totalEntries hostAccept) <= 256)%Z /\
  decodeUtf8 (toBytes hostAccept) = toText hostAccept /\
  NoDup (drawnKeys drawn (toArray hostAccept) 0) /\
  exists h',
    Headers.parseHeaders asciiToLowerCase drawn (decodeUtf8 (toBytes hostAccept)) 256 8192
      = Some h' /\
    equals asciiToLowerCase hostAccept h' = true.
Proof.
  assert (C : forall hd, In hd (toArray hostAccept) ->
     clean hd /\ (len (lineOf hd) <= 8192)%Z).
  { intros hd I. vm_compute in I. destruct I as [<-|[<-|[]]].
    - split; [constructor; vm_compute; congruence | vm_compute; discriminate].
    - split; [constructor; vm_compute; congruence | vm_compute; discriminate]. }
  assert (M0 : (0 <= 8192)%Z) by lia.
  assert (Mh : (Z.of_nat (totalEntries hostAccept) <= 256)%Z) by (vm_compute; discriminate).
  assert (RT : decodeUtf8 (toBytes hostAccept) = toText hostAccept) by (vm_compute; reflexivity).
  assert (ND : NoDup (drawnKeys drawn (toArray hostAccept) 0)).
  { vm_compute. repeat constructor; simpl; intuition discriminate. }
  repeat (split; [assumption|]).
  exact (toBytes_parseHeaders_equals asciiToLowerCase drawn hostAccept 256 8192 C M0 Mh RT ND).
Defined.

(** ** Runs of the further properties *)

Import Shape Wire ChunkSizeProps HeadersLaws ParserLaws MessageLaws WireProps RequestRoundTrip.
Import Chunks StatusLineProps ChunkedBody.

Lemma hostAccept_wf : wf asciiToLowerCase hostAccept.
Proof.
  unfold hostAccept. apply wf_append; [apply wf_append; [apply wf_empty|]|].
  - simpl. tauto.
  - vm_compute. intros [H|[]]. discriminate H.
Qed.

Lemma acceptHost_wf : wf asciiToLowerCase acceptHost.
Proof.
  unfold acceptHost. apply wf_append; [apply wf_append; [apply wf_empty|]|].
  - simpl. tauto.
  - vm_compute. intros [H|[]]. discriminate H.
Qed.

(** The size line [1A] under a limit of 100. *)
Lemma parseChunkSize_within_limit_witness :
  parseChunkSize (lit "1A") 100 = Some 26%N /\ (26 <= 100)%Z.
Proof.
  assert (E : parseChunkSize (lit "1A") 100 = Some 26%N) by (vm_compute; reflexivity).
  split; [exact E|]. exact (parseChunkSize_within_limit (lit "1A") 100 26 E).
Defined.

(** [ff] is 255, accepted under a limit of 1000 and refused under 100. *)
Lemma parseChunkSize_hexadecimal_witness :
  parseChunkSize (lit "ff") 1000 = Some 255%N /\ parseChunkSize (lit "ff") 100 = None.
Proof.
  assert (NE : lit "ff" <> []) by discriminate.
  split.
  - exact (parseChunkSize_hexadecimal (lit "ff") 1000 NE eq_refl eq_refl).
  - exact (parseChunkSize_hexadecimal (lit "ff") 100 NE eq_refl eq_refl).
Defined.

(** [1Agh] is read as [1A]. *)
Lemma parseChunkSize_ignores_tail_witness :
  parseChunkSize (lit "1Agh") 100 = parseChunkSize (lit "1A") 100.
Proof.
  apply (parseChunkSize_ignores_tail (lit "1A") 103 (lit "h") 100);
    try discriminate; reflexivity.
Defined.

(** One value set over two cookies. *)
Lemma set_replaces_witness :
  let h := set asciiToLowerCase (drawn 2) (lit "SET-COOKIE") (lit "c=3") twoCookies in
  getAll asciiToLowerCase twoCookies (lit "set-cookie") = [lit "a=1"; lit "b=2"] /\
  getAll asciiToLowerCase h (lit "set-cookie") = [lit "c=3"] /\
  get asciiToLowerCase h (lit "set-cookie") = Some (lit "c=3").
Proof.
  cbv zeta. split; [vm_compute; reflexivity|].
  assert (F : ~ In (uniqueKey (lit "SET-COOKIE") (drawn 2)) (map_keys (headers twoCookies))).
  { vm_compute. intuition discriminate. }
  destruct (set_replaces asciiToLowerCase (drawn 2) (lit "SET-COOKIE") (lit "c=3")
              twoCookies (lit "set-cookie") twoCookies_wf F) as (A & B & _).
  split; [exact A | exact B].
Defined.

(** A third cookie appended. *)
Lemma append_adds_last_witness :
  getAll asciiToLowerCase
    (append asciiToLowerCase (drawn 2) (lit "set-cookie") (lit "c=3") twoCookies)
    (lit "Set-Cookie")
  = [lit "a=1"; lit "b=2"; lit "c=3"].
Proof.
  assert (F : ~ In (uniqueKey (lit "set-cookie") (drawn 2)) (map_keys (headers twoCookies))).
  { vm_compute. intuition discriminate. }
  destruct (append_adds_last asciiToLowerCase (drawn 2) (lit "set-cookie") (lit "c=3")
              twoCookies (lit "Set-Cookie") twoCookies_wf F) as (A & _).
  exact A.
Defined.

(** Host deleted from Host and Accept. *)
Lemma delete_removes_witness :
  let r := delete asciiToLowerCase (lit "HOST") hostAccept in
  snd r = true /\
  get asciiToLowerCase (fst r) (lit "host") = None /\
  get asciiToLowerCase (fst r) (lit "accept") = Some (lit "text/html").
Proof.
  cbv zeta.
  destruct (delete_removes asciiToLowerCase (lit "HOST") hostAccept (lit "host")
              hostAccept_wf) as (A & _ & _ & B).
  destruct (delete_removes asciiToLowerCase (lit "HOST") hostAccept (lit "accept")
              hostAccept_wf) as (_ & _ & _ & C).
  split; [exact A|]. split; [exact B | exact C].
Defined.

(** The same two entries in both orders. *)
Lemma equals_ignores_order_witness :
  toArray hostAccept <> toArray acceptHost /\
  equals asciiToLowerCase hostAccept acceptHost = true /\
  equals asciiToLowerCase acceptHost hostAccept = true.
Proof.
  split; [vm_compute; discriminate|].
  assert (P : Permutation (toArray hostAccept) (toArray acceptHost)).
  { vm_compute. apply perm_swap. }
  destruct (equals_ignores_order asciiToLowerCase hostAccept acceptHost
              hostAccept_wf acceptHost_wf P) as (A & B & _).
  split; [exact A | exact B].
Defined.

Lemma twoCookies_keys : NoDup (drawnKeys drawn (toArray twoCookies) 0).
Proof. vm_compute. repeat constructor; simpl; intuition discriminate. Qed.

(** A container constructed from two cookies. *)
Lemma construct_holds_entries_witness :
  let h := construct asciiToLowerCase drawn (Some (toArray twoCookies)) in
  toArray h = toArray twoCookies /\
  getAll asciiToLowerCase h (lit "SET-COOKIE") = [lit "a=1"; lit "b=2"].
Proof.
  cbv zeta.
  destruct (construct_holds_entries asciiToLowerCase drawn (toArray twoCookies)
              (lit "SET-COOKIE") twoCookies_keys) as (_ & A & B & _).
  split; [exact A | exact B].
Defined.

(** A clone of two cookies. *)
Lemma clone_equals_witness :
  let c := clone asciiToLowerCase drawn twoCookies in
  toArray c = toArray twoCookies /\
  equals asciiToLowerCase twoCookies c = true /\ equals asciiToLowerCase c twoCookies = true.
Proof.
  exact (clone_equals asciiToLowerCase drawn twoCookies twoCookies_wf twoCookies_keys).
Defined.

(** The record of two cookies. *)
Lemma toObject_agrees_with_get_witness :
  map_get (toObject twoCookies) (lit "set-cookie") = Some (lit "a=1, b=2") /\
  get asciiToLowerCase twoCookies (lit "Set-Cookie") = Some (lit "a=1, b=2").
Proof.
  assert (N : asciiToLowerCase (lit "Set-Cookie") <> lit "__proto__")
    by (vm_compute; discriminate).
  pose proof (toObject_agrees_with_get asciiToLowerCase twoCookies (lit "Set-Cookie")
                twoCookies_wf N) as E.
  split; [vm_compute; reflexivity|]. rewrite <- E. vm_compute. reflexivity.
Defined.

(** Two keys of a record that differ in case only. *)
Lemma headersFromObject_last_wins_witness :
  let pairs := [(lit "Accept", lit "text/html"); (lit "accept", lit "*/*")] in
  get asciiToLowerCase (headersFromObject asciiToLowerCase drawn pairs) (lit "ACCEPT")
  = Some (lit "*/*").
Proof.
  cbv zeta.
  assert (K : NoDup (drawnKeys drawn
                       (map headerOf [(lit "Accept", lit "text/html");
                                      (lit "accept", lit "*/*")]) 0)).
  { vm_compute. repeat constructor; simpl; intuition discriminate. }
  destruct (headersFromObject_last_wins asciiToLowerCase drawn
              [(lit "Accept", lit "text/html"); (lit "accept", lit "*/*")]
              (lit "ACCEPT") K) as (_ & A).
  exact A.
Defined.

(** Two header lines. *)
Lemma parseHeaders_entries_tidy_witness :
  let text := lit "Host: example.com" ++ [13; 10]%N ++ lit "Accept:  text/html " in
  parseHeaders text = Some hostAccept /\
  forall hd, In hd (toArray hostAccept) -> tidy hd.
Proof.
  cbv zeta.
  assert (E : Headers.parseHeaders asciiToLowerCase drawn
                (lit "Host: example.com" ++ [13; 10]%N ++ lit "Accept:  text/html ")
                256 8192 = Some hostAccept) by (vm_compute; reflexivity).
  split; [exact E|].
  destruct (parseHeaders_entries_tidy asciiToLowerCase drawn _ 256 8192 hostAccept E)
    as (_ & A).
  intros hd I. apply (A hd I).
Defined.

(** The loop over one request of 37 bytes. *)
Lemma parse_loop_is_bounded_witness :
  parseLoop asciiToLowerCase drawn 151 (appendBuffer hostRequest fresh) []
  = Some (parse hostRequest fresh).
Proof.
  apply (parse_loop_is_bounded asciiToLowerCase drawn 151 hostRequest fresh).
  vm_compute. repeat constructor.
Defined.

Lemma fresh_coherent : coherent asciiToLowerCase fresh.
Proof. reflexivity. Qed.

Lemma hostRequest_emitted :
  exists m, snd (parse hostRequest fresh) = [Some m].
Proof. vm_compute. eexists. reflexivity. Qed.

(** The request [hostRequest] through a new parser. *)
Lemma emitted_start_line_is_validated_witness :
  coherent asciiToLowerCase fresh /\
  coherent asciiToLowerCase (fst (parse hostRequest fresh)) /\
  exists m, snd (parse hostRequest fresh) = [Some m] /\
            m_type m = REQUEST /\
            exists l, m_startLine m = RequestStart (Some l) /\
                      Request.validateRequestLine l = true.
Proof.
  split; [exact fresh_coherent|].
  destruct hostRequest_emitted as (m & E).
  assert (I : In (Some m) (snd (parse hostRequest fresh))) by (rewrite E; left; reflexivity).
  destruct (emitted_start_line_is_validated asciiToLowerCase drawn hostRequest fresh
              (Some m) fresh_coherent I) as (C & m' & E' & _ & V).
  split; [exact C|]. exists m. split; [exact E|].
  injection E' as <-.
  assert (T : m_type m = REQUEST).
  { revert E. vm_compute. intros [= <-]. reflexivity. }
  split; [exact T|]. rewrite T in V. clear E I C T.
  destruct (m_startLine m) as [[l|]|]; [|destruct V..].
  exists l. split; [reflexivity | exact V].
Defined.

(** A request that asks to close the connection. *)
Lemma emitted_keepAlive_follows_rule_witness :
  let data := blit "GET / HTTP/1.1" ++ CRLF ++ blit "Connection: Close" ++ CRLF ++ CRLF in
  exists m hs, snd (parse data fresh) = [Some m] /\ m_headers m = Some hs /\
               byConnection asciiToLowerCase hs = false /\ m_keepAlive m = false.
Proof.
  cbv zeta.
  assert (E : exists m, snd (parse (blit "GET / HTTP/1.1" ++ CRLF
                                    ++ blit "Connection: Close" ++ CRLF ++ CRLF) fresh)
                        = [Some m] /\ m_keepAlive m = false /\
                        exists l, m_startLine m = RequestStart l).
  { vm_compute. eexists. split; [reflexivity|]. split; [reflexivity|].
    eexists. reflexivity. }
  destruct E as (m & E & K & l & L).
  destruct (emitted_keepAlive_follows_rule asciiToLowerCase drawn
              (blit "GET / HTTP/1.1" ++ CRLF ++ blit "Connection: Close" ++ CRLF ++ CRLF)
              fresh m fresh_coherent) as (hs & H & R).
  { rewrite E. left. reflexivity. }
  exists m, hs. split; [exact E|]. split; [exact H|]. split; [|exact K].
  rewrite K, L in R. symmetry. exact R.
Defined.

(** The headers of [hostRequest]. *)
Lemma emitted_headers_are_validated_witness :
  exists m hs, snd (parse hostRequest fresh) = [Some m] /\ m_headers m = Some hs /\
               headersValid DEFAULT_OPTIONS hs = true /\
               forall hd, In hd (toArray hs) -> tidy hd.
Proof.
  destruct hostRequest_emitted as (m & E).
  destruct (emitted_headers_are_validated asciiToLowerCase drawn hostRequest fresh m
              fresh_coherent) as (hs & H & V & _ & T).
  { rewrite E. left. reflexivity. }
  exists m, hs. auto.
Defined.

(** The line [GET /index.html HTTP/1.1] before a header. *)
Lemma formatRequestLine_parseRequestLine_witness :
  let rl := {| method := lit "GET"; target := lit "/index.html"; version := HTTP_1_1 |} in
  let data := Request.formatRequestLine rl ++ blit "Host: a" ++ CRLF ++ CRLF in
  Request.formatRequestLine rl = blit "GET /index.html HTTP/1.1" ++ CRLF /\
  Request.requestLine (Request.parseRequestLine data 0 (length data)) = Some rl /\
  Request.bytesConsumed (Request.parseRequestLine data 0 (length data)) = 26.
Proof.
  cbv zeta. split; [vm_compute; reflexivity|].
  pose proof (formatRequestLine_parseRequestLine
                {| method := lit "GET"; target := lit "/index.html"; version := HTTP_1_1 |}
                (blit "Host: a" ++ CRLF ++ CRLF) eq_refl eq_refl eq_refl) as E.
  cbv zeta in E. rewrite E. split; reflexivity.
Defined.

(** A POST with one header and a body of two bytes. *)
Lemma createRequest_parse_witness :
  let data := createRequest (lit "POST") (lit "/submit") [(lit "Host", lit "example.com")]
                (Some (blit "hi")) in
  data = blit "POST /submit HTTP/1.1" ++ CRLF ++ blit "Host: example.com" ++ CRLF
         ++ blit "Content-Length: 2" ++ CRLF ++ CRLF ++ blit "hi" /\
  exists p' m,
    parse data fresh = (p', [Some m]) /\ state p' = IDLE /\ getBufferedBytes p' = 0%Z /\
    requestRead m
      {| method := lit "POST"; target := lit "/submit"; version := HTTP_1_1 |}
      [ {| name := lit "Host"; value := lit "example.com" |};
        {| name := lit "Content-Length"; value := lit "2" |} ]
      (blit "hi").
Proof.
  cbv zeta. split; [vm_compute; reflexivity|].
  apply (createRequest_parse asciiToLowerCase drawn (fun s _ => eq_refl) fresh
           (lit "POST") (lit "/submit") [(lit "Host", lit "example.com")]
           (Some (blit "hi"))); try reflexivity.
  - intros pair [<-|[]]. split; try reflexivity; try discriminate.
    split; discriminate.
  - intros hd I. vm_compute in I. destruct I as [<-|[<-|[]]]; vm_compute; discriminate.
  - vm_compute. discriminate.
  - vm_compute. discriminate.
  - vm_compute. repeat constructor; simpl; intuition discriminate.
Defined.

(** The line [HTTP/1.1 404 Not Found] before a header. *)
Lemma parseStatusLine_reads_witness :
  let data := blit "HTTP/1.1 404 Not Found" ++ CRLF ++ blit "Server: x" ++ CRLF ++ CRLF in
  Response.parseStatusLine data 0 (length data) =
  {| Response.statusLine :=
       Some {| sl_version := HTTP_1_1; statusCode := Integer false 404;
               statusText := lit "Not Found" |};
     Response.bytesConsumed := 24;
     Response.needsMoreData := false;
     Response.error := None |}.
Proof.
  assert (R : (100 <= decimal (lit "404") <= 999)%N) by (vm_compute; split; discriminate).
  exact (parseStatusLine_reads HTTP_1_1 (lit "404") (lit "Not Found")
           (blit "Server: x" ++ CRLF ++ CRLF)
           eq_refl ltac:(discriminate) eq_refl R eq_refl eq_refl).
Defined.

(** Two chunks after the headers of a POST. *)
Lemma chunked_body_is_reassembled_witness :
  let head := blit "POST /upload HTTP/1.1" ++ CRLF ++ blit "Transfer-Encoding: chunked"
              ++ CRLF ++ CRLF in
  let p := fst (parse head fresh) in
  let chunks := [(lit "5", blit "Hello"); (lit "B", blit " big world.")] in
  state p = BODY_CHUNKED_SIZE /\
  chunkedBody chunks = blit "5" ++ CRLF ++ blit "Hello" ++ CRLF ++ blit "B" ++ CRLF
                       ++ blit " big world." ++ CRLF ++ blit "0" ++ CRLF ++ CRLF /\
  exists p' m,
    parse (chunkedBody chunks) p = (p', [Some m]) /\
    m_body m = blit "Hello big world." /\ state p' = IDLE /\ getBufferedBytes p' = 0%Z.
Proof.
  cbv zeta. split; [vm_compute; reflexivity|]. split; [vm_compute; reflexivity|].
  apply (chunked_body_is_reassembled asciiToLowerCase drawn).
  - vm_compute. reflexivity.
  - vm_compute. reflexivity.
  - vm_compute. reflexivity.
  - vm_compute. discriminate.
  - vm_compute. discriminate.
  - assert (O : maxBodySize
                  (options (fst (parse (blit "POST /upload HTTP/1.1" ++ CRLF
                                        ++ blit "Transfer-Encoding: chunked"
                                        ++ CRLF ++ CRLF) fresh)))
                = maxBodySize DEFAULT_OPTIONS) by (vm_compute; reflexivity).
    rewrite O.
    intros chunk [<-|[<-|[]]]; split; vm_compute; (reflexivity || discriminate).
Defined.

End Examples.
